(* ===== verification/_CoqProject ===== *)
-Q . S2P
Prelude.v
Types.v
Timer.v
TimerProofs.v
TimerSpec.v
ByteOrder.v
Hash.v
Lists.v
Hashtable.v
Vectored.v
World.v
Engine.v
Conn.v
Messages.v
Stream.v
Mux.v
Sample.v
Adapter.v
Life.v
LifeSim.v
LifeEntry.v
LifeSpec.v
Deadlines.v
Wire.v
Sending.v
Ident.v
Reject.v
Shape.v
Steps.v
Calm.v
Wf.v
Listed.v
Closing.v
Safe.v
SafeCalls.v
SafeLoops.v
SafeSpec.v
Destroy.v
Alarm.v
AlarmStep.v
AlarmFrame.v
AlarmMend.v
AlarmStream.v
AlarmClose.v
AlarmCalls.v
AlarmInput.v
AlarmLoops.v
AlarmSpec.v
Keeps.v
Typing.v
TypingRules.v
TypingCalls.v
TypingStream.v
TypingMux.v
TypingSpec.v
Sight.v
Firing.v
RetriesSpec.v
Drain.v
DrainSpec.v
