(* ===== verification/Prelude.v ===== *)
(** * kcp-mux: a verification development

    kcp-mux (src/src, src/include/kcpmux) multiplexes KCP streams over
    connections over one UDP socket of a host program.  The library owns no
    thread and no socket: the host calls it (create, connect, send, receive,
    close, input of a packet, update on a timer) and it calls the host back
    (clock, socket, timer, notifications).  The interesting part is what
    happens to connections and streams across those calls: they are closed by
    either side, by timeouts or by errors, at any point of a call chain, and
    their memory must be released exactly when nothing refers to it any more.

    ** Parts and files

    - [Prelude]: fixed-width integers, record update, the state monad with
      undefined behaviour [M], its total ([wp]) and partial ([wlp]) rules,
      lists from which one element is unlinked.
    - [Types]: include/kcpmux/kcpmux_types.h and the constants of
      src/kcpmux_protocol.h; preparation and validation of configurations
      (src/kcpmux_engine.c).
    - [Timer], [TimerProofs], [TimerSpec]: src/kcpmux_timer.c, the indexed
      binary heap of deadlines; its invariant [timers_ok]; its refinement of a
      finite map from objects to deadlines.
    - [ByteOrder]: the accessors of src/kcpmux_protocol.c, lines 9-52.
    - [Hash]: src/internal/kcpmux_hash.c, MurmurHash3 x86_32.
    - [Lists]: src/internal/kcpmux_list.h on a memory of pointers, refined by
      sequences; every other file uses the sequences.
    - [Hashtable]: src/internal/kcpmux_hashtable.c, the chained table, refined
      by a finite map.
    - [Vectored]: the cursor over the fragments of [kcpmux_stream_sendv].
    - [World]: the state.  [engine], [conn] and [stream] have the fields of
      [struct kcpmux_engine_s], [kcpmux_conn_s] and [kcpmux_stream_s]
      (src/kcpmux_engine.h, kcpmux_conn.h, kcpmux_stream.h); pointers to
      objects are addresses ([positive]) into [w_conns] and [w_streams], so an
      access to freed memory is a failed lookup; [w_timers] is the timer
      manager.  [Host] and [Kcp] are the two environments, [trace] is what was
      said to and by the host.
    - [Engine]: src/kcpmux_engine.c without its entry points.
    - [Conn]: src/kcpmux_conn.c; [Messages]: the encoders of
      src/kcpmux_protocol.c and the senders of both files; [Stream]:
      src/kcpmux_stream.c.
    - [Mux]: what calls across the three: closing of connections with its
      cascade, the timer handlers, dispatch of received packets
      ([kcpmux_protocol_input]), and create, destroy, update, input and
      finish_batch of the engine.
    - [Sample]: a concrete host and KCP and worlds reached by real calls, on
      which the witnesses are evaluated.
    - [Adapter]: src/kcpmux_kcp.c and the table [kcpmux_kcp_ops_t], turned
      into an instance of [Kcp]; ikcp is the class [Ikcp] with its laws.
    - [Life], [LifeSim], [LifeEntry], [LifeSpec]: the life-cycle machine of
      handles, the simulation, the inductive [call] of all public functions
      with its interpreter [exec], and what the simulation gives to users.
    - [Deadlines]: connection timeouts, the host's timer, the reservation of
      timer capacity.
    - [Wire], [Reject]: the protocol between two peers, and what refused
      packets do.
    - [Sending]: vectored against contiguous sends.
    - [Ident]: stream identifiers.
    - [Shape], [Steps], [Calm]: the shape of a state (which objects are alive,
      closed, linked, registered, waiting for release) and the functions that
      leave it alone; [Wf], [Listed]: its invariant; [Closing], [Safe],
      [SafeCalls], [SafeLoops]: the functions that open, close and release,
      the handlers, the entry points and the loops; [SafeSpec], [Destroy]: the
      guarantees.
    - [Alarm]: what a connection or stream waits for, as a demand on its timer
      node read off its fields, and the description of a moment inside a call
      (which objects changed and are not yet rescheduled); [AlarmStep],
      [AlarmFrame], [AlarmMend], [AlarmStream], [AlarmClose], [AlarmCalls],
      [AlarmInput], [AlarmLoops]: what each function does to it; [AlarmSpec]:
      at the end of every call every demand is met.
    - [Keeps]: the rules of preservation of a property of the state, shared by
      the two groups below.
    - [Typing]: the C types of the fields of every structure, and [datagram],
      the messages of docs/protocol.md as an inductive grammar;
      [TypingRules], [TypingCalls], [TypingStream], [TypingMux]: every function
      keeps to them; [TypingSpec]: so does every session.
    - [Sight]: what the functions an update runs leave alone of the objects
      they do not work on; [Firing]: an update gives every object whose time
      has come its turn; [RetriesSpec]: the retries of a connection's handshake
      or close are counted and run out; [Drain], [DrainSpec]: the close of a
      stream moves on through its phases and ends.

    A C function [f] is the Rocq definition [f]; a C function that dereferences
    pointers, calls the host or changes state is a computation of the monad [W]
    and its early returns are [if]s in the order of the code.  Names without a
    C counterpart are parts of a long function (for instance [input_connect]
    and the other cases of the [switch] of [kcpmux_protocol_input]) or a C
    idiom ([malloc_conn], [batch_unlink]); the comment at each says which.
    Integers are [Z] and every store into an unsigned field is reduced by
    [u8]..[u64].

    ** Theorems

    - Memory safety ([SafeSpec], [Destroy]): no call of the public interface
      crashes, hangs or leaks, whatever packet arrives; connections, streams
      and tables agree after every call; closing a connection closes, unlinks
      and releases each of its streams; [kcpmux_engine_destroy] releases
      everything.  Hypotheses: handles passed by the host are alive
      ([call_ok]); the extension that [conn_connect_notify] leaves has a
      nonnegative length and its buffer's size, and the configurations it sets
      have a segment size in range ([host_ok]).
    - The life of handles ([LifeSpec]): every public call performs only steps
      of the abstract machine of [Life]; hence identity is kept, nothing
      reopens, released handles stay dead, identifiers of connections are
      distinct, close phases agree with states.  For every host, KCP and
      sequence of calls.
    - The protocol ([Wire], [Reject], [Ident]): what one side encodes the other
      decodes and dispatches to the object named; bad packets change nothing;
      identifiers are fresh and ordered across wrap-around.
    - Time ([AlarmSpec], [Deadlines], [TimerSpec], [Timer]): after any sequence
      of calls the timer of every connection is armed for the earliest timeout
      of its configuration, that of every stream for what its close phase waits
      for, and the host's one-shot for the earliest of them all; the deadline
      of a connection is exact, arming never needs memory, and the heap is a
      priority queue.
    - Ends ([RetriesSpec], [DrainSpec]): a handshake or close that is not
      answered is given up after the configured number of retries; a stream
      whose peer is silent, or whose reader does not read, is closed after a
      bounded number of expired timeouts.
    - Types ([TypingSpec]): every stored value is in the range of its C type
      after any sequence of calls, and every datagram handed to the socket is a
      message of the grammar.  Hypotheses: the host and KCP keep to their
      prototypes ([HostTyped], [KcpTyped]: an [int64_t] clock, bytes in
      buffers), and so do the arguments of the calls ([call_typed]).
    - Sending ([Sending], [Vectored], [Adapter]): a vectored send is the
      contiguous send of the same bytes; the packets of the default KCP fit.
    - The data structures ([Hashtable], [Lists], [ByteOrder], [Hash]).

    ** Bounds

    Loops that are not structural take fuel from the state they run on, and
    running out of it is undefined behaviour ([ub]), so a theorem that a
    computation returns includes that the fuel suffices: the heap loops take
    the index or the size of the heap, [kcpmux_timer_collect_due] its size plus
    one, [reserve_grow] 64 doublings of a [size_t], the release, dispatch,
    finish-batch and destroy loops the length of the list they empty, the
    search for a stream identifier the [stream_count + 1] rounds of the code.

    ** Not modelled

    - The vendored KCP (third_party/kcp/ikcp.c): third-party code; the class
      [Ikcp] stands for it, [Kcp] for any implementation.
    - Callbacks that reenter the library, which include/kcpmux forbids: the
      two creation callbacks may call setters, the others only return.
    - Calls on a handle that is dead: the C program dereferences freed memory,
      the model is stuck; the theorems about whole sessions exclude it.
    - The demo programs: host code.
    - The NULL checks of engine arguments; there is one engine.
    - Logging, which has no effect on the state.
    - The byte order of the machine is little-endian where a key is hashed as
      the bytes of an integer ([object_bytes]). *)

From Stdlib Require Export ZArith Lia.
From stdpp Require Export base tactics option list gmap fin_maps numbers.

#[export] Set Warnings "-clear-no-such-hyp".

(** ** Fixed-width integers

    C integers are kept as [Z]; every store into an unsigned field of width
    [w] goes through the corresponding reduction. *)

Declare Scope kcpmux_scope.
Delimit Scope kcpmux_scope with mux.
#[global] Open Scope Z_scope.

Definition wrap (w z : Z) : Z := z mod 2 ^ w.

Abbreviation u8 := (wrap 8).
Abbreviation u16 := (wrap 16).
Abbreviation u32 := (wrap 32).
Abbreviation u64 := (wrap 64).

(** Conversion of a 32-bit pattern to [int] (two's complement). *)
Definition s32 (z : Z) : Z :=
  let r := u32 z in if r <? 2 ^ 31 then r else r - 2 ^ 32.

Definition INT_MAX : Z := 2 ^ 31 - 1.
Definition INT64_MAX : Z := 2 ^ 63 - 1.
Definition INT64_MIN : Z := - 2 ^ 63.
Definition UINT64_MAX : Z := 2 ^ 64 - 1.
Definition SIZE_MAX : Z := 2 ^ 64 - 1.

Definition in_u (w z : Z) : Prop := 0 <= z < 2 ^ w.
Definition in_i64 (z : Z) : Prop := INT64_MIN <= z <= INT64_MAX.

Lemma wrap_range w z : 0 <= w -> in_u w (wrap w z).
Proof. intros. apply Z.mod_pos_bound. by apply Z.pow_pos_nonneg. Qed.

Lemma wrap_small w z : in_u w z -> wrap w z = z.
Proof. apply Z.mod_small. Qed.

Lemma wrap_wrap w z : 0 <= w -> wrap w (wrap w z) = wrap w z.
Proof. intros. by apply wrap_small, wrap_range. Qed.

Lemma wrap_add_l w a b : wrap w (wrap w a + b) = wrap w (a + b).
Proof. apply Zplus_mod_idemp_l. Qed.

Lemma wrap_sub_idemp w a b : wrap w (wrap w a - wrap w b) = wrap w (a - b).
Proof. unfold wrap. by rewrite <- Zminus_mod. Qed.

(** ** Record update

    [r <| f := v |>] replaces field [f] of the record [r].  A record takes
    part by giving its eta expansion as an instance of [Eta]; the updater of
    a field is then computed from that expansion. *)

Class Eta (R : Type) := eta_expand : R -> R.

Class Upd {R F : Type} (proj : R -> F) := upd : (F -> F) -> R -> R.
Arguments upd {R F} proj {_} _ _ / : assert.

Ltac derive_upd R proj :=
  let f := fresh "f" in
  let r := fresh "r" in
  intros f r;
  let inst := constr:(_ : Eta R) in
  let inst' := eval hnf in inst in
  let body := eval cbv beta in (inst' r) in
  let abs := eval pattern (proj r) in body in
  lazymatch abs with
  | ?g _ =>
      let res := eval cbv beta in (g (f (proj r))) in
      exact res
  end.

#[export] Hint Extern 1 (@Upd ?R _ ?proj) => derive_upd R proj : typeclass_instances.

Notation "r <| f := v |>" := (upd f (fun _ => v) r)
  (at level 1, left associativity, f at next level,
   format "r  <| f  :=  v |>") : kcpmux_scope.
Notation "r <| f ::= g |>" := (upd f g r)
  (at level 1, left associativity, f at next level,
   format "r  <| f  ::=  g |>") : kcpmux_scope.
#[global] Open Scope kcpmux_scope.

(** ** State with undefined behaviour

    A C function that reads and writes the state [S] is a function
    [S -> option (A * S)].  [None] is a stuck execution: a dereference of a
    pointer that is NULL or to an object already freed, an array access out
    of bounds, or a loop that exhausts its iteration bound.  A theorem that
    the result is [Some _] therefore rules all of these out. *)

Definition M (S A : Type) : Type := S -> option (A * S).

#[export] Instance M_ret S : MRet (M S) := fun A a s => Some (a, s).
#[export] Instance M_bind S : MBind (M S) := fun A B f m s =>
  match m s with
  | Some (a, s') => f a s'
  | None => None
  end.

Definition ub {S A} : M S A := fun _ => None.
Definition get {S} : M S S := fun s => Some (s, s).
Definition gets {S A} (f : S -> A) : M S A := fun s => Some (f s, s).
Definition modify {S} (f : S -> S) : M S unit := fun s => Some (tt, f s).

(** Dereference: a missing value is undefined behaviour. *)
Definition deref {S A} (f : S -> option A) : M S A := fun s =>
  match f s with
  | Some a => Some (a, s)
  | None => None
  end.

Definition when {S} (b : bool) (m : M S unit) : M S unit :=
  if b then m else mret tt.

(** Run a computation on a component of the state. *)
Definition zoom {S T A} (prj : S -> T) (put : T -> S -> S) (m : M T A) : M S A :=
  fun s =>
    match m (prj s) with
    | Some (a, t) => Some (a, put t s)
    | None => None
    end.

Fixpoint for_each {S A} (f : A -> M S unit) (l : list A) : M S unit :=
  match l with
  | [] => mret tt
  | x :: l' => f x;; for_each f l'
  end.

(** Total correctness: [m] runs to completion from [s] and its result and
    final state satisfy [Q]. *)
Definition wp {S A} (m : M S A) (Q : A -> S -> Prop) (s : S) : Prop :=
  match m s with
  | Some (a, s') => Q a s'
  | None => False
  end.

Section wp_rules.
Context {S A B : Type}.
Implicit Types (m : M S A) (s : S).

Lemma wp_bind m (f : A -> M S B) Q s :
  wp (m ≫= f) Q s <-> wp m (fun a s' => wp (f a) Q s') s.
Proof. unfold wp, mbind, M_bind. destruct (m s) as [[??]|]; done. Qed.

Lemma wp_ret (a : A) Q s : wp (mret a) Q s <-> Q a s.
Proof. done. Qed.

Lemma wp_mono m (P Q : A -> S -> Prop) s :
  (forall a s', P a s' -> Q a s') -> wp m P s -> wp m Q s.
Proof. unfold wp. destruct (m s) as [[??]|]; auto. Qed.

Lemma wp_and m (P Q : A -> S -> Prop) s :
  wp m P s -> wp m Q s -> wp m (fun a s' => P a s' /\ Q a s') s.
Proof. unfold wp. destruct (m s) as [[??]|]; auto. Qed.

Lemma wp_some m Q s :
  wp m Q s <-> exists a s', m s = Some (a, s') /\ Q a s'.
Proof.
  unfold wp. destruct (m s) as [[a s']|]; [|by split; [|intros (?&?&?&?)]].
  split; [by eauto|]. intros (?&?&[= <- <-]&?). done.
Qed.

Lemma wp_get (Q : S -> S -> Prop) s : wp get Q s <-> Q s s.
Proof. done. Qed.

Lemma wp_gets (f : S -> A) Q s : wp (gets f) Q s <-> Q (f s) s.
Proof. done. Qed.

Lemma wp_modify (f : S -> S) (Q : unit -> S -> Prop) s :
  wp (modify f) Q s <-> Q tt (f s).
Proof. done. Qed.

Lemma wp_deref (f : S -> option A) Q s a :
  f s = Some a -> wp (deref f) Q s <-> Q a s.
Proof. unfold wp, deref. by intros ->. Qed.

Lemma wp_when b (m : M S unit) Q s :
  wp (when b m) Q s <-> if b then wp m Q s else Q tt s.
Proof. by destruct b. Qed.

Lemma wp_zoom {T} (prj : S -> T) put (m : M T A) Q s :
  wp (zoom prj put m) Q s <-> wp m (fun a t => Q a (put t s)) (prj s).
Proof. unfold wp, zoom. destruct (m (prj s)) as [[??]|]; done. Qed.
End wp_rules.

(** ** Equations of computations *)

Section bind_equations.
Context {S A B C : Type}.
Implicit Types (m : M S A) (s : S).

Lemma bind_ext m (f g : A -> M S B) s :
  (forall a s', f a s' = g a s') -> (m ≫= f) s = (m ≫= g) s.
Proof. intros H. unfold mbind, M_bind. destruct (m s) as [[a s']|]; [apply H|done]. Qed.

Lemma bind_assoc m (f : A -> M S B) (g : B -> M S C) s :
  ((m ≫= f) ≫= g) s = (m ≫= (fun a => f a ≫= g)) s.
Proof. unfold mbind, M_bind. by destruct (m s) as [[a s']|]. Qed.

Lemma bind_some m (f : A -> M S B) s a s' : m s = Some (a, s') -> (m ≫= f) s = f a s'.
Proof. unfold mbind, M_bind. by intros ->. Qed.

Lemma bind_deref (f : S -> option A) (g : A -> M S B) s a :
  f s = Some a -> (deref f ≫= g) s = g a s.
Proof. unfold deref, mbind, M_bind. by intros ->. Qed.
End bind_equations.

(** A loop body that maintains [I] on every element leaves [I] behind. *)
Lemma wp_for_each {S A} (f : A -> M S unit) (I : S -> Prop) l s :
  (forall x s', x ∈ l -> I s' -> wp (f x) (fun _ => I) s') ->
  I s -> wp (for_each f l) (fun _ => I) s.
Proof.
  revert s. induction l as [|x l IH]; intros s Hf HI; simpl; [done|].
  apply wp_bind. eapply wp_mono; [|apply Hf; [set_solver|done]].
  intros ? s' HI'. apply IH; [|done]. intros. apply Hf; set_solver.
Qed.

(** ** Partial correctness

    What holds of the result if the computation does not get stuck; used where
    a statement quantifies over complete executions. *)

Definition wlp {S A} (m : M S A) (Q : A -> S -> Prop) (s : S) : Prop :=
  forall a s', m s = Some (a, s') -> Q a s'.

Section wlp_rules.
Context {S A B : Type}.
Implicit Types (m : M S A) (s : S).

Lemma wlp_eq m m' Q s : (forall s, m s = m' s) -> wlp m' Q s -> wlp m Q s.
Proof. unfold wlp. intros He H a s'. rewrite He. apply H. Qed.

Lemma wlp_bind m (f : A -> M S B) Q s :
  wlp m (fun a s' => wlp (f a) Q s') s -> wlp (m ≫= f) Q s.
Proof.
  unfold wlp, mbind, M_bind. intros H b s''.
  destruct (m s) as [[a s']|] eqn:E; [|done]. by apply H.
Qed.

Lemma wlp_ret (a : A) (Q : A -> S -> Prop) s : Q a s -> wlp (mret a) Q s.
Proof. by intros ? ? ? [= <- <-]. Qed.

Lemma wlp_mono m (P Q : A -> S -> Prop) s :
  wlp m P s -> (forall a s', P a s' -> Q a s') -> wlp m Q s.
Proof. unfold wlp. eauto. Qed.

Lemma wlp_ub (Q : A -> S -> Prop) s : wlp ub Q s.
Proof. done. Qed.

Lemma wlp_gets (f : S -> A) (Q : A -> S -> Prop) s : Q (f s) s -> wlp (gets f) Q s.
Proof. by intros ? ? ? [= <- <-]. Qed.

Lemma wlp_deref (f : S -> option A) (Q : A -> S -> Prop) s :
  (forall a, f s = Some a -> Q a s) -> wlp (deref f) Q s.
Proof. unfold wlp, deref. intros H a s'. destruct (f s); [|done]. intros [= <- <-]. auto. Qed.

Lemma wlp_modify (f : S -> S) (Q : unit -> S -> Prop) s : Q tt (f s) -> wlp (modify f) Q s.
Proof. by intros ? ? ? [= <- <-]. Qed.

Lemma wlp_when b (m : M S unit) Q s :
  (b = true -> wlp m Q s) -> (b = false -> Q tt s) -> wlp (when b m) Q s.
Proof. destruct b; cbn; [auto|]. intros _ H ? ? [= <- <-]. auto. Qed.

(** A total triple is a partial one. *)
Lemma wlp_wp m Q s : wp m Q s -> wlp m Q s.
Proof. unfold wp, wlp. intros H a s' Hm. by rewrite Hm in H. Qed.

Lemma wlp_and m (P Q : A -> S -> Prop) s :
  wlp m P s -> wlp m Q s -> wlp m (fun a s' => P a s' /\ Q a s') s.
Proof. unfold wlp. auto. Qed.
End wlp_rules.

Lemma wlp_for_each {S B} (f : B -> M S unit) (I : S -> Prop) l s :
  I s -> (forall x s', x ∈ l -> I s' -> wlp (f x) (fun _ => I) s') ->
  wlp (for_each f l) (fun _ => I) s.
Proof.
  revert s. induction l as [|x l IH]; intros s HI Hf; cbn; [by apply wlp_ret|].
  apply wlp_bind. eapply wlp_mono; [apply Hf; [set_solver|done]|].
  intros ? s' HI'. apply IH; [done|]. intros. apply Hf; set_solver.
Qed.

(** ** Removing one element from a list

    [filter (fun y => y <> x)] is how unlinking an object from an intrusive
    list appears in the model. *)

Section filter_ne.
Context {A : Type} `{EqDecision A}.
Implicit Types (l : list A) (x y : A).

Lemma filter_ne_elem l x y : y ∈ filter (fun z => z <> x) l <-> y <> x /\ y ∈ l.
Proof. by rewrite list_elem_of_filter. Qed.

Lemma filter_ne_id l x : x ∉ l -> filter (fun z => z <> x) l = l.
Proof.
  intros Hx. induction l as [|a l IH]; [done|].
  rewrite filter_cons_True by set_solver. rewrite IH by set_solver. done.
Qed.

Lemma filter_ne_perm l x : NoDup l -> x ∈ l -> l ≡ₚ x :: filter (fun z => z <> x) l.
Proof.
  induction l as [|y l IH]; intros Hnd Hx; [by apply elem_of_nil in Hx|].
  apply list.NoDup_cons in Hnd as [Hy Hnd]. destruct (decide (y = x)) as [->|Hne].
  - rewrite filter_cons_False by auto. by rewrite filter_ne_id.
  - rewrite filter_cons_True by done.
    rewrite (IH Hnd) at 1 by set_solver. apply Permutation_swap.
Qed.

Lemma concat_filter_ne (ls : list (list A)) x :
  concat (filter (fun z => z <> x) <$> ls) = filter (fun z => z <> x) (concat ls).
Proof.
  induction ls as [|b ls IH]; [done|]. cbn. rewrite list.filter_app. f_equal. apply IH.
Qed.
End filter_ne.
