(* ===== verification/Types.v ===== *)
(** * Public types, constants and configuration of kcp-mux

    The constants, enumerations and plain structures of
    include/kcpmux/kcpmux_types.h and src/kcpmux_protocol.h, and the
    configuration functions of src/kcpmux_engine.c.  Addresses are the byte
    list the [addr]/[addrlen] pair denotes. *)

From S2P Require Import Prelude.

(** ** Protocol constants *)

Definition KCPMUX_VERSION : Z := 4.
Definition KCPMUX_ADDR_MAX_LEN : Z := 64.
Definition KCPMUX_PROTO_EXT_MAX_LEN : Z := 512.

(** ** Status codes *)

Definition KCPMUX_ERR_OK : Z := 0.
Definition KCPMUX_ERR_NOK : Z := 1.
Definition KCPMUX_ERR_OOM : Z := 8.
Definition KCPMUX_ERR_NOT_FOUND : Z := 10.
Definition KCPMUX_ERR_NETWORK : Z := 19.
Definition KCPMUX_ERR_INVALID_FORMAT : Z := 41.
Definition KCPMUX_ERR_INVALID_PARAM : Z := 42.
Definition KCPMUX_ERR_STATE : Z := 200.
Definition KCPMUX_ERR_CLOSED : Z := 201.
Definition KCPMUX_ERR_BUFFER_TOO_SMALL : Z := 202.
Definition KCPMUX_ERR_KCPRET (kcp_ret : Z) : Z := 300 - kcp_ret.

Definition KCPMUX_ACK_RESULT_OK : Z := 0x00.
Definition KCPMUX_ACK_RESULT_ERROR : Z := 0x01.
Definition KCPMUX_ACK_RESULT_VERSION : Z := 0x02.
Definition KCPMUX_ACK_RESULT_CUSTOM : Z := 0x10.

Definition KCPMUX_CLOSE_REASON_NORMAL : Z := 0x00.
Definition KCPMUX_CLOSE_REASON_ERROR : Z := 0x01.
Definition KCPMUX_CLOSE_REASON_VERSION : Z := 0x02.
Definition KCPMUX_CLOSE_REASON_REJECTED : Z := 0x03.
Definition KCPMUX_CLOSE_REASON_IDLE : Z := 0x04.
Definition KCPMUX_CLOSE_REASON_TIMEOUT : Z := 0x05.

(** ** Message types and wire lengths (src/kcpmux_protocol.h) *)

Definition KCPMUX_MSG_CONN_CONNECT : Z := 0x81.
Definition KCPMUX_MSG_CONN_CONNECT_ACK : Z := 0x82.
Definition KCPMUX_MSG_CONN_KEEPALIVE : Z := 0x83.
Definition KCPMUX_MSG_CONN_CLOSE : Z := 0x84.
Definition KCPMUX_MSG_CONN_CLOSE_ACK : Z := 0x85.
Definition KCPMUX_MSG_STREAM_CLOSE : Z := 0x93.
Definition KCPMUX_MSG_STREAM_CLOSE_ACK : Z := 0x94.
Definition KCPMUX_MSG_STREAM_PAYLOAD : Z := 0xa1.

Definition KCPMUX_PROTO_MSG_MAX_LEN : Z := 1500.
Definition KCPMUX_PROTO_COMMON_LEN : Z := 9.
Definition KCPMUX_PROTO_CONNECT_LEN : Z := KCPMUX_PROTO_COMMON_LEN + 11.
Definition KCPMUX_PROTO_CONNECT_ACK_LEN : Z := KCPMUX_PROTO_COMMON_LEN + 12.
Definition KCPMUX_PROTO_KEEPALIVE_LEN : Z := KCPMUX_PROTO_COMMON_LEN + 8.
Definition KCPMUX_PROTO_CONN_CLOSE_LEN : Z := KCPMUX_PROTO_COMMON_LEN + 1.
Definition KCPMUX_PROTO_STREAM_HEADER_LEN : Z := KCPMUX_PROTO_COMMON_LEN + 4.
Definition KCPMUX_PROTO_STREAM_CLOSE_LEN : Z := KCPMUX_PROTO_STREAM_HEADER_LEN + 1.

Definition KCPMUX_IKCP_OVERHEAD : Z := 24.

(** ** Connection and stream states *)

Inductive conn_state :=
| CONN_INIT | CONN_CONNECTING | CONN_CONNECTED
| CONN_CLOSING | CONN_CLOSED | CONN_ERROR.

#[export] Instance conn_state_eq : EqDecision conn_state.
Proof. solve_decision. Defined.

Definition conn_state_code (s : conn_state) : Z :=
  match s with
  | CONN_INIT => 0 | CONN_CONNECTING => 1 | CONN_CONNECTED => 2
  | CONN_CLOSING => 3 | CONN_CLOSED => 4 | CONN_ERROR => 5
  end.

Inductive stream_state :=
| STREAM_OPEN | STREAM_CLOSING | STREAM_CLOSED | STREAM_ERROR.

#[export] Instance stream_state_eq : EqDecision stream_state.
Proof. solve_decision. Defined.

Definition stream_state_code (s : stream_state) : Z :=
  match s with
  | STREAM_OPEN => 0 | STREAM_CLOSING => 1 | STREAM_CLOSED => 2 | STREAM_ERROR => 3
  end.

(** [kcpmux_stream_close_phase_t] of src/kcpmux_stream.h. *)
Inductive close_phase :=
| CLOSE_NONE | CLOSE_LOCAL_DRAIN | CLOSE_WAIT_ACK | CLOSE_REMOTE_DRAIN | CLOSE_FINALIZE.

#[export] Instance close_phase_eq : EqDecision close_phase.
Proof. solve_decision. Defined.

(** ** Protocol extension data: a 512-byte buffer and the bytes in use *)

Record proto_ext := mk_proto_ext {
  pe_data : list Z;
  pe_len : Z
}.
#[export] Instance eta_proto_ext : Eta proto_ext := fun r =>
  mk_proto_ext (pe_data r) (pe_len r).

Definition proto_ext_zero : proto_ext :=
  mk_proto_ext (replicate (Z.to_nat KCPMUX_PROTO_EXT_MAX_LEN) 0) 0.

(** [memcpy(ext->data, src, len); ext->len = len;] *)
Definition proto_ext_store (src : list Z) (e : proto_ext) : proto_ext :=
  mk_proto_ext (src ++ drop (length src) (pe_data e)) (Z.of_nat (length src)).

(** ** Configuration *)

Record conn_config := mk_conn_config {
  cc_ctrl_timeout_ms : Z;
  cc_connect_retries : Z;
  cc_close_retries : Z;
  cc_keepalive_interval_ms : Z;
  cc_keepalive_timeout_ms : Z;
  cc_idle_timeout_ms : Z
}.
#[export] Instance eta_conn_config : Eta conn_config := fun r =>
  mk_conn_config (cc_ctrl_timeout_ms r) (cc_connect_retries r) (cc_close_retries r)
    (cc_keepalive_interval_ms r) (cc_keepalive_timeout_ms r) (cc_idle_timeout_ms r).

Record stream_config := mk_stream_config {
  sc_ctrl_timeout_ms : Z;
  sc_close_retries : Z;
  sc_drain_timeout_ms : Z;
  sc_kcp_mss : Z;
  sc_send_pause_threshold : Z;
  sc_send_resume_threshold : Z;
  sc_batch_threshold : Z
}.
#[export] Instance eta_stream_config : Eta stream_config := fun r =>
  mk_stream_config (sc_ctrl_timeout_ms r) (sc_close_retries r) (sc_drain_timeout_ms r)
    (sc_kcp_mss r) (sc_send_pause_threshold r) (sc_send_resume_threshold r)
    (sc_batch_threshold r).

Record engine_config := mk_engine_config { ec_reserved : Z }.

(** [memset] to zero. *)
Definition kcpmux_engine_config_init : engine_config := mk_engine_config 0.

Definition KCPMUX_DEFAULT_KEEPALIVE_TIMEOUT_MS : Z := 30000.

Definition kcpmux_conn_config_init : conn_config :=
  {| cc_ctrl_timeout_ms := 400; cc_connect_retries := 2; cc_close_retries := 1;
     cc_keepalive_interval_ms := 10000;
     cc_keepalive_timeout_ms := KCPMUX_DEFAULT_KEEPALIVE_TIMEOUT_MS;
     cc_idle_timeout_ms := 60000 |}.

Definition kcpmux_stream_config_init : stream_config :=
  {| sc_ctrl_timeout_ms := 600; sc_close_retries := 1; sc_drain_timeout_ms := 5000;
     sc_kcp_mss := 1200; sc_send_pause_threshold := 256;
     sc_send_resume_threshold := 128; sc_batch_threshold := 1 |}.

(** [None] is the failing return value 0, [Some dst] the return value 1 with
    the prepared configuration stored in [*dst]. *)
Definition kcpmux_conn_config_prepare (src : conn_config) : option conn_config :=
  if cc_ctrl_timeout_ms src =? 0 then None
  else
    let dst := src in
    Some (if cc_keepalive_timeout_ms dst =? 0
          then dst <| cc_keepalive_timeout_ms := KCPMUX_DEFAULT_KEEPALIVE_TIMEOUT_MS |>
          else dst).

Definition kcpmux_stream_config_prepare (src : stream_config) : option stream_config :=
  if (sc_ctrl_timeout_ms src =? 0) || (sc_drain_timeout_ms src =? 0) ||
     (sc_kcp_mss src =? 0) ||
     (KCPMUX_PROTO_MSG_MAX_LEN - KCPMUX_PROTO_STREAM_HEADER_LEN - KCPMUX_IKCP_OVERHEAD
        <? sc_kcp_mss src) ||
     (sc_send_pause_threshold src =? 0) ||
     (sc_send_pause_threshold src <? sc_send_resume_threshold src)
  then None
  else Some src.

(** ** Objects

    Connections and streams are heap objects named by the address [malloc]
    gave them.  [obj] names the structure a timer node or a pending-release
    item is embedded in. *)

Inductive obj :=
| OConn (c : positive)
| OStream (s : positive).

#[export] Instance obj_eq : EqDecision obj.
Proof. solve_decision. Defined.

#[export] Instance obj_countable : Countable obj.
Proof.
  refine (inj_countable'
    (fun o => match o with OConn c => inl c | OStream s => inr s end)
    (fun x => match x with inl c => OConn c | inr s => OStream s end) _).
  by intros [].
Defined.
