(* ===== verification/Timer.v ===== *)
(** * Deadline scheduler (src/kcpmux_timer.h, src/kcpmux_timer.c)

    An indexed binary min-heap of timer nodes ordered by deadline and, for
    equal deadlines, by insertion order.

    A [timer_node] is embedded in its connection or stream; the nodes live in
    a store keyed by that object.  [manager->heap[0 .. size-1]] is the list
    [tm_heap], so [manager->size] is its length; the slots from [size] to
    [capacity-1] are never read by the code and are not represented, an access
    at or beyond [size] is undefined behaviour, and so is a write beyond
    [capacity].  [heap_index = KCPMUX_TIMER_INVALID_INDEX] is [None].  The list
    that [kcpmux_timer_collect_due] fills through the [due_link] members is
    [tm_due]: unlinking a node removes it from that list. *)

From S2P Require Import Prelude Types.

Inductive timer_state := TIMER_IDLE | TIMER_HEAP | TIMER_DUE | TIMER_RUNNING.

#[export] Instance timer_state_eq : EqDecision timer_state.
Proof. solve_decision. Defined.

(** The two functions the program installs as [timeout_cb]. *)
Inductive timer_cb := conn_timer_callback | stream_timer_callback.

Record timer_node := mk_timer_node {
  heap_index : option nat;
  deadline_ms : Z;
  insertion_sequence : Z;
  owner : option obj;
  timeout_cb : option timer_cb;
  tn_state : timer_state
}.
#[export] Instance eta_timer_node : Eta timer_node := fun r =>
  mk_timer_node (heap_index r) (deadline_ms r) (insertion_sequence r) (owner r)
    (timeout_cb r) (tn_state r).

(** The node of a structure just cleared by [memset]. *)
Definition timer_node_zero : timer_node :=
  mk_timer_node (Some 0%nat) 0 0 None None TIMER_IDLE.

Record timers := mk_timers {
  tm_heap : list obj;
  tm_capacity : Z;
  tm_next_sequence : Z;
  tm_nodes : gmap obj timer_node;
  tm_due : list obj
}.
#[export] Instance eta_timers : Eta timers := fun r =>
  mk_timers (tm_heap r) (tm_capacity r) (tm_next_sequence r) (tm_nodes r) (tm_due r).

Definition kcpmux_timer_deadline_after (anchor_ms interval_ms : Z) : Z :=
  if INT64_MAX - interval_ms <? anchor_ms then INT64_MAX
  else anchor_ms + interval_ms.

Abbreviation T := (M timers).

Definition get_node (n : obj) : T timer_node := deref (fun t => tm_nodes t !! n).

(** A store through a node pointer: the node must be live. *)
Definition mod_node (n : obj) (f : timer_node -> timer_node) : T unit :=
  nd ← get_node n;
  modify (fun t => t <| tm_nodes ::= <[n := f nd]> |>).

Definition heap_at (i : nat) : T obj := deref (fun t => tm_heap t !! i).

Definition kcpmux_timer_less (left right : obj) : T bool :=
  l ← get_node left;
  r ← get_node right;
  mret (if negb (deadline_ms l =? deadline_ms r)
        then deadline_ms l <? deadline_ms r
        else insertion_sequence l <? insertion_sequence r).

Definition kcpmux_timer_set (index : nat) (node : obj) : T unit :=
  _ ← heap_at index;
  modify (fun t => t <| tm_heap ::= <[index := node]> |>);;
  mod_node node (fun nd => nd <| heap_index := Some index |>).

(** The [while (index > 0)] loop of [kcpmux_timer_sift_up]; [fuel] bounds the
    number of iterations, and [index] of them suffice. *)
Fixpoint sift_up_loop (fuel : nat) (node : obj) (index : nat) : T nat :=
  match index, fuel with
  | O, _ => mret O
  | S i, S fuel' =>
      let parent := (i / 2)%nat in
      p ← heap_at parent;
      lt ← kcpmux_timer_less node p;
      if negb lt then mret index
      else kcpmux_timer_set index p;; sift_up_loop fuel' node parent
  | S _, O => ub
  end.

Definition kcpmux_timer_sift_up (index : nat) : T nat :=
  node ← heap_at index;
  index' ← sift_up_loop index node index;
  kcpmux_timer_set index' node;;
  mret index'.

(** The choice of [child] in [kcpmux_timer_sift_down]. *)
Definition select_child (left : nat) : T nat :=
  size ← gets (fun t => length (tm_heap t));
  let right := (left + 1)%nat in
  l ← heap_at left;
  if (right <? size)%nat then
    r ← heap_at right;
    lt ← kcpmux_timer_less r l;
    mret (if lt : bool then right else left)
  else mret left.

(** The [for (;;)] loop of [kcpmux_timer_sift_down]: the index grows at every
    iteration that continues, so [size] iterations suffice. *)
Fixpoint sift_down_loop (fuel : nat) (node : obj) (index : nat) : T nat :=
  match fuel with
  | O => ub
  | S fuel' =>
      let left := (index * 2 + 1)%nat in
      size ← gets (fun t => length (tm_heap t));
      if (size <=? left)%nat then mret index
      else
        child ← select_child left;
        c ← heap_at child;
        lt ← kcpmux_timer_less c node;
        if negb lt then mret index
        else kcpmux_timer_set index c;; sift_down_loop fuel' node child
  end.

Definition kcpmux_timer_sift_down (index : nat) : T unit :=
  node ← heap_at index;
  size ← gets (fun t => length (tm_heap t));
  index' ← sift_down_loop (S size) node index;
  kcpmux_timer_set index' node.

Definition kcpmux_timer_remove_at (index : nat) : T obj :=
  removed ← heap_at index;
  size ← gets (fun t => (length (tm_heap t) - 1)%nat);
  last ← heap_at size;
  modify (fun t => t <| tm_heap ::= take size |>);;
  when (index <? size)%nat
    (kcpmux_timer_set index last;;
     index' ← kcpmux_timer_sift_up index;
     kcpmux_timer_sift_down index');;
  mod_node removed (fun nd => nd <| heap_index := None |>);;
  mret removed.

Definition kcpmux_timer_node_init (node : obj) (own : obj) (cb : timer_cb) : T unit :=
  mod_node node (fun _ => mk_timer_node None 0 0 (Some own) (Some cb) TIMER_IDLE).

(** [kcpmux_timer_manager_init] of a manager; no node exists yet. *)
Definition kcpmux_timer_manager_init : timers := mk_timers [] 0 0 ∅ [].

Definition kcpmux_timer_manager_destroy : T unit :=
  modify (fun t => t <| tm_heap := [] |> <| tm_capacity := 0 |> <| tm_next_sequence := 0 |>).

(** The doubling loop of [kcpmux_timer_manager_reserve].  [new_capacity] is
    at least 1 and doubles, so it reaches [SIZE_MAX / 2] within 64 rounds. *)
Fixpoint reserve_grow (fuel : nat) (new_capacity capacity : Z) : Z :=
  match fuel with
  | O => new_capacity
  | S fuel' =>
      if new_capacity <? capacity then
        if SIZE_MAX / 2 <? new_capacity then capacity
        else reserve_grow fuel' (new_capacity * 2) capacity
      else new_capacity
  end.

Definition reserve_capacity (old capacity : Z) : Z :=
  reserve_grow 64 (if old =? 0 then 8 else old) capacity.

Definition SIZEOF_PTR : Z := 8.

(** Does [kcpmux_timer_manager_reserve] reach its call of [realloc]? *)
Definition reserve_reallocs (capacity : Z) (t : timers) : bool :=
  negb (capacity <=? tm_capacity t) &&
  negb (SIZE_MAX / SIZEOF_PTR <? reserve_capacity (tm_capacity t) capacity).

(** [alloc] is the outcome of that call of [realloc]. *)
Definition kcpmux_timer_manager_reserve (alloc : bool) (capacity : Z) : T Z :=
  old ← gets tm_capacity;
  if capacity <=? old then mret KCPMUX_ERR_OK
  else
    let new_capacity := reserve_capacity old capacity in
    if SIZE_MAX / SIZEOF_PTR <? new_capacity then mret KCPMUX_ERR_OOM
    else if negb alloc then mret KCPMUX_ERR_OOM
    else
      modify (fun t => t <| tm_capacity := new_capacity |>);;
      mret KCPMUX_ERR_OK.

(** [list_del_init(&node->due_link)] *)
Definition due_unlink (n : obj) : T unit :=
  modify (fun t => t <| tm_due ::= filter (fun m => m <> n) |>).

Definition kcpmux_timer_schedule (alloc : bool) (node : obj) (deadline : Z) : T Z :=
  nd ← get_node node;
  if decide (tn_state nd = TIMER_HEAP) then
    mod_node node (fun nd => nd <| deadline_ms := deadline |>);;
    nd ← get_node node;
    index ← deref (fun _ => heap_index nd);
    index ← kcpmux_timer_sift_up index;
    kcpmux_timer_sift_down index;;
    mret KCPMUX_ERR_OK
  else
    size ← gets (fun t => Z.of_nat (length (tm_heap t)));
    ret ← kcpmux_timer_manager_reserve alloc (size + 1);
    if negb (ret =? KCPMUX_ERR_OK) then mret ret
    else
      when (bool_decide (tn_state nd = TIMER_DUE)) (due_unlink node);;
      seq ← gets tm_next_sequence;
      mod_node node (fun nd => nd <| deadline_ms := deadline |>
                                  <| insertion_sequence := seq |>
                                  <| tn_state := TIMER_HEAP |>);;
      modify (fun t => t <| tm_next_sequence := u64 (seq + 1) |>);;
      index ← gets (fun t => length (tm_heap t));
      capacity ← gets tm_capacity;
      if Z.of_nat index <? capacity then
        modify (fun t => t <| tm_heap ::= (fun h => h ++ [node]) |>);;
        kcpmux_timer_set index node;;
        _ ← kcpmux_timer_sift_up index;
        mret KCPMUX_ERR_OK
      else ub.

Definition kcpmux_timer_cancel (node : obj) : T unit :=
  nd ← get_node node;
  (if decide (tn_state nd = TIMER_HEAP) then
     index ← deref (fun _ => heap_index nd);
     _ ← kcpmux_timer_remove_at index;
     mret tt
   else when (bool_decide (tn_state nd = TIMER_DUE)) (due_unlink node));;
  mod_node node (fun nd => nd <| tn_state := TIMER_IDLE |>).

Definition kcpmux_timer_peek : T (option obj) :=
  gets (fun t => head (tm_heap t)).

(** Each iteration removes one node, so [size + 1] iterations suffice. *)
Fixpoint collect_due_loop (fuel : nat) (now_ms : Z) : T unit :=
  match fuel with
  | O => ub
  | S fuel' =>
      root ← kcpmux_timer_peek;
      match root with
      | None => mret tt
      | Some node =>
          nd ← get_node node;
          if now_ms <? deadline_ms nd then mret tt
          else
            node ← kcpmux_timer_remove_at 0;
            mod_node node (fun nd => nd <| tn_state := TIMER_DUE |>);;
            modify (fun t => t <| tm_due ::= (fun d => d ++ [node]) |>);;
            collect_due_loop fuel' now_ms
      end
  end.

Definition kcpmux_timer_collect_due (now_ms : Z) : T unit :=
  size ← gets (fun t => length (tm_heap t));
  collect_due_loop (S size) now_ms.

(** ** Arithmetic of deadlines *)

(** C37.  Deadlines saturate.  For a 64-bit anchor and a 32-bit interval,
    [kcpmux_timer_deadline_after] is the exact sum when that fits in [int64_t]
    and [INT64_MAX] otherwise; it never overflows, it is never before the
    anchor, and it is monotone in the anchor. *)
Theorem deadline_after_saturates a i :
  in_i64 a -> in_u 32 i ->
  kcpmux_timer_deadline_after a i = Z.min INT64_MAX (a + i) /\
  in_i64 (INT64_MAX - i) /\ in_i64 (kcpmux_timer_deadline_after a i) /\
  a <= kcpmux_timer_deadline_after a i /\
  forall b, a <= b -> kcpmux_timer_deadline_after a i <= kcpmux_timer_deadline_after b i.
Proof.
  unfold in_i64, in_u, kcpmux_timer_deadline_after. intros Ha Hi.
  assert (INT64_MAX = 2 ^ 63 - 1 /\ INT64_MIN = - 2 ^ 63) as [HM Hm] by done.
  destruct (Z.ltb_spec (INT64_MAX - i) a); (split_and!; [lia..|]);
    intros b Hb; destruct (Z.ltb_spec (INT64_MAX - i) b); lia.
Qed.

Lemma deadline_after_saturates_witness :
  kcpmux_timer_deadline_after (INT64_MAX - 5) 10 = INT64_MAX.
Proof.
  destruct (deadline_after_saturates (INT64_MAX - 5) 10) as (-> & _).
  - unfold in_i64. vm_compute. split; discriminate.
  - unfold in_u. lia.
  - reflexivity.
Defined.
