(* ===== verification/TimerProofs.v ===== *)
(** * Correctness of the deadline scheduler

    The indexed heap of Timer.v is a priority queue: every operation keeps the
    representation invariant [timers_ok], the root is a node with the
    earliest deadline, and [kcpmux_timer_collect_due] extracts exactly the due
    nodes in deadline order. *)

From Stdlib Require Import Sorting.Sorted.
From S2P Require Import Prelude Types Timer.

(** ** The order on nodes *)

Definition node_le (a b : timer_node) : Prop :=
  deadline_ms a < deadline_ms b \/
  (deadline_ms a = deadline_ms b /\ insertion_sequence a <= insertion_sequence b).

Lemma node_le_trans a b c : node_le a b -> node_le b c -> node_le a c.
Proof. unfold node_le. lia. Qed.

(** [kle m a b]: both nodes are live and [b] does not come before [a]. *)
Definition kle (m : gmap obj timer_node) (a b : obj) : Prop :=
  exists na nb, m !! a = Some na /\ m !! b = Some nb /\ node_le na nb.

Lemma kle_trans m a b c : kle m a b -> kle m b c -> kle m a c.
Proof.
  intros (na & nb & Ha & Hb & Hab) (nb' & nc & Hb' & Hc & Hbc).
  simplify_eq. exists na, nc. eauto using node_le_trans.
Qed.

(** Everything but the position in the heap array. *)
Definition erase (nd : timer_node) : timer_node := nd <| heap_index := None |>.
Definition erased (m : gmap obj timer_node) : gmap obj timer_node := erase <$> m.

Lemma erased_lookup m m' n nd :
  erased m' = erased m -> m !! n = Some nd ->
  exists nd', m' !! n = Some nd' /\ erase nd' = erase nd.
Proof.
  intros Heq Hn. assert (erased m' !! n = Some (erase nd)) as Hl.
  { rewrite Heq. unfold erased. by rewrite lookup_fmap, Hn. }
  unfold erased in Hl. rewrite lookup_fmap in Hl.
  destruct (m' !! n) as [nd'|]; [|done].
  exists nd'. split; [done|]. by apply (inj Some) in Hl.
Qed.

Lemma erase_le a b a' b' :
  erase a' = erase a -> erase b' = erase b -> node_le a b -> node_le a' b'.
Proof.
  unfold erase, node_le. simpl. intros Ha Hb. injection Ha as ?????.
  injection Hb as ?????. by destruct a, b, a', b'; simplify_eq/=.
Qed.

Lemma kle_erased m m' a b : erased m' = erased m -> kle m a b -> kle m' a b.
Proof.
  intros Heq (na & nb & Ha & Hb & Hle).
  destruct (erased_lookup _ _ _ _ Heq Ha) as (na' & Ha' & Ea).
  destruct (erased_lookup _ _ _ _ Heq Hb) as (nb' & Hb' & Eb).
  exists na', nb'. eauto using erase_le.
Qed.

Definition live (m : gmap obj timer_node) (h : list obj) : Prop :=
  forall x, x ∈ h -> is_Some (m !! x).

Lemma live_erased m m' h : erased m' = erased m -> live m h -> live m' h.
Proof.
  intros Heq Hl x Hx. destruct (Hl x Hx) as [nd Hnd].
  destruct (erased_lookup _ _ _ _ Heq Hnd) as (? & ? & _). eauto.
Qed.

(** The comparison decides [kle]. *)
Lemma wp_less a b Q t :
  is_Some (tm_nodes t !! a) -> is_Some (tm_nodes t !! b) ->
  (kle (tm_nodes t) a b -> Q true t) -> (kle (tm_nodes t) b a -> Q false t) ->
  wp (kcpmux_timer_less a b) Q t.
Proof.
  intros [na Ha] [nb Hb] Ht Hf. unfold kcpmux_timer_less, get_node.
  rewrite wp_bind, wp_deref by done. rewrite wp_bind, wp_deref by done.
  rewrite wp_ret.
  destruct (Z.eqb_spec (deadline_ms na) (deadline_ms nb)); simpl.
  - destruct (Z.ltb_spec (insertion_sequence na) (insertion_sequence nb)).
    + apply Ht. exists na, nb. unfold node_le. eauto with lia.
    + apply Hf. exists nb, na. unfold node_le. eauto with lia.
  - destruct (Z.ltb_spec (deadline_ms na) (deadline_ms nb)).
    + apply Ht. exists na, nb. unfold node_le. eauto with lia.
    + apply Hf. exists nb, na. unfold node_le. eauto with lia.
Qed.

(** ** Array positions *)

Definition parent (j : nat) : nat := ((j - 1) / 2)%nat.

Ltac nat_div :=
  unfold parent in *;
  repeat match goal with
  | |- context [(?a / 2)%nat] => pose proof (Nat.div_mod_eq a 2);
      pose proof (Nat.mod_upper_bound a 2 ltac:(lia)); generalize dependent (a / 2)%nat; intros
  | H : context [(?a / 2)%nat] |- _ => pose proof (Nat.div_mod_eq a 2);
      pose proof (Nat.mod_upper_bound a 2 ltac:(lia)); generalize dependent (a / 2)%nat; intros
  end; lia.

Lemma parent_lt j : (0 < j)%nat -> (parent j < j)%nat.
Proof. intros. nat_div. Qed.

Lemma parent_children i j :
  (0 < j)%nat -> parent j = i <-> (j = 2 * i + 1 \/ j = 2 * i + 2)%nat.
Proof. intros. split; intros; nat_div. Qed.

(** Heap order at every edge except those that touch position [i], with the
    children of [i] bounded by the parent of [i]. *)
Definition heap_ok_except (m : gmap obj timer_node) (h : list obj) (i : nat) : Prop :=
  (forall j x p, (0 < j)%nat -> j <> i -> parent j <> i ->
     h !! j = Some x -> h !! parent j = Some p -> kle m p x) /\
  (forall j x p, (0 < i)%nat -> (0 < j)%nat -> parent j = i ->
     h !! j = Some x -> h !! parent i = Some p -> kle m p x).

Definition heap_ok (m : gmap obj timer_node) (h : list obj) : Prop :=
  forall j x p, (0 < j)%nat -> h !! j = Some x -> h !! parent j = Some p -> kle m p x.

Definition up_ok (m : gmap obj timer_node) (h : list obj) (i : nat) : Prop :=
  forall x p, (0 < i)%nat -> h !! i = Some x -> h !! parent i = Some p -> kle m p x.

Definition down_ok (m : gmap obj timer_node) (h : list obj) (i : nat) : Prop :=
  forall j x p, (0 < j)%nat -> parent j = i ->
    h !! j = Some x -> h !! i = Some p -> kle m p x.

Lemma heap_ok_glue m h i :
  heap_ok_except m h i -> up_ok m h i -> down_ok m h i -> heap_ok m h.
Proof.
  intros [Hoth _] Hup Hdown j x p Hj Hx Hp.
  destruct (decide (j = i)) as [->|]; [by eapply Hup|].
  destruct (decide (parent j = i)) as [<-|]; [by eapply Hdown|].
  by eapply Hoth.
Qed.

Lemma heap_ok_weaken m h i : heap_ok m h -> heap_ok_except m h i.
Proof.
  intros Hok. split; [by intros; eapply Hok|].
  intros j x p Hi Hj Hpar Hx Hp.
  destruct (lookup_lt_is_Some_2 h i) as [y Hy].
  { apply lookup_lt_Some in Hx. pose proof (parent_lt j Hj). lia. }
  eapply kle_trans; [by eapply (Hok i)|]. eapply (Hok j); [done..|]. by rewrite Hpar.
Qed.

(** ** Sifting

    While a loop moves entries, position [i] of the array is a hole that
    will receive node [x]; [hole t x i] is the array with the hole filled. *)

Definition hole (t : timers) (x : obj) (i : nat) : list obj := <[i := x]> (tm_heap t).

Definition index_ok_except (m : gmap obj timer_node) (h : list obj) (i : nat) : Prop :=
  forall j y, j <> i -> h !! j = Some y ->
    exists nd, m !! y = Some nd /\ heap_index nd = Some j.

Definition index_ok (m : gmap obj timer_node) (h : list obj) : Prop :=
  forall j y, h !! j = Some y -> exists nd, m !! y = Some nd /\ heap_index nd = Some j.

(** What sifting leaves alone: everything but the array and the positions
    recorded in the nodes of [h]. *)
Record sift_frame (h : list obj) (t t' : timers) : Prop := {
  sf_capacity : tm_capacity t' = tm_capacity t;
  sf_sequence : tm_next_sequence t' = tm_next_sequence t;
  sf_due : tm_due t' = tm_due t;
  sf_erased : erased (tm_nodes t') = erased (tm_nodes t);
  sf_others : forall n, n ∉ h -> tm_nodes t' !! n = tm_nodes t !! n
}.

Lemma sift_frame_refl h t : sift_frame h t t.
Proof. done. Qed.

Lemma sift_frame_trans h t1 t2 t3 :
  sift_frame h t1 t2 -> sift_frame h t2 t3 -> sift_frame h t1 t3.
Proof. intros [] []. split; try congruence. intros. rewrite <- sf_others0; auto. Qed.

Lemma erased_set_index (m : gmap obj timer_node) y nd v :
  m !! y = Some nd -> erased (<[y := nd <| heap_index := v |>]> m) = erased m.
Proof.
  intros Hy. unfold erased. rewrite fmap_insert. apply insert_id.
  by rewrite lookup_fmap, Hy.
Qed.

Lemma wp_heap_at i x Q t : tm_heap t !! i = Some x -> wp (heap_at i) Q t <-> Q x t.
Proof. exact (wp_deref (fun t => tm_heap t !! i) Q t x). Qed.

Lemma wp_get_node n nd Q t : tm_nodes t !! n = Some nd -> wp (get_node n) Q t <-> Q nd t.
Proof. exact (wp_deref (fun t => tm_nodes t !! n) Q t nd). Qed.

Lemma wp_mod_node n nd f Q t :
  tm_nodes t !! n = Some nd ->
  wp (mod_node n f) Q t <-> Q tt (t <| tm_nodes := <[n := f nd]> (tm_nodes t) |>).
Proof.
  intros Hn. unfold mod_node. rewrite wp_bind, (wp_get_node _ nd) by done. done.
Qed.

Lemma wp_set index y nd Q t :
  (index < length (tm_heap t))%nat -> tm_nodes t !! y = Some nd ->
  Q tt (t <| tm_heap := <[index := y]> (tm_heap t) |>
          <| tm_nodes := <[y := nd <| heap_index := Some index |>]> (tm_nodes t) |>) ->
  wp (kcpmux_timer_set index y) Q t.
Proof.
  intros Hi Hy HQ. unfold kcpmux_timer_set.
  destruct (lookup_lt_is_Some_2 _ _ Hi) as [z Hz].
  rewrite wp_bind, (wp_heap_at _ z), wp_bind, wp_modify by done.
  rewrite (wp_mod_node _ nd); [done|]. by simpl.
Qed.

(** The state of a sifting loop that started in [t0] with the filled array
    [h0] and now has its hole at [i]. *)
Record sifting (t0 : timers) (h0 : list obj) (x : obj) (i : nat) (t : timers) : Prop := {
  sg_len : (i < length (tm_heap t))%nat;
  sg_frame : sift_frame h0 t0 t;
  sg_perm : hole t x i ≡ₚ h0;
  sg_index : index_ok_except (tm_nodes t) (tm_heap t) i;
  sg_order : heap_ok_except (tm_nodes t0) (hole t x i) i
}.

Section sifting.
Context (t0 : timers) (h0 : list obj) (x : obj).
Context (Hnd : NoDup h0) (Hlive : live (tm_nodes t0) h0).

Lemma sifting_nodup i t : sifting t0 h0 x i t -> NoDup (hole t x i).
Proof. intros H. by rewrite (sg_perm _ _ _ _ _ H). Qed.

Lemma sifting_live i t y :
  sifting t0 h0 x i t -> y ∈ hole t x i -> is_Some (tm_nodes t !! y).
Proof.
  intros H Hy. rewrite (sg_perm _ _ _ _ _ H) in Hy.
  eapply live_erased; [apply (sf_erased _ _ _ (sg_frame _ _ _ _ _ H))|apply Hlive|done].
Qed.

Lemma sifting_kle i t a b :
  sifting t0 h0 x i t -> kle (tm_nodes t) a b -> kle (tm_nodes t0) a b.
Proof.
  intros H. apply kle_erased. symmetry. apply (sf_erased _ _ _ (sg_frame _ _ _ _ _ H)).
Qed.

Lemma hole_lookup_ne i t j : j <> i -> hole t x i !! j = tm_heap t !! j.
Proof. intros. unfold hole. by rewrite list_lookup_insert_ne. Qed.

Lemma hole_lookup_eq i t : (i < length (tm_heap t))%nat -> hole t x i !! i = Some x.
Proof. intros. unfold hole. by rewrite list_lookup_insert_eq. Qed.

(** Moving the entry [y] at position [p] into the hole. *)
Definition move (t : timers) (i : nat) (y : obj) (nd : timer_node) : timers :=
  t <| tm_heap := <[i := y]> (tm_heap t) |>
    <| tm_nodes := <[y := nd <| heap_index := Some i |>]> (tm_nodes t) |>.

Lemma hole_move t i p y nd :
  hole (move t i y nd) x p = <[p := x]> (<[i := y]> (hole t x i)).
Proof. unfold hole. simpl. by rewrite list_insert_insert_eq. Qed.

Lemma sifting_move t i p y nd :
  sifting t0 h0 x i t -> i <> p -> tm_heap t !! p = Some y -> tm_nodes t !! y = Some nd ->
  heap_ok_except (tm_nodes t0) (<[p := x]> (<[i := y]> (hole t x i))) p ->
  sifting t0 h0 x p (move t i y nd).
Proof.
  intros H Hne Hp Hy Hord. pose proof (sifting_nodup _ _ H) as Hnd'.
  destruct H as [Hlen Hfr Hperm Hidx _].
  assert (y ∈ h0) as Hyin.
  { rewrite <- Hperm. apply list_elem_of_lookup. exists p. by rewrite hole_lookup_ne. }
  split.
  - simpl. rewrite length_insert. by eapply lookup_lt_Some.
  - eapply sift_frame_trans; [done|]. split; try done; simpl.
    + by apply erased_set_index.
    + intros n Hn. rewrite lookup_insert_ne by set_solver. done.
  - rewrite hole_move, <- Hperm. apply Permutation_insert_swap; [by apply hole_lookup_eq|].
    by rewrite hole_lookup_ne.
  - intros j z Hj. simpl. destruct (decide (j = i)) as [->|Hji].
    + rewrite list_lookup_insert_eq by done. intros [= <-].
      rewrite lookup_insert_eq. eauto.
    + rewrite list_lookup_insert_ne by done. intros Hz.
      rewrite lookup_insert_ne; [by apply Hidx|]. intros ->. apply Hj.
      eapply NoDup_lookup; [done|..]; by rewrite hole_lookup_ne.
  - by rewrite hole_move.
Qed.

(** One step up keeps the order away from the new hole. *)
Lemma order_up m (h : list obj) i y :
  (0 < i)%nat -> (i < length h)%nat -> h !! i = Some x -> h !! parent i = Some y ->
  heap_ok_except m h i -> kle m x y ->
  heap_ok_except m (<[parent i := x]> (<[i := y]> h)) (parent i).
Proof.
  intros Hi Hlen Hx Hy [Hoth Hbr] Hxy. pose proof (parent_lt i Hi) as Hpi.
  split.
  - intros j a b Hj Hjp Hpp. rewrite !list_lookup_insert_ne with (i := parent i) by done.
    destruct (decide (j = i)) as [->|Hji].
    { by destruct Hpp. }
    rewrite (list_lookup_insert_ne _ i j) by done. intros Ha.
    destruct (decide (parent j = i)) as [Hpj|Hpj].
    + rewrite Hpj, list_lookup_insert_eq by done. intros [= <-].
      eapply Hbr; [..|done|done]; done.
    + rewrite list_lookup_insert_ne by done. intros Hb. by eapply Hoth.
  - intros j a b Hp0 Hj Hpar Ha Hb.
    pose proof (parent_lt (parent i) Hp0) as Hppi.
    rewrite list_lookup_insert_ne in Hb by lia.
    rewrite list_lookup_insert_ne in Hb by lia.
    assert (kle m b y) as Hby.
    { eapply (Hoth (parent i)); [done|lia|lia|done|done]. }
    rewrite list_lookup_insert_ne in Ha by (intros <-; pose proof (parent_lt _ Hj); lia).
    destruct (decide (j = i)) as [->|Hji].
    + rewrite list_lookup_insert_eq in Ha by done. by simplify_eq.
    + rewrite list_lookup_insert_ne in Ha by done.
      eapply kle_trans; [done|]. eapply (Hoth j); [done|done|lia|done|congruence].
Qed.

Lemma down_ok_up m (h : list obj) i y :
  (0 < i)%nat -> (i < length h)%nat -> h !! i = Some x -> h !! parent i = Some y ->
  heap_ok_except m h i -> kle m x y ->
  down_ok m (<[parent i := x]> (<[i := y]> h)) (parent i).
Proof.
  intros Hi Hlen Hx Hy [Hoth Hbr] Hxy j a b Hj Hpar Ha Hb.
  pose proof (parent_lt i Hi) as Hpi.
  rewrite list_lookup_insert_eq in Hb by (rewrite length_insert; lia). simplify_eq.
  rewrite list_lookup_insert_ne in Ha by (pose proof (parent_lt _ Hj); lia).
  destruct (decide (j = i)) as [->|Hji].
  - rewrite list_lookup_insert_eq in Ha by done. by simplify_eq.
  - rewrite list_lookup_insert_ne in Ha by done.
    eapply kle_trans; [done|]. eapply (Hoth j); [done|done|lia|done|congruence].
Qed.

Lemma order_down m (h : list obj) i c y :
  (0 < c)%nat -> parent c = i -> h !! i = Some x -> h !! c = Some y ->
  heap_ok_except m h i -> kle m y x ->
  (forall j z, (0 < j)%nat -> parent j = i -> h !! j = Some z -> kle m y z) ->
  heap_ok_except m (<[c := x]> (<[i := y]> h)) c /\
  up_ok m (<[c := x]> (<[i := y]> h)) c.
Proof.
  intros Hc Hpc Hx Hy [Hoth Hbr] Hyx Hmin. pose proof (parent_lt c Hc) as Hic.
  assert (i < length h)%nat as Hlen by by eapply lookup_lt_Some.
  assert (c < length h)%nat as Hlenc by by eapply lookup_lt_Some.
  assert (parent c <> c /\ i <> c) as [? ?] by lia.
  split; [split|].
  - intros j a b Hj Hjc Hpjc Ha Hb.
    rewrite list_lookup_insert_ne in Ha, Hb by done.
    destruct (decide (j = i)) as [->|Hji].
    + rewrite list_lookup_insert_eq in Ha by done. simplify_eq.
      rewrite list_lookup_insert_ne in Hb by (pose proof (parent_lt _ Hj); lia).
      by eapply (Hbr c).
    + rewrite list_lookup_insert_ne in Ha by done.
      destruct (decide (parent j = i)) as [Hpj|Hpj].
      * rewrite Hpj, list_lookup_insert_eq in Hb by done. simplify_eq. by eapply Hmin.
      * rewrite list_lookup_insert_ne in Hb by done. by eapply Hoth.
  - intros j a b _ Hj Hpj Ha Hb. pose proof (parent_lt _ Hj).
    rewrite Hpc, list_lookup_insert_ne, list_lookup_insert_eq in Hb by done. simplify_eq.
    rewrite !list_lookup_insert_ne in Ha by lia.
    eapply (Hoth j); [done|lia|lia|done|congruence].
  - intros a b _ Ha Hb.
    rewrite list_lookup_insert_eq in Ha by (by rewrite length_insert).
    rewrite Hpc, list_lookup_insert_ne, list_lookup_insert_eq in Hb by done.
    by simplify_eq.
Qed.

Lemma sift_up_loop_ok fuel i t :
  (i <= fuel)%nat -> sifting t0 h0 x i t ->
  wp (sift_up_loop fuel x i)
    (fun i' t' => sifting t0 h0 x i' t' /\ up_ok (tm_nodes t0) (hole t' x i') i' /\
       ((i' = i /\ t' = t) \/ down_ok (tm_nodes t0) (hole t' x i') i')) t.
Proof.
  revert i t. induction fuel as [|fuel IH]; intros [|i] t Hle H;
    [by split_and!; [|intros ???; lia|left]|lia|by split_and!; [|intros ???; lia|left]|].
  cbn [sift_up_loop].
  replace (i / 2)%nat with (parent (S i)) by (unfold parent; f_equal; lia).
  pose proof (parent_lt (S i) ltac:(lia)) as Hpi.
  destruct (lookup_lt_is_Some_2 (tm_heap t) (parent (S i))) as [y Hy].
  { pose proof (sg_len _ _ _ _ _ H). lia. }
  rewrite wp_bind, (wp_heap_at _ y), wp_bind by done.
  assert (hole t x (S i) !! S i = Some x) as Hhx by apply hole_lookup_eq, H.
  assert (hole t x (S i) !! parent (S i) = Some y) as Hhy by (by rewrite hole_lookup_ne by lia).
  apply wp_less.
  - eapply sifting_live; [done|]. apply list_elem_of_lookup. eauto.
  - eapply sifting_live; [done|]. apply list_elem_of_lookup. eauto.
  - intros Hxy%(sifting_kle _ _ _ _ H). cbn [negb]. rewrite wp_bind.
    destruct (sifting_live _ _ y H) as [nd Hnd'].
    { apply list_elem_of_lookup. eauto. }
    assert (S i < length (hole t x (S i)))%nat as Hl
      by (unfold hole; rewrite length_insert; apply H).
    eapply wp_set; [apply H|done|]. eapply wp_mono; [|apply IH; [lia|]]; cycle 1.
    { apply sifting_move; [done|lia|done|done|].
      apply order_up; try done; [lia|apply H]. }
    intros i' t' (Hs & Hup & Hdn). split_and!; [done..|]. right.
    destruct Hdn as [[-> ->]|]; [|done].
    fold (move t (S i) y nd). rewrite hole_move.
    apply down_ok_up; try done; [lia|apply H].
  - intros Hyx. cbn [negb]. rewrite wp_ret. split_and!; [done| |by left].
    intros a b _ Ha Hb. simplify_eq. by eapply sifting_kle.
Qed.

Lemma select_child_ok i t :
  (i * 2 + 1 < length (tm_heap t))%nat -> sifting t0 h0 x i t ->
  wp (select_child (i * 2 + 1)) (fun c t' => t' = t /\ (0 < c)%nat /\ parent c = i /\
    exists y, tm_heap t !! c = Some y /\
      forall j z, (0 < j)%nat -> parent j = i -> hole t x i !! j = Some z ->
        kle (tm_nodes t0) y z) t.
Proof.
  intros Hleft H. unfold select_child. rewrite wp_bind, wp_gets.
  destruct (lookup_lt_is_Some_2 _ _ Hleft) as [l Hl].
  rewrite wp_bind, (wp_heap_at _ l) by done.
  assert (forall a, is_Some (tm_nodes t !! a) -> kle (tm_nodes t0) a a) as Hrefl.
  { intros a [nd Ha]. eapply sifting_kle; [done|]. exists nd, nd. unfold node_le. eauto with lia. }
  assert (forall j y, j <> i -> tm_heap t !! j = Some y -> is_Some (tm_nodes t !! y)) as Hlv.
  { intros j y Hj Hy. eapply sifting_live; [done|]. apply list_elem_of_lookup.
    exists j. by rewrite hole_lookup_ne. }
  pose proof (Hlv (i * 2 + 1)%nat l ltac:(lia) Hl) as Hndl.
  assert (forall j z, (0 < j)%nat -> parent j = i -> hole t x i !! j = Some z ->
    z = l \/ tm_heap t !! (i * 2 + 1 + 1)%nat = Some z) as Hch.
  { intros j z Hj Hpar Hz. apply parent_children in Hpar as [->| ->]; [..|lia];
      rewrite hole_lookup_ne in Hz by lia; [left|right; rewrite <- Hz; f_equal; lia].
    replace (2 * i + 1)%nat with (i * 2 + 1)%nat in Hz by lia. by simplify_eq. }
  destruct (Nat.ltb_spec (i * 2 + 1 + 1) (length (tm_heap t))) as [Hr|Hr].
  - destruct (lookup_lt_is_Some_2 _ _ Hr) as [r Hrr].
    pose proof (Hlv (i * 2 + 1 + 1)%nat r ltac:(lia) Hrr) as Hndr.
    rewrite wp_bind, (wp_heap_at _ r), wp_bind by done.
    apply wp_less; [done..| |]; intros Hk%(sifting_kle _ _ _ _ H); rewrite wp_ret;
      cbv beta iota; (split_and!; [done|lia|apply parent_children; lia|]);
      (eexists; split; [done|]); intros j z Hj Hpar Hz;
      destruct (Hch j z Hj Hpar Hz); simplify_eq; eauto.
  - rewrite wp_ret. split_and!; [done|lia|apply parent_children; lia|].
    eexists. split; [done|]. intros j z Hj Hpar Hz.
    destruct (Hch j z Hj Hpar Hz) as [->|Hz']; [eauto|].
    apply lookup_lt_Some in Hz'. lia.
Qed.

Lemma sift_down_loop_ok fuel i t :
  (length (tm_heap t) < fuel + i)%nat -> sifting t0 h0 x i t ->
  up_ok (tm_nodes t0) (hole t x i) i ->
  wp (sift_down_loop fuel x i)
    (fun i' t' => sifting t0 h0 x i' t' /\ heap_ok (tm_nodes t0) (hole t' x i')) t.
Proof.
  revert i t. induction fuel as [|fuel IH]; intros i t Hfuel H Hup.
  { pose proof (sg_len _ _ _ _ _ H). lia. }
  cbn [sift_down_loop]. rewrite wp_bind, wp_gets.
  assert (hole t x i !! i = Some x) as Hhx by apply hole_lookup_eq, H.
  destruct (Nat.leb_spec (length (tm_heap t)) (i * 2 + 1)) as [Hleaf|Hleft].
  { rewrite wp_ret. split; [done|]. eapply heap_ok_glue; [apply H|done|].
    intros j a b Hj Hpar Ha. apply lookup_lt_Some in Ha. unfold hole in Ha.
    rewrite length_insert in Ha. apply parent_children in Hpar; lia. }
  rewrite wp_bind. eapply wp_mono; [|by apply select_child_ok].
  intros c ? (-> & Hc & Hpc & y & Hy & Hmin). pose proof (parent_lt c Hc) as Hic.
  rewrite wp_bind, (wp_heap_at _ y), wp_bind by done.
  assert (hole t x i !! c = Some y) as Hhy by (by rewrite hole_lookup_ne by lia).
  destruct (sifting_live _ _ y H) as [ndy Hndy]; [apply list_elem_of_lookup; eauto|].
  apply wp_less; [by eauto|eapply sifting_live; [done|apply list_elem_of_lookup; eauto]|..];
    intros Hk%(sifting_kle _ _ _ _ H); cbn [negb].
  - rewrite wp_bind. eapply wp_set; [apply H|done|].
    destruct (order_down (tm_nodes t0) (hole t x i) i c y) as [Ho Hu]; try done; [apply H|].
    apply IH; [simpl; rewrite length_insert; lia| |].
    + apply sifting_move; [done|lia|done..].
    + fold (move t i y ndy). by rewrite hole_move.
  - rewrite wp_ret. split; [done|]. eapply heap_ok_glue; [apply H|done|].
    intros j a b Hj Hpar Ha Hb. simplify_eq. eapply kle_trans; [done|]. by eapply Hmin.
Qed.
End sifting.

(** ** The heap as a representation of its nodes *)

(** [heap_rep m h]: the array [h] is a heap of live nodes, each of which
    knows its position. *)
Record heap_rep (m : gmap obj timer_node) (h : list obj) : Prop := {
  hr_nodup : NoDup h;
  hr_index : index_ok m h;
  hr_order : heap_ok m h
}.

Lemma index_ok_live m h : index_ok m h -> live m h.
Proof.
  intros Hi y [j Hj]%list_elem_of_lookup. destruct (Hi j y Hj) as (nd & Hnd & _). eauto.
Qed.

Lemma heap_ok_erased m m' h : erased m' = erased m -> heap_ok m h -> heap_ok m' h.
Proof. intros He Hok j x p ???. eapply kle_erased; eauto. Qed.

(** Filling the hole at the end of a loop. *)
Lemma sifting_finish t0 h0 x i t Q :
  NoDup h0 -> live (tm_nodes t0) h0 -> sifting t0 h0 x i t ->
  (forall t', sift_frame h0 t0 t' -> tm_heap t' = hole t x i ->
     index_ok (tm_nodes t') (tm_heap t') -> Q tt t') ->
  wp (kcpmux_timer_set i x) Q t.
Proof.
  intros Hnd Hlive H HQ.
  assert (x ∈ hole t x i) as Hx.
  { apply list_elem_of_lookup. exists i. apply hole_lookup_eq, H. }
  destruct (sifting_live t0 h0 x Hlive i t x H Hx) as [nd Hndx].
  eapply wp_set; [apply H|done|]. apply HQ; [|done|]; simpl.
  - eapply sift_frame_trans; [apply H|]. split; try done; simpl.
    + by apply erased_set_index.
    + intros n Hn. rewrite (sg_perm _ _ _ _ _ H) in Hx. by rewrite lookup_insert_ne by set_solver.
  - pose proof (sifting_nodup t0 h0 x Hnd i t H) as Hnd'.
    intros j y. destruct (decide (j = i)) as [->|Hji].
    + rewrite list_lookup_insert_eq by apply H. intros [= <-]. rewrite lookup_insert_eq. eauto.
    + rewrite list_lookup_insert_ne by done. intros Hy.
      rewrite lookup_insert_ne; [by apply H|]. intros ->. apply Hji.
      eapply NoDup_lookup; [done|..]; [by rewrite hole_lookup_ne|apply hole_lookup_eq, H].
Qed.

(** Both sifts, from an array whose order fails at most around [i]. *)
Lemma sift_up_ok i x t :
  tm_heap t !! i = Some x -> NoDup (tm_heap t) -> live (tm_nodes t) (tm_heap t) ->
  index_ok_except (tm_nodes t) (tm_heap t) i -> heap_ok_except (tm_nodes t) (tm_heap t) i ->
  wp (kcpmux_timer_sift_up i) (fun i' t' =>
    sift_frame (tm_heap t) t t' /\ tm_heap t' ≡ₚ tm_heap t /\
    tm_heap t' !! i' = Some x /\ index_ok (tm_nodes t') (tm_heap t') /\
    heap_ok_except (tm_nodes t) (tm_heap t') i' /\ up_ok (tm_nodes t) (tm_heap t') i' /\
    (down_ok (tm_nodes t) (tm_heap t) i -> down_ok (tm_nodes t) (tm_heap t') i')) t.
Proof.
  intros Hx Hnd Hlive Hidx Hord. unfold kcpmux_timer_sift_up.
  rewrite wp_bind, (wp_heap_at _ x), wp_bind by done.
  assert (hole t x i = tm_heap t) as Hh by by apply list_insert_id.
  eapply wp_mono; [|apply (sift_up_loop_ok t (tm_heap t) x); [done..|]]; cycle 1.
  { split; rewrite ?Hh; try done. by eapply lookup_lt_Some. }
  intros i' t1 (Hs & Hup & Hdn). rewrite wp_bind.
  eapply sifting_finish; [..|exact Hs|]; [done..|]. intros t' Hfr Hh' Hidx'.
  rewrite wp_ret, Hh'. rewrite Hh' in Hidx'. split_and!; try done.
  - apply Hs.
  - apply hole_lookup_eq, Hs.
  - apply Hs.
  - destruct Hdn as [[-> ->]|]; [by rewrite Hh|done].
Qed.

Lemma sift_down_ok i x t :
  tm_heap t !! i = Some x -> NoDup (tm_heap t) ->
  index_ok (tm_nodes t) (tm_heap t) -> heap_ok_except (tm_nodes t) (tm_heap t) i ->
  up_ok (tm_nodes t) (tm_heap t) i ->
  wp (kcpmux_timer_sift_down i) (fun _ t' =>
    sift_frame (tm_heap t) t t' /\ tm_heap t' ≡ₚ tm_heap t /\
    heap_rep (tm_nodes t') (tm_heap t')) t.
Proof.
  intros Hx Hnd Hidx Hord Hup. unfold kcpmux_timer_sift_down.
  rewrite wp_bind, (wp_heap_at _ x), wp_bind, wp_gets, wp_bind by done.
  assert (hole t x i = tm_heap t) as Hh by by apply list_insert_id.
  pose proof (index_ok_live _ _ Hidx) as Hlive.
  eapply wp_mono; [|apply (sift_down_loop_ok t (tm_heap t) x); [done|done|lia| |]]; cycle 1.
  { split; rewrite ?Hh; try done; [by eapply lookup_lt_Some|]. intros ????. by apply Hidx. }
  { by rewrite Hh. }
  intros i' t1 (Hs & Hok).
  eapply sifting_finish; [..|exact Hs|]; [done..|]. intros t' Hfr Hh' Hidx'.
  split_and!; [done|rewrite Hh'; apply Hs|]. split; [|done|].
  - rewrite Hh'. by eapply sifting_nodup.
  - rewrite Hh'. eapply heap_ok_erased; [apply Hfr|done].
Qed.

(** Re-establishing the heap after the key at position [i] changed. *)
Lemma resift_ok i x t :
  tm_heap t !! i = Some x -> NoDup (tm_heap t) -> live (tm_nodes t) (tm_heap t) ->
  index_ok_except (tm_nodes t) (tm_heap t) i -> heap_ok_except (tm_nodes t) (tm_heap t) i ->
  wp (index' ← kcpmux_timer_sift_up i; kcpmux_timer_sift_down index') (fun _ t' =>
    sift_frame (tm_heap t) t t' /\ tm_heap t' ≡ₚ tm_heap t /\
    heap_rep (tm_nodes t') (tm_heap t')) t.
Proof.
  intros Hx Hnd Hlive Hidx Hord. rewrite wp_bind.
  eapply wp_mono; [|by apply sift_up_ok].
  intros i' t1 (Hfr & Hperm & Hx1 & Hidx1 & Hord1 & Hup1 & _).
  eapply wp_mono; [|apply (sift_down_ok i' x); try done].
  - intros _ t' (Hfr' & Hperm' & Hrep). split_and!; [|by etrans|done].
    destruct Hfr, Hfr'. split; try congruence. intros n Hn.
    rewrite sf_others1; [by apply sf_others0|by rewrite Hperm].
  - by rewrite Hperm.
  - destruct Hord1 as [Ho Hb]. pose proof (sf_erased _ _ _ Hfr) as He.
    split; intros; eapply kle_erased; eauto.
  - intros a b ???. eapply kle_erased; [apply Hfr|]. by eapply Hup1.
Qed.

Lemma insert_last_perm (h : list obj) n i x last :
  length h = S n -> h !! n = Some last -> h !! i = Some x -> (i < n)%nat ->
  h ≡ₚ x :: <[i := last]> (take n h).
Proof.
  intros Hlen Hlast Hx Hi. rewrite <- (take_drop_middle h n last Hlast) at 1.
  rewrite drop_ge by lia. assert (take n h !! i = Some x) as Ht
    by (by rewrite lookup_take_lt).
  apply list_elem_of_split_length in Ht as (l1 & l2 & Heq & ->). rewrite Heq.
  rewrite insert_app_r_alt, Nat.sub_diag by lia. simpl. solve_Permutation.
Qed.

(** Dropping the last entry and moving it to position [i] breaks the order
    around [i] only. *)
Lemma heap_ok_fill m (h : list obj) n i last :
  heap_ok m h -> length h = S n -> h !! n = Some last -> (i < n)%nat ->
  heap_ok_except m (<[i := last]> (take n h)) i.
Proof.
  intros Hok Hlen Hlast Hi.
  assert (forall j y, j <> i -> <[i:=last]> (take n h) !! j = Some y -> h !! j = Some y) as Hl.
  { intros j y Hj. rewrite list_lookup_insert_ne by done. intros Hy.
    apply lookup_take_Some in Hy. tauto. }
  split.
  - intros j x p Hj Hji Hpi Hx%Hl Hp%Hl; [by eapply Hok|done..].
  - intros j x p Hi0 Hj Hpar Hx%Hl Hp%Hl; [|pose proof (parent_lt i); lia|pose proof (parent_lt j); lia].
    apply (heap_ok_weaken m h i Hok) with j; done.
Qed.

(** The end of [kcpmux_timer_remove_at]: the removed node forgets its
    position. *)
Lemma forget_index_ok t t' x :
  NoDup (tm_heap t) -> live (tm_nodes t) (tm_heap t) ->
  sift_frame (tm_heap t) t t' -> tm_heap t ≡ₚ x :: tm_heap t' ->
  heap_rep (tm_nodes t') (tm_heap t') ->
  wp (mod_node x (fun nd => nd <| heap_index := None |>);; mret x) (fun r t' => r = x /\
    sift_frame (tm_heap t) t t' /\ tm_heap t ≡ₚ x :: tm_heap t' /\
    heap_rep (tm_nodes t') (tm_heap t')) t'.
Proof.
  intros Hnd0 Hlive Hfr Hperm [Hnd' Hidx' Hord'].
  destruct (live_erased _ _ _ (sf_erased _ _ _ Hfr) Hlive x) as [nd Hnd];
    [rewrite Hperm; by left|].
  assert (x ∉ tm_heap t') as Hxt.
  { rewrite Hperm in Hnd0. by apply list.NoDup_cons in Hnd0 as [??]. }
  rewrite wp_bind, (wp_mod_node _ nd), wp_ret by done. split_and!; [done| |done|].
  - eapply sift_frame_trans; [done|]. split; try done; simpl.
    + by apply erased_set_index.
    + intros n' Hn'. rewrite lookup_insert_ne; [done|]. rewrite Hperm in Hn'. set_solver.
  - split; [done| |]; simpl.
    + intros j y Hy. rewrite lookup_insert_ne; [by apply Hidx'|].
      intros ->. apply Hxt. apply list_elem_of_lookup. eauto.
    + eapply heap_ok_erased; [by apply erased_set_index|done].
Qed.

Lemma remove_at_ok i x t :
  heap_rep (tm_nodes t) (tm_heap t) -> tm_heap t !! i = Some x ->
  wp (kcpmux_timer_remove_at i) (fun r t' => r = x /\
    sift_frame (tm_heap t) t t' /\ tm_heap t ≡ₚ x :: tm_heap t' /\
    heap_rep (tm_nodes t') (tm_heap t')) t.
Proof.
  intros Hrep Hx. pose proof (index_ok_live _ _ (hr_index _ _ Hrep)) as Hlive.
  unfold kcpmux_timer_remove_at.
  rewrite wp_bind, (wp_heap_at _ x), wp_bind, wp_gets, wp_bind by done.
  assert (i < length (tm_heap t))%nat as Hi by by eapply lookup_lt_Some.
  set (n := (length (tm_heap t) - 1)%nat). assert (length (tm_heap t) = S n) as Hn by lia.
  destruct (lookup_lt_is_Some_2 (tm_heap t) n) as [last Hlast]; [lia|].
  rewrite (wp_heap_at _ last), wp_bind, wp_modify, wp_bind, wp_when by done.
  set (t1 := t <| tm_heap ::= take n |>).
  destruct (Nat.ltb_spec i n) as [Hin|Hin].
  - pose proof (insert_last_perm _ _ _ _ _ Hn Hlast Hx Hin) as Hperm1.
    destruct (Hlive last) as [nd Hnd]; [apply list_elem_of_lookup; eauto|].
    rewrite wp_bind. eapply wp_set; [simpl; rewrite length_take; lia|done|]. simpl.
    match goal with |- wp _ _ ?t2 => set (t2' := t2) end.
    assert (sift_frame (tm_heap t) t t2') as Hfr2.
    { split; try done; simpl; [by apply erased_set_index|]. intros m Hm.
      rewrite lookup_insert_ne; [done|]. intros <-. apply Hm, list_elem_of_lookup. eauto. }
    assert (NoDup (x :: tm_heap t2')) as Hnd2 by (simpl; rewrite <- Hperm1; apply Hrep).
    apply list.NoDup_cons in Hnd2 as [Hxn Hnd2].
    eapply wp_mono; [|apply (resift_ok i last t2')]; simpl.
    + intros _ t' (Hfr & Hp & Hr). apply forget_index_ok; [apply Hrep|done| |by rewrite Hp|done].
      destruct Hfr, Hfr2. split; try congruence. intros m Hm.
      rewrite sf_others0; [by apply sf_others1|]. simpl. intros Hc.
      apply Hm. rewrite Hperm1. by right.
    + apply list_lookup_insert_eq. rewrite length_take. lia.
    + done.
    + eapply live_erased; [by apply erased_set_index|].
      intros y Hy. apply Hlive. rewrite Hperm1. by right.
    + intros j y Hj. rewrite list_lookup_insert_ne by done. intros Hy.
      apply lookup_take_Some in Hy as [Hy Hjn]. rewrite lookup_insert_ne; [by apply Hrep|].
      intros <-. pose proof (NoDup_lookup _ _ _ _ (hr_nodup _ _ Hrep) Hlast Hy). lia.
    + destruct (heap_ok_fill (tm_nodes t) (tm_heap t) n i last) as [Ho Hb];
        [apply Hrep|done..|].
      split; intros; eapply kle_erased; try (by apply erased_set_index); eauto.
  - assert (i = n) as -> by lia. simplify_eq.
    assert (tm_heap t = take n (tm_heap t) ++ [x]) as Hsplit.
    { rewrite <- (take_drop_middle _ _ _ Hx) at 1. by rewrite drop_ge by lia. }
    apply forget_index_ok; simpl; [apply Hrep|done|done|rewrite Hsplit at 1; apply Permutation_app_comm|].
    split.
    + destruct Hrep as [Hnd _ _]. rewrite Hsplit in Hnd. by apply list.NoDup_app in Hnd as [? _].
    + intros j y [Hy _]%lookup_take_Some. by apply Hrep.
    + intros j y p Hj [Hy _]%lookup_take_Some [Hp _]%lookup_take_Some. by eapply Hrep.
Qed.

(** ** The representation invariant and the operations *)

Record timers_ok (t : timers) : Prop := {
  to_rep : heap_rep (tm_nodes t) (tm_heap t);
  to_heap : forall n nd, tm_nodes t !! n = Some nd ->
    tn_state nd = TIMER_HEAP <-> n ∈ tm_heap t;
  to_due : forall n nd, tm_nodes t !! n = Some nd ->
    tn_state nd = TIMER_DUE <-> n ∈ tm_due t;
  to_due_nodup : NoDup (tm_due t);
  to_due_live : live (tm_nodes t) (tm_due t);
  to_capacity : Z.of_nat (length (tm_heap t)) <= tm_capacity t <= SIZE_MAX / SIZEOF_PTR
}.

(** The nodes after an operation, positions aside. *)
Definition nodes_become (t t' : timers) (n : obj) (nd : timer_node) : Prop :=
  erased (tm_nodes t') = <[n := erase nd]> (erased (tm_nodes t)).

Lemma erased_insert (m : gmap obj timer_node) n nd :
  erased (<[n := nd]> m) = <[n := erase nd]> (erased m).
Proof. apply fmap_insert. Qed.

Lemma erase_state a b : erase a = erase b -> tn_state a = tn_state b.
Proof. intros H. by apply (f_equal tn_state) in H. Qed.

Lemma nodes_become_lookup t t' n nd k ndk :
  nodes_become t t' n nd -> tm_nodes t' !! k = Some ndk ->
  (k = n /\ erase ndk = erase nd) \/
  (k <> n /\ exists nd0, tm_nodes t !! k = Some nd0 /\ erase ndk = erase nd0).
Proof.
  intros Hb Hk. assert (erased (tm_nodes t') !! k = Some (erase ndk)) as He
    by (unfold erased; by rewrite lookup_fmap, Hk).
  rewrite Hb in He. destruct (decide (k = n)) as [->|Hne].
  - rewrite lookup_insert_eq in He. apply (inj Some) in He. auto.
  - right. split; [done|]. rewrite lookup_insert_ne in He by done.
    unfold erased in He. rewrite lookup_fmap in He.
    destruct (tm_nodes t !! k) as [nd0|]; [|done].
    exists nd0. split; [done|]. by apply (inj Some) in He.
Qed.

Lemma nodes_become_live t t' n nd h :
  nodes_become t t' n nd -> live (tm_nodes t) h -> live (tm_nodes t') h.
Proof.
  intros Hb Hl x Hx. destruct (Hl x Hx) as [nd0 Hnd0].
  assert (is_Some (erased (tm_nodes t') !! x)) as [? He].
  { rewrite Hb. apply lookup_insert_is_Some.
    destruct (decide (n = x)); [by left|right; split; [done|]].
    unfold erased. rewrite lookup_fmap, Hnd0. eauto. }
  unfold erased in He. rewrite lookup_fmap in He.
  destruct (tm_nodes t' !! x); [eauto|done].
Qed.

(** Rebuilding the invariant when one node [n] changed and the heap and due
    lists lost or gained at most [n]. *)
Lemma timers_ok_step t t' n nd :
  timers_ok t -> nodes_become t t' n nd -> heap_rep (tm_nodes t') (tm_heap t') ->
  (forall k, k <> n -> k ∈ tm_heap t' <-> k ∈ tm_heap t) ->
  (forall k, k <> n -> k ∈ tm_due t' <-> k ∈ tm_due t) ->
  (tn_state nd = TIMER_HEAP <-> n ∈ tm_heap t') ->
  (tn_state nd = TIMER_DUE <-> n ∈ tm_due t') ->
  NoDup (tm_due t') -> is_Some (tm_nodes t' !! n) ->
  Z.of_nat (length (tm_heap t')) <= tm_capacity t' <= SIZE_MAX / SIZEOF_PTR ->
  timers_ok t'.
Proof.
  intros Hok Hb Hrep Hh Hd Hnh Hnd' Hnodup Hlive Hcap.
  split; try done.
  - intros k ndk Hk. destruct (nodes_become_lookup _ _ _ _ _ _ Hb Hk)
      as [[-> He]|(Hne & nd0 & Hk0 & He)]; rewrite (erase_state _ _ He); [done|].
    rewrite Hh by done. by eapply to_heap.
  - intros k ndk Hk. destruct (nodes_become_lookup _ _ _ _ _ _ Hb Hk)
      as [[-> He]|(Hne & nd0 & Hk0 & He)]; rewrite (erase_state _ _ He); [done|].
    rewrite Hd by done. by eapply to_due.
  - intros k Hk. destruct (decide (k = n)) as [->|Hne]; [done|].
    eapply (nodes_become_live t t' n nd (tm_due t)); [done|apply Hok|by apply Hd].
Qed.

Lemma node_at_index t n nd :
  timers_ok t -> tm_nodes t !! n = Some nd -> tn_state nd = TIMER_HEAP ->
  exists i, heap_index nd = Some i /\ tm_heap t !! i = Some n.
Proof.
  intros Hok Hn Hs. apply (to_heap _ Hok _ _ Hn) in Hs.
  apply list_elem_of_lookup in Hs as [i Hi]. exists i. split; [|done].
  destruct (hr_index _ _ (to_rep _ Hok) i n Hi) as (nd' & Hnd' & Hidx). by simplify_eq.
Qed.

(** Changing a node outside the heap does not disturb the heap. *)
Lemma heap_rep_insert m h n nd : heap_rep m h -> n ∉ h -> heap_rep (<[n := nd]> m) h.
Proof.
  intros [Hnd Hidx Hord] Hn.
  assert (forall j y, h !! j = Some y -> y <> n) as Hne.
  { intros j y Hj ->. apply Hn, list_elem_of_lookup. eauto. }
  split; [done| |].
  - intros j y Hy. rewrite lookup_insert_ne by (symmetry; eauto). by apply Hidx.
  - intros j y p Hj Hy Hp. destruct (Hord j y p Hj Hy Hp) as (a & b & Ha & Hb & Hle).
    exists a, b. by rewrite !lookup_insert_ne by (symmetry; eauto).
Qed.

(** What [cancel] and the extraction of a due node have in common: [n] leaves
    the heap. *)
Lemma remove_node_ok n nd t :
  timers_ok t -> tm_nodes t !! n = Some nd -> tn_state nd = TIMER_HEAP ->
  exists i, heap_index nd = Some i /\ tm_heap t !! i = Some n /\
  wp (kcpmux_timer_remove_at i) (fun r t' => r = n /\
    sift_frame (tm_heap t) t t' /\ tm_heap t ≡ₚ n :: tm_heap t' /\
    (forall k, k ∈ tm_heap t' <-> k <> n /\ k ∈ tm_heap t) /\
    heap_rep (tm_nodes t') (tm_heap t') /\
    exists nd', tm_nodes t' !! n = Some nd' /\ erase nd' = erase nd) t.
Proof.
  intros Hok Hn Hs. destruct (node_at_index t n nd Hok Hn Hs) as (i & Hi & Hat).
  exists i. split_and!; [done..|]. eapply wp_mono; [|apply remove_at_ok; [apply Hok|done]].
  intros r t1 (-> & Hfr & Hperm & Hrep). split_and!; try done.
  - pose proof (hr_nodup _ _ (to_rep _ Hok)) as Hnd. rewrite Hperm in Hnd.
    apply list.NoDup_cons in Hnd as [??]. intros k. rewrite Hperm, elem_of_cons. set_solver.
  - by eapply erased_lookup; [apply Hfr|].
Qed.

(** A new state for a node that has just left the heap. *)
Lemma leave_heap_ok n nd t t1 nd1 st d :
  timers_ok t -> tm_nodes t !! n = Some nd -> sift_frame (tm_heap t) t t1 ->
  (forall k, k ∈ tm_heap t1 <-> k <> n /\ k ∈ tm_heap t) ->
  (length (tm_heap t1) <= length (tm_heap t))%nat ->
  heap_rep (tm_nodes t1) (tm_heap t1) ->
  tm_nodes t1 !! n = Some nd1 -> erase nd1 = erase nd ->
  st <> TIMER_HEAP -> (st = TIMER_DUE <-> n ∈ d) -> NoDup d ->
  (forall k, k <> n -> k ∈ d <-> k ∈ tm_due t) ->
  let t' := t1 <| tm_nodes := <[n := nd1 <| tn_state := st |>]> (tm_nodes t1) |>
               <| tm_due := d |> in
  timers_ok t' /\ nodes_become t t' n (nd <| tn_state := st |>).
Proof.
  intros Hok Hn Hfr Hmem Hlen Hrep Hn1 He Hst Hd Hdnd Hdk t'.
  assert (nodes_become t t' n (nd <| tn_state := st |>)) as Hb.
  { unfold nodes_become, t'. simpl. rewrite erased_insert, (sf_erased _ _ _ Hfr). f_equal.
    destruct nd, nd1; unfold erase in *; simpl in *. by simplify_eq. }
  split; [|done]. eapply timers_ok_step; [exact Hok|exact Hb|..]; unfold t'; simpl; try done.
  - apply heap_rep_insert; [done|]. rewrite Hmem. tauto.
  - intros k Hk. rewrite Hmem. tauto.
  - rewrite Hmem. tauto.
  - rewrite lookup_insert_eq. eauto.
  - rewrite (sf_capacity _ _ _ Hfr). pose proof (to_capacity _ Hok). lia.
Qed.

(** Cancelling leaves the node idle and out of both queues. *)
Lemma cancel_ok n nd t :
  timers_ok t -> tm_nodes t !! n = Some nd ->
  wp (kcpmux_timer_cancel n) (fun _ t' => timers_ok t' /\
    nodes_become t t' n (nd <| tn_state := TIMER_IDLE |>) /\
    (forall k, k ∈ tm_heap t' <-> k <> n /\ k ∈ tm_heap t) /\
    tm_due t' = filter (fun m => m <> n) (tm_due t) /\
    tm_capacity t' = tm_capacity t /\ tm_next_sequence t' = tm_next_sequence t) t.
Proof.
  intros Hok Hn. unfold kcpmux_timer_cancel.
  rewrite wp_bind, (wp_get_node _ nd), wp_bind by done.
  pose proof (to_heap _ Hok _ _ Hn) as Hheap. pose proof (to_due _ Hok _ _ Hn) as Hdue.
  destruct (decide (tn_state nd = TIMER_HEAP)) as [Hs|Hs].
  - destruct (remove_node_ok n nd t Hok Hn Hs) as (i & Hi & Hat & Hrm).
    rewrite wp_bind, (wp_deref _ _ _ i), wp_bind by done.
    eapply wp_mono; [|exact Hrm].
    intros r t1 (-> & Hfr & Hperm & Hmem & Hrep & nd1 & Hn1 & He1). rewrite wp_ret.
    rewrite (wp_mod_node _ nd1) by done.
    assert (n ∉ tm_due t) as Hnd by (rewrite <- Hdue; congruence).
    rewrite (filter_ne_id _ _ Hnd), <- (sf_due _ _ _ Hfr). apply Permutation_length in Hperm.
    edestruct (leave_heap_ok n nd t t1 nd1 TIMER_IDLE (tm_due t1)) as [Hok' Hb]; try done.
    + simpl in Hperm. lia.
    + rewrite (sf_due _ _ _ Hfr). split; [done|tauto].
    + rewrite (sf_due _ _ _ Hfr). apply Hok.
    + by rewrite (sf_due _ _ _ Hfr).
    + split_and!; try done; apply Hfr.
  - assert (n ∉ tm_heap t) as Hnh by (by rewrite <- Hheap).
    eapply (wp_mono _ (fun _ t' => t' = t <| tm_due ::= filter (fun m => m <> n) |>)); cycle 1.
    { rewrite wp_when. case_bool_decide as Hs2; [done|].
      destruct t as [h c q ns d]; simpl in *. f_equal. symmetry. apply filter_ne_id. naive_solver. }
    intros _ ? ->. rewrite (wp_mod_node _ nd) by done.
    edestruct (leave_heap_ok n nd t t nd TIMER_IDLE (filter (fun m => m <> n) (tm_due t)))
      as [Hok' Hb]; try done; try apply Hok.
    + intros k. set_solver.
    + rewrite filter_ne_elem. naive_solver.
    + apply list.NoDup_filter, Hok.
    + intros k Hk. rewrite filter_ne_elem. tauto.
    + split_and!; try done. intros k. set_solver.
Qed.

(** *** Growing the array *)

Lemma reserve_grow_spec fuel n c :
  0 < n -> SIZE_MAX < n * 2 ^ Z.of_nat fuel -> c <= SIZE_MAX ->
  n <= reserve_grow fuel n c /\ c <= reserve_grow fuel n c.
Proof.
  revert n. induction fuel as [|fuel IH]; intros n Hn Hf Hc; simpl.
  - rewrite Z.pow_0_r in Hf. lia.
  - destruct (Z.ltb_spec n c); [|lia].
    destruct (Z.ltb_spec (SIZE_MAX / 2) n); [lia|].
    destruct (IH (n * 2)); [lia| |done|lia].
    replace (Z.of_nat (S fuel)) with (Z.of_nat fuel + 1) in Hf by lia.
    rewrite Z.pow_add_r in Hf by lia. lia.
Qed.

Lemma reserve_capacity_spec old c :
  0 <= old -> c <= SIZE_MAX ->
  old <= reserve_capacity old c /\ c <= reserve_capacity old c.
Proof.
  intros Hold Hc. unfold reserve_capacity.
  set (n := if old =? 0 then 8 else old).
  assert (0 < n /\ old <= n) as [Hn Ho] by (unfold n; destruct (Z.eqb_spec old 0); lia).
  destruct (reserve_grow_spec 64 n c) as [H1 H2]; [done| |done|lia].
  assert (2 ^ Z.of_nat 64 = SIZE_MAX + 1) as -> by done. unfold SIZE_MAX. lia.
Qed.

(** Growth is by repeated doubling: less than twice what was asked for. *)
Lemma reserve_grow_bound fuel n c :
  0 < n -> n < 2 * c -> reserve_grow fuel n c < 2 * c.
Proof.
  revert n. induction fuel as [|fuel IH]; intros n Hn Hc; simpl; [done|].
  destruct (Z.ltb_spec n c); [|done].
  destruct (Z.ltb_spec (SIZE_MAX / 2) n); [lia|]. apply IH; lia.
Qed.

Lemma reserve_ok alloc c t :
  timers_ok t -> 0 <= c <= SIZE_MAX ->
  wp (kcpmux_timer_manager_reserve alloc c) (fun r t' => timers_ok t' /\
    ((r = KCPMUX_ERR_OK /\ c <= tm_capacity t' /\ tm_capacity t <= tm_capacity t' /\
      t' = t <| tm_capacity := tm_capacity t' |>) \/
     (r = KCPMUX_ERR_OOM /\ t' = t /\ tm_capacity t < c /\
      (reserve_reallocs c t = true -> alloc = false)))) t.
Proof.
  intros Hok Hc. pose proof (to_capacity _ Hok) as Hcap.
  unfold kcpmux_timer_manager_reserve, reserve_reallocs. rewrite wp_bind, wp_gets.
  destruct (Z.leb_spec c (tm_capacity t)).
  { rewrite wp_ret. split; [done|left]. split_and!; [done..|]. by destruct t. }
  destruct (reserve_capacity_spec (tm_capacity t) c) as [H1 H2]; [lia..|].
  destruct (Z.ltb_spec (SIZE_MAX / SIZEOF_PTR) (reserve_capacity (tm_capacity t) c)).
  { rewrite wp_ret. split; [done|right]. by split_and!. }
  destruct alloc; cbn [negb andb].
  - rewrite wp_bind, wp_modify, wp_ret. split; [|left; by split_and!].
    destruct Hok. split; try done. simpl. lia.
  - rewrite wp_ret. split; [done|right]. by split_and!.
Qed.

(** *** Scheduling *)

(** A node of the heap gets a new key. *)
Lemma rekey_except m (h : list obj) i n nd nd' :
  heap_rep m h -> h !! i = Some n -> m !! n = Some nd -> heap_index nd' = heap_index nd ->
  heap_ok_except (<[n := nd']> m) h i /\ index_ok (<[n := nd']> m) h.
Proof.
  intros [Hnd Hidx Hord] Hi Hn Hix.
  assert (forall j y, j <> i -> h !! j = Some y -> <[n := nd']> m !! y = m !! y) as Hne.
  { intros j y Hj Hy. apply lookup_insert_ne. intros <-. apply Hj. by eapply NoDup_lookup. }
  assert (forall j k y p, j <> i -> k <> i -> h !! j = Some y -> h !! k = Some p ->
    kle m p y -> kle (<[n := nd']> m) p y) as Hkle.
  { intros j k y p Hj Hk Hy Hp (a & b & Ha & Hb & Hle). exists a, b.
    by rewrite (Hne k p), (Hne j y). }
  split; [split|].
  - intros j y p Hj Hji Hpi Hy Hp. eapply (Hkle j (parent j)); [done..|]. by eapply Hord.
  - intros j y p Hi0 Hj Hpar Hy Hp. pose proof (parent_lt i Hi0). pose proof (parent_lt j Hj).
    eapply (Hkle j (parent i)); [lia|lia|done|done|].
    by eapply (proj2 (heap_ok_weaken m h i Hord)).
  - intros j y Hy. destruct (decide (j = i)) as [->|Hj].
    + simplify_eq. rewrite lookup_insert_eq. destruct (Hidx i n Hi) as (nd0 & ? & ?).
      simplify_eq. exists nd'. split; [done|congruence].
    + rewrite (Hne j y) by done. by apply Hidx.
Qed.

(** What scheduling promises when it succeeds. *)
Definition scheduled (t t' : timers) (n : obj) (nd : timer_node) (d : Z) : Prop :=
  let armed := bool_decide (tn_state nd = TIMER_HEAP) in
  nodes_become t t' n
    (nd <| deadline_ms := d |>
        <| insertion_sequence := if armed then insertion_sequence nd else tm_next_sequence t |>
        <| tn_state := TIMER_HEAP |>) /\
  (forall k, k ∈ tm_heap t' <-> k = n \/ k ∈ tm_heap t) /\
  tm_due t' = filter (fun m => m <> n) (tm_due t) /\
  tm_capacity t <= tm_capacity t' /\
  tm_next_sequence t' = (if armed then tm_next_sequence t else u64 (tm_next_sequence t + 1)).

Lemma reschedule_ok n nd d t :
  timers_ok t -> tm_nodes t !! n = Some nd -> tn_state nd = TIMER_HEAP ->
  exists i, heap_index nd = Some i /\
  wp (index' ← kcpmux_timer_sift_up i; kcpmux_timer_sift_down index')
    (fun _ t' => timers_ok t' /\ scheduled t t' n nd d /\ tm_capacity t' = tm_capacity t)
    (t <| tm_nodes := <[n := nd <| deadline_ms := d |>]> (tm_nodes t) |>).
Proof.
  intros Hok Hn Hs. destruct (node_at_index t n nd Hok Hn Hs) as (i & Hi & Hat).
  exists i. split; [done|]. set (t1 := t <| tm_nodes := _ |>).
  destruct (rekey_except (tm_nodes t) (tm_heap t) i n nd (nd <| deadline_ms := d |>))
    as [Ho Hix]; [apply Hok|done..|].
  eapply wp_mono; [|apply (resift_ok i n t1); unfold t1; simpl; try done];
    [|apply Hok|by apply index_ok_live|intros ????; by apply Hix].
  intros _ t' (Hfr & Hperm & Hrep).
  assert (nodes_become t t' n (nd <| deadline_ms := d |>)) as Hb.
  { unfold nodes_become. by rewrite (sf_erased _ _ _ Hfr), <- erased_insert. }
  assert (n ∈ tm_heap t) as Hin by (apply list_elem_of_lookup; eauto).
  assert (n ∉ tm_due t) as Hnd by (rewrite <- (to_due _ Hok _ _ Hn); congruence).
  assert (tm_due t' = tm_due t) as Hdue by apply Hfr.
  assert (tm_capacity t' = tm_capacity t) as Hcap by apply Hfr.
  unfold t1 in Hperm. simpl in Hperm. split_and!; [|unfold scheduled|done].
  - eapply timers_ok_step; [exact Hok|exact Hb|..]; rewrite ?Hdue; simpl; try done.
    + intros k _. by rewrite Hperm.
    + by rewrite Hperm.
    + by rewrite Hs.
    + apply Hok.
    + apply (index_ok_live _ _ (hr_index _ _ Hrep)). by rewrite Hperm.
    + rewrite Hcap, Hperm. apply Hok.
  - rewrite bool_decide_eq_true_2 by done. split_and!.
    + unfold nodes_become in *. rewrite Hb. f_equal. destruct nd. simpl in *. by subst.
    + intros k. rewrite Hperm. naive_solver.
    + by rewrite (filter_ne_id _ _ Hnd), Hdue.
    + lia.
    + apply Hfr.
Qed.

(** A new last entry breaks the order at most there. *)
Lemma push_except m (h : list obj) n nd :
  heap_rep m h -> n ∉ h -> 
  heap_ok_except (<[n := nd]> m) (h ++ [n]) (length h) /\
  down_ok (<[n := nd]> m) (h ++ [n]) (length h) /\
  index_ok_except (<[n := nd]> m) (h ++ [n]) (length h).
Proof.
  intros Hrep Hn. destruct (heap_rep_insert m h n nd Hrep Hn) as [Hnd Hidx Hord].
  assert (forall j y, j <> length h -> (h ++ [n]) !! j = Some y -> h !! j = Some y) as Hl.
  { intros j y Hj Hy. pose proof (lookup_lt_Some _ _ _ Hy) as Hlt.
    rewrite length_app in Hlt. simpl in Hlt. by rewrite lookup_app_l in Hy by lia. }
  assert (forall j, (0 < j)%nat -> parent j = length h -> (h ++ [n]) !! j = None) as Hnone.
  { intros j Hj Hpar. apply lookup_ge_None. rewrite length_app. simpl.
    pose proof (parent_lt j Hj). lia. }
  split_and!; [split|..].
  - intros j y p Hj Hji Hpi Hy%Hl Hp%Hl; [by eapply Hord|done..].
  - intros j y p _ Hj Hpar Hy. by rewrite Hnone in Hy.
  - intros j y p Hj Hpar Hy. by rewrite Hnone in Hy.
  - intros j y Hj Hy%Hl; [by apply Hidx|done].
Qed.

Lemma enqueue_ok n nd d t :
  timers_ok t -> tm_nodes t !! n = Some nd -> tn_state nd <> TIMER_HEAP ->
  Z.of_nat (length (tm_heap t)) < tm_capacity t ->
  let t1 := t <| tm_due ::= filter (fun m => m <> n) |>
              <| tm_nodes := <[n := nd <| deadline_ms := d |>
                   <| insertion_sequence := tm_next_sequence t |>
                   <| tn_state := TIMER_HEAP |>]> (tm_nodes t) |>
              <| tm_next_sequence := u64 (tm_next_sequence t + 1) |>
              <| tm_heap ::= (fun h => h ++ [n]) |> in
  wp (kcpmux_timer_set (length (tm_heap t)) n;;
      _ ← kcpmux_timer_sift_up (length (tm_heap t)); mret KCPMUX_ERR_OK)
    (fun r t' => r = KCPMUX_ERR_OK /\ timers_ok t' /\ scheduled t t' n nd d) t1.
Proof.
  intros Hok Hn Hs Hcap t1. pose proof (to_heap _ Hok _ _ Hn) as Hheap.
  assert (n ∉ tm_heap t) as Hnh by (by rewrite <- Hheap).
  set (nd1 := nd <| deadline_ms := d |> <| insertion_sequence := tm_next_sequence t |>
                 <| tn_state := TIMER_HEAP |>) in *.
  rewrite wp_bind. eapply wp_set; unfold t1; simpl.
  { rewrite length_app. simpl. lia. }
  { apply lookup_insert_eq. }
  match goal with |- wp _ _ ?s => set (t2 := s) end.
  set (nd2 := nd1 <| heap_index := Some (length (tm_heap t)) |>).
  assert (tm_nodes t2 = <[n := nd2]> (tm_nodes t)) as Hn2.
  { unfold t2. simpl. by rewrite insert_insert_eq. }
  assert (tm_heap t2 = tm_heap t ++ [n]) as Hh2.
  { unfold t2. simpl. apply list_insert_id. by rewrite lookup_app_r, Nat.sub_diag by lia. }
  destruct (push_except (tm_nodes t) (tm_heap t) n nd2) as (Ho & Hdn & Hix); [apply Hok|done|].
  assert (live (tm_nodes t2) (tm_heap t2)) as Hlive.
  { rewrite Hn2, Hh2. intros y [Hy|Hy%list_elem_of_singleton]%elem_of_app.
    - apply lookup_insert_is_Some. destruct (decide (n = y)); [by left|right; split; [done|]].
      by apply (index_ok_live _ _ (hr_index _ _ (to_rep _ Hok))).
    - subst. rewrite lookup_insert_eq. eauto. }
  rewrite wp_bind. eapply wp_mono; [|apply (sift_up_ok _ n t2); rewrite ?Hn2, ?Hh2; try done].
  2: by rewrite lookup_app_r, Nat.sub_diag by lia.
  2: { apply list.NoDup_app. split_and!; [apply Hok|set_solver|apply NoDup_singleton]. }
  2: by rewrite <- Hn2, <- Hh2.
  intros i' t' (Hfr & Hperm & Hx & Hidx' & Ho' & Hup' & Hdn'). rewrite wp_ret.
  rewrite Hh2 in Hperm, Hdn'. rewrite Hn2 in Ho', Hup', Hdn'. specialize (Hdn' Hdn).
  assert (heap_rep (tm_nodes t') (tm_heap t')) as Hrep'.
  { split; [|done|].
    - rewrite Hperm. apply list.NoDup_app.
      split_and!; [apply Hok|set_solver|apply NoDup_singleton].
    - eapply heap_ok_erased; [apply Hfr|]. rewrite Hn2. by eapply heap_ok_glue. }
  assert (nodes_become t t' n nd1) as Hb.
  { unfold nodes_become. by rewrite (sf_erased _ _ _ Hfr), Hn2, erased_insert. }
  assert (forall k, k ∈ tm_heap t' <-> k = n \/ k ∈ tm_heap t) as Hmem.
  { intros k. rewrite Hperm. set_solver. }
  pose proof (sf_due _ _ _ Hfr) as Hdue. pose proof (sf_capacity _ _ _ Hfr) as Hcap'.
  unfold t2 in Hdue, Hcap'. simpl in Hdue, Hcap'.
  split_and!; [done|eapply timers_ok_step; [exact Hok|exact Hb|..]|unfold scheduled].
  - done.
  - intros k Hk. rewrite Hmem. naive_solver.
  - intros k Hk. rewrite Hdue, filter_ne_elem. tauto.
  - rewrite Hmem. naive_solver.
  - rewrite Hdue, filter_ne_elem. unfold nd1. simpl. naive_solver.
  - rewrite Hdue. apply list.NoDup_filter, Hok.
  - apply (index_ok_live _ _ Hidx'), Hmem. by left.
  - rewrite Hcap', Hperm, length_app. simpl. pose proof (to_capacity _ Hok). lia.
  - rewrite bool_decide_eq_false_2 by done.
    split_and!; [done|done|done|lia|]. by rewrite (sf_sequence _ _ _ Hfr).
Qed.

(** [kcpmux_timer_schedule] either arms the node at the new deadline or, when
    the array cannot grow, reports OOM and changes nothing. *)
Lemma schedule_ok alloc n nd d t :
  timers_ok t -> tm_nodes t !! n = Some nd ->
  wp (kcpmux_timer_schedule alloc n d) (fun r t' => timers_ok t' /\
    ((r = KCPMUX_ERR_OK /\ scheduled t t' n nd d) \/
     (r = KCPMUX_ERR_OOM /\ t' = t /\ tn_state nd <> TIMER_HEAP /\
      tm_capacity t = Z.of_nat (length (tm_heap t)) /\
      (reserve_reallocs (Z.of_nat (length (tm_heap t)) + 1) t = true -> alloc = false)))) t.
Proof.
  intros Hok Hn. unfold kcpmux_timer_schedule. pose proof (to_capacity _ Hok) as Hcap.
  rewrite wp_bind, (wp_get_node _ nd) by done.
  destruct (decide (tn_state nd = TIMER_HEAP)) as [Hs|Hs].
  - destruct (reschedule_ok n nd d t Hok Hn Hs) as (i & Hi & Hwp).
    rewrite wp_bind, (wp_mod_node _ nd), wp_bind by done.
    rewrite (wp_get_node _ (nd <| deadline_ms := d |>)) by (simpl; apply lookup_insert_eq).
    rewrite wp_bind, (wp_deref _ _ _ i) by done. rewrite wp_bind in Hwp. rewrite wp_bind.
    eapply wp_mono; [|exact Hwp]. intros i' t1 H1. rewrite wp_bind.
    eapply wp_mono; [|exact H1]. intros _ t' (Hok' & Hsch & _). rewrite wp_ret. auto.
  - rewrite wp_bind, wp_gets, wp_bind.
    assert (SIZE_MAX / SIZEOF_PTR < SIZE_MAX) by done.
    eapply wp_mono; [|apply reserve_ok; [done|lia]].
    intros r t1 (Hok1 & [(-> & Hc & Hc' & Ht1)|(-> & -> & Hc & Ha)]).
    2: { simpl. rewrite wp_ret. split; [done|right]. split_and!; try done. lia. }
    assert (tm_nodes t1 !! n = Some nd) as Hn1 by by rewrite Ht1.
    rewrite Z.eqb_refl. cbn [negb]. rewrite wp_bind.
    eapply (wp_mono _ (fun _ t' => t' = t1 <| tm_due ::= filter (fun m => m <> n) |>)); cycle 1.
    { rewrite wp_when. case_bool_decide as Hs2; [done|].
      destruct t1 as [h c q ns du]; simpl in *. f_equal. symmetry. apply filter_ne_id.
      pose proof (to_due _ Hok1 _ _ Hn1) as Hd. simpl in Hd. naive_solver. }
    intros _ ? ->. rewrite wp_bind, wp_gets, wp_bind, (wp_mod_node _ nd) by done.
    rewrite wp_bind, wp_modify, wp_bind, wp_gets, wp_bind, wp_gets.
    cbn [tm_heap tm_capacity upd].
    assert (Z.of_nat (length (tm_heap t1)) < tm_capacity t1) as Hlt.
    { rewrite Ht1. simpl. lia. }
    destruct (Z.ltb_spec (Z.of_nat (length (tm_heap t1))) (tm_capacity t1)) as [_|]; [|lia].
    rewrite wp_bind, wp_modify.
    eapply wp_mono; [|exact (enqueue_ok n nd d t1 Hok1 Hn1 Hs Hlt)].
    intros ? t' (-> & Hok' & Hsch). split; [done|left]. split; [done|].
    unfold scheduled, nodes_become in *. rewrite Ht1 in Hsch. simpl in Hsch.
    destruct Hsch as (?&?&?&?&?). split_and!; try done. lia.
Qed.

(** *** Extraction *)

Lemma root_minimal m h r j x :
  heap_rep m h -> h !! 0%nat = Some r -> h !! j = Some x -> kle m r x.
Proof.
  intros [_ Hidx Hord] Hr. revert x. induction (lt_wf j) as [j _ IH]. intros x Hx.
  destruct j as [|j].
  - simplify_eq. destruct (Hidx _ _ Hr) as (nd & Hnd & _).
    exists nd, nd. unfold node_le. eauto with lia.
  - pose proof (parent_lt (S j) ltac:(lia)) as Hp.
    destruct (lookup_lt_is_Some_2 h (parent (S j))) as [p Hpp].
    { apply lookup_lt_Some in Hx. lia. }
    eapply kle_trans; [by eapply IH|]. eapply (Hord (S j)); [lia|done|done].
Qed.

Definition same_keys (m m' : gmap obj timer_node) : Prop :=
  forall k nd, m !! k = Some nd -> exists nd', m' !! k = Some nd' /\
    deadline_ms nd' = deadline_ms nd /\ insertion_sequence nd' = insertion_sequence nd.

Lemma kle_same_keys m m' a b : same_keys m m' -> kle m a b -> kle m' a b.
Proof.
  intros Hs (na & nb & Ha & Hb & Hle).
  destruct (Hs _ _ Ha) as (na' & ? & ? & ?). destruct (Hs _ _ Hb) as (nb' & ? & ? & ?).
  exists na', nb'. split_and!; [done..|]. unfold node_le in *. lia.
Qed.

(** The nodes in [D] are due, the others as before, positions aside. *)
Definition marked_due (t t' : timers) (D : list obj) : Prop :=
  forall k, erase <$> tm_nodes t' !! k =
    (fun nd => erase (if decide (k ∈ D) then nd <| tn_state := TIMER_DUE |> else nd))
      <$> tm_nodes t !! k.

Lemma marked_due_lookup t t' D k nd' :
  marked_due t t' D -> tm_nodes t' !! k = Some nd' ->
  exists nd, tm_nodes t !! k = Some nd /\
    deadline_ms nd' = deadline_ms nd /\ insertion_sequence nd' = insertion_sequence nd.
Proof.
  intros Hm Hk. specialize (Hm k). rewrite Hk in Hm.
  destruct (tm_nodes t !! k) as [nd|] eqn:E; [|done]. exists nd. split; [done|].
  apply (inj Some) in Hm.
  split; [apply (f_equal deadline_ms) in Hm|apply (f_equal insertion_sequence) in Hm];
    simpl in Hm; by case_decide.
Qed.

Lemma marked_due_cons t t1 t2 n nd D :
  tm_nodes t !! n = Some nd -> nodes_become t t1 n (nd <| tn_state := TIMER_DUE |>) ->
  marked_due t1 t2 D -> marked_due t t2 (n :: D).
Proof.
  intros Hn Hb Hm k. rewrite Hm.
  assert (erase <$> tm_nodes t1 !! k = erased (tm_nodes t1) !! k) as He
    by (unfold erased; by rewrite lookup_fmap).
  rewrite Hb in He.
  destruct (decide (k = n)) as [->|Hne].
  - rewrite lookup_insert_eq in He. destruct (tm_nodes t1 !! n) as [nd1|]; [|done].
    apply (inj Some) in He. rewrite Hn. simpl. f_equal.
    rewrite (decide_True (P := n ∈ n :: D)) by set_solver.
    destruct nd, nd1; unfold erase in *; simpl in *. simplify_eq. by case_decide.
  - rewrite lookup_insert_ne in He by done. unfold erased in He. rewrite lookup_fmap in He.
    destruct (tm_nodes t1 !! k) as [nd1|], (tm_nodes t !! k) as [nd0|]; try done.
    apply (inj Some) in He. simpl. f_equal.
    destruct nd0, nd1; unfold erase in *; simpl in *. simplify_eq.
    repeat case_decide; set_solver.
Qed.

(** What [kcpmux_timer_collect_due] promises: it moves a list [D] from the
    heap to the end of the due list; [D] is in deadline order (insertion order
    among equal deadlines) and holds exactly the nodes due at [now]. *)
Record collected (now : Z) (t t' : timers) (D : list obj) : Prop := {
  cl_ok : timers_ok t';
  cl_due : tm_due t' = tm_due t ++ D;
  cl_perm : tm_heap t ≡ₚ D ++ tm_heap t';
  cl_sorted : StronglySorted (kle (tm_nodes t)) D;
  cl_late : forall n nd, n ∈ D -> tm_nodes t !! n = Some nd -> deadline_ms nd <= now;
  cl_rest : forall n nd, n ∈ tm_heap t' -> tm_nodes t !! n = Some nd -> now < deadline_ms nd;
  cl_nodes : marked_due t t' D;
  cl_capacity : tm_capacity t' = tm_capacity t;
  cl_sequence : tm_next_sequence t' = tm_next_sequence t
}.

Lemma collected_nil now t :
  timers_ok t ->
  (forall n nd, n ∈ tm_heap t -> tm_nodes t !! n = Some nd -> now < deadline_ms nd) ->
  collected now t t [].
Proof.
  intros Hok Hrest. split; try done.
  - by rewrite app_nil_r.
  - constructor.
  - set_solver.
Qed.

Lemma sorted_mono (R R' : obj -> obj -> Prop) l :
  (forall a b, R a b -> R' a b) -> StronglySorted R l -> StronglySorted R' l.
Proof.
  intros HR. induction 1 as [|a l _ IH Ha]; constructor; [done|].
  rewrite Forall_forall in Ha |- *. eauto.
Qed.

Lemma collected_cons now t t1 t' n nd D :
  timers_ok t -> tm_heap t !! 0%nat = Some n -> tm_nodes t !! n = Some nd ->
  deadline_ms nd <= now -> tm_heap t ≡ₚ n :: tm_heap t1 ->
  nodes_become t t1 n (nd <| tn_state := TIMER_DUE |>) ->
  tm_due t1 = tm_due t ++ [n] -> tm_capacity t1 = tm_capacity t ->
  tm_next_sequence t1 = tm_next_sequence t ->
  collected now t1 t' D -> collected now t t' (n :: D).
Proof.
  intros Hok Hroot Hn Hlate Hperm Hb Hdue Hcap Hseq [Hok' Hd Hp Hsrt Hl Hr Hm Hc Hs].
  assert (same_keys (tm_nodes t1) (tm_nodes t)) as Hk1.
  { intros k ndk Hk. destruct (nodes_become_lookup _ _ _ _ _ _ Hb Hk)
      as [[-> He]|(_ & nd0 & Hk0 & He)]; [exists nd|exists nd0]; (split; [done|]);
      split; first [by apply (f_equal deadline_ms) in He | by apply (f_equal insertion_sequence) in He]. }
  assert (forall k ndk, tm_nodes t !! k = Some ndk -> exists nd1, tm_nodes t1 !! k = Some nd1 /\
    deadline_ms nd1 = deadline_ms ndk) as Hk2.
  { intros k ndk Hk. destruct (nodes_become_live t t1 n _ [k] Hb) with k as [nd1 Hnd1].
    - intros ? ->%list_elem_of_singleton. eauto.
    - by apply list_elem_of_singleton.
    - destruct (Hk1 _ _ Hnd1) as (? & ? & ? & _). simplify_eq. eauto. }
  split; try done; try congruence.
  - by rewrite Hd, Hdue, <- app_assoc.
  - rewrite Hperm, Hp. done.
  - constructor.
    + eapply sorted_mono; [|exact Hsrt]. intros a b. by apply kle_same_keys.
    + apply Forall_forall. intros y Hy.
      assert (y ∈ tm_heap t) as [j Hj]%list_elem_of_lookup.
      { rewrite Hperm, Hp. apply elem_of_cons. right. apply elem_of_app. left.
        by apply list_elem_of_In. }
      eapply root_minimal; [apply Hok|done|done].
  - intros k ndk [->|Hk]%elem_of_cons Hndk; [by simplify_eq|].
    destruct (Hk2 _ _ Hndk) as (nd1 & Hnd1 & <-). by eapply Hl.
  - intros k ndk Hk Hndk. destruct (Hk2 _ _ Hndk) as (nd1 & Hnd1 & <-). by eapply Hr.
  - by eapply marked_due_cons.
Qed.

Lemma collect_due_loop_ok fuel now t :
  (length (tm_heap t) < fuel)%nat -> timers_ok t ->
  wp (collect_due_loop fuel now) (fun _ t' => exists D, collected now t t' D) t.
Proof.
  revert t. induction fuel as [|fuel IH]; intros t Hf Hok; [lia|].
  cbn [collect_due_loop]. unfold kcpmux_timer_peek. rewrite wp_bind, wp_gets.
  destruct (tm_heap t) as [|n h] eqn:Hh; simpl.
  { rewrite wp_ret. exists []. apply collected_nil; [done|]. rewrite Hh. set_solver. }
  assert (tm_heap t !! 0%nat = Some n) as Hroot by by rewrite Hh.
  destruct (index_ok_live _ _ (hr_index _ _ (to_rep _ Hok)) n) as [nd Hn].
  { apply list_elem_of_lookup. eauto. }
  rewrite wp_bind, (wp_get_node _ nd) by done.
  destruct (Z.ltb_spec now (deadline_ms nd)) as [Hlt|Hle].
  { rewrite wp_ret. exists []. apply collected_nil; [done|].
    intros k ndk [j Hj]%list_elem_of_lookup Hk.
    destruct (root_minimal _ _ _ _ _ (to_rep _ Hok) Hroot Hj) as (a & b & ? & ? & Hab).
    simplify_eq. unfold node_le in Hab. lia. }
  assert (tn_state nd = TIMER_HEAP) as Hs.
  { eapply to_heap; [done..|]. apply list_elem_of_lookup. eauto. }
  destruct (remove_node_ok n nd t Hok Hn Hs) as (i & Hi & Hat & Hrm).
  assert (i = 0%nat) as -> by (eapply NoDup_lookup; [apply Hok|done|done]).
  rewrite wp_bind. eapply wp_mono; [|exact Hrm].
  intros r t1 (-> & Hfr & Hperm & Hmem & Hrep & nd1 & Hn1 & He1).
  rewrite wp_bind, (wp_mod_node _ nd1), wp_bind, wp_modify by done.
  assert (n ∉ tm_due t) as Hnd by (rewrite <- (to_due _ Hok _ _ Hn); congruence).
  assert (length (tm_heap t) = S (length (tm_heap t1))) as Hlen
    by by apply Permutation_length in Hperm.
  pose proof (sf_due _ _ _ Hfr) as Hdue.
  destruct (leave_heap_ok n nd t t1 nd1 TIMER_DUE (tm_due t ++ [n])) as [Hok2 Hb2]; try done.
  - lia.
  - rewrite elem_of_app, list_elem_of_singleton. tauto.
  - apply list.NoDup_app. split_and!; [apply Hok| |apply NoDup_singleton].
    by intros x Hx ->%list_elem_of_singleton.
  - intros k Hk. rewrite elem_of_app, list_elem_of_singleton. tauto.
  - match goal with |- wp _ _ ?s => replace s with
      (t1 <| tm_nodes := <[n := nd1 <| tn_state := TIMER_DUE |>]> (tm_nodes t1) |>
          <| tm_due := tm_due t ++ [n] |>) by (simpl; by rewrite Hdue) end.
    eapply wp_mono; [|apply IH; [|done]].
    + intros _ t' [D HD]. exists (n :: D).
      eapply (collected_cons now t _ t' n nd D); [..|exact HD]; try done; apply Hfr.
    + simpl. rewrite Hh in Hlen. simpl in *. lia.
Qed.

Lemma collect_due_ok now t :
  timers_ok t ->
  wp (kcpmux_timer_collect_due now) (fun _ t' => exists D, collected now t t' D) t.
Proof.
  intros Hok. unfold kcpmux_timer_collect_due. rewrite wp_bind, wp_gets.
  apply collect_due_loop_ok; [lia|done].
Qed.
