(* ===== verification/TimerSpec.v ===== *)
(** * The deadline scheduler refines a finite map

    The contract of src/kcpmux_timer.c towards the engine: the manager denotes
    the finite map [deadlines] from objects to the deadline each is armed for.
    Scheduling inserts, cancelling deletes, peeking returns a minimum, and
    collecting splits the map at the current time. *)

From Stdlib Require Import Sorting.Sorted.
From S2P Require Import Prelude Types Timer TimerProofs.

Definition armed_at (nd : timer_node) : option Z :=
  if decide (tn_state nd = TIMER_HEAP) then Some (deadline_ms nd) else None.

(** The abstract state: who is armed, and for when. *)
Definition deadlines (t : timers) : gmap obj Z := omap armed_at (tm_nodes t).

Lemma armed_at_erase nd nd' : erase nd = erase nd' -> armed_at nd = armed_at nd'.
Proof.
  intros He. unfold armed_at. rewrite (erase_state _ _ He).
  apply (f_equal deadline_ms) in He. simpl in He. by rewrite He.
Qed.

Lemma deadlines_lookup t n : deadlines t !! n = tm_nodes t !! n ≫= armed_at.
Proof. apply lookup_omap. Qed.

Lemma deadlines_become t t' n nd :
  nodes_become t t' n nd ->
  deadlines t' = partial_alter (fun _ => armed_at nd) n (deadlines t).
Proof.
  intros Hb. apply map_eq. intros k. rewrite deadlines_lookup.
  assert (erase <$> tm_nodes t' !! k = <[n := erase nd]> (erased (tm_nodes t)) !! k) as He
    by (rewrite <- Hb; unfold erased; by rewrite lookup_fmap).
  destruct (decide (k = n)) as [->|Hne].
  - rewrite lookup_partial_alter_eq. rewrite lookup_insert_eq in He.
    destruct (tm_nodes t' !! n) as [nd'|]; [|done]. apply (inj Some) in He.
    simpl. by apply armed_at_erase.
  - rewrite lookup_partial_alter_ne, deadlines_lookup by done.
    rewrite lookup_insert_ne in He by done. unfold erased in He. rewrite lookup_fmap in He.
    destruct (tm_nodes t' !! k) as [a|], (tm_nodes t !! k) as [b|]; try done.
    apply (inj Some) in He. simpl. by apply armed_at_erase.
Qed.

Lemma deadlines_mem t n : timers_ok t -> is_Some (deadlines t !! n) <-> n ∈ tm_heap t.
Proof.
  intros Hok. rewrite deadlines_lookup. unfold armed_at. split.
  - destruct (tm_nodes t !! n) as [nd|] eqn:Hn; simpl; [|by intros []].
    case_decide; [|by intros []]. intros _. by apply (to_heap _ Hok _ _ Hn).
  - intros Hin. destruct (index_ok_live _ _ (hr_index _ _ (to_rep _ Hok)) n Hin) as [nd Hn].
    rewrite Hn. simpl. rewrite decide_True by by eapply to_heap. eauto.
Qed.

Lemma peek_ok t :
  timers_ok t ->
  exists root, kcpmux_timer_peek t = Some (root, t) /\
    match root with
    | None => deadlines t = ∅
    | Some n => exists d, deadlines t !! n = Some d /\
        forall k d', deadlines t !! k = Some d' -> d <= d'
    end.
Proof.
  intros Hok. eexists. split; [reflexivity|].
  destruct (tm_heap t) as [|n h] eqn:Hh; simpl.
  - apply map_empty. intros k. destruct (deadlines t !! k) eqn:Hk; [|done].
    assert (k ∈ tm_heap t) as Hin by (apply deadlines_mem; eauto).
    rewrite Hh in Hin. set_solver.
  - assert (is_Some (deadlines t !! n)) as [d Hd].
    { apply deadlines_mem; [done|]. rewrite Hh. by left. }
    exists d. split; [done|]. intros k d' Hk.
    assert (k ∈ tm_heap t) as [j Hj]%list_elem_of_lookup by (apply deadlines_mem; eauto).
    destruct (root_minimal _ _ n j k (to_rep _ Hok)) as (a & b & Ha & Hb & Hle);
      [by rewrite Hh|done|].
    rewrite deadlines_lookup, Ha in Hd. rewrite deadlines_lookup, Hb in Hk.
    simpl in *. unfold armed_at, node_le in *. repeat case_decide; simplify_eq; lia.
Qed.

(** ** Properties *)

(** C26.  Scheduling refines insertion.  On a well-formed manager,
    [kcpmux_timer_schedule] of a live node always returns; either it succeeds
    and the abstract map gains exactly [n] at the given deadline (replacing an
    earlier deadline of [n]), or it reports OOM and nothing changes, which
    happens only if the array was full and could not be reallocated. *)
Theorem timer_schedule_refines alloc n d t nd :
  timers_ok t -> tm_nodes t !! n = Some nd ->
  exists r t', kcpmux_timer_schedule alloc n d t = Some (r, t') /\ timers_ok t' /\
    ((r = KCPMUX_ERR_OK /\ deadlines t' = <[n := d]> (deadlines t)) \/
     (r = KCPMUX_ERR_OOM /\ t' = t /\
      tm_capacity t = Z.of_nat (length (tm_heap t)) /\
      (reserve_reallocs (Z.of_nat (length (tm_heap t)) + 1) t = true -> alloc = false))).
Proof.
  intros Hok Hn. pose proof (schedule_ok alloc n nd d t Hok Hn) as Hwp.
  apply wp_some in Hwp as (r & t' & Heq & Hok' & Hr). exists r, t'. split_and!; [done..|].
  destruct Hr as [[-> Hs]|(-> & -> & _ & ? & ?)]; [left|right; done].
  split; [done|]. destruct Hs as (Hb & _). by rewrite (deadlines_become _ _ _ _ Hb).
Qed.

(** C27.  Cancelling refines deletion.  [kcpmux_timer_cancel] of a live node
    always returns, removes exactly that node from the abstract map and from
    the list of collected nodes, and keeps the manager well formed. *)
Theorem timer_cancel_refines n t nd :
  timers_ok t -> tm_nodes t !! n = Some nd ->
  exists t', kcpmux_timer_cancel n t = Some (tt, t') /\ timers_ok t' /\
    deadlines t' = delete n (deadlines t) /\
    tm_due t' = filter (fun k => k <> n) (tm_due t).
Proof.
  intros Hok Hn. pose proof (cancel_ok n nd t Hok Hn) as Hwp.
  apply wp_some in Hwp as ([] & t' & Heq & Hok' & Hb & _ & Hdue & _).
  exists t'. split_and!; try done. by rewrite (deadlines_become _ _ _ _ Hb).
Qed.

(** C28.  The root is the earliest deadline.  [kcpmux_timer_peek] returns NULL
    exactly when nothing is armed, and otherwise an armed node whose deadline
    is no later than any other armed deadline. *)
Theorem timer_peek_minimum t :
  timers_ok t ->
  exists root, kcpmux_timer_peek t = Some (root, t) /\
    match root with
    | None => deadlines t = ∅
    | Some n => exists d, deadlines t !! n = Some d /\
        forall k d', deadlines t !! k = Some d' -> d <= d'
    end.
Proof. apply peek_ok. Qed.

(** C29.  Collecting due timers.  [kcpmux_timer_collect_due] always returns; it
    appends to the due list exactly the armed nodes whose deadline has been
    reached, earliest first and in order of insertion among equal deadlines,
    and leaves armed exactly the others. *)
Theorem timer_collect_due_splits now t :
  timers_ok t ->
  exists t' D, kcpmux_timer_collect_due now t = Some (tt, t') /\ timers_ok t' /\
    tm_due t' = tm_due t ++ D /\ NoDup D /\
    (forall n, n ∈ D <-> exists d, deadlines t !! n = Some d /\ d <= now) /\
    StronglySorted (kle (tm_nodes t)) D /\
    deadlines t' = filter (fun kd => now < kd.2) (deadlines t).
Proof.
  intros Hok. pose proof (collect_due_ok now t Hok) as Hwp.
  apply wp_some in Hwp as ([] & t' & Heq & D & HD). exists t', D.
  destruct HD as [Hok' Hdue Hperm Hsort Hlate Hrest Hnodes _ _].
  pose proof (hr_nodup _ _ (to_rep _ Hok)) as Hnd. rewrite Hperm in Hnd.
  apply list.NoDup_app in Hnd as (HndD & Hdisj & _).
  assert (forall n, n ∈ D -> exists nd, tm_nodes t !! n = Some nd /\ armed_at nd = Some (deadline_ms nd)) as HD.
  { intros n Hn. assert (n ∈ tm_heap t) as Hin by (rewrite Hperm; apply elem_of_app; by left).
    destruct (index_ok_live _ _ (hr_index _ _ (to_rep _ Hok)) n Hin) as [nd Hnd].
    exists nd. split; [done|]. unfold armed_at.
    by rewrite decide_True by by apply (to_heap _ Hok _ _ Hnd). }
  split_and!; try done.
  - intros n. split.
    + intros Hn. destruct (HD n Hn) as (nd & Hnd & Ha). exists (deadline_ms nd).
      rewrite deadlines_lookup, Hnd. split; [done|]. by eapply Hlate.
    + intros (d & Hd & Hle). assert (n ∈ tm_heap t) as Hin by (apply deadlines_mem; eauto).
      rewrite Hperm in Hin. apply elem_of_app in Hin as [|Hin]; [done|].
      rewrite deadlines_lookup in Hd. destruct (tm_nodes t !! n) as [nd|] eqn:Hnd; [|done].
      pose proof (Hrest n nd Hin Hnd). simpl in Hd. unfold armed_at in Hd.
      case_decide; simplify_eq; lia.
  - apply map_eq. intros k. rewrite map_lookup_filter, !deadlines_lookup.
    specialize (Hnodes k). destruct (tm_nodes t !! k) as [nd|] eqn:Hk; simpl in Hnodes;
      destruct (tm_nodes t' !! k) as [nd'|] eqn:Hk'; try done.
    apply (inj Some) in Hnodes. simpl.
    destruct (decide (k ∈ D)) as [HkD|HkD].
    + rewrite (armed_at_erase _ _ Hnodes). destruct (HD k HkD) as (? & ? & Ha). simplify_eq.
      rewrite Ha. simpl. rewrite option_guard_False; [done|].
      pose proof (Hlate k nd HkD Hk). simpl. lia.
    + rewrite (armed_at_erase _ _ Hnodes). unfold armed_at.
      case_decide as Hs; [|done]. simpl. rewrite option_guard_True; [done|]. simpl.
      apply (Hrest k nd); [|done]. apply (to_heap _ Hok _ _ Hk) in Hs. rewrite Hperm in Hs.
      by apply elem_of_app in Hs as [|].
Qed.

(** C38.  Growing the array.  [kcpmux_timer_manager_reserve] always returns;
    on success the capacity reaches the request and never shrinks, grows to
    less than twice the larger of the request and the initial size of 8 when
    it has to grow, and no pending deadline is touched; on failure nothing
    changes. *)
Theorem timer_reserve_bounds alloc c t :
  timers_ok t -> 0 <= c <= SIZE_MAX ->
  exists r t', kcpmux_timer_manager_reserve alloc c t = Some (r, t') /\ timers_ok t' /\
    deadlines t' = deadlines t /\
    ((r = KCPMUX_ERR_OK /\ c <= tm_capacity t' /\ tm_capacity t <= tm_capacity t' /\
      (tm_capacity t' = tm_capacity t \/ tm_capacity t' < 2 * Z.max 8 c)) \/
     (r = KCPMUX_ERR_OOM /\ t' = t /\ tm_capacity t < c)).
Proof.
  intros Hok Hc. pose proof (reserve_ok alloc c t Hok Hc) as Hwp.
  apply wp_some in Hwp as (r & t' & Heq & Hok' & Hr). exists r, t'.
  assert (tm_capacity t' = tm_capacity t \/ tm_capacity t' < 2 * Z.max 8 c) as Hb.
  { unfold kcpmux_timer_manager_reserve, mbind, M_bind, gets, mret, M_ret in Heq.
    destruct (Z.leb_spec c (tm_capacity t)); [by simplify_eq; left|].
    destruct (SIZE_MAX / SIZEOF_PTR <? _); [by simplify_eq; left|].
    destruct alloc; simplify_eq/=; [right|by left]. pose proof (to_capacity _ Hok).
    unfold reserve_capacity. destruct (Z.eqb_spec (tm_capacity t) 0).
    - destruct (Z.le_gt_cases c 8).
      + simpl. destruct (Z.ltb_spec 8 c); lia.
      + eapply Z.lt_le_trans; [apply reserve_grow_bound; lia|lia].
    - eapply Z.lt_le_trans; [apply reserve_grow_bound; lia|lia]. }
  split_and!; [done|done| |].
  - destruct Hr as [(_ & _ & _ & ->)|(_ & -> & _)]; done.
  - destruct Hr as [(-> & ? & ? & _)|(-> & -> & ? & _)]; [left|right]; done.
Qed.

(** ** Concrete managers used by the witnesses *)

Definition idle_node (o : obj) (cb : timer_cb) : timer_node :=
  mk_timer_node None 0 0 (Some o) (Some cb) TIMER_IDLE.

Definition sample0 : timers :=
  mk_timers [] 0 0
    (<[OConn 1 := idle_node (OConn 1) conn_timer_callback]>
       (<[OStream 2 := idle_node (OStream 2) stream_timer_callback]> ∅)) [].

Definition sample1 : timers :=
  match kcpmux_timer_schedule true (OConn 1) 30 sample0 with
  | Some (_, t) => t | None => sample0 end.

Definition sample2 : timers :=
  match kcpmux_timer_schedule true (OStream 2) 20 sample1 with
  | Some (_, t) => t | None => sample1 end.

Lemma sample0_ok : timers_ok sample0.
Proof.
  assert (forall n nd, tm_nodes sample0 !! n = Some nd -> tn_state nd = TIMER_IDLE) as Hidle.
  { intros n nd. unfold sample0. simpl. rewrite lookup_insert. case_decide; [by intros [= <-]|].
    rewrite lookup_insert. case_decide; [by intros [= <-]|]. by rewrite lookup_empty. }
  split; [split|..]; simpl; try done; try constructor; try set_solver.
  - intros Hs. rewrite (Hidle _ _ H) in Hs. done.
  - intros Hs. rewrite (Hidle _ _ H) in Hs. done.
Qed.

Lemma schedule_keeps_ok alloc n nd d t :
  timers_ok t -> tm_nodes t !! n = Some nd ->
  timers_ok (match kcpmux_timer_schedule alloc n d t with Some (_, t') => t' | None => t end).
Proof.
  intros Hok Hn. pose proof (schedule_ok alloc n nd d t Hok Hn) as Hwp.
  apply wp_some in Hwp as (r & t' & -> & ? & _). done.
Qed.

Lemma sample1_ok : timers_ok sample1.
Proof. eapply schedule_keeps_ok; [apply sample0_ok|by vm_compute]. Qed.

Lemma sample2_ok : timers_ok sample2.
Proof. eapply schedule_keeps_ok; [apply sample1_ok|by vm_compute]. Qed.

(** Rescheduling the stream of [sample2] from 20 to 50. *)
Lemma timer_schedule_refines_witness :
  exists r t', kcpmux_timer_schedule true (OStream 2) 50 sample2 = Some (r, t') /\ timers_ok t' /\
    ((r = KCPMUX_ERR_OK /\ deadlines t' = <[OStream 2 := 50]> (deadlines sample2)) \/
     (r = KCPMUX_ERR_OOM /\ t' = sample2 /\
      tm_capacity sample2 = Z.of_nat (length (tm_heap sample2)) /\
      (reserve_reallocs (Z.of_nat (length (tm_heap sample2)) + 1) sample2 = true -> true = false))).
Proof.
  eapply (timer_schedule_refines true (OStream 2) 50 sample2); [apply sample2_ok|].
  vm_compute. reflexivity.
Defined.

Lemma timer_cancel_refines_witness :
  exists t', kcpmux_timer_cancel (OStream 2) sample2 = Some (tt, t') /\ timers_ok t' /\
    deadlines t' = delete (OStream 2) (deadlines sample2) /\
    tm_due t' = filter (fun k => k <> OStream 2) (tm_due sample2).
Proof.
  eapply (timer_cancel_refines (OStream 2) sample2); [apply sample2_ok|].
  vm_compute. reflexivity.
Defined.

Lemma timer_peek_minimum_witness :
  exists root, kcpmux_timer_peek sample2 = Some (root, sample2) /\
    match root with
    | None => deadlines sample2 = ∅
    | Some n => exists d, deadlines sample2 !! n = Some d /\
        forall k d', deadlines sample2 !! k = Some d' -> d <= d'
    end.
Proof. exact (timer_peek_minimum sample2 sample2_ok). Defined.

Lemma timer_collect_due_splits_witness :
  exists t' D, kcpmux_timer_collect_due 25 sample2 = Some (tt, t') /\ timers_ok t' /\
    tm_due t' = tm_due sample2 ++ D /\ NoDup D /\
    (forall n, n ∈ D <-> exists d, deadlines sample2 !! n = Some d /\ d <= 25) /\
    StronglySorted (kle (tm_nodes sample2)) D /\
    deadlines t' = filter (fun kd => 25 < kd.2) (deadlines sample2).
Proof. exact (timer_collect_due_splits 25 sample2 sample2_ok). Defined.

Lemma timer_reserve_bounds_witness :
  exists r t', kcpmux_timer_manager_reserve true 9 sample2 = Some (r, t') /\ timers_ok t' /\
    deadlines t' = deadlines sample2 /\
    ((r = KCPMUX_ERR_OK /\ 9 <= tm_capacity t' /\ tm_capacity sample2 <= tm_capacity t' /\
      (tm_capacity t' = tm_capacity sample2 \/ tm_capacity t' < 2 * Z.max 8 9)) \/
     (r = KCPMUX_ERR_OOM /\ t' = sample2 /\ tm_capacity sample2 < 9)).
Proof.
  apply (timer_reserve_bounds true 9 sample2); [apply sample2_ok|].
  vm_compute. split; discriminate.
Defined.
