(* ===== verification/ByteOrder.v ===== *)
(** * Network byte order (src/kcpmux_protocol.c, lines 9-52)

    The [__write_*] helpers produce the bytes they store; the [__read_*]
    helpers read them at an offset of a buffer, and reading past the end of
    the buffer is [None] (undefined behaviour). *)

From S2P Require Import Prelude.

Definition write_u16 (val : Z) : list Z :=
  [u8 (Z.shiftr val 8); u8 (Z.land val 0xff)].

Definition write_u64 (val : Z) : list Z :=
  map (fun i => u8 (Z.shiftr val (56 - i * 8))) (seqZ 0 8).

Definition write_u32 (val : Z) : list Z :=
  [u8 (Z.shiftr val 24); u8 (Z.land (Z.shiftr val 16) 0xff);
   u8 (Z.land (Z.shiftr val 8) 0xff); u8 (Z.land val 0xff)].

Definition read_u16 (buf : list Z) (off : nat) : option Z :=
  b0 ← buf !! off;
  b1 ← buf !! (off + 1)%nat;
  Some (u16 (Z.lor (Z.shiftl b0 8) b1)).

(** The [for] loop of [__read_u64], [n] iterations from index [i]. *)
Fixpoint read_u64_loop (n : nat) (buf : list Z) (i : nat) (val : Z) : option Z :=
  match n with
  | O => Some val
  | S n' => b ← buf !! i; read_u64_loop n' buf (i + 1) (Z.lor (u64 (Z.shiftl val 8)) b)
  end.

Definition read_u64 (buf : list Z) (off : nat) : option Z := read_u64_loop 8 buf off 0.

Definition read_u32 (buf : list Z) (off : nat) : option Z :=
  b0 ← buf !! off;
  b1 ← buf !! (off + 1)%nat;
  b2 ← buf !! (off + 2)%nat;
  b3 ← buf !! (off + 3)%nat;
  Some (Z.lor (Z.lor (Z.lor (u32 (Z.shiftl b0 24)) (u32 (Z.shiftl b1 16)))
                     (u32 (Z.shiftl b2 8))) b3).

Definition is_byte (b : Z) : Prop := in_u 8 b.

(** ** Big-endian numbers *)

(** The number a byte string denotes, and the [n]-byte string of a number. *)
Fixpoint be_val_from (acc : Z) (bs : list Z) : Z :=
  match bs with
  | [] => acc
  | b :: bs' => be_val_from (acc * 256 + b) bs'
  end.

Fixpoint be_bytes (n : nat) (v : Z) : list Z :=
  match n with
  | O => []
  | S n' => u8 (v / 256 ^ Z.of_nat n') :: be_bytes n' v
  end.

Lemma lor_shiftl a b k : 0 <= k -> 0 <= b < 2 ^ k -> Z.lor (Z.shiftl a k) b = a * 2 ^ k + b.
Proof.
  intros Hk Hb. rewrite <- Z.shiftl_mul_pow2 by done. symmetry. apply Z.add_nocarry_lor.
  apply Z.bits_inj'. intros i Hi. rewrite Z.land_spec, Z.bits_0.
  destruct (Z.lt_ge_cases i k).
  - by rewrite Z.shiftl_spec_low.
  - destruct (Z.eq_dec b 0) as [->|]; [by rewrite Z.bits_0, andb_false_r|].
    rewrite (Z.bits_above_log2 b i), andb_false_r; [done|lia|].
    assert (Z.log2 b < k) by (apply Z.log2_lt_pow2; lia). lia.
Qed.

Lemma be_val_from_bound acc bs :
  Forall is_byte bs -> 0 <= acc ->
  acc * 256 ^ Z.of_nat (length bs) <= be_val_from acc bs < (acc + 1) * 256 ^ Z.of_nat (length bs).
Proof.
  intros Hbs. revert acc. induction Hbs as [|b bs Hb Hbs IH]; intros acc Hacc; simpl.
  - lia.
  - unfold is_byte, in_u in Hb. specialize (IH (acc * 256 + b) ltac:(lia)).
    rewrite Nat2Z.inj_succ, Z.pow_succ_r by lia. nia.
Qed.

Lemma be_bytes_byte n v : Forall is_byte (be_bytes n v).
Proof. induction n; constructor; [by apply wrap_range|done]. Qed.

Lemma be_bytes_length n v : length (be_bytes n v) = n.
Proof. induction n; simpl; congruence. Qed.

Lemma be_val_bytes n v acc :
  be_val_from acc (be_bytes n v) = acc * 256 ^ Z.of_nat n + v mod 256 ^ Z.of_nat n.
Proof.
  revert acc. induction n as [|n IH]; intros acc; cbn [be_bytes be_val_from].
  - rewrite Z.pow_0_r, Z.mod_1_r. lia.
  - rewrite IH, Nat2Z.inj_succ, Z.pow_succ_r by lia. unfold wrap. change (2 ^ 8) with 256.
    assert (0 < 256 ^ Z.of_nat n) by lia.
    rewrite (Z.mul_comm 256 (256 ^ _)), Z.rem_mul_r by lia. lia.
Qed.

Lemma be_bytes_val_from acc bs n :
  Forall is_byte bs -> length bs = n -> 0 <= acc -> be_bytes n (be_val_from acc bs) = bs.
Proof.
  intros Hbs. revert acc n. induction Hbs as [|b bs Hb Hbs IH]; intros acc n <- Hacc; [done|].
  cbn [be_bytes be_val_from length]. unfold is_byte, in_u in Hb.
  rewrite (IH (acc * 256 + b)) by (done || lia). f_equal.
  pose proof (be_val_from_bound (acc * 256 + b) bs Hbs ltac:(lia)).
  assert (0 < 256 ^ Z.of_nat (length bs)) by lia.
  assert (be_val_from (acc * 256 + b) bs / 256 ^ Z.of_nat (length bs) = acc * 256 + b) as ->.
  { symmetry. apply (Z.div_unique_pos _ _ _
      (be_val_from (acc * 256 + b) bs - (acc * 256 + b) * 256 ^ Z.of_nat (length bs))); nia. }
  unfold wrap. change (2 ^ 8) with 256. rewrite Z.add_comm, Z.mod_add, Z.mod_small; lia.
Qed.

(** The C helpers compute these. *)
Lemma land_ff v : u8 (Z.land v 0xff) = u8 v.
Proof.
  change 0xff with (Z.ones 8). rewrite Z.land_ones by done. by apply wrap_wrap.
Qed.

Lemma write_u16_be v : write_u16 v = be_bytes 2 v.
Proof. unfold write_u16. rewrite land_ff, Z.shiftr_div_pow2 by done. cbn. by rewrite Z.div_1_r. Qed.

Lemma write_u32_be v : write_u32 v = be_bytes 4 v.
Proof.
  unfold write_u32. rewrite !land_ff, !Z.shiftr_div_pow2 by done. cbn. by rewrite Z.div_1_r.
Qed.

Lemma write_u64_be v : write_u64 v = be_bytes 8 v.
Proof.
  unfold write_u64. change (seqZ 0 8) with [0; 1; 2; 3; 4; 5; 6; 7]. cbn [map].
  rewrite !Z.shiftr_div_pow2 by done. reflexivity.
Qed.

(** Reading [n] bytes at [off] yields the number they denote. *)
Definition bytes_at (buf : list Z) (off : nat) (bs : list Z) : Prop :=
  forall i b, bs !! i = Some b -> buf !! (off + i)%nat = Some b.

Lemma bytes_at_app buf off b bs :
  bytes_at buf off (b :: bs) <-> buf !! off = Some b /\ bytes_at buf (off + 1) bs.
Proof.
  split.
  - intros H. split; [by rewrite <- (Nat.add_0_r off); apply (H 0%nat)|].
    intros i c Hc. rewrite <- Nat.add_assoc. by apply (H (S i)).
  - intros [H0 H] [|i] c Hc; [simplify_eq/=; by rewrite Nat.add_0_r|].
    replace (off + S i)%nat with (off + 1 + i)%nat by lia. by apply H.
Qed.

Lemma read_u64_loop_be buf off bs val :
  bytes_at buf off bs -> Forall is_byte bs -> 0 <= val ->
  (val + 1) * 256 ^ Z.of_nat (length bs) <= 2 ^ 64 ->
  read_u64_loop (length bs) buf off val = Some (be_val_from val bs).
Proof.
  revert off val. induction bs as [|b bs IH]; intros off val Hat Hbs Hv Hlt; [done|].
  apply bytes_at_app in Hat as [H0 Hat]. apply list.Forall_cons in Hbs as [Hb Hbs].
  cbn [read_u64_loop length be_val_from]. rewrite H0. simpl.
  unfold is_byte, in_u in Hb. simpl length in Hlt.
  rewrite Nat2Z.inj_succ, Z.pow_succ_r in Hlt by lia.
  assert (0 < 256 ^ Z.of_nat (length bs)) by lia.
  rewrite wrap_small.
  - rewrite lor_shiftl by lia. change (2 ^ 8) with 256. apply IH; [done|done|lia|nia].
  - unfold in_u. rewrite Z.shiftl_mul_pow2 by lia. nia.
Qed.

Lemma read_u64_be buf off bs :
  bytes_at buf off bs -> Forall is_byte bs -> length bs = 8%nat ->
  read_u64 buf off = Some (be_val_from 0 bs).
Proof.
  intros Hat Hbs Hl. unfold read_u64. rewrite <- Hl.
  apply read_u64_loop_be; [done|done|lia|]. rewrite Hl. done.
Qed.

Ltac byte_bounds :=
  repeat match goal with
  | H : Forall is_byte (_ :: _) |- _ => apply list.Forall_cons in H as [? H]
  | H : bytes_at _ _ (_ :: _) |- _ => apply bytes_at_app in H as [? H]
  end; unfold is_byte, in_u in *.

Ltac read_bytes :=
  repeat match goal with H : ?l !! ?i = Some _ |- context [?l !! ?i] => rewrite H; simpl end.

Lemma read_u16_be buf off bs :
  bytes_at buf off bs -> Forall is_byte bs -> length bs = 2%nat ->
  read_u16 buf off = Some (be_val_from 0 bs).
Proof.
  intros Hat Hbs Hl. destruct bs as [|b0 [|b1 [|]]]; try done. byte_bounds.
  unfold read_u16. read_bytes. f_equal.
  rewrite lor_shiftl by lia. rewrite wrap_small; [lia|unfold in_u; lia].
Qed.

Lemma read_u32_be buf off bs :
  bytes_at buf off bs -> Forall is_byte bs -> length bs = 4%nat ->
  read_u32 buf off = Some (be_val_from 0 bs).
Proof.
  intros Hat Hbs Hl. destruct bs as [|b0 [|b1 [|b2 [|b3 [|]]]]]; try done. byte_bounds.
  unfold read_u32. replace (off + 2)%nat with (off + 1 + 1)%nat by lia.
  replace (off + 3)%nat with (off + 1 + 1 + 1)%nat by lia. read_bytes. f_equal.
  rewrite !wrap_small by (unfold in_u; rewrite Z.shiftl_mul_pow2 by lia; lia).
  replace (Z.shiftl b0 24) with (Z.shiftl (Z.shiftl (Z.shiftl b0 8) 8) 8)
    by (by rewrite !Z.shiftl_shiftl by lia).
  replace (Z.shiftl b1 16) with (Z.shiftl (Z.shiftl b1 8) 8)
    by (by rewrite !Z.shiftl_shiftl by lia).
  rewrite <- !Z.shiftl_lor.
  rewrite !lor_shiftl by lia. lia.
Qed.

(** ** Round trips *)

Lemma bytes_at_middle pre bs post : bytes_at (pre ++ bs ++ post) (length pre) bs.
Proof.
  intros i b Hb. rewrite lookup_app_r by lia.
  replace (length pre + i - length pre)%nat with i by lia.
  rewrite lookup_app_l; [done|]. by eapply lookup_lt_Some.
Qed.

Lemma read_written pre post v :
  (in_u 16 v -> read_u16 (pre ++ write_u16 v ++ post) (length pre) = Some v) /\
  (in_u 32 v -> read_u32 (pre ++ write_u32 v ++ post) (length pre) = Some v) /\
  (in_u 64 v -> read_u64 (pre ++ write_u64 v ++ post) (length pre) = Some v).
Proof.
  rewrite write_u16_be, write_u32_be, write_u64_be. unfold in_u.
  split_and!; intros Hv;
    [erewrite read_u16_be|erewrite read_u32_be|erewrite read_u64_be];
    try apply bytes_at_middle; try apply be_bytes_byte; try apply be_bytes_length;
    rewrite be_val_bytes, Z.mod_small; try done; by rewrite Z.mul_0_l.
Qed.

(** C34.  Every integer survives the wire: reading a 16-, 32- or 64-bit value
    at the offset where it was written returns it, wherever in the buffer it
    is. *)
Theorem byte_order_roundtrip pre post v :
  (in_u 16 v -> read_u16 (pre ++ write_u16 v ++ post) (length pre) = Some v) /\
  (in_u 32 v -> read_u32 (pre ++ write_u32 v ++ post) (length pre) = Some v) /\
  (in_u 64 v -> read_u64 (pre ++ write_u64 v ++ post) (length pre) = Some v).
Proof. apply read_written. Qed.

(** C35.  The wire form is canonical: any 2, 4 or 8 bytes are exactly what is
    written for the number read from them. *)
Theorem byte_order_canonical bs :
  Forall is_byte bs ->
  (length bs = 2%nat -> exists v, read_u16 bs 0 = Some v /\ in_u 16 v /\ write_u16 v = bs) /\
  (length bs = 4%nat -> exists v, read_u32 bs 0 = Some v /\ in_u 32 v /\ write_u32 v = bs) /\
  (length bs = 8%nat -> exists v, read_u64 bs 0 = Some v /\ in_u 64 v /\ write_u64 v = bs).
Proof.
  intros Hbs. assert (bytes_at bs 0 bs) as Hat by by intros i b.
  pose proof (be_val_from_bound 0 bs Hbs ltac:(lia)) as Hb.
  split_and!; intros Hl; exists (be_val_from 0 bs); rewrite Hl in Hb;
    rewrite ?write_u16_be, ?write_u32_be, ?write_u64_be;
    (split_and!; [first [by apply read_u16_be|by apply read_u32_be|by apply read_u64_be]
                 |unfold in_u; simpl in Hb; lia|by apply be_bytes_val_from]).
Qed.

Lemma byte_order_canonical_witness :
  exists v, read_u32 [0x12; 0x34; 0x56; 0x78] 0 = Some v /\ in_u 32 v /\
    write_u32 v = [0x12; 0x34; 0x56; 0x78].
Proof.
  apply (byte_order_canonical [0x12; 0x34; 0x56; 0x78]); [|reflexivity].
  repeat constructor; discriminate.
Defined.

Lemma byte_order_roundtrip_witness :
  read_u64 ([1; 2] ++ write_u64 0x0102030405060708 ++ [9]) 2 = Some 0x0102030405060708.
Proof.
  apply (byte_order_roundtrip [1; 2] [9] 0x0102030405060708).
  unfold in_u. lia.
Defined.
