(* ===== verification/Hash.v ===== *)
(** * MurmurHash3 x86_32 with seed 0 (src/internal/kcpmux_hash.c) *)

From S2P Require Import Prelude ByteOrder.

Definition kcpmux_rotl32 (x r : Z) : Z := Z.lor (u32 (Z.shiftl x r)) (Z.shiftr x (32 - r)).

Definition kcpmux_load_le32 (p : list Z) : Z :=
  match p with
  | b0 :: b1 :: b2 :: b3 :: _ =>
      Z.lor (Z.lor (Z.lor b0 (u32 (Z.shiftl b1 8))) (u32 (Z.shiftl b2 16))) (u32 (Z.shiftl b3 24))
  | _ => 0
  end.

Definition c1 : Z := 0xcc9e2d51.
Definition c2 : Z := 0x1b873593.

(** [k *= c1; k = rotl32(k, 15); k *= c2;] *)
Definition mix_k (k : Z) : Z := u32 (kcpmux_rotl32 (u32 (k * c1)) 15 * c2).

(** One iteration of the body loop. *)
Definition mix_h (hash k : Z) : Z :=
  u32 (kcpmux_rotl32 (Z.lxor hash (mix_k k)) 13 * 5 + 0xe6546b64).

(** The body loop; the last 0 to 3 bytes are returned with the hash. *)
Fixpoint body (nblocks : nat) (data : list Z) (hash : Z) : Z * list Z :=
  match nblocks with
  | O => (hash, data)
  | S n => body n (drop 4 data) (mix_h hash (kcpmux_load_le32 data))
  end.

(** The [switch (len - idx)] on the remaining bytes. *)
Definition tail (hash : Z) (data : list Z) : Z :=
  match data with
  | [d0; d1; d2] =>
      Z.lxor hash (mix_k (Z.lxor (Z.lxor (u32 (Z.shiftl d2 16)) (u32 (Z.shiftl d1 8))) d0))
  | [d0; d1] => Z.lxor hash (mix_k (Z.lxor (u32 (Z.shiftl d1 8)) d0))
  | [d0] => Z.lxor hash (mix_k d0)
  | _ => hash
  end.

Definition xorshift (x k : Z) : Z := Z.lxor x (Z.shiftr x k).

Definition finalize (hash len : Z) : Z :=
  let h := Z.lxor hash (u32 len) in
  let h := xorshift h 16 in
  let h := u32 (h * 0x85ebca6b) in
  let h := xorshift h 13 in
  let h := u32 (h * 0xc2b2ae35) in
  xorshift h 16.

Definition kcpmux_hash32 (data : list Z) : Z :=
  let '(hash, rest) := body (length data / 4) data 0 in
  finalize (tail hash rest) (Z.of_nat (length data)).

(** [strlen] of the bytes at [s]: reading past them is undefined. *)
Fixpoint strlen (s : list Z) : option nat :=
  match s with
  | [] => None
  | b :: s' => if b =? 0 then Some O else S <$> strlen s'
  end.

Definition kcpmux_hash32_str (s : list Z) : option Z :=
  n ← strlen s;
  Some (kcpmux_hash32 (take n s)).

(** The hash of a string is the hash of its bytes up to the first NUL. *)
Lemma hash32_str_bytes s rest :
  Forall (fun b => b <> 0) s -> kcpmux_hash32_str (s ++ 0 :: rest) = Some (kcpmux_hash32 s).
Proof.
  intros Hs. assert (strlen (s ++ 0 :: rest) = Some (length s)) as Hn.
  { induction Hs as [|b s Hb _ IH]; [done|]. cbn. apply Z.eqb_neq in Hb. by rewrite Hb, IH. }
  unfold kcpmux_hash32_str. rewrite Hn. cbn. by rewrite take_app_length.
Qed.

Example hash32_str_test : kcpmux_hash32_str [0x74; 0x65; 0x73; 0x74; 0; 0x21] = Some 0xba6bd213.
Proof. reflexivity. Qed.

(** Published MurmurHash3 x86_32 values for seed 0. *)
Example hash32_empty : kcpmux_hash32 [] = 0.
Proof. reflexivity. Qed.

Example hash32_test : kcpmux_hash32 [0x74; 0x65; 0x73; 0x74] = 0xba6bd213.
Proof. reflexivity. Qed.

Example hash32_hello : kcpmux_hash32
  [0x48; 0x65; 0x6c; 0x6c; 0x6f; 0x2c; 0x20; 0x77; 0x6f; 0x72; 0x6c; 0x64; 0x21] = 0xc0363e43.
Proof. reflexivity. Qed.

(** ** Every step is a bijection on 32-bit words *)

Lemma mul_inj c ci a b :
  u32 (c * ci) = 1 -> in_u 32 a -> in_u 32 b -> u32 (a * c) = u32 (b * c) -> a = b.
Proof.
  intros Hc Ha Hb H. rewrite <- (wrap_small 32 a), <- (wrap_small 32 b) by done.
  assert (forall x, u32 x = u32 (u32 (x * c) * ci)) as Hx.
  { intros x. unfold wrap in *. rewrite Z.mul_mod_idemp_l by lia.
    rewrite <- Z.mul_assoc, <- Z.mul_mod_idemp_r by lia. rewrite Hc. f_equal. lia. }
  by rewrite (Hx a), (Hx b), H.
Qed.

Lemma lxor_range a b : in_u 32 a -> in_u 32 b -> in_u 32 (Z.lxor a b).
Proof.
  unfold in_u. intros Ha Hb. assert (0 <= Z.lxor a b) by (apply Z.lxor_nonneg; lia).
  split; [done|]. destruct (Z.eq_dec (Z.lxor a b) 0) as [->|]; [done|].
  apply Z.log2_lt_pow2; [lia|].
  eapply Z.le_lt_trans; [apply Z.log2_lxor; lia|].
  apply Z.max_lub_lt; (destruct (Z.eq_dec a 0); destruct (Z.eq_dec b 0); subst; try done;
    apply Z.log2_lt_pow2; lia).
Qed.

Lemma shiftr_range a k : 0 <= k -> in_u 32 a -> in_u 32 (Z.shiftr a k).
Proof.
  unfold in_u. intros Hk Ha. rewrite Z.shiftr_div_pow2 by done.
  assert (0 < 2 ^ k) by lia. split; [apply Z.div_pos; lia|].
  apply Z.div_lt_upper_bound; nia.
Qed.

Lemma shiftr_big a k : 32 <= k -> in_u 32 a -> Z.shiftr a k = 0.
Proof.
  unfold in_u. intros Hk Ha. rewrite Z.shiftr_div_pow2 by lia. apply Z.div_small.
  assert (2 ^ 32 <= 2 ^ k) by (apply Z.pow_le_mono_r; lia). lia.
Qed.

Lemma rotl_arith x r :
  0 < r < 32 -> in_u 32 x ->
  kcpmux_rotl32 x r = x mod 2 ^ (32 - r) * 2 ^ r + x / 2 ^ (32 - r).
Proof.
  unfold in_u. intros Hr Hx. unfold kcpmux_rotl32.
  assert (0 < 2 ^ r) by lia. assert (0 < 2 ^ (32 - r)) by lia.
  assert (2 ^ 32 = 2 ^ (32 - r) * 2 ^ r) as H32 by (rewrite <- Z.pow_add_r by lia; f_equal; lia).
  assert (u32 (Z.shiftl x r) = Z.shiftl (x mod 2 ^ (32 - r)) r) as ->.
  { unfold wrap. rewrite !Z.shiftl_mul_pow2 by lia.
    by rewrite H32, Z.mul_mod_distr_r by lia. }
  rewrite Z.shiftr_div_pow2 by lia.
  rewrite <- Z.shiftl_mul_pow2 by lia. symmetry. apply Z.add_nocarry_lor.
  apply Z.bits_inj'. intros i Hi. rewrite Z.land_spec, Z.bits_0.
  destruct (Z.lt_ge_cases i r); [by rewrite Z.shiftl_spec_low|].
  assert (0 <= x / 2 ^ (32 - r) < 2 ^ r).
  { split; [apply Z.div_pos; lia|]. apply Z.div_lt_upper_bound; lia. }
  destruct (Z.eq_dec (x / 2 ^ (32 - r)) 0) as [->|]; [by rewrite Z.bits_0, andb_false_r|].
  rewrite (Z.bits_above_log2 (x / 2 ^ (32 - r)) i), andb_false_r; [done|lia|].
  assert (Z.log2 (x / 2 ^ (32 - r)) < r) by (apply Z.log2_lt_pow2; lia). lia.
Qed.

Lemma rotl_range x r : 0 < r < 32 -> in_u 32 x -> in_u 32 (kcpmux_rotl32 x r).
Proof.
  intros Hr Hx. rewrite rotl_arith by done. unfold in_u in *.
  assert (0 < 2 ^ r) by lia. assert (0 < 2 ^ (32 - r)) by lia.
  assert (2 ^ 32 = 2 ^ (32 - r) * 2 ^ r) as H32 by (rewrite <- Z.pow_add_r by lia; f_equal; lia).
  pose proof (Z.mod_pos_bound x (2 ^ (32 - r)) ltac:(lia)).
  assert (0 <= x / 2 ^ (32 - r) < 2 ^ r).
  { split; [apply Z.div_pos; lia|]. apply Z.div_lt_upper_bound; lia. }
  nia.
Qed.

Lemma rotl_inj r x y :
  0 < r < 32 -> in_u 32 x -> in_u 32 y -> kcpmux_rotl32 x r = kcpmux_rotl32 y r -> x = y.
Proof.
  intros Hr Hx Hy. rewrite !rotl_arith by done. intros Heq.
  assert (0 < 2 ^ (32 - r)) by lia.
  assert (forall z, in_u 32 z -> 0 <= z / 2 ^ (32 - r) < 2 ^ r) as Hd.
  { unfold in_u. intros z Hz. split; [apply Z.div_pos; lia|]. apply Z.div_lt_upper_bound; [lia|].
    rewrite <- Z.pow_add_r by lia. replace (32 - r + r) with 32 by lia. lia. }
  pose proof (Hd x Hx). pose proof (Hd y Hy).
  destruct (Z.div_mod_unique (2 ^ r) (x mod 2 ^ (32 - r)) (y mod 2 ^ (32 - r))
    (x / 2 ^ (32 - r)) (y / 2 ^ (32 - r))) as [Hm Hq]; [by left..|lia|].
  rewrite (Z.div_mod x (2 ^ (32 - r))), (Z.div_mod y (2 ^ (32 - r))) by lia. by rewrite Hm, Hq.
Qed.

Lemma xorshift_range k x : 0 <= k -> in_u 32 x -> in_u 32 (xorshift x k).
Proof. intros. by apply lxor_range; [|apply shiftr_range]. Qed.

(** For a shift of at least 11 bits, two further shifts undo it. *)
Lemma xorshift_inverse k x :
  11 <= k -> in_u 32 x ->
  Z.lxor (xorshift x k) (Z.lxor (Z.shiftr (xorshift x k) k) (Z.shiftr (xorshift x k) (k + k))) = x.
Proof.
  intros Hk Hx. unfold xorshift. rewrite !Z.shiftr_lxor, !Z.shiftr_shiftr by lia.
  rewrite (shiftr_big x (k + (k + k))) by (done || lia). rewrite Z.lxor_0_r.
  rewrite !Z.lxor_assoc, <- (Z.lxor_assoc (Z.shiftr x k) (Z.shiftr x k)), Z.lxor_nilpotent.
  by rewrite Z.lxor_0_l, Z.lxor_nilpotent, Z.lxor_0_r.
Qed.

Lemma xorshift_inj k x y :
  11 <= k -> in_u 32 x -> in_u 32 y -> xorshift x k = xorshift y k -> x = y.
Proof.
  intros Hk Hx Hy Heq. rewrite <- (xorshift_inverse k x), <- (xorshift_inverse k y) by done.
  by rewrite Heq.
Qed.

Lemma lxor_inj c x y : Z.lxor x c = Z.lxor y c -> x = y.
Proof.
  intros H. apply (f_equal (fun z => Z.lxor z c)) in H.
  by rewrite !Z.lxor_assoc, Z.lxor_nilpotent, !Z.lxor_0_r in H.
Qed.

Lemma mix_k_inj x y : in_u 32 x -> in_u 32 y -> mix_k x = mix_k y -> x = y.
Proof.
  intros Hx Hy H. unfold mix_k in H.
  apply (mul_inj c2 0x56ed309b) in H; [|done|by apply rotl_range, wrap_range..].
  apply rotl_inj in H; [|lia|by apply wrap_range..].
  by apply (mul_inj c1 0xdee13bb1) in H.
Qed.

Lemma mix_h_inj h x y :
  in_u 32 h -> in_u 32 x -> in_u 32 y -> mix_h h x = mix_h h y -> x = y.
Proof.
  intros Hh Hx Hy H. unfold mix_h in H.
  assert (forall z, in_u 32 (Z.lxor h (mix_k z))) as Hr
    by (intros; by apply lxor_range; [|apply wrap_range]).
  assert (u32 (kcpmux_rotl32 (Z.lxor h (mix_k x)) 13 * 5) =
          u32 (kcpmux_rotl32 (Z.lxor h (mix_k y)) 13 * 5)) as H'.
  { apply (f_equal (fun z => u32 (z - 0xe6546b64))) in H.
    unfold wrap in *. rewrite !Zminus_mod_idemp_l in H.
    by rewrite !Z.add_simpl_r in H. }
  apply (mul_inj 5 0xcccccccd) in H'; [|done|by apply rotl_range..].
  apply rotl_inj in H'; [|lia|done..].
  rewrite !(Z.lxor_comm h) in H'. apply lxor_inj in H'. by apply mix_k_inj in H'.
Qed.

Lemma finalize_inj len x y :
  in_u 32 x -> in_u 32 y -> finalize x len = finalize y len -> x = y.
Proof.
  intros Hx Hy H. unfold finalize in H.
  assert (in_u 32 (u32 len)) by by apply wrap_range.
  apply xorshift_inj in H; [|lia|by apply wrap_range..].
  apply (mul_inj _ 0x7ed1b41d) in H; [|done|by apply xorshift_range, wrap_range..].
  apply xorshift_inj in H; [|lia|by apply wrap_range..].
  apply (mul_inj _ 0xa5cb9243) in H; [|done|by apply xorshift_range, lxor_range..].
  apply xorshift_inj in H; [|lia|by apply lxor_range..].
  by apply lxor_inj in H.
Qed.

Lemma load_le32_arith b0 b1 b2 b3 :
  Forall is_byte [b0; b1; b2; b3] ->
  kcpmux_load_le32 [b0; b1; b2; b3] = b3 * 2 ^ 24 + (b2 * 2 ^ 16 + (b1 * 2 ^ 8 + b0)).
Proof.
  intros Hb. byte_bounds. unfold kcpmux_load_le32.
  rewrite !wrap_small by (unfold in_u; rewrite Z.shiftl_mul_pow2 by lia; lia).
  rewrite (Z.lor_comm _ (Z.shiftl b3 24)), (Z.lor_comm _ (Z.shiftl b2 16)),
    (Z.lor_comm _ (Z.shiftl b1 8)).
  by rewrite !lor_shiftl by (rewrite ?lor_shiftl by (rewrite ?lor_shiftl by lia; lia); lia).
Qed.

Lemma hash32_4 b0 b1 b2 b3 :
  kcpmux_hash32 [b0; b1; b2; b3] = finalize (mix_h 0 (kcpmux_load_le32 [b0; b1; b2; b3])) 4.
Proof. reflexivity. Qed.

(** C36.  On four-byte keys, the size of a stream ID, the hash has no
    collisions: two different keys always get different 32-bit hashes, so the
    buckets of a stream table differ only by the reduction modulo its size. *)
Theorem hash32_injective_4 p q :
  Forall is_byte p -> Forall is_byte q -> length p = 4%nat -> length q = 4%nat ->
  kcpmux_hash32 p = kcpmux_hash32 q -> p = q.
Proof.
  intros Hp Hq Lp Lq H.
  destruct p as [|a0 [|a1 [|a2 [|a3 [|]]]]]; try done.
  destruct q as [|b0 [|b1 [|b2 [|b3 [|]]]]]; try done.
  rewrite !hash32_4 in H. apply finalize_inj in H; [|by apply wrap_range..].
  rewrite !load_le32_arith in H by done. byte_bounds.
  apply mix_h_inj in H; unfold in_u; try lia.
  assert (a3 = b3 /\ a2 = b2 /\ a1 = b1 /\ a0 = b0) as (-> & -> & -> & ->) by lia. done.
Qed.

Lemma hash32_injective_4_witness :
  kcpmux_hash32 [1; 0; 0; 0] <> kcpmux_hash32 [0; 1; 0; 0].
Proof.
  intros H. apply (hash32_injective_4 [1; 0; 0; 0] [0; 1; 0; 0]) in H;
    [discriminate|..]; try reflexivity; repeat constructor; discriminate.
Defined.

Lemma hash32_range p : in_u 32 (kcpmux_hash32 p).
Proof.
  unfold kcpmux_hash32. destruct (body _ _ _) as [h rest].
  by apply xorshift_range; [|apply wrap_range].
Qed.

(** The bytes of an unsigned object of [n] bytes in memory, lowest address
    first, on a little-endian target: what [kcpmux_hash32(&x, sizeof(x))]
    hashes. *)
Fixpoint object_bytes (n : nat) (v : Z) : list Z :=
  match n with
  | O => []
  | S n' => u8 v :: object_bytes n' (Z.shiftr v 8)
  end.
