(* ===== verification/Lists.v ===== *)
(** * Intrusive doubly linked lists (src/internal/kcpmux_list.h)

    The code links structures through embedded [list_head] members and
    circular lists with a sentinel.  This file models the pointer operations on
    a memory of [next] and [prev] fields and proves that they implement
    insertion, removal, emptiness and traversal of the sequence of linked
    nodes, which is how the other components use them. *)

From S2P Require Import Prelude.

Abbreviation addr := positive.

(** The [next] and [prev] fields of the live [list_head] objects. *)
Record links := mk_links { lnext : gmap addr addr; lprev : gmap addr addr }.
#[export] Instance eta_links : Eta links := fun r => mk_links (lnext r) (lprev r).

Abbreviation L := (M links).

Definition get_next (a : addr) : L addr := deref (fun m => lnext m !! a).
Definition get_prev (a : addr) : L addr := deref (fun m => lprev m !! a).

(** Stores require the object to be live. *)
Definition set_next (a v : addr) : L unit :=
  get_next a;; modify (fun m => m <| lnext ::= <[a := v]> |>).
Definition set_prev (a v : addr) : L unit :=
  get_prev a;; modify (fun m => m <| lprev ::= <[a := v]> |>).

Definition list_init (l : addr) : L unit := set_next l l;; set_prev l l.

Definition list_empty (head : addr) : L bool :=
  n ← get_next head; mret (bool_decide (n = head)).

Definition __list_add (node prev next : addr) : L unit :=
  set_prev next node;;
  set_next node next;;
  set_prev node prev;;
  set_next prev node.

Definition list_add_head (node head : addr) : L unit :=
  n ← get_next head; __list_add node head n.

Definition list_add_tail (node head : addr) : L unit :=
  p ← get_prev head; __list_add node p head.

Definition list_del (entry : addr) : L unit :=
  n ← get_next entry;
  p ← get_prev entry;
  set_prev n p;;
  p ← get_prev entry;
  n ← get_next entry;
  set_next p n;;
  set_next entry entry;;
  set_prev entry entry.

Definition list_del_init (entry : addr) : L unit := list_del entry.

Definition list_dequeue (head : addr) : L (option addr) :=
  entry ← get_next head;
  if bool_decide (entry = head) then mret None
  else
    n ← get_next entry;
    p ← get_prev entry;
    set_prev n p;;
    p ← get_prev entry;
    n ← get_next entry;
    set_next p n;;
    mret (Some entry).

Definition list_move_tail (entry head : addr) : L unit :=
  list_del entry;; list_add_tail entry head.

(** [list_for_each]: the nodes visited from [head], at most [fuel] of them. *)
Fixpoint list_walk (fuel : nat) (pos head : addr) : L (list addr) :=
  match fuel with
  | O => ub
  | S fuel' =>
      if bool_decide (pos = head) then mret []
      else n ← get_next pos; rest ← list_walk fuel' n head; mret (pos :: rest)
  end.

Definition list_for_each (fuel : nat) (head : addr) : L (list addr) :=
  n ← get_next head; list_walk fuel n head.

(** ** Representation *)

(** [seg m a l b]: following [next] from [a] visits [l] and reaches [b], and
    the [prev] fields lead back. *)
Fixpoint seg (m : links) (a : addr) (l : list addr) (b : addr) : Prop :=
  match l with
  | [] => lnext m !! a = Some b /\ lprev m !! b = Some a
  | x :: l' => lnext m !! a = Some x /\ lprev m !! x = Some a /\ seg m x l' b
  end.

(** [head] is the sentinel of a circular list of the nodes [l]. *)
Record is_list (m : links) (head : addr) (l : list addr) : Prop := {
  il_nodup : NoDup (head :: l);
  il_seg : seg m head l head
}.

Lemma seg_app m a l1 x l2 b :
  seg m a (l1 ++ x :: l2) b <-> seg m a l1 x /\ seg m x l2 b.
Proof. revert a. induction l1 as [|y l1 IH]; intros a; simpl; [|rewrite IH]; tauto. Qed.

(** A segment depends only on the [next] of its sources and the [prev] of its
    targets. *)
Lemma seg_frame m m' a l b :
  (forall x, x ∈ a :: l -> lnext m' !! x = lnext m !! x) ->
  (forall x, x ∈ l ++ [b] -> lprev m' !! x = lprev m !! x) ->
  seg m a l b -> seg m' a l b.
Proof.
  revert a. induction l as [|y l IH]; intros a Hn Hp; simpl.
  - rewrite Hn, Hp by set_solver. done.
  - rewrite Hn, Hp by set_solver. intros (? & ? & ?). split_and!; [done..|].
    apply IH; set_solver.
Qed.

Lemma seg_fields m a l b :
  seg m a l b ->
  (forall x, x ∈ a :: l -> is_Some (lnext m !! x)) /\
  (forall x, x ∈ l ++ [b] -> is_Some (lprev m !! x)).
Proof.
  revert a. induction l as [|y l IH]; intros a; simpl.
  - intros [H1 H2]. split; intros x; set_solver.
  - intros (H1 & H2 & H3). destruct (IH _ H3) as [I1 I2]. split; intros x; set_solver.
Qed.

Lemma wp_get_next a v Q m : lnext m !! a = Some v -> wp (get_next a) Q m <-> Q v m.
Proof. exact (wp_deref (fun m => lnext m !! a) Q m v). Qed.

Lemma wp_get_prev a v Q m : lprev m !! a = Some v -> wp (get_prev a) Q m <-> Q v m.
Proof. exact (wp_deref (fun m => lprev m !! a) Q m v). Qed.

Lemma wp_set_next a v Q m :
  is_Some (lnext m !! a) -> wp (set_next a v) Q m <-> Q tt (m <| lnext ::= <[a := v]> |>).
Proof. intros [w Hw]. unfold set_next. by rewrite wp_bind, (wp_get_next _ w). Qed.

Lemma wp_set_prev a v Q m :
  is_Some (lprev m !! a) -> wp (set_prev a v) Q m <-> Q tt (m <| lprev ::= <[a := v]> |>).
Proof. intros [w Hw]. unfold set_prev. by rewrite wp_bind, (wp_get_prev _ w). Qed.

(** Store commands on live fields reduce to updates of the memory. *)
Ltac field_live := simpl; rewrite ?lookup_insert; repeat case_decide; eauto.

Ltac list_store :=
  repeat first
    [ rewrite wp_bind
    | rewrite wp_set_next by field_live
    | rewrite wp_set_prev by field_live ].

(** Facts from the distinctness of the nodes. *)
Ltac nodup_facts :=
  repeat match goal with
  | H : NoDup (_ :: _) |- _ => apply list.NoDup_cons in H as [? H]
  | H : NoDup (_ ++ _) |- _ => apply list.NoDup_app in H as (H & ? & ?)
  end.

(** Lookups in an updated field. *)
Ltac link_lookup :=
  simpl; repeat first [rewrite lookup_insert_eq; reflexivity
                      |rewrite lookup_insert_ne by set_solver]; try done.

Lemma list_add_head_ok m head l node :
  is_list m head l -> node ∉ head :: l ->
  is_Some (lnext m !! node) -> is_Some (lprev m !! node) ->
  wp (list_add_head node head) (fun _ m' => is_list m' head (node :: l)) m.
Proof.
  intros [Hnd Hs] Hnode Hn Hp. unfold list_add_head, __list_add.
  destruct (seg_fields _ _ _ _ Hs) as [Fn Fp].
  assert (NoDup (head :: node :: l)) as Hnd'.
  { nodup_facts. rewrite !list.NoDup_cons. set_solver. }
  rewrite wp_bind. destruct l as [|x l]; simpl in Hs.
  - destruct Hs as [H1 H2]. rewrite (wp_get_next _ head) by done.
    list_store. split; [done|]. simpl. split_and!; link_lookup.
  - destruct Hs as (H1 & H2 & H3). rewrite (wp_get_next _ x) by done.
    list_store. split; [done|]. nodup_facts. simpl. split_and!; [link_lookup..|].
    eapply seg_frame; [..|exact H3]; intros y Hy; link_lookup.
Qed.

Lemma list_add_tail_ok m head l node :
  is_list m head l -> node ∉ head :: l ->
  is_Some (lnext m !! node) -> is_Some (lprev m !! node) ->
  wp (list_add_tail node head) (fun _ m' => is_list m' head (l ++ [node])) m.
Proof.
  intros [Hnd Hs] Hnode Hn Hp. unfold list_add_tail, __list_add.
  destruct (seg_fields _ _ _ _ Hs) as [Fn Fp].
  assert (NoDup (head :: l ++ [node])) as Hnd'.
  { nodup_facts. rewrite list.NoDup_cons, list.NoDup_app.
    split_and!; [set_solver|done|set_solver|apply NoDup_singleton]. }
  rewrite wp_bind. destruct l as [|y l _] using rev_ind.
  - simpl in Hs. destruct Hs as [H1 H2]. rewrite (wp_get_prev _ head) by done.
    list_store. split; [done|]. simpl. split_and!; link_lookup.
  - apply seg_app in Hs as [H1 [H2 H3]]. rewrite (wp_get_prev _ y) by done.
    assert (is_Some (lnext m !! y)) by eauto. assert (is_Some (lprev m !! head)) by eauto.
    list_store. split; [done|]. nodup_facts. rewrite <- app_assoc. simpl.
    apply seg_app. simpl. split; [|split_and!; link_lookup].
    eapply seg_frame; [..|exact H1]; intros z Hz; link_lookup.
Qed.

(** Splicing out [x] by redirecting its neighbours. *)
Lemma seg_splice m m' head l1 x l2 n p :
  NoDup (head :: l1 ++ x :: l2) ->
  seg m head l1 x -> seg m x l2 head ->
  lnext m !! x = Some n -> lprev m !! x = Some p ->
  lnext m' !! p = Some n -> lprev m' !! n = Some p ->
  (forall y, y <> p -> y <> x -> lnext m' !! y = lnext m !! y) ->
  (forall y, y <> n -> y <> x -> lprev m' !! y = lprev m !! y) ->
  seg m' head (l1 ++ l2) head.
Proof.
  intros Hnd H1 H2 Hn Hp Hn' Hp' Fn Fp.
  destruct l1 as [|z l1 _] using rev_ind; destruct l2 as [|y l2]; simpl in *.
  - destruct H1, H2. by simplify_eq.
  - destruct H1 as [_ ?], H2 as (? & _ & H2). simplify_eq. nodup_facts.
    split_and!; [done..|].
    eapply seg_frame; [..|exact H2]; intros w Hw; [apply Fn|apply Fp]; set_solver.
  - apply seg_app in H1 as [H1 [_ ?]]. destruct H2 as [? _]. simplify_eq. nodup_facts.
    rewrite app_nil_r. apply seg_app. split; [|done].
    eapply seg_frame; [..|exact H1]; intros w Hw; [apply Fn|apply Fp]; set_solver.
  - apply seg_app in H1 as [H1 [_ ?]]. destruct H2 as (? & _ & H2). simplify_eq. nodup_facts.
    rewrite <- app_assoc. simpl. apply seg_app. simpl. split_and!; [|done..|];
      [eapply seg_frame; [..|exact H1]|eapply seg_frame; [..|exact H2]];
      intros w Hw; first [apply Fn|apply Fp]; set_solver.
Qed.

Lemma list_del_ok m head l1 x l2 :
  is_list m head (l1 ++ x :: l2) ->
  wp (list_del x) (fun _ m' => is_list m' head (l1 ++ l2) /\ is_list m' x []) m.
Proof.
  intros [Hnd Hs]. destruct (seg_fields _ _ _ _ Hs) as [Fn Fp]. apply seg_app in Hs as [H1 H2].
  destruct (Fn x) as [n Hn]; [set_solver|]. destruct (Fp x) as [p Hp]; [set_solver|].
  assert (n ∈ l2 ++ [head] /\ p ∈ head :: l1) as [Hnin Hpin].
  { split.
    - destruct l2; simpl in H2; destruct H2 as [? _]; simplify_eq; set_solver.
    - destruct l1 as [|z l1 _] using rev_ind; [destruct H1|apply seg_app in H1 as [_ [_ ?]]];
        simplify_eq; set_solver. }
  assert (n <> x /\ p <> x) as [Hnx Hpx] by (nodup_facts; set_solver).
  assert (is_Some (lprev m !! n) /\ is_Some (lnext m !! p)) as [??].
  { split; [apply Fp|apply Fn]; set_solver. }
  unfold list_del. rewrite wp_bind, (wp_get_next _ n), wp_bind, (wp_get_prev _ p), wp_bind by done.
  rewrite wp_set_prev, wp_bind, (wp_get_prev _ p) by (done || link_lookup).
  rewrite wp_bind, (wp_get_next _ n) by done. list_store.
  split; split; simpl.
  - nodup_facts. rewrite list.NoDup_cons, list.NoDup_app. split_and!; set_solver.
  - eapply (seg_splice m _ head l1 x l2 n p); try done; intros; link_lookup.
  - apply NoDup_singleton.
  - split; link_lookup.
Qed.

(** Deleting a node that is in no list changes nothing. *)
Lemma list_del_unlinked m x :
  is_list m x [] -> wp (list_del x) (fun _ m' => m' = m) m.
Proof.
  intros [_ [Hn Hp]]. unfold list_del.
  rewrite wp_bind, (wp_get_next _ x), wp_bind, (wp_get_prev _ x), wp_bind by done.
  rewrite wp_set_prev, wp_bind, (wp_get_prev _ x) by (eauto || link_lookup).
  rewrite wp_bind, (wp_get_next _ x) by done. list_store.
  destruct m as [mn mp]. simpl in *. f_equal; [by rewrite !insert_id by link_lookup|].
  rewrite (insert_id mp) by done. by rewrite insert_id.
Qed.

Lemma list_empty_ok m head l :
  is_list m head l ->
  wp (list_empty head) (fun r m' => m' = m /\ r = bool_decide (l = [])) m.
Proof.
  intros [Hnd Hs]. unfold list_empty. rewrite wp_bind.
  destruct l as [|x l]; simpl in Hs; destruct Hs as [Hn _];
    rewrite (wp_get_next _ _ _ _ Hn), wp_ret; (split; [done|]).
  - by rewrite bool_decide_eq_true_2.
  - nodup_facts. by rewrite (bool_decide_eq_false_2 (x = head)) by set_solver.
Qed.

Lemma list_dequeue_ok m head l :
  is_list m head l ->
  wp (list_dequeue head) (fun r m' => r = hd_error l /\ is_list m' head (List.tl l)) m.
Proof.
  intros [Hnd Hs]. unfold list_dequeue. rewrite wp_bind. destruct l as [|x l].
  - destruct Hs as [Hn Hp]. rewrite (wp_get_next _ head) by done.
    rewrite bool_decide_eq_true_2, wp_ret by done. split; [done|]. by split.
  - pose proof Hs as (Hn & Hp & H2). rewrite (wp_get_next _ x) by done.
    assert (head <> x) by (nodup_facts; set_solver).
    rewrite bool_decide_eq_false_2 by congruence.
    destruct (seg_fields _ _ _ _ H2) as [Fn Fp]. destruct (Fn x) as [n Hnx]; [set_solver|].
    assert (n ∈ l ++ [head]) as Hnin.
    { destruct l; simpl in H2; destruct H2 as [? _]; simplify_eq; set_solver. }
    assert (n <> x) by (nodup_facts; set_solver).
    assert (is_Some (lprev m !! n)) by (apply Fp; done).
    rewrite wp_bind, (wp_get_next _ n), wp_bind, (wp_get_prev _ head), wp_bind by done.
    rewrite wp_set_prev, wp_bind, (wp_get_prev _ head) by (done || link_lookup).
    rewrite wp_bind, (wp_get_next _ n) by done. list_store. rewrite wp_ret.
    split; [done|]. split; simpl; [nodup_facts; rewrite list.NoDup_cons; set_solver|].
    change l with ([] ++ l).
    eapply (seg_splice m _ head [] x l n head); try done; intros; link_lookup.
Qed.

Lemma list_walk_ok m a l head fuel :
  seg m a l head -> head ∉ l -> (length l < fuel)%nat ->
  exists n, lnext m !! a = Some n /\ wp (list_walk fuel n head) (fun r m' => r = l /\ m' = m) m.
Proof.
  revert a fuel. induction l as [|x l IH]; intros a fuel Hs Hh Hf; simpl in *.
  - destruct Hs as [Hn _]. exists head. split; [done|]. destruct fuel; [lia|]. simpl.
    by rewrite bool_decide_eq_true_2.
  - destruct Hs as (Hn & _ & Hs). exists x. split; [done|]. destruct fuel; [lia|]. simpl.
    rewrite bool_decide_eq_false_2 by set_solver.
    destruct (IH x fuel Hs) as (n & Hx & Hw); [set_solver|lia|].
    rewrite wp_bind, (wp_get_next _ n), wp_bind by done.
    eapply wp_mono; [|exact Hw]. intros r ? [-> ->]. done.
Qed.

(** ** Properties *)

(** C32.  Intrusive lists implement sequences.  On a well-formed circular list
    of nodes [l], adding an unlinked live node at either end, deleting any
    linked node and dequeuing all return (no invalid pointer is followed) and
    leave a well-formed list holding the expected sequence; a deleted node is
    unlinked again, so that a second deletion is a no-op. *)
Theorem intrusive_list_refines m head l :
  is_list m head l ->
  (forall node, is_list m node [] -> node ∉ head :: l ->
    (exists m', list_add_head node head m = Some (tt, m') /\ is_list m' head (node :: l)) /\
    (exists m', list_add_tail node head m = Some (tt, m') /\ is_list m' head (l ++ [node]))) /\
  (forall l1 x l2, l = l1 ++ x :: l2 ->
    exists m', list_del x m = Some (tt, m') /\ is_list m' head (l1 ++ l2) /\
      list_del x m' = Some (tt, m')) /\
  (exists m', list_dequeue head m = Some (hd_error l, m') /\ is_list m' head (List.tl l)).
Proof.
  intros Hl. split_and!.
  - intros node [_ [Hn Hp]] Hnode. split.
    + destruct (proj1 (wp_some _ _ _) (list_add_head_ok m head l node Hl Hnode
        ltac:(eauto) ltac:(eauto))) as ([] & m' & ? & ?). eauto.
    + destruct (proj1 (wp_some _ _ _) (list_add_tail_ok m head l node Hl Hnode
        ltac:(eauto) ltac:(eauto))) as ([] & m' & ? & ?). eauto.
  - intros l1 x l2 ->.
    destruct (proj1 (wp_some _ _ _) (list_del_ok m head l1 x l2 Hl)) as ([] & m' & ? & ? & Hx).
    exists m'. split_and!; [done..|].
    by destruct (proj1 (wp_some _ _ _) (list_del_unlinked m' x Hx)) as ([] & ? & ? & ->).
  - destruct (proj1 (wp_some _ _ _) (list_dequeue_ok m head l Hl)) as (? & m' & ? & -> & ?). eauto.
Qed.

(** C33.  Traversal terminates and visits every node once, in order:
    [list_for_each] over a well-formed list of [n] nodes makes [n] iterations,
    and [list_empty] tells whether there are none. *)
Theorem intrusive_list_traversal m head l fuel :
  is_list m head l -> (length l < fuel)%nat ->
  list_for_each fuel head m = Some (l, m) /\
  list_empty head m = Some (bool_decide (l = []), m).
Proof.
  intros Hl Hf. split.
  - destruct Hl as [Hnd Hs].
    destruct (list_walk_ok m head l head fuel Hs) as (n & Hn & Hw); [by apply list.NoDup_cons in Hnd as [??]|done|].
    apply wp_some in Hw as (? & ? & Heq & -> & ->). unfold list_for_each, mbind, M_bind, get_next, deref.
    by rewrite Hn.
  - by destruct (proj1 (wp_some _ _ _) (list_empty_ok m head l Hl)) as (? & ? & ? & -> & ->).
Qed.

(** A list of the nodes 2 and 3 at the sentinel 1, with node 4 unlinked. *)
Definition sample_links : links :=
  mk_links (<[1 := 2]> (<[2 := 3]> (<[3 := 1]> (<[4 := 4]> ∅))))%positive
           (<[1 := 3]> (<[2 := 1]> (<[3 := 2]> (<[4 := 4]> ∅))))%positive.

Lemma sample_links_list : is_list sample_links 1 [2; 3]%positive.
Proof. split; [|vm_compute; tauto]. apply (bool_decide_unpack _). by vm_compute. Qed.

Lemma sample_links_node : is_list sample_links 4 [].
Proof. split; [apply NoDup_singleton|vm_compute; tauto]. Qed.

Lemma intrusive_list_refines_witness :
  exists m', list_add_tail 4 1 sample_links = Some (tt, m') /\ is_list m' 1 [2; 3; 4]%positive.
Proof.
  destruct (intrusive_list_refines sample_links 1 [2; 3]%positive sample_links_list) as [H _].
  apply (H 4%positive); [apply sample_links_node|]. apply (bool_decide_unpack _). by vm_compute.
Defined.

Lemma intrusive_list_traversal_witness :
  list_for_each 3 1 sample_links = Some ([2; 3]%positive, sample_links) /\
  list_empty 1 sample_links = Some (false, sample_links).
Proof.
  apply (intrusive_list_traversal sample_links 1 [2; 3]%positive 3); [apply sample_links_list|].
  simpl. lia.
Defined.
