(* ===== verification/Hashtable.v ===== *)
(** * Chained hash table (src/internal/kcpmux_hashtable.h, .c)

    The table that indexes connections by (address, identifier) and streams
    by identifier.  A bucket is an intrusive list, so it is the list of the
    objects linked in it; [Lists] shows that the pointer operations on such a
    list are the list operations used here.  The stored key is read from the
    object by [cb_cmp], which is undefined on an object already freed, hence
    its [option bool] result.  The callbacks the program installs as
    [cb_free] do nothing and are left out.

    The second half shows that the table is a finite map from keys to
    objects. *)

From S2P Require Import Prelude.

Record htb (A : Type) := mk_htb {
  hashtable : list (list A);
  num : Z
}.
Arguments mk_htb {A} _ _.
Arguments hashtable {A} _.
Arguments num {A} _.

Section operations.
Context {A : Type} `{EqDecision A}.
Implicit Types (ht : htb A) (x : A).

Definition htb_size ht : Z := Z.of_nat (length (hashtable ht)).

(** [&ht->hashtable[hash % ht->size]] *)
Definition bucket_index ht (hash : Z) : nat := Z.to_nat (hash mod htb_size ht).
Definition bucket ht (hash : Z) : option (list A) := hashtable ht !! bucket_index ht hash.

(** [alloc_ht] and [alloc_tab] are the outcomes of the two calls of
    [calloc]; the second is reached only when the first succeeds. *)
Definition kcpmux_htb_new (alloc_ht alloc_tab : bool) (size : Z) : option (htb A) :=
  let size := Z.max 11 size in
  if negb alloc_ht then None
  else if negb alloc_tab then None
  else Some (mk_htb (replicate (Z.to_nat size) []) 0).

(** [list_for_each] with the comparison of [kcpmux_htb_find]. *)
Fixpoint find_loop (cmp : A -> option bool) (l : list A) : option (option A) :=
  match l with
  | [] => Some None
  | x :: l' =>
      b ← cmp x;
      if (b : bool) then Some (Some x) else find_loop cmp l'
  end.

Definition kcpmux_htb_find (cmp : A -> option bool) (hash : Z) ht : option (option A) :=
  b ← bucket ht hash; find_loop cmp b.

(** [list_for_each_prev_safe] visits the bucket from its tail. *)
Definition kcpmux_htb_find_lru (cmp : A -> option bool) (hash : Z) ht :
    option (option A * htb A) :=
  b ← bucket ht hash;
  r ← find_loop cmp (reverse b);
  match r with
  | None => Some (None, ht)
  | Some x =>
      let b' := filter (fun y => y <> x) b ++ [x] in
      Some (Some x, mk_htb (<[bucket_index ht hash := b']> (hashtable ht)) (num ht))
  end.

Definition kcpmux_htb_add_direct x (hash : Z) ht : option (htb A) :=
  b ← bucket ht hash;
  Some (mk_htb (<[bucket_index ht hash := x :: b]> (hashtable ht)) (num ht + 1)).

Definition kcpmux_htb_add (cmp : A -> option bool) x (hash : Z) ht : option (htb A) :=
  r ← kcpmux_htb_find cmp hash ht;
  match r with
  | Some _ => Some ht
  | None => kcpmux_htb_add_direct x hash ht
  end.

(** [!list_empty(node)]: the node is linked in some bucket. *)
Definition linked x ht : bool := bool_decide (x ∈ concat (hashtable ht)).

Definition kcpmux_htb_del x ht : htb A :=
  if linked x ht
  then mk_htb (filter (fun y => y <> x) <$> hashtable ht) (num ht - 1)
  else ht.

Definition kcpmux_htb_del_by_key (cmp : A -> option bool) (hash : Z) ht :
    option (Z * htb A) :=
  r ← kcpmux_htb_find cmp hash ht;
  Some (0, match r with Some x => kcpmux_htb_del x ht | None => ht end).

Definition kcpmux_htb_num ht : Z := num ht.

(** [live x]: the node is in allocated memory; unlinking a freed one is
    undefined. *)
Definition kcpmux_htb_flush (live : A -> bool) ht : option (htb A) :=
  if forallb live (concat (hashtable ht))
  then Some (mk_htb ((fun _ => []) <$> hashtable ht) 0)
  else None.

(** The table is freed: nothing of it remains. *)
Definition kcpmux_htb_destroy (live : A -> bool) ht : option unit :=
  _ ← kcpmux_htb_flush live ht; Some tt.
End operations.

(** ** The table as a finite map *)

Section map.
Context {A Key : Type} `{EqDecision A, EqDecision Key}.
Context (key_of : A -> Key) (hash : Key -> Z).
Implicit Types (ht : htb A) (x : A) (k : Key).

(** The comparison callback of a table all of whose nodes are live. *)
Definition key_cmp k x : option bool := Some (bool_decide (k = key_of x)).

Record htb_ok ht : Prop := {
  htb_ok_size : 0 < htb_size ht;
  htb_ok_place i b x : hashtable ht !! i = Some b -> x ∈ b ->
    i = bucket_index ht (hash (key_of x));
  htb_ok_keys : NoDup (key_of <$> concat (hashtable ht));
  htb_ok_num : num ht = Z.of_nat (length (concat (hashtable ht)))
}.

Definition entries ht : list A := concat (hashtable ht).

Lemma bucket_index_lt ht h : 0 < htb_size ht -> (bucket_index ht h < length (hashtable ht))%nat.
Proof.
  unfold bucket_index, htb_size. intros H.
  pose proof (Z.mod_pos_bound h (Z.of_nat (length (hashtable ht))) H). lia.
Qed.

Lemma bucket_some ht h : 0 < htb_size ht -> exists b, bucket ht h = Some b.
Proof. intros H. apply lookup_lt_is_Some_2, bucket_index_lt, H. Qed.

Lemma elem_of_concat (ls : list (list A)) x :
  x ∈ concat ls <-> exists i b, ls !! i = Some b /\ x ∈ b.
Proof.
  rewrite list_elem_of_In, in_concat. split.
  - intros (b & Hb & Hx). apply list_elem_of_In, list_elem_of_lookup in Hb as [i Hi].
    exists i, b. by rewrite list_elem_of_In.
  - intros (i & b & Hi & Hx). exists b. rewrite <- !list_elem_of_In.
    split; [by eapply list_elem_of_lookup_2|done].
Qed.

Lemma entries_bucket ht x b :
  htb_ok ht -> bucket ht (hash (key_of x)) = Some b -> x ∈ entries ht <-> x ∈ b.
Proof.
  intros Hok Hb. unfold entries. rewrite elem_of_concat. split.
  - intros (i & b' & Hi & Hx). pose proof (htb_ok_place _ Hok _ _ _ Hi Hx) as ->.
    unfold bucket in Hb. by simplify_eq.
  - intros Hx. eauto.
Qed.

Lemma find_loop_key k l :
  find_loop (key_cmp k) l = Some (list_find (fun x => k = key_of x) l ≫= fun p => Some p.2).
Proof.
  induction l as [|x l IH]; [done|]. cbn. case_bool_decide; case_decide; try done.
  rewrite IH. by destruct (list_find _ l) as [[]|].
Qed.

Lemma entries_key_inj ht x y :
  htb_ok ht -> x ∈ entries ht -> y ∈ entries ht -> key_of x = key_of y -> x = y.
Proof.
  intros Hok Hx Hy Hk. apply list_elem_of_lookup in Hx as [m Hm], Hy as [n Hn].
  assert (m = n) as ->; [|congruence].
  eapply (NoDup_lookup (key_of <$> entries ht)); [apply (htb_ok_keys _ Hok)| |];
    rewrite list_lookup_fmap, ?Hm, ?Hn; cbn; by rewrite ?Hk.
Qed.

(** A search of the bucket of [k], in any order, finds the entry with key
    [k]. *)
Lemma bucket_find_spec ht k b l x :
  htb_ok ht -> bucket ht (hash k) = Some b -> (forall y, y ∈ l <-> y ∈ b) ->
  (list_find (fun y => k = key_of y) l ≫= fun p => Some p.2) = Some x <->
  x ∈ entries ht /\ key_of x = k.
Proof.
  intros Hok Hb Hl.
  assert (Hin : forall y, k = key_of y -> y ∈ l <-> y ∈ entries ht).
  { intros y ->. rewrite Hl. symmetry. by apply entries_bucket. }
  destruct (list_find _ l) as [[i y]|] eqn:E; cbn.
  - apply list_find_Some in E as (Hi%list_elem_of_lookup_2 & Hk & _).
    apply (Hin y Hk) in Hi. split; [intros [= ->]; by split|].
    intros [Hx Hkx]. f_equal. apply (entries_key_inj ht); congruence.
  - apply list_find_None in E. rewrite Forall_forall in E.
    split; [done|]. intros [Hx Hk]. exfalso.
    apply (E x); [by apply list_elem_of_In, Hin|done].
Qed.

(** Finding a key returns the entry with that key, if there is one. *)
Lemma htb_find_ok ht k :
  htb_ok ht ->
  exists r, kcpmux_htb_find (key_cmp k) (hash k) ht = Some r /\
    forall x, r = Some x <-> x ∈ entries ht /\ key_of x = k.
Proof.
  intros Hok. destruct (bucket_some ht (hash k) (htb_ok_size _ Hok)) as [b Hb].
  unfold kcpmux_htb_find. rewrite Hb. cbn. rewrite find_loop_key.
  eexists. split; [done|]. intros x. by apply (bucket_find_spec ht k b).
Qed.

Lemma insert_concat_perm (ls : list (list A)) i b x :
  ls !! i = Some b -> concat (<[i := x :: b]> ls) ≡ₚ x :: concat ls.
Proof.
  intros Hi. rewrite <- (take_drop_middle ls i b Hi) at 2.
  rewrite insert_take_drop by by eapply lookup_lt_Some.
  rewrite !concat_app. cbn. rewrite <- Permutation_middle. done.
Qed.

(** Adding an object with a new key inserts it; with a key already present
    the table is unchanged. *)
Lemma htb_add_ok ht x :
  htb_ok ht -> x ∉ entries ht ->
  exists ht', kcpmux_htb_add (key_cmp (key_of x)) x (hash (key_of x)) ht = Some ht' /\
    htb_ok ht' /\ htb_size ht' = htb_size ht /\
    ((key_of x ∈ (key_of <$> entries ht) /\ ht' = ht) \/
     ((key_of x ∉ (key_of <$> entries ht)) /\ entries ht' ≡ₚ (x :: entries ht))).
Proof.
  intros Hok Hx. destruct (htb_find_ok ht (key_of x) Hok) as (r & Hr & Hspec).
  unfold kcpmux_htb_add. rewrite Hr. cbn. destruct r as [y|].
  - destruct (proj1 (Hspec y) eq_refl) as [Hy Hk].
    exists ht. split; [done|]. split; [done|]. split; [done|]. left. split; [|done].
    rewrite <- Hk. by apply list_elem_of_fmap_2.
  - assert (Hnew : key_of x ∉ (key_of <$> entries ht)).
    { intros (y & Hk & Hy)%list_elem_of_fmap. by discriminate (proj2 (Hspec y) (conj Hy (eq_sym Hk))). }
    destruct (bucket_some ht (hash (key_of x)) (htb_ok_size _ Hok)) as [b Hb].
    unfold kcpmux_htb_add_direct. rewrite Hb. cbn. eexists. split; [done|].
    set (ht' := mk_htb _ _).
    assert (Hsz : htb_size ht' = htb_size ht) by (unfold htb_size; cbn; by rewrite length_insert).
    assert (Hperm : entries ht' ≡ₚ x :: entries ht) by by apply insert_concat_perm.
    split; [|split; [done|by right]].
    assert (Hidx : forall h, bucket_index ht' h = bucket_index ht h)
      by (intros; unfold bucket_index; by rewrite Hsz).
    constructor.
    + rewrite Hsz. apply Hok.
    + intros i b' y Hi Hy. rewrite Hidx. cbn in Hi.
      apply list_lookup_insert_Some in Hi as [(<- & <- & _)|(Hne & Hi)].
      * apply elem_of_cons in Hy as [->|Hy]; [done|].
        eapply (htb_ok_place _ Hok); done.
      * by eapply (htb_ok_place _ Hok).
    + change (concat (hashtable ht')) with (entries ht'). rewrite Hperm. cbn.
      apply list.NoDup_cons. split; [done|apply Hok].
    + change (concat (hashtable ht')) with (entries ht'). rewrite Hperm. cbn.
      rewrite (htb_ok_num _ Hok). unfold entries. lia.
Qed.

(** Deleting an object removes exactly it; an object that is not linked is
    left alone. *)
Lemma htb_del_ok ht x :
  htb_ok ht ->
  htb_ok (kcpmux_htb_del x ht) /\ htb_size (kcpmux_htb_del x ht) = htb_size ht /\
  entries (kcpmux_htb_del x ht) = filter (fun y => y <> x) (entries ht) /\
  num (kcpmux_htb_del x ht) = num ht - (if linked x ht then 1 else 0).
Proof.
  intros Hok. pose proof (NoDup_fmap_1 _ _ (htb_ok_keys _ Hok)) as Hnd.
  unfold kcpmux_htb_del, linked. case_bool_decide as Hx.
  - set (ht' := mk_htb _ _).
    assert (Hent : entries ht' = filter (fun y => y <> x) (entries ht))
      by apply concat_filter_ne.
    assert (Hsz : htb_size ht' = htb_size ht) by (unfold htb_size; cbn; by rewrite length_fmap).
    pose proof (filter_ne_perm _ _ Hnd Hx) as Hperm.
    split; [|done]. constructor.
    + rewrite Hsz. apply Hok.
    + intros i b y Hi Hy. unfold bucket_index. rewrite Hsz. cbn in Hi.
      rewrite list_lookup_fmap in Hi. apply fmap_Some in Hi as (b0 & Hi & ->).
      apply list_elem_of_filter in Hy as [_ Hy]. by eapply (htb_ok_place _ Hok).
    + change (concat (hashtable ht')) with (entries ht'). rewrite Hent.
      pose proof (htb_ok_keys _ Hok) as Hk. rewrite Hperm in Hk. cbn in Hk.
      by apply list.NoDup_cons in Hk as [_ Hk].
    + change (concat (hashtable ht')) with (entries ht'). rewrite Hent.
      cbn [num ht']. rewrite (htb_ok_num _ Hok), Hperm at 1. cbn. unfold entries. lia.
  - split; [done|]. split; [done|]. split; [|lia]. symmetry. by apply filter_ne_id.
Qed.
(** Moving the entry found to the tail of its bucket keeps the map. *)
Lemma htb_find_lru_ok ht k :
  htb_ok ht ->
  exists r ht', kcpmux_htb_find_lru (key_cmp k) (hash k) ht = Some (r, ht') /\
    htb_ok ht' /\ entries ht' ≡ₚ entries ht /\
    forall x, r = Some x <-> x ∈ entries ht /\ key_of x = k.
Proof.
  intros Hok. destruct (bucket_some ht (hash k) (htb_ok_size _ Hok)) as [b Hb].
  unfold kcpmux_htb_find_lru. rewrite Hb. cbn. rewrite find_loop_key. cbn.
  assert (Hspec := fun x => bucket_find_spec ht k b (reverse b) x Hok Hb (fun y => elem_of_reverse y b)).
  destruct (list_find _ (reverse b)) as [[i y]|]; cbn in *;
    [|exists None, ht; by split_and!].
  destruct (proj1 (Hspec y) eq_refl) as [Hy Hk].
  assert (Hyb : y ∈ b) by (apply (entries_bucket ht y b Hok); [by rewrite Hk|done]).
  pose proof (NoDup_fmap_1 _ _ (htb_ok_keys _ Hok)) as Hnd.
  set (ht' := mk_htb _ _). exists (Some y), ht'.
  assert (Hbnd : NoDup b).
  { unfold bucket in Hb. rewrite <- (take_drop_middle _ _ _ Hb), concat_app in Hnd.
    cbn in Hnd. apply list.NoDup_app in Hnd as (_ & _ & Hnd).
    by apply list.NoDup_app in Hnd as (Hnd & _). }
  assert (Hbp : filter (fun z => z <> y) b ++ [y] ≡ₚ b).
  { rewrite (filter_ne_perm b y Hbnd Hyb) at 2. by rewrite Permutation_app_comm. }
  assert (Hperm : entries ht' ≡ₚ entries ht).
  { unfold entries, ht'. cbn. unfold bucket in Hb.
    rewrite insert_take_drop by by eapply lookup_lt_Some.
    rewrite <- (take_drop_middle (hashtable ht) _ _ Hb) at 3.
    rewrite !concat_app. cbn. by rewrite Hbp. }
  assert (Hsz : htb_size ht' = htb_size ht) by (unfold htb_size; cbn; by rewrite length_insert).
  split_and!; [done| |done|done]. constructor.
  - rewrite Hsz. apply Hok.
  - intros j b' z Hj Hz. unfold bucket_index. rewrite Hsz. cbn in Hj.
    apply list_lookup_insert_Some in Hj as [(<- & <- & _)|(Hne & Hj)].
    + rewrite Hbp in Hz. eapply (htb_ok_place _ Hok); done.
    + by eapply (htb_ok_place _ Hok).
  - change (concat (hashtable ht')) with (entries ht'). rewrite Hperm. apply Hok.
  - change (concat (hashtable ht')) with (entries ht'). rewrite Hperm. apply Hok.
Qed.

Lemma htb_new_ok size :
  exists ht, kcpmux_htb_new true true size = Some ht /\ htb_ok ht /\ entries ht = [] /\
    htb_size ht = Z.max 11 size.
Proof.
  eexists. split; [done|].
  assert (He : concat (replicate (Z.to_nat (Z.max 11 size)) []) = @nil A).
  { induction (Z.to_nat (Z.max 11 size)); [done|by cbn]. }
  assert (Hs : htb_size (mk_htb (replicate (Z.to_nat (Z.max 11 size)) (@nil A)) 0) = Z.max 11 size).
  { unfold htb_size. cbn. rewrite length_replicate. lia. }
  split_and!; [|done|done]. constructor.
  - rewrite Hs. lia.
  - intros i b x Hi Hx. cbn in Hi. apply lookup_replicate in Hi as [-> _].
    by apply elem_of_nil in Hx.
  - cbn. rewrite He. constructor.
  - cbn. by rewrite He.
Qed.
End map.

(** ** Tables of live objects

    What holds of the operations without the invariant: no assumption on keys
    or places. *)

Section live.
Context {A : Type} `{EqDecision A}.
Implicit Types (ht : htb A) (x : A) (cmp : A -> option bool).

Lemma find_loop_ext (f g : A -> option bool) l :
  (forall x, x ∈ l -> f x = g x) -> find_loop f l = find_loop g l.
Proof.
  induction l as [|x l IH]; intros H; [done|]. cbn. rewrite H by by left.
  destruct (g x) as [[]|]; [done| |done]. cbn. apply IH. intros. apply H. by right.
Qed.

Lemma bucket_entries ht h b x : bucket ht h = Some b -> x ∈ b -> x ∈ entries ht.
Proof. intros Hb Hx. apply elem_of_concat. by exists (bucket_index ht h), b. Qed.

Lemma htb_find_ext f g h ht :
  (forall x, x ∈ entries ht -> f x = g x) -> kcpmux_htb_find f h ht = kcpmux_htb_find g h ht.
Proof.
  intros H. unfold kcpmux_htb_find. destruct (bucket ht h) as [b|] eqn:Hb; [|done]. cbn.
  apply find_loop_ext. intros x Hx. apply H. by eapply bucket_entries.
Qed.

(** A search runs when every object of the table can be read. *)
Lemma htb_find_live cmp h ht :
  0 < htb_size ht -> (forall x, x ∈ entries ht -> is_Some (cmp x)) ->
  exists r, kcpmux_htb_find cmp h ht = Some r /\ forall x, r = Some x -> x ∈ entries ht.
Proof.
  intros Hs Hl. destruct (bucket_some ht h Hs) as [b Hb]. unfold kcpmux_htb_find. rewrite Hb. cbn.
  assert (Hin : forall x, x ∈ b -> x ∈ entries ht) by (intros; by eapply bucket_entries).
  clear Hb. induction b as [|x b IH]; cbn; [by exists None|].
  destruct (Hl x (Hin x ltac:(by left))) as [[] ->]; cbn.
  - exists (Some x). split; [done|]. intros ? [= <-]. apply Hin. by left.
  - apply IH. intros. apply Hin. by right.
Qed.

Lemma htb_find_none cmp h ht :
  0 < htb_size ht -> (forall x, x ∈ entries ht -> cmp x = Some false) ->
  kcpmux_htb_find cmp h ht = Some None.
Proof.
  intros Hs Hl. destruct (bucket_some ht h Hs) as [b Hb]. unfold kcpmux_htb_find. rewrite Hb. cbn.
  assert (Hin : forall x, x ∈ b -> cmp x = Some false) by (intros; by eapply Hl, bucket_entries).
  clear Hb. induction b as [|x b IH]; cbn; [done|]. rewrite Hin by by left. apply IH. intros. apply Hin. by right.
Qed.

Lemma htb_add_new cmp x h ht :
  0 < htb_size ht -> kcpmux_htb_find cmp h ht = Some None ->
  exists ht', kcpmux_htb_add cmp x h ht = Some ht' /\ htb_size ht' = htb_size ht /\
    entries ht' ≡ₚ x :: entries ht.
Proof.
  intros Hs Hf. unfold kcpmux_htb_add. rewrite Hf. cbn.
  destruct (bucket_some ht h Hs) as [b Hb]. unfold kcpmux_htb_add_direct. rewrite Hb. cbn.
  eexists. split; [done|]. split; [unfold htb_size; cbn; by rewrite length_insert|].
  by apply insert_concat_perm.
Qed.

Lemma htb_add_live cmp x h ht :
  0 < htb_size ht -> (forall x, x ∈ entries ht -> is_Some (cmp x)) ->
  exists ht', kcpmux_htb_add cmp x h ht = Some ht' /\ htb_size ht' = htb_size ht /\
    forall y, y ∈ entries ht' -> y = x \/ y ∈ entries ht.
Proof.
  intros Hs Hl. destruct (htb_find_live cmp h ht Hs Hl) as (r & Hr & Hin).
  destruct r as [z|].
  - exists ht. unfold kcpmux_htb_add. rewrite Hr. auto.
  - destruct (htb_add_new cmp x h ht Hs Hr) as (ht' & Ha & Hs' & Hp). exists ht'.
    split; [done|]. split; [done|]. intros y. rewrite Hp. by apply elem_of_cons.
Qed.

Lemma htb_del_entries ht x :
  htb_size (kcpmux_htb_del x ht) = htb_size ht /\
  hashtable (kcpmux_htb_del x ht) = filter (fun y => y <> x) <$> hashtable ht /\
  entries (kcpmux_htb_del x ht) = filter (fun y => y <> x) (entries ht).
Proof.
  assert (Hh : hashtable (kcpmux_htb_del x ht) = filter (fun y => y <> x) <$> hashtable ht).
  { unfold kcpmux_htb_del, linked. case_bool_decide as Hx; [done|].
    induction (hashtable ht) as [|b l IH]; [done|]. cbn in Hx |- *.
    rewrite filter_ne_id by set_solver. f_equal. apply IH. set_solver. }
  split; [unfold htb_size; by rewrite Hh, length_fmap|]. split; [done|].
  unfold entries. rewrite Hh. apply concat_filter_ne.
Qed.
End live.

(** C30. A table whose entries sit in the bucket of their key, with distinct
    keys, behaves as a finite map: [kcpmux_htb_find] (and [_find_lru]) returns
    the entry with the key sought and only it, [kcpmux_htb_add] inserts an
    entry with a new key and ignores one whose key is taken,
    [kcpmux_htb_del] removes the entry and nothing else and leaves an
    unlinked node alone, and [num] stays the number of entries. *)
Theorem hashtable_refines_map {A Key} `{EqDecision A, EqDecision Key}
    (key_of : A -> Key) (hash : Key -> Z) (ht : htb A) (k : Key) (x : A) :
  htb_ok key_of hash ht ->
  (exists r, kcpmux_htb_find (key_cmp key_of k) (hash k) ht = Some r /\
     forall y, r = Some y <-> y ∈ entries ht /\ key_of y = k) /\
  (exists r ht', kcpmux_htb_find_lru (key_cmp key_of k) (hash k) ht = Some (r, ht') /\
     htb_ok key_of hash ht' /\ entries ht' ≡ₚ entries ht /\
     forall y, r = Some y <-> y ∈ entries ht /\ key_of y = k) /\
  (x ∉ entries ht ->
     exists ht', kcpmux_htb_add (key_cmp key_of (key_of x)) x (hash (key_of x)) ht = Some ht' /\
       htb_ok key_of hash ht' /\
       ((key_of x ∈ (key_of <$> entries ht) /\ ht' = ht) \/
        ((key_of x ∉ (key_of <$> entries ht)) /\ entries ht' ≡ₚ (x :: entries ht)))) /\
  (htb_ok key_of hash (kcpmux_htb_del x ht) /\
     entries (kcpmux_htb_del x ht) = filter (fun y => y <> x) (entries ht) /\
     kcpmux_htb_num (kcpmux_htb_del x ht) = Z.of_nat (length (entries (kcpmux_htb_del x ht)))).
Proof.
  intros Hok. split_and!.
  - by apply htb_find_ok.
  - by apply htb_find_lru_ok.
  - intros Hx. destruct (htb_add_ok key_of hash ht x Hok Hx) as (ht' & ? & ? & _ & ?). eauto.
  - by apply htb_del_ok.
  - by apply (htb_del_ok key_of hash).
  - apply (htb_ok_num key_of hash), htb_del_ok, Hok.
Qed.

Lemma hashtable_refines_map_witness :
  exists ht, htb_ok (fun x : Z => x / 10) (fun k => k) ht /\ entries ht = [25; 140] /\
    kcpmux_htb_find (key_cmp (fun x : Z => x / 10) 14) 14 ht = Some (Some 140).
Proof.
  set (key_of := fun x : Z => x / 10).
  set (ht := mk_htb ([] :: [] :: [25] :: [140] :: replicate 7 []) 2).
  assert (Hok : htb_ok key_of (fun k => k) ht).
  { constructor; [done| | |done].
    - intros i b x Hi Hx.
      do 11 (destruct i as [|i];
        [cbn in Hi; injection Hi as <-; apply list_elem_of_In in Hx; cbn in Hx; intuition (subst; reflexivity)|]).
      done.
    - vm_compute. apply list.NoDup_cons. split; [|apply list.NoDup_singleton].
      intros H%list_elem_of_In. by destruct H as [[=]|[]]. }
  exists ht. split_and!; [done|done|].
  destruct (hashtable_refines_map key_of (fun k => k) ht 14 140 Hok) as ((r & Hr & Hspec) & _).
  rewrite Hr. f_equal. apply Hspec. split; [|done].
  apply list_elem_of_In. cbn. auto.
Defined.
