(* ===== verification/Vectored.v ===== *)
(** * Vectored send cursor (src/kcpmux_stream.c)

    [kcpmux_stream_sendv] walks a list of memory fragments with a cursor
    (fragment index, offset in the fragment).  The cursor functions are
    translated here and shown to consume the concatenation of the fragments
    from left to right, without leaving the array. *)

From S2P Require Import Prelude.

(** [kcpmux_iovec_t]; [None] is a NULL [data] pointer. *)
Record iovec := mk_iovec {
  iov_data : option (list Z);
  iov_len : Z
}.

(** [kcpmux_vectored_send_context_t]: [iovcnt] is the length of [vc_iov]; the
    scratch buffer only holds the bytes [kcpmux_vectored_copy] returns. *)
Record vectored_send_context := mk_vctx {
  vc_iov : list iovec;
  vc_index : nat;
  vc_offset : Z
}.

(** [while (index < iovcnt && iov[index].len == 0) index++], [l] being the
    fragments from [index] on. *)
Fixpoint skip_empty (l : list iovec) (index : nat) : nat :=
  match l with
  | v :: l' => if iov_len v =? 0 then skip_empty l' (S index) else index
  | [] => index
  end.

(** The [while (size > 0)] loop of [kcpmux_vectored_advance].  Every round but
    the last moves to the next fragment, so one round per fragment and one more
    suffice; reading past the array is undefined. *)
Fixpoint advance_loop (fuel : nat) (iov : list iovec) (index : nat) (offset size : Z) :
    option (nat * Z) :=
  if size <=? 0 then Some (index, offset)
  else
    match fuel with
    | O => None
    | S fuel' =>
        item ← iov !! index;
        let available := u32 (iov_len item - offset) in
        let taken := if available <? size then available else size in
        let offset := u32 (offset + taken) in
        let size := u32 (size - taken) in
        if offset =? iov_len item then advance_loop fuel' iov (S index) 0 size
        else advance_loop fuel' iov index offset size
    end.

Definition kcpmux_vectored_advance (c : vectored_send_context) (size : Z) :
    option vectored_send_context :=
  p ← advance_loop (S (length (vc_iov c))) (vc_iov c) (vc_index c) (vc_offset c) size;
  let '(index, offset) := p in
  Some (mk_vctx (vc_iov c) (skip_empty (drop index (vc_iov c)) index) offset).

(** [memcpy(dest, data + offset, n)]: the bytes read. *)
Definition read_bytes_at (data : option (list Z)) (offset n : Z) : option (list Z) :=
  d ← data;
  if (0 <=? offset) && (offset + n <=? Z.of_nat (length d))
  then Some (take (Z.to_nat n) (drop (Z.to_nat offset) d))
  else None.

(** The loop of [kcpmux_vectored_copy]; the bytes appended at [dest]. *)
Fixpoint copy_loop (fuel : nat) (iov : list iovec) (index : nat) (offset size : Z) :
    option (list Z) :=
  if size <=? 0 then Some []
  else
    match fuel with
    | O => None
    | S fuel' =>
        item ← iov !! index;
        let available := u32 (iov_len item - offset) in
        let taken := if available <? size then available else size in
        if 0 <? taken then
          bs ← read_bytes_at (iov_data item) offset taken;
          let size := u32 (size - taken) in
          let offset := u32 (offset + taken) in
          rest ← (if offset =? iov_len item then copy_loop fuel' iov (S index) 0 size
                  else copy_loop fuel' iov index offset size);
          Some (bs ++ rest)
        else if offset =? iov_len item then copy_loop fuel' iov (S index) 0 size
        else copy_loop fuel' iov index offset size
    end.

Definition kcpmux_vectored_copy (c : vectored_send_context) (size : Z) : option (list Z) :=
  copy_loop (S (length (vc_iov c))) (vc_iov c) (vc_index c) (vc_offset c) size.

(** ** The bytes a cursor has left *)

Definition iov_bytes (v : iovec) : list Z :=
  take (Z.to_nat (iov_len v)) (default [] (iov_data v)).

(** A fragment as [kcpmux_stream_sendv] accepts it: [data] points to at least
    [len] bytes unless [len] is 0. *)
Record iovec_ok (v : iovec) : Prop := {
  iovec_ok_len : in_u 32 (iov_len v);
  iovec_ok_bytes : 0 < iov_len v ->
    exists d, iov_data v = Some d /\ iov_len v <= Z.of_nat (length d)
}.

Definition flatten (iov : list iovec) : list Z := concat (iov_bytes <$> iov).

Definition rest (c : vectored_send_context) : list Z :=
  drop (Z.to_nat (vc_offset c)) (flatten (drop (vc_index c) (vc_iov c))).

Record ctx_ok (c : vectored_send_context) : Prop := {
  ctx_iov : Forall iovec_ok (vc_iov c);
  ctx_offset : vc_offset c = 0 \/
    exists v, vc_iov c !! vc_index c = Some v /\ 0 <= vc_offset c < iov_len v
}.

Lemma iov_bytes_length v : iovec_ok v -> Z.of_nat (length (iov_bytes v)) = iov_len v.
Proof.
  intros [Hl Hb]. unfold iov_bytes, in_u in *. rewrite length_take.
  destruct (decide (iov_len v = 0)) as [->|Hne]; [simpl; lia|].
  destruct Hb as (d & -> & Hd); simpl; lia.
Qed.

Lemma flatten_cons v l : flatten (v :: l) = iov_bytes v ++ flatten l.
Proof. done. Qed.

(** Reading [taken] bytes of the current fragment. *)
Lemma read_bytes_rest v o n :
  iovec_ok v -> 0 <= o -> 0 < n -> o + n <= iov_len v ->
  read_bytes_at (iov_data v) o n = Some (take (Z.to_nat n) (drop (Z.to_nat o) (iov_bytes v))).
Proof.
  intros Hv Ho Hn Hle. pose proof Hv as [Hl (d & Hd & Hlen)]; [lia|].
  unfold read_bytes_at, iov_bytes. rewrite Hd. cbn.
  rewrite (proj2 (Z.leb_le _ _) Ho), (proj2 (Z.leb_le _ _)) by lia. cbn. f_equal.
  rewrite skipn_firstn_comm, take_take. f_equal. lia.
Qed.

(** One round of either loop: the cursor and the bytes it stands on. *)
Lemma round_arith v o size :
  iovec_ok v -> 0 <= o <= iov_len v -> 0 < size < 2 ^ 32 ->
  let available := u32 (iov_len v - o) in
  let taken := if available <? size then available else size in
  available = iov_len v - o /\ taken = Z.min (iov_len v - o) size /\
  u32 (o + taken) = o + taken /\ u32 (size - taken) = size - taken.
Proof.
  intros [Hl _] Ho Hs. unfold in_u in Hl. cbv zeta.
  rewrite (wrap_small 32 (iov_len v - o)) by (unfold in_u; lia).
  destruct (Z.ltb_spec (iov_len v - o) size); rewrite !wrap_small by (unfold in_u; lia); lia.
Qed.

(** The conditions on a cursor about to consume [size] bytes. *)
Definition ready (iov : list iovec) (i : nat) (o size : Z) : Prop :=
  (o = 0 \/ exists v, iov !! i = Some v /\ 0 <= o < iov_len v) /\
  0 <= size < 2 ^ 32 /\ size <= Z.of_nat (length (flatten (drop i iov))) - o.

(** While bytes are wanted the cursor stands on a fragment; [n] of its bytes
    are consumed, and either the fragment is used up or the request is. *)
Lemma ready_step iov i o size :
  Forall iovec_ok iov -> ready iov i o size -> 0 < size ->
  exists v n, iov !! i = Some v /\ iovec_ok v /\ 0 <= o /\ 0 <= n /\
    u32 (iov_len v - o) = iov_len v - o /\
    (if u32 (iov_len v - o) <? size then u32 (iov_len v - o) else size) = n /\
    u32 (o + n) = o + n /\ u32 (size - n) = size - n /\ o + n <= iov_len v /\
    rest (mk_vctx iov i o) = take (Z.to_nat n) (drop (Z.to_nat o) (iov_bytes v)) ++
      drop (Z.to_nat (o + n)) (iov_bytes v ++ flatten (drop (S i) iov)) /\
    (o + n = iov_len v -> ready iov (S i) 0 (size - n) /\
       drop (Z.to_nat (o + n)) (iov_bytes v ++ flatten (drop (S i) iov)) =
       rest (mk_vctx iov (S i) 0)) /\
    (o + n <> iov_len v -> size - n = 0 /\
       drop (Z.to_nat (o + n)) (iov_bytes v ++ flatten (drop (S i) iov)) =
       rest (mk_vctx iov i (o + n))).
Proof.
  intros Hiov (Ho & Hs & Hle) Hpos.
  destruct (iov !! i) as [v|] eqn:Hv.
  2: { apply lookup_ge_None in Hv. rewrite drop_ge in Hle by lia. cbn in Hle.
       destruct Ho as [->|(v & [=] & ?)]; lia. }
  assert (Hvok : iovec_ok v) by (eapply Forall_lookup_1; done).
  assert (Hol : 0 <= o <= iov_len v).
  { destruct Ho as [->|(v' & [= <-] & ?)]; [|lia]. pose proof (iovec_ok_len v Hvok) as [? ?]. lia. }
  pose proof (round_arith v o size Hvok Hol ltac:(lia)) as (Ha & Ht & Hu1 & Hu2).
  rewrite Ht in Hu1, Hu2. exists v, (Z.min (iov_len v - o) size).
  pose proof (iov_bytes_length v Hvok) as Hlen. unfold rest. cbn [vc_iov vc_index vc_offset].
  rewrite (drop_S _ v i Hv), flatten_cons in *. rewrite length_app in Hle.
  set (n := Z.min _ _) in *.
  split_and!; try done; try lia.
  - rewrite !drop_app, app_assoc. f_equal.
    + rewrite <- (take_drop (Z.to_nat n) (drop (Z.to_nat o) (iov_bytes v))) at 1.
      f_equal. rewrite drop_drop. f_equal. lia.
    + f_equal. lia.
  - intros He. split; [|rewrite drop_app_ge by lia; f_equal; lia].
    split; [by left|]. lia.
  - intros He. split; [lia|done].
Qed.

Lemma advance_loop_ok fuel iov i o size :
  Forall iovec_ok iov -> ready iov i o size -> (length iov < i + fuel)%nat ->
  exists i' o', advance_loop fuel iov i o size = Some (i', o') /\
    ctx_ok (mk_vctx iov i' o') /\
    rest (mk_vctx iov i' o') = drop (Z.to_nat size) (rest (mk_vctx iov i o)).
Proof.
  intros Hiov. revert i o size.
  induction fuel as [|fuel IH]; intros i o size Hrd Hf; cbn [advance_loop];
    destruct (Z.leb_spec size 0).
  1, 3: destruct Hrd as (Ho & Hs & _); assert (size = 0) as -> by lia; exists i, o;
    split; [done|]; split; [by constructor|]; by rewrite drop_0.
  { destruct (ready_step _ _ _ _ Hiov Hrd) as (v & n & Hv & _); [lia|].
    apply lookup_lt_Some in Hv. lia. }
  destruct (ready_step _ _ _ _ Hiov Hrd) as
    (v & n & Hv & Hok & Ho & Hn & Ha & Ht & Hu1 & Hu2 & Hle & Hrest & Heq & Hne); [lia|].
  rewrite Hv. cbn. rewrite Ht, Hu1, Hu2, Hrest.
  assert (Hdrop : forall l, drop (Z.to_nat size) (take (Z.to_nat n) (drop (Z.to_nat o) (iov_bytes v)) ++ l)
                       = drop (Z.to_nat (size - n)) l).
  { pose proof (iov_bytes_length v Hok). intros l.
    assert (n <= size) by (rewrite <- Ht; destruct (Z.ltb_spec (u32 (iov_len v - o)) size); lia).
    rewrite drop_app_ge; rewrite length_take, length_drop; [f_equal; lia|lia]. }
  rewrite Hdrop. destruct (Z.eqb_spec (o + n) (iov_len v)) as [He|He].
  - destruct (Heq He) as [Hrd' ->]. apply IH; [done|lia].
  - destruct (Hne He) as [-> ->]. exists i, (o + n).
    replace (advance_loop fuel iov i (o + n) 0) with (Some (i, o + n)) by by destruct fuel.
    split; [done|]. rewrite drop_0. split; [|done]. constructor; [done|].
    right. exists v. cbn. split; [done|lia].
Qed.

Lemma copy_loop_ok fuel iov i o size :
  Forall iovec_ok iov -> ready iov i o size -> (length iov < i + fuel)%nat ->
  copy_loop fuel iov i o size = Some (take (Z.to_nat size) (rest (mk_vctx iov i o))).
Proof.
  intros Hiov. revert i o size.
  induction fuel as [|fuel IH]; intros i o size Hrd Hf; cbn [copy_loop];
    destruct (Z.leb_spec size 0).
  1, 3: by replace (Z.to_nat size) with 0%nat by lia.
  { destruct (ready_step _ _ _ _ Hiov Hrd) as (v & n & Hv & _); [lia|].
    apply lookup_lt_Some in Hv. lia. }
  destruct (ready_step _ _ _ _ Hiov Hrd) as
    (v & n & Hv & Hok & Ho & Hn & Ha & Ht & Hu1 & Hu2 & Hle & Hrest & Heq & Hne); [lia|].
  rewrite Hv. cbn. rewrite Ht, Hu1, Hu2, Hrest.
  pose proof (iov_bytes_length v Hok) as Hlen.
  assert (n <= size) by (rewrite <- Ht; destruct (Z.ltb_spec (u32 (iov_len v - o)) size); lia).
  rewrite take_app_ge by (rewrite length_take, length_drop; lia).
  rewrite length_take, length_drop.
  replace (Z.to_nat size - _)%nat with (Z.to_nat (size - n)) by lia.
  set (l := drop (Z.to_nat (o + n)) _) in *.
  assert (Hnext : (if o + n =? iov_len v then copy_loop fuel iov (S i) 0 (size - n)
                   else copy_loop fuel iov i (o + n) (size - n)) = Some (take (Z.to_nat (size - n)) l)).
  { destruct (Z.eqb_spec (o + n) (iov_len v)) as [He|He].
    - destruct (Heq He) as [Hrd' ->]. apply IH; [done|lia].
    - destruct (Hne He) as [-> ->]. by destruct fuel. }
  destruct (Z.ltb_spec 0 n) as [Hp|Hp].
  - rewrite read_bytes_rest by done. cbn. by rewrite Hnext.
  - assert (n = 0) as -> by lia. rewrite Z.sub_0_r, Z.add_0_r in *. cbn [Z.to_nat take app].
    exact Hnext.
Qed.

Lemma skip_empty_rest iov i :
  Forall iovec_ok iov ->
  rest (mk_vctx iov (skip_empty (drop i iov) i) 0) = rest (mk_vctx iov i 0).
Proof.
  intros Hiov. unfold rest. cbn [vc_iov vc_index vc_offset]. rewrite !drop_0.
  remember (drop i iov) as l eqn:Hl. revert i Hl.
  induction l as [|v l IH]; intros i Hl; cbn [skip_empty]; [by rewrite <- Hl|].
  destruct (Z.eqb_spec (iov_len v) 0) as [He|He]; [|by rewrite <- Hl].
  assert (Hv : iovec_ok v).
  { assert (v ∈ iov) as Hin; [|rewrite Forall_forall in Hiov; by apply Hiov, list_elem_of_In].
    rewrite <- (take_drop i iov), <- Hl. set_solver. }
  assert (Hl' : l = drop (S i) iov).
  { replace (S i) with (i + 1)%nat by lia. by rewrite <- drop_drop, <- Hl. }
  rewrite (IH (S i) Hl'), flatten_cons. pose proof (iov_bytes_length v Hv).
  by destruct (iov_bytes v); [|simpl in *; lia].
Qed.

Lemma ctx_ready c size :
  ctx_ok c -> 0 <= size < 2 ^ 32 -> size <= Z.of_nat (length (rest c)) ->
  ready (vc_iov c) (vc_index c) (vc_offset c) size.
Proof.
  destruct c as [iov i o]. intros [Hiov Ho] Hs Hle. cbn in Hiov, Ho |- *.
  unfold rest in Hle. cbn [vc_iov vc_index vc_offset] in Hle. rewrite length_drop in Hle.
  split_and!; [done|lia|lia|].
  destruct Ho as [->|(v & Hv & ?)]; [lia|].
  assert (iovec_ok v) as Hvok by (eapply Forall_lookup_1; done).
  rewrite (drop_S _ v i Hv), flatten_cons, length_app in *.
  pose proof (iov_bytes_length v Hvok). lia.
Qed.

Lemma vectored_copy_ok c size :
  ctx_ok c -> 0 <= size < 2 ^ 32 -> size <= Z.of_nat (length (rest c)) ->
  kcpmux_vectored_copy c size = Some (take (Z.to_nat size) (rest c)).
Proof.
  intros Hc Hs Hle. pose proof (ctx_ready c size Hc Hs Hle). destruct c as [iov i o].
  apply copy_loop_ok; [apply Hc|done|cbn; lia].
Qed.

Lemma vectored_advance_ok c size :
  ctx_ok c -> 0 <= size < 2 ^ 32 -> size <= Z.of_nat (length (rest c)) ->
  exists c', kcpmux_vectored_advance c size = Some c' /\ ctx_ok c' /\
    vc_iov c' = vc_iov c /\ rest c' = drop (Z.to_nat size) (rest c).
Proof.
  intros Hc Hs Hle. pose proof (ctx_ready c size Hc Hs Hle) as Hrd.
  destruct c as [iov i o]. pose proof (ctx_iov _ Hc) as Hiov. cbn in Hiov, Hrd.
  unfold kcpmux_vectored_advance. cbn [vc_iov vc_index vc_offset].
  destruct (advance_loop_ok (S (length iov)) iov i o size) as (i' & o' & -> & Hc' & Hr);
    [done|done|lia|].
  cbn. eexists. split; [done|]. cbn [vc_iov].
  pose proof (ctx_offset _ Hc') as Ho'. cbn in Ho'.
  destruct Ho' as [->|(v & Hv & Hlt)].
  - split_and!; [by constructor; [|left]|done|]. by rewrite skip_empty_rest.
  - assert (skip_empty (drop i' iov) i' = i') as ->; [|by split_and!].
    rewrite (drop_S _ v i' Hv). cbn. destruct (Z.eqb_spec (iov_len v) 0); [lia|done].
Qed.

(** C31. Sending from a list of fragments: with [size] bytes left, one round
    copies exactly the next [size] bytes of the concatenated fragments and
    leaves the cursor in front of the bytes that follow them, on every fragment
    layout, without reading outside a fragment or past the array. *)
Theorem vectored_cursor_refines c size :
  ctx_ok c -> 0 <= size < 2 ^ 32 -> size <= Z.of_nat (length (rest c)) ->
  kcpmux_vectored_copy c size = Some (take (Z.to_nat size) (rest c)) /\
  exists c', kcpmux_vectored_advance c size = Some c' /\ ctx_ok c' /\
    vc_iov c' = vc_iov c /\ rest c' = drop (Z.to_nat size) (rest c).
Proof. intros. split; [by apply vectored_copy_ok|by apply vectored_advance_ok]. Qed.

Lemma vectored_cursor_refines_witness :
  let c := mk_vctx [mk_iovec (Some [1; 2; 3]) 3; mk_iovec None 0; mk_iovec (Some [4; 5]) 2] 0 1 in
  kcpmux_vectored_copy c 3 = Some [2; 3; 4].
Proof.
  intros c.
  assert (Hok : ctx_ok c).
  { constructor; [|right; exists (mk_iovec (Some [1; 2; 3]) 3); split; [done|cbn; lia]].
    repeat constructor; cbn; try lia; intros _; eexists; (split; [done|cbn; lia]). }
  exact (proj1 (vectored_cursor_refines c 3 Hok ltac:(lia) ltac:(vm_compute; congruence))).
Defined.
