(* ===== verification/World.v ===== *)
(** * State of the multiplexer and its environment

    The engine, its connections and its streams as records with the fields of
    src/kcpmux_engine.h, src/kcpmux_conn.h and src/kcpmux_stream.h, and the two
    parties the library talks to: the host program (clock, socket, allocator,
    random source, notification callbacks) and the KCP implementation behind
    [kcpmux_kcp_ops_t].

    Everything the library asks of or tells the host is an [event] of the
    trace (newest first).  What the host answers is a function of the trace, so
    two calls may be answered differently; what KCP does is a function of its
    opaque state.  Both are class parameters.  Callbacks are told apart by the
    function pointer that was installed; they must not reenter the library
    (include/kcpmux/kcpmux_types.h), except that the two creation callbacks may
    call the setters, which is the list of setter calls in their answer. *)

From S2P Require Import Prelude Types Timer Hashtable Vectored.

Abbreviation addr := (list Z) (only parsing).
Abbreviation fnptr := (option positive) (only parsing).

(** ** Callback tables *)

Record engine_callbacks := mk_engine_callbacks {
  ecb_set_timer : fnptr;
  ecb_write_socketv : fnptr;
  ecb_log_write : fnptr;
  ecb_monotonic_time_ms : fnptr;
  ecb_conn_connect_notify : fnptr;
  ecb_random_u64 : fnptr
}.

Record conn_callbacks := mk_conn_callbacks {
  ccb_conn_state_changed : fnptr;
  ccb_conn_close_notify : fnptr;
  ccb_stream_create_notify : fnptr
}.

Record stream_callbacks := mk_stream_callbacks {
  scb_stream_state_changed : fnptr;
  scb_stream_read_notify : fnptr;
  scb_stream_write_notify : fnptr;
  scb_stream_close_notify : fnptr
}.

Definition conn_callbacks_zero : conn_callbacks := mk_conn_callbacks None None None.
Definition stream_callbacks_zero : stream_callbacks := mk_stream_callbacks None None None None.

(** ** What the host may do inside a creation callback *)

Inductive conn_setter :=
| SetConnConfig (config : option conn_config)
| SetConnCallbacks (callbacks : option conn_callbacks) (user_data : Z).

Inductive stream_setter :=
| SetStreamConfig (config : option stream_config)
| SetStreamCallbacks (callbacks : option stream_callbacks) (user_data : Z).

(** Answer of [conn_connect_notify]: its return value, the contents it leaves
    in [resp_proto_ext], and the setters it called. *)
Record connect_response := mk_connect_response {
  cr_result : Z;
  cr_ext : proto_ext;
  cr_setters : list conn_setter
}.

Record create_response := mk_create_response {
  sr_result : Z;
  sr_setters : list stream_setter
}.

(** ** Events *)

Inductive event :=
| EvTime (now : Z)
| EvRandom (v : Z)
| EvAlloc (ok : bool)
| EvSetTimer (wake_after_ms : Z)
| EvWrite (iov : list iovec) (a : addr) (ret : Z)
| EvConnectNotify (f conn : positive) (ext : proto_ext) (resp : connect_response)
| EvConnState (f conn : positive) (old_state new_state : conn_state) (user_data : Z)
| EvConnClose (f conn : positive) (reason user_data : Z)
| EvCreateNotify (f stream : positive) (user_data : Z) (resp : create_response)
| EvStreamState (f stream : positive) (old_state new_state : stream_state) (user_data : Z)
| EvStreamRead (f stream : positive) (user_data : Z)
| EvStreamWrite (f stream : positive) (user_data : Z)
| EvStreamClose (f stream : positive) (reason user_data : Z)
| EvKcpCreate (stream : positive) (ok : bool)
| EvKcpRelease (stream : positive)
| EvFree (o : obj)
| EvEngineFree.

Definition trace := list event.

(** ** The host *)

Class Host := {
  host_monotonic_time_ms : trace -> Z;
  host_random_u64 : trace -> Z;
  host_rand : trace -> Z;
  host_alloc : trace -> bool;
  host_write_socketv : trace -> list iovec -> addr -> Z;
  host_conn_connect_notify : trace -> positive -> positive -> connect_response;
  host_stream_create_notify : trace -> positive -> positive -> create_response
}.

(** ** The KCP implementation

    An operation that may call the installed output callback is a sequence of
    such calls, each answered by the callback's return value, ending with the
    new KCP state and the operation's result. *)

Inductive kact (K R : Type) :=
| KRet (k : K) (r : R)
| KOut (buf : list Z) (cont : Z -> kact K R).
Arguments KRet {K R} _ _.
Arguments KOut {K R} _ _.

Class Kcp := {
  K : Type;
  kcp_create : trace -> Z -> option K;
  kcp_setmss : K -> Z -> K;
  kcp_send : K -> list Z -> kact K Z;
  (** [None] when the operation is not provided. *)
  kcp_sendv : option (K -> list iovec -> Z -> Z -> kact K Z);
  kcp_input : K -> list Z -> kact K Z;
  (** The return value, the bytes stored in the buffer, and the new state. *)
  kcp_recv : K -> Z -> Z * list Z * K;
  kcp_peeksize : K -> Z;
  kcp_waitsnd : K -> Z;
  kcp_update : K -> Z -> kact K unit;
  kcp_check : K -> Z -> Z;
  kcp_current_update : K -> Z -> K
}.

(** ** Statistics (include/kcpmux/kcpmux_types.h) *)

Record engine_stats := mk_engine_stats {
  es_tx_packets : Z; es_tx_bytes : Z; es_rx_packets : Z; es_rx_bytes : Z;
  es_tx_error_packets : Z;
  es_conn_count : Z; es_stream_count : Z;
  es_conn_created_total : Z; es_conn_closed_total : Z; es_conn_connected_total : Z;
  es_conn_rejected_total : Z; es_conn_idle_timeout_total : Z;
  es_conn_keepalive_timeout_total : Z;
  es_stream_created_total : Z; es_stream_closed_total : Z; es_stream_opened_total : Z;
  es_api_conn_connect_calls : Z; es_api_conn_close_calls : Z;
  es_api_stream_create_calls : Z; es_api_stream_close_calls : Z;
  es_api_stream_send_calls : Z; es_api_stream_sendv_calls : Z;
  es_api_stream_recv_calls : Z
}.
#[export] Instance eta_engine_stats : Eta engine_stats := fun r =>
  mk_engine_stats (es_tx_packets r) (es_tx_bytes r) (es_rx_packets r) (es_rx_bytes r)
    (es_tx_error_packets r) (es_conn_count r) (es_stream_count r)
    (es_conn_created_total r) (es_conn_closed_total r) (es_conn_connected_total r)
    (es_conn_rejected_total r) (es_conn_idle_timeout_total r)
    (es_conn_keepalive_timeout_total r) (es_stream_created_total r)
    (es_stream_closed_total r) (es_stream_opened_total r) (es_api_conn_connect_calls r)
    (es_api_conn_close_calls r) (es_api_stream_create_calls r)
    (es_api_stream_close_calls r) (es_api_stream_send_calls r)
    (es_api_stream_sendv_calls r) (es_api_stream_recv_calls r).

Definition engine_stats_zero : engine_stats :=
  mk_engine_stats 0 0 0 0 0 0 0 0 0 0 0 0 0 0 0 0 0 0 0 0 0 0 0.

Record conn_stats := mk_conn_stats {
  cs_tx_packets : Z; cs_tx_bytes : Z; cs_rx_packets : Z; cs_rx_bytes : Z;
  cs_handshake_time_ms : Z
}.
#[export] Instance eta_conn_stats : Eta conn_stats := fun r =>
  mk_conn_stats (cs_tx_packets r) (cs_tx_bytes r) (cs_rx_packets r) (cs_rx_bytes r)
    (cs_handshake_time_ms r).

Definition conn_stats_zero : conn_stats := mk_conn_stats 0 0 0 0 0.

Record stream_stats := mk_stream_stats {
  ss_tx_packets : Z; ss_tx_bytes : Z; ss_rx_packets : Z; ss_rx_bytes : Z;
  ss_up_sent_bytes : Z; ss_up_recv_bytes : Z;
  ss_ttfb_time_ms : Z; ss_write_block_count : Z; ss_write_block_time_ms : Z;
  ss_read_block_count : Z; ss_read_block_time_ms : Z
}.
#[export] Instance eta_stream_stats : Eta stream_stats := fun r =>
  mk_stream_stats (ss_tx_packets r) (ss_tx_bytes r) (ss_rx_packets r) (ss_rx_bytes r)
    (ss_up_sent_bytes r) (ss_up_recv_bytes r) (ss_ttfb_time_ms r)
    (ss_write_block_count r) (ss_write_block_time_ms r) (ss_read_block_count r)
    (ss_read_block_time_ms r).

Definition stream_stats_zero : stream_stats := mk_stream_stats 0 0 0 0 0 0 0 0 0 0 0.

(** [counter++] on a [uint64_t], and [counter += n]. *)
Definition inc64 (x : Z) : Z := u64 (x + 1).
Definition add64 (n x : Z) : Z := u64 (x + n).

(** ** Objects *)

(** [struct kcpmux_engine_s].  The timer manager is a component of the world
    because its nodes are embedded in connections and streams.  The items of
    [pending_release_list] are the embedded [pending_release] members; the
    release callback of a connection's is [kcpmux_conn_release], that of a
    stream's [kcpmux_stream_free]. *)
Record engine := mk_engine {
  e_config : engine_config;
  e_callbacks : engine_callbacks;
  e_user_data : Z;
  e_default_conn_config : conn_config;
  e_default_stream_config : stream_config;
  e_conn_map : htb positive;
  e_handshake_map : htb positive;
  e_next_connection_id : Z;
  e_conn_count : Z;
  e_stats : engine_stats;
  e_timer_node_count : Z;
  e_external_timer_armed : bool;
  e_external_timer_deadline_ms : Z;
  e_timer_dispatch_count : Z;
  e_destroying : bool;
  e_pending_batch_streams : list positive;
  e_operation_depth : Z;
  e_pending_release_list : list obj
}.
#[export] Instance eta_engine : Eta engine := fun r =>
  mk_engine (e_config r) (e_callbacks r) (e_user_data r) (e_default_conn_config r)
    (e_default_stream_config r) (e_conn_map r) (e_handshake_map r)
    (e_next_connection_id r) (e_conn_count r) (e_stats r) (e_timer_node_count r)
    (e_external_timer_armed r) (e_external_timer_deadline_ms r)
    (e_timer_dispatch_count r) (e_destroying r) (e_pending_batch_streams r)
    (e_operation_depth r) (e_pending_release_list r).

(** [struct kcpmux_conn_s].  [peer_addr] points to [peer_addr_buf]: the
    address bytes are kept. *)
Record conn := mk_conn {
  c_state : conn_state;
  c_is_initiator : bool;
  c_internal_closed : bool;
  c_in_engine_map : bool;
  c_peer_stream_id_initialized : bool;
  c_local_connection_id : Z;
  c_peer_connection_id : Z;
  c_config : conn_config;
  c_callbacks : conn_callbacks;
  c_user_data : Z;
  c_peer_proto_ext : proto_ext;
  c_self_proto_ext : proto_ext;
  c_peer_addr : addr;
  c_stream_map : htb positive;
  c_stream_count : Z;
  c_next_stream_id : Z;
  c_latest_peer_stream_id : Z;
  c_last_recv_ts : Z;
  c_last_keepalive_ts : Z;
  c_keepalive_seq : Z;
  c_created_ts : Z;
  c_last_payload_ts : Z;
  c_last_ctrl_ts : Z;
  c_retry_count : Z;
  c_close_reason : Z;
  c_stats : conn_stats
}.
#[export] Instance eta_conn : Eta conn := fun r =>
  mk_conn (c_state r) (c_is_initiator r) (c_internal_closed r) (c_in_engine_map r)
    (c_peer_stream_id_initialized r) (c_local_connection_id r)
    (c_peer_connection_id r) (c_config r) (c_callbacks r) (c_user_data r)
    (c_peer_proto_ext r) (c_self_proto_ext r) (c_peer_addr r) (c_stream_map r)
    (c_stream_count r) (c_next_stream_id r) (c_latest_peer_stream_id r)
    (c_last_recv_ts r) (c_last_keepalive_ts r) (c_keepalive_seq r) (c_created_ts r)
    (c_last_payload_ts r) (c_last_ctrl_ts r) (c_retry_count r) (c_close_reason r)
    (c_stats r).

(** A connection just cleared by [memset]. *)
Definition conn_zero : conn :=
  mk_conn CONN_INIT false false false false 0 0 (mk_conn_config 0 0 0 0 0 0)
    conn_callbacks_zero 0 proto_ext_zero proto_ext_zero [] (mk_htb [] 0)
    0 0 0 0 0 0 0 0 0 0 0 conn_stats_zero.

(** [struct kcpmux_stream_s]; the KCP instance is [None] once released. *)
Record stream (K : Type) := mk_stream {
  s_stream_id : Z;
  s_state : stream_state;
  s_is_initiator : bool;
  s_internal_closed : bool;
  s_in_stream_map : bool;
  s_conn : positive;
  s_config : stream_config;
  s_callbacks : stream_callbacks;
  s_user_data : Z;
  s_kcp : option K;
  s_last_ctrl_ts : Z;
  s_retry_count : Z;
  s_close_reason : Z;
  s_close_phase : close_phase;
  s_drain_started_ts : Z;
  s_read_blocked : bool;
  s_write_blocked : bool;
  s_pending_count : Z;
  s_read_block_start_ts : Z;
  s_write_block_start_ts : Z;
  s_stats : stream_stats
}.
Arguments mk_stream {K}.
Arguments s_stream_id {K} _. Arguments s_state {K} _. Arguments s_is_initiator {K} _.
Arguments s_internal_closed {K} _. Arguments s_in_stream_map {K} _. Arguments s_conn {K} _.
Arguments s_config {K} _. Arguments s_callbacks {K} _. Arguments s_user_data {K} _.
Arguments s_kcp {K} _. Arguments s_last_ctrl_ts {K} _. Arguments s_retry_count {K} _.
Arguments s_close_reason {K} _. Arguments s_close_phase {K} _.
Arguments s_drain_started_ts {K} _. Arguments s_read_blocked {K} _.
Arguments s_write_blocked {K} _. Arguments s_pending_count {K} _.
Arguments s_read_block_start_ts {K} _. Arguments s_write_block_start_ts {K} _.
Arguments s_stats {K} _.
#[export] Instance eta_stream K : Eta (stream K) := fun r =>
  mk_stream (s_stream_id r) (s_state r) (s_is_initiator r) (s_internal_closed r)
    (s_in_stream_map r) (s_conn r) (s_config r) (s_callbacks r) (s_user_data r)
    (s_kcp r) (s_last_ctrl_ts r) (s_retry_count r) (s_close_reason r)
    (s_close_phase r) (s_drain_started_ts r) (s_read_blocked r) (s_write_blocked r)
    (s_pending_count r) (s_read_block_start_ts r) (s_write_block_start_ts r)
    (s_stats r).

(** A stream just cleared by [memset]. *)
Definition stream_zero {K} (c : positive) : stream K :=
  mk_stream 0 STREAM_OPEN false false false c (mk_stream_config 0 0 0 0 0 0 0)
    stream_callbacks_zero 0 None 0 0 0 CLOSE_NONE 0 false false 0 0 0 stream_stats_zero.

(** ** The world *)

Record world (K : Type) := mk_world {
  w_engine : engine;
  w_conns : gmap positive conn;
  w_streams : gmap positive (stream K);
  w_timers : timers;
  w_next_addr : positive;
  w_trace : trace
}.
Arguments mk_world {K}.
Arguments w_engine {K} _. Arguments w_conns {K} _. Arguments w_streams {K} _.
Arguments w_timers {K} _. Arguments w_next_addr {K} _. Arguments w_trace {K} _.
#[export] Instance eta_world K : Eta (world K) := fun r =>
  mk_world (w_engine r) (w_conns r) (w_streams r) (w_timers r) (w_next_addr r) (w_trace r).

(** The state monad of the library: [None] is undefined behaviour. *)
Abbreviation W := (M (world K)).

Section access.
Context {KO : Kcp} {HO : Host}.

Definition get_engine : W engine := gets w_engine.
Definition mod_engine (f : engine -> engine) : W unit :=
  modify (fun w => w <| w_engine ::= f |>).
Definition mod_stats (f : engine_stats -> engine_stats) : W unit :=
  mod_engine (fun e => e <| e_stats ::= f |>).

Definition get_conn (c : positive) : W conn := deref (fun w => w_conns w !! c).
Definition mod_conn (c : positive) (f : conn -> conn) : W unit :=
  k ← get_conn c;
  modify (fun w => w <| w_conns ::= <[c := f k]> |>).

Definition get_stream (s : positive) : W (stream K) := deref (fun w => w_streams w !! s).
Definition mod_stream (s : positive) (f : stream K -> stream K) : W unit :=
  st ← get_stream s;
  modify (fun w => w <| w_streams ::= <[s := f st]> |>).

(** The connection a stream belongs to. *)
Definition stream_conn (s : positive) : W conn :=
  st ← get_stream s; get_conn (s_conn st).

(** [stream->kcp], dereferenced. *)
Definition get_kcp (s : positive) : W K :=
  st ← get_stream s; deref (fun _ => s_kcp st).

Definition emit (ev : event) : W unit := modify (fun w => w <| w_trace ::= cons ev |>).

(** A question to the host, recorded with its answer. *)
Definition ask_tr {A} (f : trace -> A) (rec : A -> event) : M trace A := fun tr =>
  Some (f tr, rec (f tr) :: tr).

Definition in_trace {A} (m : M trace A) : W A :=
  zoom w_trace (fun tr w => w <| w_trace := tr |>) m.

Definition ask {A} (f : trace -> A) (rec : A -> event) : W A := in_trace (ask_tr f rec).

Definition alloc : W bool := ask host_alloc EvAlloc.

Definition in_timers {A} (m : M timers A) : W A :=
  zoom w_timers (fun t w => w <| w_timers := t |>) m.

(** [kcpmux_htb_new] with its two calls of [calloc]. *)
Definition htb_new_tr (size : Z) : M trace (option (htb positive)) :=
  a ← ask_tr host_alloc EvAlloc;
  b ← (if (a : bool) then ask_tr host_alloc EvAlloc else mret false);
  mret (kcpmux_htb_new a b size).

Definition htb_new (size : Z) : W (option (htb positive)) := in_trace (htb_new_tr size).
End access.
