(* ===== verification/Engine.v ===== *)
(** * Engine services (src/kcpmux_engine.c)

    Host access, operation boundaries with deferred release, timer
    registration and arming of the host's one-shot timer, the connection
    tables, and socket output.  The entry points that dispatch into
    connections and streams (create, destroy, update, input, finish_batch) are
    in [Mux].

    There is one engine, so the [engine] argument of the functions and its
    NULL checks are left out.  [kcpmux_conn_release] and [kcpmux_stream_free]
    (src/kcpmux_conn.c, src/kcpmux_stream.c) are here because the operation
    boundary calls them. *)

From S2P Require Import Prelude Types Timer Hash Hashtable Vectored World.

Section engine.
Context {KO : Kcp} {HO : Host}.

Definition kcpmux_engine_callbacks_valid (cb : engine_callbacks) : bool :=
  bool_decide (is_Some (ecb_set_timer cb)) &&
  bool_decide (is_Some (ecb_write_socketv cb)) &&
  bool_decide (is_Some (ecb_monotonic_time_ms cb)).

(** ** Host access *)

Definition kcpmux_engine_now : W Z := ask host_monotonic_time_ms EvTime.

Definition random_u64_tr (cb : engine_callbacks) : M trace Z :=
  match ecb_random_u64 cb with
  | Some _ => ask_tr (fun tr => u64 (host_random_u64 tr)) EvRandom
  | None =>
      hi ← ask_tr host_rand EvRandom;
      lo ← ask_tr host_rand EvRandom;
      mret (Z.lor (Z.shiftl (u32 hi) 32) (u32 lo))
  end.

Definition kcpmux_engine_random_u64 (cb : engine_callbacks) : W Z := in_trace (random_u64_tr cb).

(** ** Connection tables *)

Definition kcpmux_conn_key_matches (key_addr : list Z) (key_id : Z) (k : conn) (id : Z) : bool :=
  (key_id =? id) && bool_decide (key_addr = c_peer_addr k).

Definition kcpmux_conn_key_hash (key_addr : list Z) (key_id : Z) : Z :=
  Z.lxor (kcpmux_hash32 key_addr) (kcpmux_hash32 (object_bytes 8 key_id)).

(** [__conn_cmp] and [__handshake_cmp]: undefined on a freed connection. *)
Definition conn_cmp (conns : gmap positive conn) (key_addr : list Z) (key_id : Z)
    (c : positive) : option bool :=
  k ← conns !! c;
  Some (kcpmux_conn_key_matches key_addr key_id k (c_local_connection_id k)).

Definition handshake_cmp (conns : gmap positive conn) (key_addr : list Z) (key_id : Z)
    (c : positive) : option bool :=
  k ← conns !! c;
  Some (kcpmux_conn_key_matches key_addr key_id k (c_peer_connection_id k)).

Definition kcpmux_engine_add_conn (c : positive) : W unit :=
  k ← get_conn c;
  if c_internal_closed k || c_in_engine_map k then mret tt
  else
    m ← deref (fun w =>
      kcpmux_htb_add (conn_cmp (w_conns w) (c_peer_addr k) (c_local_connection_id k)) c
        (kcpmux_conn_key_hash (c_peer_addr k) (c_local_connection_id k))
        (e_conn_map (w_engine w)));
    mod_engine (fun e => e <| e_conn_map := m |>);;
    when (negb (c_is_initiator k))
      (h ← deref (fun w =>
         kcpmux_htb_add (handshake_cmp (w_conns w) (c_peer_addr k) (c_peer_connection_id k)) c
           (kcpmux_conn_key_hash (c_peer_addr k) (c_peer_connection_id k))
           (e_handshake_map (w_engine w)));
       mod_engine (fun e => e <| e_handshake_map := h |>));;
    mod_engine (fun e => e <| e_conn_count ::= fun n => u32 (n + 1) |>);;
    mod_conn c (fun k => k <| c_in_engine_map := true |>);;
    mod_engine (fun e => e <| e_stats ::= fun st => st <| es_conn_count := e_conn_count e |> |>).

Definition kcpmux_engine_remove_conn (c : positive) : W unit :=
  k ← get_conn c;
  if negb (c_in_engine_map k) then mret tt
  else
    when (negb (c_is_initiator k))
      (mod_engine (fun e => e <| e_handshake_map ::= kcpmux_htb_del c |>));;
    mod_engine (fun e => e <| e_conn_map ::= kcpmux_htb_del c |>);;
    mod_engine (fun e => e <| e_conn_count ::= fun n => u32 (n - 1) |>);;
    mod_conn c (fun k => k <| c_in_engine_map := false |>);;
    mod_engine (fun e => e <| e_stats ::= fun st => st <| es_conn_count := e_conn_count e |> |>).

(** [a = None] is a NULL address. *)
Definition kcpmux_engine_get_conn_by_id (a : option (list Z)) (local_connection_id : Z) :
    W (option positive) :=
  match a with
  | None => mret None
  | Some a =>
      if (Z.of_nat (length a) =? 0) || (KCPMUX_ADDR_MAX_LEN <? Z.of_nat (length a)) ||
         (local_connection_id =? 0) then mret None
      else
        deref (fun w =>
          kcpmux_htb_find (conn_cmp (w_conns w) a local_connection_id)
            (kcpmux_conn_key_hash a local_connection_id) (e_conn_map (w_engine w)))
  end.

Definition kcpmux_engine_get_passive_conn (a : option (list Z)) (peer_connection_id : Z) :
    W (option positive) :=
  match a with
  | None => mret None
  | Some a =>
      if (Z.of_nat (length a) =? 0) || (KCPMUX_ADDR_MAX_LEN <? Z.of_nat (length a)) ||
         (peer_connection_id =? 0) then mret None
      else
        deref (fun w =>
          kcpmux_htb_find (handshake_cmp (w_conns w) a peer_connection_id)
            (kcpmux_conn_key_hash a peer_connection_id) (e_handshake_map (w_engine w)))
  end.

(** ** The host's one-shot timer *)

Definition kcpmux_engine_rearm_timer (now_ms : Z) : W unit :=
  e ← get_engine;
  if negb (bool_decide (is_Some (ecb_set_timer (e_callbacks e)))) ||
     (0 <? e_operation_depth e) then mret tt
  else
    root ← in_timers kcpmux_timer_peek;
    match root with
    | None => mret tt
    | Some root =>
        nd ← in_timers (get_node root);
        let deadline := deadline_ms nd in
        if e_external_timer_armed e && (e_external_timer_deadline_ms e =? deadline)
        then mret tt
        else
          let delay_ms :=
            if deadline <=? now_ms then 0 else u64 (u64 deadline - u64 now_ms) in
          mod_engine (fun e => e <| e_external_timer_armed := true |>
                                 <| e_external_timer_deadline_ms := deadline |>);;
          emit (EvSetTimer delay_ms)
    end.

(** ** Deferred release and operation boundaries *)

(** [free] of an object and of the timer node embedded in it. *)
Definition free_obj (o : obj) : W unit :=
  modify (fun w =>
    let w := w <| w_timers ::= fun t => t <| tm_nodes ::= delete o |> |> in
    match o with
    | OConn c => w <| w_conns ::= delete c |>
    | OStream s => w <| w_streams ::= delete s |>
    end);;
  emit (EvFree o).

(** [malloc] and [memset] of an object with its timer node. *)
Definition malloc_conn : W (option positive) :=
  ok ← alloc;
  if negb ok then mret None
  else
    c ← gets w_next_addr;
    modify (fun w => w <| w_next_addr ::= Pos.succ |>
                       <| w_conns ::= <[c := conn_zero]> |>
                       <| w_timers ::= fun t => t <| tm_nodes ::= <[OConn c := timer_node_zero]> |> |>);;
    mret (Some c).

Definition malloc_stream (c : positive) : W (option positive) :=
  ok ← alloc;
  if negb ok then mret None
  else
    s ← gets w_next_addr;
    modify (fun w => w <| w_next_addr ::= Pos.succ |>
                       <| w_streams ::= <[s := stream_zero c]> |>
                       <| w_timers ::= fun t => t <| tm_nodes ::= <[OStream s := timer_node_zero]> |> |>);;
    mret (Some s).

Definition kcpmux_conn_release (c : positive) : W unit :=
  k ← get_conn c;
  _ ← deref (fun w =>
    kcpmux_htb_destroy (fun s => bool_decide (is_Some (w_streams w !! s))) (c_stream_map k));
  free_obj (OConn c).

Definition kcpmux_stream_free (s : positive) : W unit :=
  _ ← get_stream s;
  free_obj (OStream s).

Definition release_cb (o : obj) : W unit :=
  match o with
  | OConn c => kcpmux_conn_release c
  | OStream s => kcpmux_stream_free s
  end.

(** Releasing queues nothing, so one round per item suffices. *)
Fixpoint drain_loop (fuel : nat) : W unit :=
  e ← get_engine;
  match e_pending_release_list e, fuel with
  | [], _ => mret tt
  | _ :: _, O => ub
  | item :: _, S fuel' =>
      mod_engine (fun e => e <| e_pending_release_list ::= list.tail |>);;
      release_cb item;;
      drain_loop fuel'
  end.

Definition kcpmux_engine_drain_pending_release : W unit :=
  n ← gets (fun w => length (e_pending_release_list (w_engine w)));
  drain_loop n.

Definition kcpmux_engine_operation_enter : W unit :=
  mod_engine (fun e => e <| e_operation_depth ::= fun d => u32 (d + 1) |>).

Definition kcpmux_engine_operation_leave : W unit :=
  d ← gets (fun w => e_operation_depth (w_engine w));
  if d =? 0 then mret tt
  else
    mod_engine (fun e => e <| e_operation_depth := d - 1 |>);;
    if negb (d - 1 =? 0) then mret tt
    else
      mod_engine (fun e => e <| e_operation_depth := 1 |>);;
      kcpmux_engine_drain_pending_release;;
      mod_engine (fun e => e <| e_operation_depth := 0 |>);;
      now ← kcpmux_engine_now;
      kcpmux_engine_rearm_timer now.

(** The item is the [pending_release] member of the object. *)
Definition kcpmux_engine_queue_release (o : obj) : W unit :=
  mod_engine (fun e => e <| e_pending_release_list ::= fun l => l ++ [o] |>).

(** ** Timer nodes *)

(** The [realloc] of [kcpmux_timer_manager_reserve], when it is reached. *)
Definition reserve_alloc (capacity : Z) : W bool :=
  t ← gets w_timers;
  if reserve_reallocs capacity t then alloc else mret true.

Definition kcpmux_engine_register_timer_node (o : obj) (cb : timer_cb) : W Z :=
  e ← get_engine;
  if SIZE_MAX - 2 <? e_timer_node_count e then mret KCPMUX_ERR_OOM
  else
    let required_capacity := e_timer_node_count e + 1 in
    ok ← reserve_alloc required_capacity;
    ret ← in_timers (kcpmux_timer_manager_reserve ok required_capacity);
    if negb (ret =? KCPMUX_ERR_OK) then mret ret
    else
      in_timers (kcpmux_timer_node_init o o cb);;
      mod_engine (fun e => e <| e_timer_node_count ::= Z.succ |>);;
      mret KCPMUX_ERR_OK.

Definition kcpmux_engine_unregister_timer_node (o : obj) : W unit :=
  nd ← in_timers (get_node o);
  if bool_decide (owner nd = None) then mret tt
  else
    now ← kcpmux_engine_now;
    in_timers (kcpmux_timer_cancel o);;
    in_timers (mod_node o (fun nd => nd <| owner := None |> <| timeout_cb := None |>));;
    mod_engine (fun e => e <| e_timer_node_count ::=
      fun n => if 0 <? n then n - 1 else n |>);;
    kcpmux_engine_rearm_timer now.

(** [kcpmux_timer_schedule] with its allocation. *)
Definition timer_schedule (o : obj) (deadline : Z) : W Z :=
  nd ← in_timers (get_node o);
  size ← gets (fun w => Z.of_nat (length (tm_heap (w_timers w))));
  ok ← (if bool_decide (tn_state nd = TIMER_HEAP) then mret true
        else reserve_alloc (size + 1));
  in_timers (kcpmux_timer_schedule ok o deadline).

Definition kcpmux_engine_schedule_timer_node (o : obj) (deadline now_ms : Z) : W Z :=
  nd ← in_timers (get_node o);
  if bool_decide (owner nd = None) then mret KCPMUX_ERR_INVALID_PARAM
  else
    let deadline := if deadline <? now_ms then now_ms else deadline in
    ret ← timer_schedule o deadline;
    when (ret =? KCPMUX_ERR_OK) (kcpmux_engine_rearm_timer now_ms);;
    mret ret.

Definition kcpmux_engine_cancel_timer_node (o : obj) (now_ms : Z) : W unit :=
  in_timers (kcpmux_timer_cancel o);;
  kcpmux_engine_rearm_timer now_ms.

(** ** Socket output *)

(** [iovcnt] is the length of [iov]. *)
Definition iov_total (iov : list iovec) : Z :=
  fold_left (fun size v => u64 (size + iov_len v)) iov 0.

Definition kcpmux_engine_write_socketv (iov : list iovec) (a : list Z) : W Z :=
  e ← get_engine;
  if negb (bool_decide (is_Some (ecb_write_socketv (e_callbacks e)))) ||
     bool_decide (iov = []) then mret (- KCPMUX_ERR_INVALID_PARAM)
  else if existsb (fun v => (0 <? iov_len v) && bool_decide (iov_data v = None)) iov
  then mret (- KCPMUX_ERR_INVALID_PARAM)
  else
    ret ← ask (fun tr => host_write_socketv tr iov a) (EvWrite iov a);
    (if negb (ret =? 0) then
       mod_stats (fun st => st <| es_tx_packets ::= inc64 |>
                               <| es_tx_bytes ::= add64 (iov_total iov) |>)
     else mod_stats (fun st => st <| es_tx_error_packets ::= inc64 |>));;
    mret (if negb (ret =? 0) then 0 else - KCPMUX_ERR_NETWORK).

Definition kcpmux_engine_get_stats : W engine_stats := gets (fun w => e_stats (w_engine w)).
End engine.
