(* ===== verification/Conn.v ===== *)
(** * Connections (src/kcpmux_conn.c)

    Creation, deadlines, state changes, the stream table and stream
    identifiers, socket output and queries.  The functions that send protocol
    messages are in [Messages]; closing, the timer handler and the public
    operations that close streams are in [Mux]. *)

From S2P Require Import Prelude Types Timer Hash Hashtable Vectored World Engine.

Section conn.
Context {KO : Kcp} {HO : Host}.

(** ** Deadlines *)

(** [None] is the return value 0, [Some d] the return value 1 with
    [*deadline_ms = d]. *)
Definition kcpmux_conn_calculate_deadline (k : conn) : option Z :=
  if c_internal_closed k then None
  else
    let cfg := c_config k in
    let deadline :=
      match c_state k with
      | CONN_CONNECTING | CONN_CLOSING =>
          kcpmux_timer_deadline_after (c_last_ctrl_ts k) (cc_ctrl_timeout_ms cfg)
      | CONN_CONNECTED =>
          let deadline :=
            kcpmux_timer_deadline_after (c_last_recv_ts k) (cc_keepalive_timeout_ms cfg) in
          let deadline :=
            if 0 <? cc_keepalive_interval_ms cfg then
              let candidate := kcpmux_timer_deadline_after (c_last_keepalive_ts k)
                                 (cc_keepalive_interval_ms cfg) in
              if candidate <? deadline then candidate else deadline
            else deadline in
          if 0 <? cc_idle_timeout_ms cfg then
            let candidate := kcpmux_timer_deadline_after (c_last_payload_ts k)
                               (cc_idle_timeout_ms cfg) in
            if candidate <? deadline then candidate else deadline
          else deadline
      | _ => INT64_MAX
      end in
    if deadline =? INT64_MAX then None else Some deadline.

Definition kcpmux_conn_refresh_timer (c : positive) (now : Z) : W unit :=
  k ← get_conn c;
  if c_internal_closed k then mret tt
  else
    match kcpmux_conn_calculate_deadline k with
    | None => kcpmux_engine_cancel_timer_node (OConn c) now
    | Some deadline =>
        _ ← kcpmux_engine_schedule_timer_node (OConn c) deadline now;
        mret tt
    end.

(** ** State changes *)

Definition kcpmux_conn_set_state (c : positive) (new_state : conn_state) : W unit :=
  k ← get_conn c;
  if c_internal_closed k || bool_decide (c_state k = new_state) then mret tt
  else
    let old_state := c_state k in
    mod_conn c (fun k => k <| c_state := new_state |>);;
    when (bool_decide (new_state = CONN_CONNECTED))
      (now ← kcpmux_engine_now;
       mod_conn c (fun k => k <| c_stats ::= fun st =>
         st <| cs_handshake_time_ms := u64 (now - c_created_ts k) |> |>);;
       mod_stats (fun st => st <| es_conn_connected_total ::= inc64 |>));;
    now ← kcpmux_engine_now;
    kcpmux_conn_refresh_timer c now;;
    k ← get_conn c;
    match ccb_conn_state_changed (c_callbacks k) with
    | Some f =>
        if bool_decide (new_state = CONN_CLOSED) || bool_decide (new_state = CONN_ERROR)
        then mret tt
        else emit (EvConnState f c old_state new_state (c_user_data k))
    | None => mret tt
    end.

Definition kcpmux_conn_note_receive (c : positive) (recv_time_ms : Z) (is_payload : bool) :
    W unit :=
  k ← get_conn c;
  if c_internal_closed k then mret tt
  else
    when (c_last_recv_ts k <? recv_time_ms)
      (mod_conn c (fun k => k <| c_last_recv_ts := recv_time_ms |>));;
    when (is_payload && (c_last_payload_ts k <? recv_time_ms))
      (mod_conn c (fun k => k <| c_last_payload_ts := recv_time_ms |>));;
    kcpmux_conn_refresh_timer c recv_time_ms.

(** ** Creation *)

(** The first stream identifier: odd for an initiator, even and not 0
    otherwise. *)
Definition first_stream_id (is_initiator : bool) (random : Z) : Z :=
  let id := u32 random in
  if is_initiator then Z.lor id 1
  else
    let id := Z.land id (Z.lnot 1) in
    if id =? 0 then 2 else id.

Definition kcpmux_conn_new (peer_addr : option (list Z)) (config : option conn_config)
    (is_initiator : bool) : W (option positive) :=
  match peer_addr with
  | None => mret None
  | Some a =>
      if Z.of_nat (length a) =? 0 then mret None
      else if KCPMUX_ADDR_MAX_LEN <? Z.of_nat (length a) then mret None
      else
        oc ← malloc_conn;
        match oc with
        | None => mret None
        | Some c =>
            mod_conn c (fun k => k <| c_state := CONN_INIT |>
                                   <| c_is_initiator := is_initiator |>);;
            e ← get_engine;
            if e_next_connection_id e =? 0 then free_obj (OConn c);; mret None
            else
              mod_conn c (fun k => k <| c_local_connection_id := e_next_connection_id e |>
                                     <| c_peer_addr := a |>);;
              mod_engine (fun e => e <| e_next_connection_id ::= inc64 |>);;
              let source := default (e_default_conn_config e) config in
              match kcpmux_conn_config_prepare source with
              | None => free_obj (OConn c);; mret None
              | Some cfg =>
                  mod_conn c (fun k => k <| c_config := cfg |>);;
                  r ← kcpmux_engine_random_u64 (e_callbacks e);
                  mod_conn c (fun k => k <| c_next_stream_id := first_stream_id is_initiator r |>);;
                  om ← htb_new 32;
                  match om with
                  | None => free_obj (OConn c);; mret None
                  | Some m =>
                      mod_conn c (fun k => k <| c_stream_map := m |>);;
                      ret ← kcpmux_engine_register_timer_node (OConn c) conn_timer_callback;
                      if negb (ret =? KCPMUX_ERR_OK) then free_obj (OConn c);; mret None
                      else
                        now ← kcpmux_engine_now;
                        mod_conn c (fun k => k <| c_created_ts := now |>
                                               <| c_last_recv_ts := now |>
                                               <| c_last_keepalive_ts := now |>
                                               <| c_last_payload_ts := now |>);;
                        mod_stats (fun st => st <| es_conn_created_total ::= inc64 |>);;
                        mret (Some c)
                  end
              end
        end
  end.

(** ** Stream table *)

(** [__stream_cmp]: undefined on a freed stream. *)
Definition stream_cmp (streams : gmap positive (stream K)) (stream_id : Z) (s : positive) :
    option bool :=
  st ← streams !! s;
  Some (stream_id =? s_stream_id st).

Definition stream_hash (stream_id : Z) : Z := kcpmux_hash32 (object_bytes 4 stream_id).

Definition kcpmux_conn_add_stream (c s : positive) : W unit :=
  k ← get_conn c;
  st ← get_stream s;
  if c_internal_closed k || s_internal_closed st || s_in_stream_map st then mret tt
  else
    m ← deref (fun w =>
      kcpmux_htb_add (stream_cmp (w_streams w) (s_stream_id st)) s
        (stream_hash (s_stream_id st)) (c_stream_map k));
    mod_conn c (fun k => k <| c_stream_map := m |>
                           <| c_stream_count ::= fun n => u32 (n + 1) |>);;
    mod_stream s (fun st => st <| s_in_stream_map := true |>);;
    mod_stats (fun st => st <| es_stream_count ::= inc64 |>).

Definition kcpmux_conn_remove_stream (c s : positive) : W unit :=
  _ ← get_conn c;
  st ← get_stream s;
  if negb (s_in_stream_map st) then mret tt
  else
    mod_conn c (fun k => k <| c_stream_map ::= kcpmux_htb_del s |>
                           <| c_stream_count ::= fun n => u32 (n - 1) |>);;
    mod_stream s (fun st => st <| s_in_stream_map := false |>);;
    mod_stats (fun st => st <| es_stream_count ::= add64 (-1) |>).

Definition kcpmux_conn_get_stream_by_id (c : positive) (stream_id : Z) : W (option positive) :=
  k ← get_conn c;
  deref (fun w =>
    kcpmux_htb_find (stream_cmp (w_streams w) stream_id) (stream_hash stream_id)
      (c_stream_map k)).

(** The [for] loop of [kcpmux_conn_alloc_stream_id]; [rounds] is what is left
    of its [stream_count + 1] iterations. *)
Fixpoint alloc_stream_id_loop (rounds : nat) (c : positive) : W Z :=
  match rounds with
  | O => mret 0
  | S rounds' =>
      k ← get_conn c;
      let id := c_next_stream_id k in
      let id := if id =? 0 then (if c_is_initiator k then 1 else 2) else id in
      mod_conn c (fun k => k <| c_next_stream_id := u32 (id + 2) |>);;
      found ← kcpmux_conn_get_stream_by_id c id;
      match found with
      | None => mret id
      | Some _ => alloc_stream_id_loop rounds' c
      end
  end.

Definition kcpmux_conn_alloc_stream_id (c : positive) : W Z :=
  k ← get_conn c;
  alloc_stream_id_loop (S (Z.to_nat (c_stream_count k))) c.

Definition kcpmux_conn_is_new_peer_stream_id (k : conn) (stream_id : Z) : bool :=
  if stream_id =? 0 then false
  else if Z.land stream_id 1 =? Z.b2z (c_is_initiator k) then false
  else if negb (c_peer_stream_id_initialized k) then true
  else
    let delta := u32 (stream_id - c_latest_peer_stream_id k) in
    negb (delta =? 0) && (delta <? 0x80000000).

(** ** Socket output *)

Definition kcpmux_conn_write_socketv (c : positive) (iov : list iovec) : W Z :=
  k ← get_conn c;
  ret ← kcpmux_engine_write_socketv iov (c_peer_addr k);
  when (ret =? 0)
    (mod_conn c (fun k => k <| c_stats ::= fun st =>
       st <| cs_tx_packets ::= inc64 |> <| cs_tx_bytes ::= add64 (iov_total iov) |> |>));;
  mret ret.

Definition kcpmux_conn_write_socket (c : positive) (buf : list Z) : W Z :=
  kcpmux_conn_write_socketv c [mk_iovec (Some buf) (Z.of_nat (length buf))].

(** ** Setters and queries; [None] is a NULL argument *)

Definition kcpmux_conn_set_config (oc : option positive) (config : option conn_config) : W unit :=
  match oc, config with
  | Some c, Some cfg =>
      k ← get_conn c;
      if c_internal_closed k then mret tt
      else
        match kcpmux_conn_config_prepare cfg with
        | None => mret tt
        | Some prepared =>
            mod_conn c (fun k => k <| c_config := prepared |>);;
            now ← kcpmux_engine_now;
            kcpmux_conn_refresh_timer c now
        end
  | _, _ => mret tt
  end.

Definition kcpmux_conn_set_callbacks (oc : option positive) (cbs : option conn_callbacks)
    (user_data : Z) : W unit :=
  match oc with
  | None => mret tt
  | Some c =>
      k ← get_conn c;
      if c_internal_closed k then mret tt
      else
        mod_conn c (fun k => k <| c_callbacks := default conn_callbacks_zero cbs |>
                               <| c_user_data := user_data |>)
  end.

Definition conn_query {A} (dflt : A) (f : conn -> A) (oc : option positive) : W A :=
  match oc with
  | None => mret dflt
  | Some c => k ← get_conn c; mret (f k)
  end.

Definition kcpmux_conn_get_id : option positive -> W Z := conn_query 0 c_local_connection_id.
Definition kcpmux_conn_get_peer_id : option positive -> W Z := conn_query 0 c_peer_connection_id.
Definition kcpmux_conn_get_state : option positive -> W conn_state :=
  conn_query CONN_ERROR c_state.
Definition kcpmux_conn_get_peer_addr : option positive -> W (option (list Z)) :=
  conn_query None (fun k => Some (c_peer_addr k)).
Definition kcpmux_conn_get_user_data : option positive -> W Z := conn_query 0 c_user_data.
Definition kcpmux_conn_get_peer_proto_ext : option positive -> W (option proto_ext) :=
  conn_query None (fun k => if pe_len (c_peer_proto_ext k) =? 0 then None
                            else Some (c_peer_proto_ext k)).
Definition kcpmux_conn_get_self_proto_ext : option positive -> W (option proto_ext) :=
  conn_query None (fun k => if pe_len (c_self_proto_ext k) =? 0 then None
                            else Some (c_self_proto_ext k)).
Definition kcpmux_conn_get_stats : option positive -> W conn_stats :=
  conn_query conn_stats_zero c_stats.
End conn.
