(* ===== verification/Messages.v ===== *)
(** * Outgoing messages (src/kcpmux_protocol.c, src/kcpmux_conn.c)

    The encoders of the eight protocol messages, the functions that send them,
    and the connection-level senders that also move the control timestamps.
    The message bytes are built by pure functions so that the parser's inverse
    property can be stated. *)

From S2P Require Import Prelude Types Timer ByteOrder Hashtable Vectored World Engine Conn.

(** ** Encoders *)

Definition write_common (type peer_connection_id : Z) : list Z :=
  type :: write_u64 (if type =? KCPMUX_MSG_CONN_CONNECT then 0 else peer_connection_id).

(** [None]: the extension length exceeds the extension buffer. *)
Definition conn_connect_msg (k : conn) : option (list Z) :=
  let ext := c_self_proto_ext k in
  data ← (if 0 <? pe_len ext then read_bytes_at (Some (pe_data ext)) 0 (pe_len ext) else Some []);
  Some (write_common KCPMUX_MSG_CONN_CONNECT (c_peer_connection_id k) ++
        write_u64 (c_local_connection_id k) ++ [KCPMUX_VERSION] ++
        write_u16 (u16 (pe_len ext)) ++ data).

Definition conn_connect_ack_msg (k : conn) (result : Z) : option (list Z) :=
  let ext := c_self_proto_ext k in
  data ← (if 0 <? pe_len ext then read_bytes_at (Some (pe_data ext)) 0 (pe_len ext) else Some []);
  Some (write_common KCPMUX_MSG_CONN_CONNECT_ACK (c_peer_connection_id k) ++
        write_u64 (c_local_connection_id k) ++ [KCPMUX_VERSION; result] ++
        write_u16 (u16 (pe_len ext)) ++ data).

Definition conn_keepalive_msg (k : conn) (now : Z) : list Z :=
  write_common KCPMUX_MSG_CONN_KEEPALIVE (c_peer_connection_id k) ++
  write_u32 (u32 now) ++ write_u32 (c_keepalive_seq k).

Definition conn_close_msg (type : Z) (k : conn) (reason : Z) : list Z :=
  write_common type (c_peer_connection_id k) ++ [reason].

Definition stream_close_msg (type : Z) (k : conn) (stream_id reason : Z) : list Z :=
  write_common type (c_peer_connection_id k) ++ write_u32 stream_id ++ [reason].

Definition stream_payload_header (k : conn) (stream_id : Z) : list Z :=
  write_common KCPMUX_MSG_STREAM_PAYLOAD (c_peer_connection_id k) ++ write_u32 stream_id.

Section messages.
Context {KO : Kcp} {HO : Host}.

(** ** Senders of src/kcpmux_protocol.c *)

Definition kcpmux_protocol_send_conn_connect (c : positive) : W Z :=
  k ← get_conn c;
  let msg_len := u32 (KCPMUX_PROTO_CONNECT_LEN + pe_len (c_self_proto_ext k)) in
  if KCPMUX_PROTO_MSG_MAX_LEN <? msg_len then mret (- KCPMUX_ERR_INVALID_PARAM)
  else
    buf ← deref (fun _ => conn_connect_msg k);
    kcpmux_conn_write_socket c buf.

Definition kcpmux_protocol_send_conn_connect_ack (c : positive) (result : Z) : W Z :=
  k ← get_conn c;
  let msg_len := u32 (KCPMUX_PROTO_CONNECT_ACK_LEN + pe_len (c_self_proto_ext k)) in
  if KCPMUX_PROTO_MSG_MAX_LEN <? msg_len then mret (- KCPMUX_ERR_INVALID_PARAM)
  else
    buf ← deref (fun _ => conn_connect_ack_msg k result);
    kcpmux_conn_write_socket c buf.

Definition kcpmux_protocol_send_conn_keepalive (c : positive) : W Z :=
  k ← get_conn c;
  now ← kcpmux_engine_now;
  kcpmux_conn_write_socket c (conn_keepalive_msg k now).

Definition kcpmux_protocol_send_conn_close (c : positive) (reason : Z) : W Z :=
  k ← get_conn c;
  if c_peer_connection_id k =? 0 then mret (- KCPMUX_ERR_STATE)
  else kcpmux_conn_write_socket c (conn_close_msg KCPMUX_MSG_CONN_CLOSE k reason).

Definition kcpmux_protocol_send_conn_close_ack (c : positive) (reason : Z) : W Z :=
  k ← get_conn c;
  kcpmux_conn_write_socket c (conn_close_msg KCPMUX_MSG_CONN_CLOSE_ACK k reason).

Definition kcpmux_protocol_send_stream_close (s : positive) (reason : Z) : W Z :=
  st ← get_stream s;
  k ← get_conn (s_conn st);
  kcpmux_conn_write_socket (s_conn st)
    (stream_close_msg KCPMUX_MSG_STREAM_CLOSE k (s_stream_id st) reason).

Definition kcpmux_protocol_send_stream_close_ack (s : positive) (reason : Z) : W Z :=
  st ← get_stream s;
  k ← get_conn (s_conn st);
  kcpmux_conn_write_socket (s_conn st)
    (stream_close_msg KCPMUX_MSG_STREAM_CLOSE_ACK k (s_stream_id st) reason).

(** [size] is the length of the data. *)
Definition kcpmux_protocol_send_stream_payload (s : positive) (kcp_data : list Z) : W Z :=
  if bool_decide (kcp_data = []) then mret (- KCPMUX_ERR_INVALID_PARAM)
  else
    st ← get_stream s;
    k ← get_conn (s_conn st);
    let size := Z.of_nat (length kcp_data) in
    let msg_len := u32 (KCPMUX_PROTO_STREAM_HEADER_LEN + size) in
    if KCPMUX_PROTO_MSG_MAX_LEN <? msg_len then mret (- KCPMUX_ERR_INVALID_PARAM)
    else
      kcpmux_conn_write_socketv (s_conn st)
        [mk_iovec (Some (stream_payload_header k (s_stream_id st))) KCPMUX_PROTO_STREAM_HEADER_LEN;
         mk_iovec (Some kcp_data) size].

(** ** Connection senders (src/kcpmux_conn.c) *)

Definition kcpmux_conn_send_connect (c : positive) : W Z :=
  k ← get_conn c;
  if c_internal_closed k then mret (- KCPMUX_ERR_CLOSED)
  else
    now ← kcpmux_engine_now;
    mod_conn c (fun k => k <| c_last_ctrl_ts := now |>);;
    ret ← kcpmux_protocol_send_conn_connect c;
    k ← get_conn c;
    kcpmux_conn_refresh_timer c (c_last_ctrl_ts k);;
    mret ret.

Definition kcpmux_conn_send_connect_ack (c : positive) (result : Z) : W Z :=
  kcpmux_protocol_send_conn_connect_ack c result.

Definition kcpmux_conn_send_keepalive (c : positive) : W Z :=
  k ← get_conn c;
  if c_internal_closed k then mret (- KCPMUX_ERR_CLOSED)
  else
    now ← kcpmux_engine_now;
    mod_conn c (fun k => k <| c_last_keepalive_ts := now |>
                           <| c_keepalive_seq ::= fun n => u32 (n + 1) |>);;
    ret ← kcpmux_protocol_send_conn_keepalive c;
    k ← get_conn c;
    kcpmux_conn_refresh_timer c (c_last_keepalive_ts k);;
    mret ret.

Definition kcpmux_conn_send_close (c : positive) (reason : Z) : W Z :=
  k ← get_conn c;
  if c_internal_closed k then mret (- KCPMUX_ERR_CLOSED)
  else
    now ← kcpmux_engine_now;
    mod_conn c (fun k => k <| c_last_ctrl_ts := now |>);;
    ret ← kcpmux_protocol_send_conn_close c reason;
    k ← get_conn c;
    kcpmux_conn_refresh_timer c (c_last_ctrl_ts k);;
    mret ret.

Definition kcpmux_conn_send_close_ack (c : positive) (reason : Z) : W Z :=
  kcpmux_protocol_send_conn_close_ack c reason.
End messages.
