(* ===== verification/Stream.v ===== *)
(** * Streams (src/kcpmux_stream.c)

    Every function of the file: creation and close, batching of KCP updates,
    the KCP output callback, contiguous and vectored sends, receive, the timer
    handler with the graceful-close phases, and the handlers of peer
    messages. *)

From S2P Require Import Prelude Types Timer Hashtable Vectored World Engine Conn Messages.

Section stream.
Context {KO : Kcp} {HO : Host}.
Implicit Types (s c : positive) (st : stream K).

(** ** Small helpers *)

Definition kcpmux_stream_mark_read_blocked s (now : Z) : W unit :=
  st ← get_stream s;
  if s_read_blocked st then mret tt
  else
    mod_stream s (fun st => st <| s_read_block_start_ts := now |>
                               <| s_read_blocked := true |>
                               <| s_stats ::= fun x => x <| ss_read_block_count ::= inc64 |> |>).

Definition kcpmux_stream_earlier_deadline (first second : Z) : Z :=
  if first <? second then first else second.

Definition kcpmux_stream_kcp_active st : bool :=
  bool_decide (s_state st = STREAM_OPEN) ||
  (bool_decide (s_state st = STREAM_CLOSING) &&
   bool_decide (s_close_phase st = CLOSE_LOCAL_DRAIN)).

(** [!list_empty(&stream->pending_batch_node)] and [list_del_init] of it. *)
Definition batch_linked s : W bool :=
  gets (fun w => bool_decide (s ∈ e_pending_batch_streams (w_engine w))).
Definition batch_unlink s : W unit :=
  mod_engine (fun e => e <| e_pending_batch_streams ::= filter (fun x => x <> s) |>).

Definition kcpmux_stream_clear_pending s : W unit :=
  mod_stream s (fun st => st <| s_pending_count := 0 |>);;
  linked ← batch_linked s;
  when linked (batch_unlink s).

Definition kcpmux_stream_schedule_finalize s (reason now : Z) : W unit :=
  mod_stream s (fun st => st <| s_close_reason := reason |>
                             <| s_close_phase := CLOSE_FINALIZE |>);;
  kcpmux_stream_clear_pending s;;
  _ ← kcpmux_engine_schedule_timer_node (OStream s) now now;
  mret tt.

Definition kcpmux_stream_accumulate_update s (now_ms : Z) : W unit :=
  st ← get_stream s;
  let threshold := sc_batch_threshold (s_config st) in
  if threshold <=? 1 then
    _ ← kcpmux_engine_schedule_timer_node (OStream s) now_ms now_ms;
    mret tt
  else if threshold <=? s_pending_count st then mret tt
  else
    when (s_pending_count st =? 0)
      (mod_engine (fun e => e <| e_pending_batch_streams ::= fun l => l ++ [s] |>));;
    mod_stream s (fun st => st <| s_pending_count ::= fun n => u32 (n + 1) |>);;
    st ← get_stream s;
    when (s_pending_count st =? threshold)
      (batch_unlink s;;
       _ ← kcpmux_engine_schedule_timer_node (OStream s) now_ms now_ms;
       mret tt).

(** ** KCP callback and operations *)

(** [__kcp_output] *)
Definition kcp_output s (buf : list Z) : W Z :=
  st ← get_stream s;
  if s_internal_closed st || negb (kcpmux_stream_kcp_active st) then mret (-1)
  else
    k ← get_conn (s_conn st);
    if c_internal_closed k || negb (bool_decide (c_state k = CONN_CONNECTED)) then mret (-1)
    else
      ret ← kcpmux_protocol_send_stream_payload s buf;
      when (ret =? 0)
        (mod_stream s (fun st => st <| s_stats ::= fun x =>
           x <| ss_tx_packets ::= inc64 |>
             <| ss_tx_bytes ::= add64 (Z.of_nat (length buf)) |> |>));;
      mret (if ret =? 0 then 0 else -1).

(** A KCP operation with its calls of the output callback. *)
Fixpoint run_kact {R} s (a : kact K R) : W R :=
  match a with
  | KRet k r => mod_stream s (fun st => st <| s_kcp := Some k |>);; mret r
  | KOut buf cont => ret ← kcp_output s buf; run_kact s (cont ret)
  end.

Definition ops_send s (buf : list Z) : W Z := k ← get_kcp s; run_kact s (kcp_send k buf).
Definition ops_input s (buf : list Z) : W Z := k ← get_kcp s; run_kact s (kcp_input k buf).
Definition ops_update s (now : Z) : W unit := k ← get_kcp s; run_kact s (kcp_update k now).
Definition ops_current_update s (now : Z) : W unit :=
  k ← get_kcp s;
  mod_stream s (fun st => st <| s_kcp := Some (kcp_current_update k now) |>).
Definition ops_check s (now : Z) : W Z := k ← get_kcp s; mret (kcp_check k now).
Definition ops_waitsnd s : W Z := k ← get_kcp s; mret (kcp_waitsnd k).
Definition ops_peeksize s : W Z := k ← get_kcp s; mret (kcp_peeksize k).

(** ** Timer *)

Definition kcpmux_stream_refresh_timer s (now : Z) : W unit :=
  st ← get_stream s;
  nd ← in_timers (get_node (OStream s));
  if bool_decide (owner nd = None) then mret tt
  else
    k ← get_conn (s_conn st);
    let cancel := kcpmux_engine_cancel_timer_node (OStream s) now in
    let schedule (deadline : Z) :=
      _ ← kcpmux_engine_schedule_timer_node (OStream s) deadline now; mret tt in
    let drain_deadline :=
      kcpmux_timer_deadline_after (s_drain_started_ts st) (sc_drain_timeout_ms (s_config st)) in
    if s_internal_closed st then cancel
    else if c_internal_closed k || negb (bool_decide (c_state k = CONN_CONNECTED)) then cancel
    else
      match s_state st with
      | STREAM_OPEN => deadline ← ops_check s now; schedule deadline
      | STREAM_CLOSING =>
          match s_close_phase st with
          | CLOSE_LOCAL_DRAIN =>
              check ← ops_check s now;
              schedule (kcpmux_stream_earlier_deadline check drain_deadline)
          | CLOSE_WAIT_ACK =>
              schedule (kcpmux_timer_deadline_after (s_last_ctrl_ts st)
                          (sc_ctrl_timeout_ms (s_config st)))
          | CLOSE_REMOTE_DRAIN => schedule drain_deadline
          | CLOSE_FINALIZE => schedule now
          | CLOSE_NONE => cancel
          end
      | _ => cancel
      end.

Definition kcpmux_stream_set_state s (new_state : stream_state) : W unit :=
  st ← get_stream s;
  if bool_decide (s_state st = new_state) then mret tt
  else
    let old_state := s_state st in
    mod_stream s (fun st => st <| s_state := new_state |>);;
    _ ← stream_conn s;
    now ← kcpmux_engine_now;
    kcpmux_stream_refresh_timer s now;;
    st ← get_stream s;
    match scb_stream_state_changed (s_callbacks st) with
    | Some f =>
        if bool_decide (new_state = STREAM_CLOSED) || bool_decide (new_state = STREAM_ERROR)
        then mret tt
        else emit (EvStreamState f s old_state new_state (s_user_data st))
    | None => mret tt
    end.

(** ** Message senders *)

Definition kcpmux_stream_send_close s (reason : Z) : W Z :=
  st ← get_stream s;
  if s_internal_closed st then mret (- KCPMUX_ERR_CLOSED)
  else
    _ ← stream_conn s;
    now ← kcpmux_engine_now;
    mod_stream s (fun st => st <| s_last_ctrl_ts := now |>);;
    ret ← kcpmux_protocol_send_stream_close s reason;
    kcpmux_stream_refresh_timer s now;;
    mret ret.

Definition kcpmux_stream_send_close_ack s (reason : Z) : W Z :=
  kcpmux_protocol_send_stream_close_ack s reason.

(** ** Lifecycle *)

Definition kcpmux_stream_new c (stream_id : Z) (config : option stream_config)
    (is_initiator : bool) : W (option positive) :=
  if stream_id =? 0 then mret None
  else
    os ← malloc_stream c;
    match os with
    | None => mret None
    | Some s =>
        mod_stream s (fun st => st <| s_stream_id := stream_id |>
                                   <| s_is_initiator := is_initiator |>);;
        _ ← get_conn c;
        e ← get_engine;
        match kcpmux_stream_config_prepare (default (e_default_stream_config e) config) with
        | None => free_obj (OStream s);; mret None
        | Some cfg =>
            mod_stream s (fun st => st <| s_config := cfg |>);;
            ok ← ask (fun tr => kcp_create tr stream_id) (fun r => EvKcpCreate s (bool_decide (is_Some r)));
            match ok with
            | None => free_obj (OStream s);; mret None
            | Some kcp =>
                mod_stream s (fun st => st <| s_kcp := Some (kcp_setmss kcp (sc_kcp_mss cfg)) |>);;
                ret ← kcpmux_engine_register_timer_node (OStream s) stream_timer_callback;
                if negb (ret =? KCPMUX_ERR_OK) then
                  emit (EvKcpRelease s);; free_obj (OStream s);; mret None
                else
                  now ← kcpmux_engine_now;
                  kcpmux_stream_mark_read_blocked s now;;
                  mod_stats (fun x => x <| es_stream_opened_total ::= inc64 |>
                                        <| es_stream_created_total ::= inc64 |>);;
                  mod_stream s (fun st => st <| s_state := STREAM_OPEN |>);;
                  st ← get_stream s;
                  kcpmux_stream_refresh_timer s (s_read_block_start_ts st);;
                  mret (Some s)
            end
        end
    end.

Definition kcpmux_stream_close_internal s (reason : Z) : W unit :=
  st ← get_stream s;
  if s_internal_closed st then mret tt
  else
    mod_stream s (fun st => st <| s_internal_closed := true |>);;
    _ ← get_conn (s_conn st);
    kcpmux_stream_clear_pending s;;
    kcpmux_engine_unregister_timer_node (OStream s);;
    kcpmux_conn_remove_stream (s_conn st) s;;
    mod_stats (fun x => x <| es_stream_closed_total ::= inc64 |>);;
    when (bool_decide (is_Some (s_kcp st)))
      (emit (EvKcpRelease s);;
       mod_stream s (fun st => st <| s_kcp := None |>));;
    when (negb (bool_decide (s_state st = STREAM_ERROR)))
      (mod_stream s (fun st => st <| s_state := STREAM_CLOSED |>));;
    match scb_stream_close_notify (s_callbacks st) with
    | Some f => emit (EvStreamClose f s reason (s_user_data st))
    | None => mret tt
    end;;
    kcpmux_engine_queue_release (OStream s).

(** The part of [kcpmux_stream_create] inside the operation boundary; every
    early return of the function leaves the operation. *)
Definition stream_create_body c (config : option stream_config)
    (callbacks : option stream_callbacks) (user_data : Z) : W (option positive) :=
  mod_stats (fun x => x <| es_api_stream_create_calls ::= inc64 |>);;
  k ← get_conn c;
  if negb (bool_decide (c_state k = CONN_CONNECTED)) then mret None
  else
    stream_id ← kcpmux_conn_alloc_stream_id c;
    if stream_id =? 0 then mret None
    else
      os ← kcpmux_stream_new c stream_id config true;
      match os with
      | None => mret None
      | Some s =>
          when (bool_decide (is_Some callbacks))
            (mod_stream s (fun st => st <| s_callbacks := default stream_callbacks_zero callbacks |>));;
          mod_stream s (fun st => st <| s_user_data := user_data |>);;
          kcpmux_conn_add_stream c s;;
          mret (Some s)
      end.

Definition kcpmux_stream_create (oc : option positive) (config : option stream_config)
    (callbacks : option stream_callbacks) (user_data : Z) : W (option positive) :=
  match oc with
  | None => mret None
  | Some c =>
      k ← get_conn c;
      if c_internal_closed k then mret None
      else
        kcpmux_engine_operation_enter;;
        r ← stream_create_body c config callbacks user_data;
        kcpmux_engine_operation_leave;;
        mret r
  end.

Definition kcpmux_stream_advance_local_close s (now : Z) : W unit :=
  st ← get_stream s;
  if s_internal_closed st || negb (bool_decide (s_close_phase st = CLOSE_LOCAL_DRAIN)) then mret tt
  else
    waitsnd ← ops_waitsnd s;
    if negb (waitsnd =? 0) then mret tt
    else
      mod_stream s (fun st => st <| s_close_phase := CLOSE_WAIT_ACK |>
                                 <| s_retry_count := 0 |>);;
      _ ← kcpmux_stream_send_close s KCPMUX_CLOSE_REASON_NORMAL;
      st ← get_stream s;
      when (sc_close_retries (s_config st) =? 0)
        (kcpmux_stream_close_internal s KCPMUX_CLOSE_REASON_NORMAL).

(** The part of [kcpmux_stream_close] inside the operation boundary; it
    returns 0 on every path. *)
Definition stream_close_body s : W unit :=
  mod_stats (fun x => x <| es_api_stream_close_calls ::= inc64 |>);;
  st ← get_stream s;
  match s_state st with
  | STREAM_CLOSING =>
      if bool_decide (s_close_phase st = CLOSE_REMOTE_DRAIN) then
        now ← kcpmux_engine_now;
        kcpmux_stream_schedule_finalize s KCPMUX_CLOSE_REASON_NORMAL now
      else mret tt
  | STREAM_CLOSED | STREAM_ERROR => mret tt
  | STREAM_OPEN =>
      now ← kcpmux_engine_now;
      mod_stream s (fun st => st <| s_last_ctrl_ts := now |>
                                 <| s_drain_started_ts := now |>
                                 <| s_close_reason := KCPMUX_CLOSE_REASON_NORMAL |>
                                 <| s_retry_count := 0 |>
                                 <| s_close_phase := CLOSE_LOCAL_DRAIN |>);;
      kcpmux_stream_set_state s STREAM_CLOSING;;
      st ← get_stream s;
      if s_is_initiator st && (ss_up_sent_bytes (s_stats st) =? 0) then
        kcpmux_stream_close_internal s KCPMUX_CLOSE_REASON_NORMAL
      else
        _ ← kcpmux_engine_schedule_timer_node (OStream s) now now;
        kcpmux_stream_advance_local_close s now
  end.

Definition kcpmux_stream_close (os : option positive) : W Z :=
  match os with
  | None => mret (- KCPMUX_ERR_INVALID_PARAM)
  | Some s =>
      _ ← stream_conn s;
      kcpmux_engine_operation_enter;;
      stream_close_body s;;
      kcpmux_engine_operation_leave;;
      mret 0
  end.

Definition kcpmux_stream_set_config (os : option positive) (config : option stream_config) : W unit :=
  match os, config with
  | Some s, Some cfg =>
      st ← get_stream s;
      if s_internal_closed st then mret tt
      else
        match kcpmux_stream_config_prepare cfg with
        | None => mret tt
        | Some prepared =>
            mod_stream s (fun st => st <| s_config :=
              prepared <| sc_kcp_mss := sc_kcp_mss (s_config st) |> |>);;
            kcpmux_stream_clear_pending s;;
            _ ← stream_conn s;
            now ← kcpmux_engine_now;
            kcpmux_stream_refresh_timer s now
        end
  | _, _ => mret tt
  end.

Definition kcpmux_stream_set_callbacks (os : option positive) (cbs : option stream_callbacks)
    (user_data : Z) : W unit :=
  match os with
  | None => mret tt
  | Some s =>
      st ← get_stream s;
      if s_internal_closed st then mret tt
      else
        mod_stream s (fun st => st <| s_callbacks := default stream_callbacks_zero cbs |>
                                   <| s_user_data := user_data |>)
  end.

(** ** Sending *)

(** [kcpmux_contiguous_send_context_t] *)
Record contiguous_send_context := mk_cctx { cc_buf : list Z; cc_offset : Z }.

(** A chunk function sends [size] bytes and moves its context past them when
    KCP accepts them. *)
Definition send_chunk_fn (C : Type) := positive -> C -> Z -> W (Z * C).

Definition kcpmux_stream_send_contiguous_chunk : send_chunk_fn contiguous_send_context :=
  fun s context size =>
    bytes ← deref (fun _ => read_bytes_at (Some (cc_buf context)) (cc_offset context) size);
    ret ← ops_send s bytes;
    mret (ret, if 0 <=? ret then mk_cctx (cc_buf context) (u32 (cc_offset context + size))
               else context).

Definition kcpmux_stream_send_vectored_chunk : send_chunk_fn vectored_send_context :=
  fun s context size =>
    ret ← match kcp_sendv with
          | Some sendv =>
              k ← get_kcp s;
              run_kact s (sendv k (drop (vc_index context) (vc_iov context))
                            (vc_offset context) size)
          | None =>
              bytes ← deref (fun _ => kcpmux_vectored_copy context size);
              ops_send s bytes
          end;
    if 0 <=? ret then
      context' ← deref (fun _ => kcpmux_vectored_advance context size);
      mret (ret, context')
    else mret (ret, context).

(** The [while (remaining > 0)] loop of [kcpmux_stream_send_chunks]: [inl] is
    its early return, [inr] the bytes sent.  A prepared configuration has a
    nonzero [kcp_mss], so [remaining] rounds suffice. *)
Fixpoint send_loop {C} (fuel : nat) (send_chunk : send_chunk_fn C) s (context : C)
    (chunk_size remaining total_sent : Z) : W (Z + Z) :=
  if remaining <=? 0 then mret (inr total_sent)
  else
    match fuel with
    | O => ub
    | S fuel' =>
        let send_size := if remaining <? chunk_size then remaining else chunk_size in
        r ← send_chunk s context send_size;
        let '(ret, context') := r in
        if ret <? 0 then
          mret (if total_sent =? 0 then inl (- KCPMUX_ERR_KCPRET ret) else inr total_sent)
        else
          send_loop fuel' send_chunk s context' chunk_size
            (u32 (remaining - send_size)) (u32 (total_sent + send_size))
    end.

(** [kcpmux_stream_send_chunks] between the API counters and the end of the
    operation; each of its early returns leaves the operation first. *)
Definition send_chunks_body {C} s (now size : Z) (flush : bool)
    (send_chunk : send_chunk_fn C) (context : C) : W Z :=
  st ← get_stream s;
  k ← get_conn (s_conn st);
  if s_internal_closed st then mret (- KCPMUX_ERR_CLOSED)
  else if negb (bool_decide (s_state st = STREAM_OPEN)) ||
          negb (bool_decide (c_state k = CONN_CONNECTED))
  then mret (- KCPMUX_ERR_STATE)
  else
    waitsnd ← (if 0 <? size then ops_waitsnd s else mret 0);
    if (0 <? size) && (s32 (sc_send_pause_threshold (s_config st)) <=? waitsnd) then
      when (negb (s_write_blocked st))
        (mod_stream s (fun st => st <| s_write_block_start_ts := now |>
                                   <| s_write_blocked := true |>
                                   <| s_stats ::= fun x => x <| ss_write_block_count ::= inc64 |> |>));;
      mret 0
    else
      ops_current_update s now;;
      r ← send_loop (Z.to_nat size) send_chunk s context (sc_kcp_mss (s_config st)) size 0;
      match r with
      | inl err => mret err
      | inr total_sent =>
          mod_stream s (fun st => st <| s_stats ::= fun x =>
            x <| ss_up_sent_bytes ::= add64 total_sent |> |>);;
          if (total_sent =? 0) && negb flush then mret 0
          else
            (if flush then
               kcpmux_stream_clear_pending s;;
               ops_update s now;;
               deadline ← ops_check s now;
               _ ← kcpmux_engine_schedule_timer_node (OStream s) deadline now;
               mret tt
             else kcpmux_stream_accumulate_update s now);;
            mret total_sent
      end.

Definition kcpmux_stream_send_chunks {C} s (size : Z) (flush vectored : bool)
    (send_chunk : send_chunk_fn C) (context : C) : W Z :=
  _ ← stream_conn s;
  now ← kcpmux_engine_now;
  kcpmux_engine_operation_enter;;
  (if vectored then mod_stats (fun x => x <| es_api_stream_sendv_calls ::= inc64 |>)
   else mod_stats (fun x => x <| es_api_stream_send_calls ::= inc64 |>));;
  ret ← send_chunks_body s now size flush send_chunk context;
  kcpmux_engine_operation_leave;;
  mret ret.

(** [buf] is the memory [buf .. buf + size - 1]; [None] is a NULL [buf] with
    a nonzero [size]. *)
Definition kcpmux_stream_send (os : option positive) (buf : option (list Z)) (flush : bool) : W Z :=
  match os, buf with
  | Some s, Some buf =>
      let size := Z.of_nat (length buf) in
      if (INT_MAX <? size) || ((size =? 0) && negb flush)
      then mret (- KCPMUX_ERR_INVALID_PARAM)
      else
        kcpmux_stream_send_chunks s size flush false
          kcpmux_stream_send_contiguous_chunk (mk_cctx buf 0)
  | _, _ => mret (- KCPMUX_ERR_INVALID_PARAM)
  end.

(** The validation loop of [kcpmux_stream_sendv]: [None] is its early
    return. *)
Fixpoint sendv_total (iov : list iovec) (total : Z) : option Z :=
  match iov with
  | [] => Some total
  | v :: iov' =>
      if (0 <? iov_len v) && bool_decide (iov_data v = None) then None
      else
        let total := u64 (total + iov_len v) in
        if INT_MAX <? total then None else sendv_total iov' total
  end.

(** [iov] is the array of [iovcnt] fragments; [None] is a NULL [iov] with a
    nonzero [iovcnt]. *)
Definition kcpmux_stream_sendv (os : option positive) (iov : option (list iovec)) (flush : bool) : W Z :=
  match os, iov with
  | Some s, Some iov =>
      match sendv_total iov 0 with
      | None => mret (- KCPMUX_ERR_INVALID_PARAM)
      | Some total =>
          if (total =? 0) && negb flush then mret (- KCPMUX_ERR_INVALID_PARAM)
          else
            _ ← get_stream s;
            kcpmux_stream_send_chunks s total flush true
              kcpmux_stream_send_vectored_chunk (mk_vctx iov (skip_empty iov 0) 0)
      end
  | _, _ => mret (- KCPMUX_ERR_INVALID_PARAM)
  end.

(** ** Batching *)

Definition kcpmux_stream_finish_batch_at s (now : Z) : W unit :=
  st ← get_stream s;
  if s_internal_closed st || (s_pending_count st =? 0) then mret tt
  else
    k ← get_conn (s_conn st);
    let threshold := sc_batch_threshold (s_config st) in
    if negb (bool_decide (s_state st = STREAM_OPEN)) ||
       negb (bool_decide (c_state k = CONN_CONNECTED)) then mret tt
    else if (1 <? threshold) && (threshold <=? s_pending_count st) then mret tt
    else
      linked ← batch_linked s;
      when linked (batch_unlink s);;
      mod_stream s (fun st => st <| s_pending_count := if 1 <? threshold then threshold else 0 |>);;
      _ ← kcpmux_engine_schedule_timer_node (OStream s) now now;
      mret tt.

Definition kcpmux_stream_finish_batch (os : option positive) : W unit :=
  match os with
  | None => mret tt
  | Some s =>
      _ ← stream_conn s;
      now ← kcpmux_engine_now;
      kcpmux_stream_finish_batch_at s now
  end.

(** ** Receiving *)

Definition kcpmux_stream_peek_size (os : option positive) : W Z :=
  match os with
  | None => mret (- KCPMUX_ERR_INVALID_PARAM)
  | Some s =>
      st ← get_stream s;
      if s_internal_closed st then mret (- KCPMUX_ERR_CLOSED)
      else if negb (bool_decide (s_state st = STREAM_OPEN)) &&
              negb (bool_decide (s_state st = STREAM_CLOSING) &&
                    bool_decide (s_close_phase st = CLOSE_REMOTE_DRAIN))
      then mret (- KCPMUX_ERR_STATE)
      else
        ret ← ops_peeksize s;
        mret (if 0 <? ret then ret else 0)
  end.

(** [size = 0] stands for a NULL or empty buffer.  The result is the return
    value and the bytes stored in the buffer. *)
Definition kcpmux_stream_recv (os : option positive) (size : Z) : W (Z * list Z) :=
  match os with
  | None => mret (- KCPMUX_ERR_INVALID_PARAM, [])
  | Some s =>
      if size =? 0 then mret (- KCPMUX_ERR_INVALID_PARAM, [])
      else
        _ ← stream_conn s;
        mod_stats (fun x => x <| es_api_stream_recv_calls ::= inc64 |>);;
        peek_size ← kcpmux_stream_peek_size (Some s);
        if peek_size <? 0 then mret (peek_size, [])
        else if size <? peek_size then mret (- KCPMUX_ERR_BUFFER_TOO_SMALL, [])
        else if peek_size =? 0 then
          now ← kcpmux_engine_now;
          kcpmux_stream_mark_read_blocked s now;;
          mret (0, [])
        else
          k ← get_kcp s;
          let '(ret, bytes, k') := kcp_recv k peek_size in
          mod_stream s (fun st => st <| s_kcp := Some k' |>);;
          if ret <? 0 then mret (- KCPMUX_ERR_KCPRET ret, bytes)
          else
            mod_stream s (fun st => st <| s_stats ::= fun x =>
              x <| ss_up_recv_bytes ::= add64 ret |> |>);;
            left ← ops_peeksize s;
            when (left <=? 0)
              (now ← kcpmux_engine_now;
               st ← get_stream s;
               if bool_decide (s_state st = STREAM_CLOSING) &&
                  bool_decide (s_close_phase st = CLOSE_REMOTE_DRAIN)
               then kcpmux_stream_schedule_finalize s (s_close_reason st) now
               else when (bool_decide (s_state st = STREAM_OPEN))
                      (kcpmux_stream_mark_read_blocked s now));;
            mret (ret, bytes)
  end.

(** ** Queries *)

Definition stream_query {A} (dflt : A) (f : stream K -> A) (os : option positive) : W A :=
  match os with
  | None => mret dflt
  | Some s => st ← get_stream s; mret (f st)
  end.

Definition kcpmux_stream_id : option positive -> W Z := stream_query 0 s_stream_id.
Definition kcpmux_stream_get_state : option positive -> W stream_state :=
  stream_query STREAM_ERROR s_state.
Definition kcpmux_stream_get_kcp : option positive -> W (option K) := stream_query None s_kcp.
Definition kcpmux_stream_get_conn : option positive -> W (option positive) :=
  stream_query None (fun st => Some (s_conn st)).
Definition kcpmux_stream_get_user_data : option positive -> W Z := stream_query 0 s_user_data.
Definition kcpmux_stream_get_stats : option positive -> W stream_stats :=
  stream_query stream_stats_zero s_stats.

(** ** Timer handler *)

(** The OPEN case of [kcpmux_stream_update]: write unblocking. *)
Definition write_unblock s (now : Z) : W unit :=
  st ← get_stream s;
  when (s_write_blocked st)
    (waitsnd ← ops_waitsnd s;
     when (waitsnd <? s32 (sc_send_resume_threshold (s_config st)))
       (when (0 <? s_write_block_start_ts st)
          (mod_stream s (fun st =>
             st <| s_stats ::= fun x => x <| ss_write_block_time_ms ::=
                     add64 (now - s_write_block_start_ts st) |> |>
                <| s_write_block_start_ts := 0 |>));;
        mod_stream s (fun st => st <| s_write_blocked := false |>);;
        match scb_stream_write_notify (s_callbacks st) with
        | Some f => emit (EvStreamWrite f s (s_user_data st))
        | None => mret tt
        end)).

(** The state machine of [kcpmux_stream_update], on a stream and connection
    that are not closed. *)
Definition stream_update_body s (now : Z) : W unit :=
  st ← get_stream s;
  let drain_deadline :=
    kcpmux_timer_deadline_after (s_drain_started_ts st) (sc_drain_timeout_ms (s_config st)) in
  match s_state st with
  | STREAM_OPEN =>
      kcpmux_stream_clear_pending s;;
      ops_update s now;;
      write_unblock s now;;
      deadline ← ops_check s now;
      _ ← kcpmux_engine_schedule_timer_node (OStream s) deadline now;
      mret tt
  | STREAM_CLOSING =>
      match s_close_phase st with
      | CLOSE_LOCAL_DRAIN =>
          kcpmux_stream_clear_pending s;;
          ops_update s now;;
          waitsnd ← ops_waitsnd s;
          if waitsnd =? 0 then kcpmux_stream_advance_local_close s now
          else if drain_deadline <=? now then
            mod_stream s (fun st => st <| s_close_reason := KCPMUX_CLOSE_REASON_TIMEOUT |>);;
            _ ← kcpmux_stream_send_close s KCPMUX_CLOSE_REASON_TIMEOUT;
            kcpmux_stream_close_internal s KCPMUX_CLOSE_REASON_TIMEOUT
          else kcpmux_stream_refresh_timer s now
      | CLOSE_WAIT_ACK =>
          if kcpmux_timer_deadline_after (s_last_ctrl_ts st)
               (sc_ctrl_timeout_ms (s_config st)) <=? now then
            if s_retry_count st <? sc_close_retries (s_config st) then
              mod_stream s (fun st => st <| s_retry_count ::= fun n => u32 (n + 1) |>);;
              _ ← kcpmux_stream_send_close s (s_close_reason st);
              st ← get_stream s;
              when (s_retry_count st =? sc_close_retries (s_config st))
                (kcpmux_stream_close_internal s (s_close_reason st))
            else kcpmux_stream_close_internal s (s_close_reason st)
          else mret tt
      | CLOSE_REMOTE_DRAIN =>
          when (drain_deadline <=? now)
            (kcpmux_stream_close_internal s KCPMUX_CLOSE_REASON_TIMEOUT)
      | CLOSE_FINALIZE => kcpmux_stream_close_internal s (s_close_reason st)
      | CLOSE_NONE => mret tt
      end
  | _ => kcpmux_engine_cancel_timer_node (OStream s) now
  end.

Definition kcpmux_stream_update s (now : Z) : W unit :=
  st ← get_stream s;
  if s_internal_closed st then mret tt
  else
    k ← get_conn (s_conn st);
    if c_internal_closed k || negb (bool_decide (c_state k = CONN_CONNECTED)) then mret tt
    else stream_update_body s now.

(** ** Peer messages *)

(** The edge from blocked to readable in [kcpmux_stream_handle_payload]. *)
Definition read_unblock s (recv_time_ms : Z) : W unit :=
  st ← get_stream s;
  when (bool_decide (s_state st = STREAM_OPEN) && s_read_blocked st)
    (peeksize ← ops_peeksize s;
     when (0 <? peeksize)
       (when (0 <? s_read_block_start_ts st)
          (when (ss_read_block_count (s_stats st) =? 1)
             (mod_stream s (fun st => st <| s_stats ::= fun x =>
                x <| ss_ttfb_time_ms := u64 (recv_time_ms - s_read_block_start_ts st) |> |>));;
           mod_stream s (fun st =>
             st <| s_stats ::= fun x => x <| ss_read_block_time_ms ::=
                     add64 (recv_time_ms - s_read_block_start_ts st) |> |>
                <| s_read_block_start_ts := 0 |>));;
        mod_stream s (fun st => st <| s_read_blocked := false |>);;
        match scb_stream_read_notify (s_callbacks st) with
        | Some f => emit (EvStreamRead f s (s_user_data st))
        | None => mret tt
        end)).

(** [size] is the length of [buf]. *)
Definition kcpmux_stream_handle_payload s (buf : list Z) (recv_time_ms : Z) : W Z :=
  if bool_decide (buf = []) then mret (- KCPMUX_ERR_INVALID_PARAM)
  else
    st ← get_stream s;
    if s_internal_closed st then mret (- KCPMUX_ERR_CLOSED)
    else if negb (kcpmux_stream_kcp_active st) then mret (- KCPMUX_ERR_STATE)
    else
      mod_stream s (fun st => st <| s_stats ::= fun x =>
        x <| ss_rx_packets ::= inc64 |>
          <| ss_rx_bytes ::= add64 (Z.of_nat (length buf)) |> |>);;
      ops_current_update s recv_time_ms;;
      ret ← ops_input s buf;
      kcpmux_stream_accumulate_update s recv_time_ms;;
      if ret <? 0 then mret (- KCPMUX_ERR_KCPRET ret)
      else
        read_unblock s recv_time_ms;;
        mret 0.

Definition kcpmux_stream_handle_close s (reason : Z) : W Z :=
  st ← get_stream s;
  if s_internal_closed st then mret (- KCPMUX_ERR_CLOSED)
  else if negb (reason =? KCPMUX_CLOSE_REASON_NORMAL) then
    _ ← kcpmux_stream_send_close_ack s reason;
    kcpmux_stream_close_internal s reason;;
    mret 0
  else
    _ ← stream_conn s;
    now ← kcpmux_engine_now;
    match s_state st with
    | STREAM_CLOSING =>
        match s_close_phase st with
        | CLOSE_LOCAL_DRAIN | CLOSE_WAIT_ACK =>
            _ ← kcpmux_stream_send_close_ack s reason;
            kcpmux_stream_schedule_finalize s KCPMUX_CLOSE_REASON_NORMAL now;;
            mret 0
        | CLOSE_REMOTE_DRAIN | CLOSE_FINALIZE =>
            _ ← kcpmux_stream_send_close_ack s reason;
            mret 0
        | CLOSE_NONE => mret (- KCPMUX_ERR_STATE)
        end
    | STREAM_OPEN =>
        _ ← kcpmux_stream_send_close_ack s reason;
        mod_stream s (fun st => st <| s_close_reason := reason |>
                                   <| s_close_phase := CLOSE_REMOTE_DRAIN |>
                                   <| s_drain_started_ts := now |>);;
        kcpmux_stream_set_state s STREAM_CLOSING;;
        peeksize ← ops_peeksize s;
        when (peeksize <=? 0) (kcpmux_stream_schedule_finalize s reason now);;
        mret 0
    | _ => mret (- KCPMUX_ERR_STATE)
    end.
End stream.
