(* ===== verification/Mux.v ===== *)
(** * The multiplexer's entry points

    Connection close with its cascade over the streams, the connection's timer
    handler and public operations (src/kcpmux_conn.c), dispatch of received
    packets (src/kcpmux_protocol.c), and the engine's life cycle and main loop
    (src/kcpmux_engine.c). *)

From S2P Require Import Prelude Types Timer ByteOrder Hashtable Vectored World Engine Conn Messages Stream.

Section mux.
Context {KO : Kcp} {HO : Host}.
Implicit Types (c s : positive).

(** ** Closing a connection *)

(** One bucket of the cascade of [kcpmux_conn_close_internal]:
    [list_for_each_safe] visits the streams linked when it starts, each of
    which unlinks only itself. *)
Definition close_bucket c (i : nat) (reason : Z) : W unit :=
  k ← get_conn c;
  b ← deref (fun _ => hashtable (c_stream_map k) !! i);
  for_each (fun s => kcpmux_stream_close_internal s reason) b.

Definition kcpmux_conn_close_internal c (reason : Z) : W unit :=
  k ← get_conn c;
  if c_internal_closed k then mret tt
  else
    mod_conn c (fun k => k <| c_internal_closed := true |>);;
    kcpmux_engine_unregister_timer_node (OConn c);;
    kcpmux_engine_remove_conn c;;
    mod_stats (fun x => x <| es_conn_closed_total ::= inc64 |>);;
    for_each (fun i => close_bucket c i reason) (seq 0 (length (hashtable (c_stream_map k))));;
    when (negb (bool_decide (c_state k = CONN_ERROR)))
      (mod_conn c (fun k => k <| c_state := CONN_CLOSED |>));;
    k ← get_conn c;
    match ccb_conn_close_notify (c_callbacks k) with
    | Some f => emit (EvConnClose f c reason (c_user_data k))
    | None => mret tt
    end;;
    kcpmux_engine_queue_release (OConn c).

(** ** Connection timer handler *)

(** The [switch] of [kcpmux_conn_update], reached when the deadline has
    passed; the result tells whether the function falls through to the final
    [kcpmux_conn_refresh_timer]. *)
Definition conn_update_body c (now : Z) : W bool :=
  k ← get_conn c;
  let cfg := c_config k in
  let ctrl_due :=
    kcpmux_timer_deadline_after (c_last_ctrl_ts k) (cc_ctrl_timeout_ms cfg) <=? now in
  match c_state k with
  | CONN_CONNECTING =>
      if ctrl_due then
        if c_retry_count k <? cc_connect_retries cfg then
          mod_conn c (fun k => k <| c_retry_count ::= fun n => u32 (n + 1) |>);;
          _ ← kcpmux_conn_send_connect c;
          mret true
        else
          kcpmux_conn_set_state c CONN_ERROR;;
          kcpmux_conn_close_internal c KCPMUX_CLOSE_REASON_TIMEOUT;;
          mret false
      else mret true
  | CONN_CONNECTED =>
      if kcpmux_timer_deadline_after (c_last_recv_ts k) (cc_keepalive_timeout_ms cfg) <=? now then
        kcpmux_conn_set_state c CONN_ERROR;;
        mod_stats (fun x => x <| es_conn_keepalive_timeout_total ::= inc64 |>);;
        kcpmux_conn_close_internal c KCPMUX_CLOSE_REASON_TIMEOUT;;
        mret false
      else if (0 <? cc_idle_timeout_ms cfg) &&
              (kcpmux_timer_deadline_after (c_last_payload_ts k) (cc_idle_timeout_ms cfg) <=? now) then
        kcpmux_conn_set_state c CONN_CLOSING;;
        _ ← kcpmux_conn_send_close c KCPMUX_CLOSE_REASON_IDLE;
        mod_stats (fun x => x <| es_conn_idle_timeout_total ::= inc64 |>);;
        kcpmux_conn_close_internal c KCPMUX_CLOSE_REASON_IDLE;;
        mret false
      else
        (if (0 <? cc_keepalive_interval_ms cfg) &&
            (kcpmux_timer_deadline_after (c_last_keepalive_ts k) (cc_keepalive_interval_ms cfg) <=? now)
         then _ ← kcpmux_conn_send_keepalive c; mret tt
         else mret tt);;
        mret true
  | CONN_CLOSING =>
      if ctrl_due then
        if c_retry_count k <? cc_close_retries cfg then
          mod_conn c (fun k => k <| c_retry_count ::= fun n => u32 (n + 1) |>);;
          _ ← kcpmux_conn_send_close c (c_close_reason k);
          k ← get_conn c;
          if c_retry_count k =? cc_close_retries (c_config k) then
            kcpmux_conn_close_internal c (c_close_reason k);;
            mret false
          else mret true
        else
          kcpmux_conn_close_internal c (c_close_reason k);;
          mret false
      else mret true
  | _ => mret true
  end.

Definition kcpmux_conn_update c (now : Z) : W unit :=
  k ← get_conn c;
  if c_internal_closed k then mret tt
  else
    match kcpmux_conn_calculate_deadline k with
    | Some deadline =>
        if now <? deadline then kcpmux_conn_refresh_timer c now
        else
          again ← conn_update_body c now;
          when again (kcpmux_conn_refresh_timer c now)
    | None => kcpmux_conn_refresh_timer c now
    end.

(** ** Public connection operations *)

Definition kcpmux_conn_connect (peer_addr : option (list Z)) (config : option conn_config)
    (ext : option proto_ext) (callbacks : option conn_callbacks) (user_data : Z) :
    W (option positive) :=
  match peer_addr with
  | None => mret None
  | Some _ =>
      kcpmux_engine_operation_enter;;
      mod_stats (fun x => x <| es_api_conn_connect_calls ::= inc64 |>);;
      oc ← kcpmux_conn_new peer_addr config true;
      match oc with
      | None => kcpmux_engine_operation_leave;; mret None
      | Some c =>
          when (bool_decide (is_Some callbacks))
            (mod_conn c (fun k => k <| c_callbacks := default conn_callbacks_zero callbacks |>));;
          mod_conn c (fun k => k <| c_user_data := user_data |>);;
          match ext with
          | Some ext =>
              when (0 <? pe_len ext)
                (let len := if KCPMUX_PROTO_EXT_MAX_LEN <? pe_len ext
                            then KCPMUX_PROTO_EXT_MAX_LEN else pe_len ext in
                 bytes ← deref (fun _ => read_bytes_at (Some (pe_data ext)) 0 len);
                 mod_conn c (fun k => k <| c_self_proto_ext ::= proto_ext_store bytes |>))
          | None => mret tt
          end;;
          kcpmux_engine_add_conn c;;
          now ← kcpmux_engine_now;
          mod_conn c (fun k => k <| c_last_ctrl_ts := now |> <| c_state := CONN_CONNECTING |>);;
          kcpmux_conn_refresh_timer c now;;
          _ ← kcpmux_conn_send_connect c;
          kcpmux_engine_operation_leave;;
          mret (Some c)
      end
  end.

(** The part of [kcpmux_conn_close] inside the operation boundary; it
    returns 0 on every path. *)
Definition conn_close_body c : W unit :=
  mod_stats (fun x => x <| es_api_conn_close_calls ::= inc64 |>);;
  k ← get_conn c;
  if c_internal_closed k then mret tt
  else
    match c_state k with
    | CONN_CLOSING | CONN_CLOSED | CONN_ERROR => mret tt
    | _ =>
        now ← kcpmux_engine_now;
        mod_conn c (fun k => k <| c_last_ctrl_ts := now |>
                               <| c_close_reason := KCPMUX_CLOSE_REASON_NORMAL |>
                               <| c_retry_count := 0 |>);;
        kcpmux_conn_set_state c CONN_CLOSING;;
        _ ← kcpmux_conn_send_close c KCPMUX_CLOSE_REASON_NORMAL;
        k ← get_conn c;
        when (cc_close_retries (c_config k) =? 0)
          (kcpmux_conn_close_internal c KCPMUX_CLOSE_REASON_NORMAL)
    end.

Definition kcpmux_conn_close (oc : option positive) : W Z :=
  match oc with
  | None => mret (- KCPMUX_ERR_INVALID_PARAM)
  | Some c =>
      _ ← get_conn c;
      kcpmux_engine_operation_enter;;
      conn_close_body c;;
      kcpmux_engine_operation_leave;;
      mret 0
  end.

(** ** Received packets *)

Definition conn_setter_run c (a : conn_setter) : W unit :=
  match a with
  | SetConnConfig cfg => kcpmux_conn_set_config (Some c) cfg
  | SetConnCallbacks cbs ud => kcpmux_conn_set_callbacks (Some c) cbs ud
  end.

Definition stream_setter_run s (a : stream_setter) : W unit :=
  match a with
  | SetStreamConfig cfg => kcpmux_stream_set_config (Some s) cfg
  | SetStreamCallbacks cbs ud => kcpmux_stream_set_callbacks (Some s) cbs ud
  end.

Definition note_rx c (size : Z) : W unit :=
  mod_conn c (fun k => k <| c_stats ::= fun st =>
    st <| cs_rx_packets ::= inc64 |> <| cs_rx_bytes ::= add64 size |> |>).

(** Reads of the packet; past its end they are undefined. *)
Definition byte_at (buf : list Z) (off : Z) : W Z := deref (fun _ => buf !! Z.to_nat off).
Definition u16_at (buf : list Z) (off : Z) : W Z := deref (fun _ => read_u16 buf (Z.to_nat off)).
Definition u32_at (buf : list Z) (off : Z) : W Z := deref (fun _ => read_u32 buf (Z.to_nat off)).
Definition u64_at (buf : list Z) (off : Z) : W Z := deref (fun _ => read_u64 buf (Z.to_nat off)).

(** [memcpy] of the extension into [peer_proto_ext]. *)
Definition store_peer_ext c (buf : list Z) (off ext_len : Z) : W unit :=
  when (0 <? ext_len)
    (bytes ← deref (fun _ => read_bytes_at (Some buf) off ext_len);
     mod_conn c (fun k => k <| c_peer_proto_ext ::= proto_ext_store bytes |>)).

(** The answer of [conn_connect_notify], with what the callback did to the new
    connection; without a callback the connection is refused. *)
Definition accept_ask c (e : engine) : W Z :=
  match ecb_conn_connect_notify (e_callbacks e) with
  | Some f =>
      k ← get_conn c;
      resp ← ask (fun tr => host_conn_connect_notify tr f c)
               (EvConnectNotify f c (c_peer_proto_ext k));
      for_each (conn_setter_run c) (cr_setters resp);;
      mod_conn c (fun k => k <| c_self_proto_ext := cr_ext resp |>);;
      mret (cr_result resp)
  | None => mret KCPMUX_ACK_RESULT_ERROR
  end.

(** The CONNECT_ACK, and the end of a refused connection. *)
Definition accept_reply c (result : Z) : W Z :=
  (if result =? KCPMUX_ACK_RESULT_OK then
     kcpmux_conn_set_state c CONN_CONNECTED;;
     _ ← kcpmux_conn_send_connect_ack c KCPMUX_ACK_RESULT_OK;
     mret tt
   else
     mod_stats (fun x => x <| es_conn_rejected_total ::= inc64 |>);;
     _ ← kcpmux_conn_send_connect_ack c (u8 result);
     mod_conn c (fun k => k <| c_callbacks := conn_callbacks_zero |> <| c_user_data := 0 |>);;
     kcpmux_conn_close_internal c KCPMUX_CLOSE_REASON_REJECTED);;
  mret 0.

(** From the answer on: an extension too long turns it into an error. *)
Definition accept_answer c (result : Z) : W Z :=
  k ← get_conn c;
  let result :=
    if (result =? KCPMUX_ACK_RESULT_OK) &&
       (KCPMUX_PROTO_EXT_MAX_LEN <? pe_len (c_self_proto_ext k))
    then KCPMUX_ACK_RESULT_ERROR else result in
  when (negb (result =? KCPMUX_ACK_RESULT_OK))
    (mod_conn c (fun k => k <| c_self_proto_ext ::= fun x => x <| pe_len := 0 |> |>));;
  accept_reply c result.

(** A CONNECT from an unknown peer: from [kcpmux_conn_new] on. *)
Definition accept_connect (buf a : list Z) (source_id ext_len recv_time_ms : Z) : W Z :=
  oc ← kcpmux_conn_new (Some a) None false;
  match oc with
  | None => mret (- KCPMUX_ERR_OOM)
  | Some c =>
      mod_conn c (fun k => k <| c_peer_connection_id := source_id |>);;
      store_peer_ext c buf KCPMUX_PROTO_CONNECT_LEN ext_len;;
      kcpmux_conn_note_receive c recv_time_ms false;;
      kcpmux_engine_add_conn c;;
      mod_conn c (fun k => k <| c_self_proto_ext ::= fun x => x <| pe_len := 0 |> |>);;
      e ← get_engine;
      result ← accept_ask c e;
      accept_answer c result
  end.

Definition input_connect (buf a : list Z) (destination_id recv_time_ms : Z) : W Z :=
  let size := Z.of_nat (length buf) in
  if (size <? KCPMUX_PROTO_CONNECT_LEN) || negb (destination_id =? 0)
  then mret (- KCPMUX_ERR_INVALID_FORMAT)
  else
    source_id ← u64_at buf KCPMUX_PROTO_COMMON_LEN;
    if source_id =? 0 then mret (- KCPMUX_ERR_INVALID_FORMAT)
    else
      version ← byte_at buf (KCPMUX_PROTO_COMMON_LEN + 8);
      ext_len ← u16_at buf (KCPMUX_PROTO_COMMON_LEN + 9);
      if KCPMUX_PROTO_EXT_MAX_LEN <? ext_len then mret (- KCPMUX_ERR_INVALID_FORMAT)
      else if size <? KCPMUX_PROTO_CONNECT_LEN + ext_len then mret (- KCPMUX_ERR_INVALID_FORMAT)
      else
        oc ← kcpmux_engine_get_passive_conn (Some a) source_id;
        if negb (version =? KCPMUX_VERSION) then
          match oc with
          | Some c => _ ← kcpmux_conn_send_connect_ack c KCPMUX_ACK_RESULT_VERSION; mret tt
          | None => mret tt
          end;;
          mret (- KCPMUX_ERR_NOK)
        else
          match oc with
          | Some c =>
              k ← get_conn c;
              if negb (bool_decide (c_state k = CONN_CONNECTED)) then mret (- KCPMUX_ERR_STATE)
              else
                note_rx c size;;
                kcpmux_conn_note_receive c recv_time_ms false;;
                _ ← kcpmux_conn_send_connect_ack c KCPMUX_ACK_RESULT_OK;
                mret 0
          | None => accept_connect buf a source_id ext_len recv_time_ms
          end.

Definition input_connect_ack (buf : list Z) c (recv_time_ms : Z) : W Z :=
  let size := Z.of_nat (length buf) in
  k ← get_conn c;
  if negb (bool_decide (c_state k = CONN_CONNECTING)) then mret (- KCPMUX_ERR_STATE)
  else if size <? KCPMUX_PROTO_CONNECT_ACK_LEN then mret (- KCPMUX_ERR_INVALID_FORMAT)
  else
    source_id ← u64_at buf KCPMUX_PROTO_COMMON_LEN;
    if source_id =? 0 then mret (- KCPMUX_ERR_INVALID_FORMAT)
    else
      version ← byte_at buf (KCPMUX_PROTO_COMMON_LEN + 8);
      result ← byte_at buf (KCPMUX_PROTO_COMMON_LEN + 9);
      ext_len ← u16_at buf (KCPMUX_PROTO_COMMON_LEN + 10);
      if KCPMUX_PROTO_EXT_MAX_LEN <? ext_len then mret (- KCPMUX_ERR_INVALID_FORMAT)
      else if size <? KCPMUX_PROTO_CONNECT_ACK_LEN + ext_len then mret (- KCPMUX_ERR_INVALID_FORMAT)
      else
        kcpmux_conn_note_receive c recv_time_ms false;;
        (if (version =? KCPMUX_VERSION) && (result =? KCPMUX_ACK_RESULT_OK) then
           mod_conn c (fun k => k <| c_peer_connection_id := source_id |>);;
           store_peer_ext c buf KCPMUX_PROTO_CONNECT_ACK_LEN ext_len;;
           kcpmux_conn_set_state c CONN_CONNECTED
         else
           mod_stats (fun x => x <| es_conn_rejected_total ::= inc64 |>);;
           kcpmux_conn_set_state c CONN_ERROR;;
           if negb (version =? KCPMUX_VERSION) || (result =? KCPMUX_ACK_RESULT_VERSION)
           then kcpmux_conn_close_internal c KCPMUX_CLOSE_REASON_VERSION
           else kcpmux_conn_close_internal c KCPMUX_CLOSE_REASON_REJECTED);;
        mret 0.

Definition input_keepalive (buf : list Z) c (recv_time_ms : Z) : W Z :=
  if Z.of_nat (length buf) <? KCPMUX_PROTO_KEEPALIVE_LEN then mret (- KCPMUX_ERR_INVALID_FORMAT)
  else kcpmux_conn_note_receive c recv_time_ms false;; mret 0.

Definition input_conn_close (buf : list Z) c (recv_time_ms : Z) : W Z :=
  if Z.of_nat (length buf) <? KCPMUX_PROTO_CONN_CLOSE_LEN then mret (- KCPMUX_ERR_INVALID_FORMAT)
  else
    reason ← byte_at buf KCPMUX_PROTO_COMMON_LEN;
    kcpmux_conn_note_receive c recv_time_ms false;;
    _ ← kcpmux_conn_send_close_ack c reason;
    kcpmux_conn_close_internal c reason;;
    mret 0.

Definition input_conn_close_ack (buf : list Z) c (recv_time_ms : Z) : W Z :=
  k ← get_conn c;
  if negb (bool_decide (c_state k = CONN_CLOSING)) then mret (- KCPMUX_ERR_STATE)
  else if Z.of_nat (length buf) <? KCPMUX_PROTO_CONN_CLOSE_LEN then mret (- KCPMUX_ERR_INVALID_FORMAT)
  else
    kcpmux_conn_note_receive c recv_time_ms false;;
    k ← get_conn c;
    kcpmux_conn_close_internal c (c_close_reason k);;
    mret 0.

Definition input_stream_close (buf : list Z) c (recv_time_ms : Z) : W Z :=
  if Z.of_nat (length buf) <? KCPMUX_PROTO_STREAM_CLOSE_LEN then mret (- KCPMUX_ERR_INVALID_FORMAT)
  else
    stream_id ← u32_at buf KCPMUX_PROTO_COMMON_LEN;
    if stream_id =? 0 then mret (- KCPMUX_ERR_INVALID_FORMAT)
    else
      reason ← byte_at buf KCPMUX_PROTO_STREAM_HEADER_LEN;
      os ← kcpmux_conn_get_stream_by_id c stream_id;
      match os with
      | None => mret (- KCPMUX_ERR_NOT_FOUND)
      | Some s =>
          kcpmux_conn_note_receive c recv_time_ms false;;
          kcpmux_stream_handle_close s reason
      end.

Definition input_stream_close_ack (buf : list Z) c (recv_time_ms : Z) : W Z :=
  if Z.of_nat (length buf) <? KCPMUX_PROTO_STREAM_CLOSE_LEN then mret (- KCPMUX_ERR_INVALID_FORMAT)
  else
    stream_id ← u32_at buf KCPMUX_PROTO_COMMON_LEN;
    if stream_id =? 0 then mret (- KCPMUX_ERR_INVALID_FORMAT)
    else
      os ← kcpmux_conn_get_stream_by_id c stream_id;
      match os with
      | None => mret (- KCPMUX_ERR_STATE)
      | Some s =>
          st ← get_stream s;
          if negb (bool_decide (s_state st = STREAM_CLOSING)) ||
             negb (bool_decide (s_close_phase st = CLOSE_WAIT_ACK))
          then mret (- KCPMUX_ERR_STATE)
          else
            kcpmux_conn_note_receive c recv_time_ms false;;
            kcpmux_stream_close_internal s (s_close_reason st);;
            mret 0
      end.

(** A payload of a stream not yet known: from the creation callback on. *)
Definition accept_stream (payload : list Z) c (stream_id recv_time_ms : Z) (notify : positive) : W Z :=
  os ← kcpmux_stream_new c stream_id None false;
  match os with
  | None => mret (- KCPMUX_ERR_OOM)
  | Some s =>
      kcpmux_conn_add_stream c s;;
      mod_conn c (fun k => k <| c_latest_peer_stream_id := stream_id |>
                             <| c_peer_stream_id_initialized := true |>);;
      k ← get_conn c;
      resp ← ask (fun tr => host_stream_create_notify tr notify s)
               (EvCreateNotify notify s (c_user_data k));
      for_each (stream_setter_run s) (sr_setters resp);;
      if negb (sr_result resp =? 0) then
        mod_stream s (fun st => st <| s_callbacks := stream_callbacks_zero |>
                                   <| s_user_data := 0 |>
                                   <| s_close_reason := KCPMUX_CLOSE_REASON_REJECTED |>
                                   <| s_close_phase := CLOSE_WAIT_ACK |>
                                   <| s_retry_count := 0 |>
                                   <| s_last_ctrl_ts := recv_time_ms |>);;
        kcpmux_stream_set_state s STREAM_CLOSING;;
        _ ← kcpmux_stream_send_close s KCPMUX_CLOSE_REASON_REJECTED;
        st ← get_stream s;
        when (sc_close_retries (s_config st) =? 0)
          (kcpmux_stream_close_internal s KCPMUX_CLOSE_REASON_REJECTED);;
        mret 0
      else
        ret ← kcpmux_stream_handle_payload s payload recv_time_ms;
        (if negb (ret =? 0) then
           kcpmux_stream_set_state s STREAM_ERROR;;
           kcpmux_stream_close_internal s KCPMUX_CLOSE_REASON_ERROR
         else kcpmux_conn_note_receive c recv_time_ms true);;
        mret ret
  end.

Definition input_stream_payload (buf : list Z) c (recv_time_ms : Z) : W Z :=
  k ← get_conn c;
  if negb (bool_decide (c_state k = CONN_CONNECTED)) then mret (- KCPMUX_ERR_STATE)
  else if Z.of_nat (length buf) <? KCPMUX_PROTO_STREAM_HEADER_LEN then mret (- KCPMUX_ERR_INVALID_FORMAT)
  else
    stream_id ← u32_at buf KCPMUX_PROTO_COMMON_LEN;
    if stream_id =? 0 then mret (- KCPMUX_ERR_INVALID_FORMAT)
    else
      let payload := drop (Z.to_nat KCPMUX_PROTO_STREAM_HEADER_LEN) buf in
      os ← kcpmux_conn_get_stream_by_id c stream_id;
      match os with
      | None =>
          if stream_id mod 2 =? Z.b2z (c_is_initiator k) then mret (- KCPMUX_ERR_INVALID_FORMAT)
          else if negb (kcpmux_conn_is_new_peer_stream_id k stream_id)
          then mret (- KCPMUX_ERR_NOT_FOUND)
          else
            match ccb_stream_create_notify (c_callbacks k) with
            | None => mret (- KCPMUX_ERR_NOT_FOUND)
            | Some f => accept_stream payload c stream_id recv_time_ms f
            end
      | Some s =>
          ret ← kcpmux_stream_handle_payload s payload recv_time_ms;
          when (ret =? 0) (kcpmux_conn_note_receive c recv_time_ms true);;
          mret ret
      end.

(** [buf] is the packet, [a] the peer address. *)
Definition kcpmux_protocol_input (buf a : list Z) (recv_time_ms : Z) : W Z :=
  let size := Z.of_nat (length buf) in
  let addrlen := Z.of_nat (length a) in
  if size <? 1 then mret (- KCPMUX_ERR_INVALID_PARAM)
  else if (addrlen =? 0) || (KCPMUX_ADDR_MAX_LEN <? addrlen) then mret (- KCPMUX_ERR_INVALID_PARAM)
  else if size <? KCPMUX_PROTO_COMMON_LEN then mret (- KCPMUX_ERR_INVALID_FORMAT)
  else
    msg_type ← byte_at buf 0;
    destination_id ← u64_at buf 1;
    if msg_type =? KCPMUX_MSG_CONN_CONNECT then
      input_connect buf a destination_id recv_time_ms
    else if destination_id =? 0 then mret (- KCPMUX_ERR_INVALID_FORMAT)
    else
      oc ← kcpmux_engine_get_conn_by_id (Some a) destination_id;
      match oc with
      | None => mret (- KCPMUX_ERR_NOT_FOUND)
      | Some c =>
          note_rx c size;;
          if msg_type =? KCPMUX_MSG_CONN_CONNECT_ACK then input_connect_ack buf c recv_time_ms
          else if msg_type =? KCPMUX_MSG_CONN_KEEPALIVE then input_keepalive buf c recv_time_ms
          else if msg_type =? KCPMUX_MSG_CONN_CLOSE then input_conn_close buf c recv_time_ms
          else if msg_type =? KCPMUX_MSG_CONN_CLOSE_ACK then input_conn_close_ack buf c recv_time_ms
          else if msg_type =? KCPMUX_MSG_STREAM_CLOSE then input_stream_close buf c recv_time_ms
          else if msg_type =? KCPMUX_MSG_STREAM_CLOSE_ACK then
            input_stream_close_ack buf c recv_time_ms
          else if msg_type =? KCPMUX_MSG_STREAM_PAYLOAD then input_stream_payload buf c recv_time_ms
          else mret (- KCPMUX_ERR_INVALID_FORMAT)
      end.

(** ** Engine life cycle *)

(** [None] arguments are NULL pointers.  The operations of [Kcp] are all
    present except [kcp_sendv], as [kcpmux_kcp_ops_valid] asks.  [None] is a
    NULL result. *)
Definition kcpmux_engine_create (config : option engine_config) (default_conn_config : option conn_config)
    (default_stream_config : option stream_config) (callbacks : option engine_callbacks)
    (user_data : Z) : M trace (option engine) :=
  match callbacks with
  | None => mret None
  | Some cb =>
      if negb (kcpmux_engine_callbacks_valid cb) then mret None
      else
        match from_option kcpmux_conn_config_prepare (Some kcpmux_conn_config_init)
                default_conn_config,
              from_option kcpmux_stream_config_prepare (Some kcpmux_stream_config_init)
                default_stream_config with
        | Some conn_config, Some stream_config =>
            ok ← ask_tr host_alloc EvAlloc;
            if negb ok then mret None
            else
              om ← htb_new_tr 64;
              match om with
              | None => mret None
              | Some conn_map =>
                  oh ← htb_new_tr 64;
                  match oh with
                  | None => mret None
                  | Some handshake_map =>
                      r ← random_u64_tr cb;
                      let id := Z.land r (Z.shiftr UINT64_MAX 1) in
                      let id := if id =? 0 then 1 else id in
                      mret (Some (mk_engine (default kcpmux_engine_config_init config) cb user_data conn_config stream_config
                        conn_map handshake_map id 0 engine_stats_zero 0 false 0 0 false [] 0 []))
                  end
              end
        | _, _ => mret None
        end
  end.

(** The world just after [kcpmux_engine_create] returned [e]. *)
Definition boot (e : engine) (tr : trace) : world K :=
  mk_world e ∅ ∅ kcpmux_timer_manager_init 1 tr.

(** The loop of [kcpmux_engine_destroy]: the first node of the first
    nonempty bucket is the head of the concatenated buckets.  Each round
    closes a connection and so takes it out of the table. *)
Fixpoint destroy_loop (fuel : nat) : W unit :=
  e ← get_engine;
  if e_conn_count e <=? 0 then mret tt
  else
    match concat (hashtable (e_conn_map e)), fuel with
    | [], _ => mret tt
    | _ :: _, O => ub
    | c :: _, S fuel' =>
        kcpmux_conn_close_internal c KCPMUX_CLOSE_REASON_NORMAL;;
        destroy_loop fuel'
    end.

Definition kcpmux_engine_destroy : W unit :=
  mod_engine (fun e => e <| e_destroying := true |>);;
  kcpmux_engine_operation_enter;;
  n ← gets (fun w => length (concat (hashtable (e_conn_map (w_engine w)))));
  destroy_loop n;;
  kcpmux_engine_operation_leave;;
  _ ← deref (fun w => kcpmux_htb_destroy (fun c => bool_decide (is_Some (w_conns w !! c)))
                        (e_handshake_map (w_engine w)));
  _ ← deref (fun w => kcpmux_htb_destroy (fun c => bool_decide (is_Some (w_conns w !! c)))
                        (e_conn_map (w_engine w)));
  in_timers kcpmux_timer_manager_destroy;;
  emit EvEngineFree.

Definition kcpmux_engine_set_config (config : option engine_config) : W unit :=
  match config with
  | None => mret tt
  | Some config => mod_engine (fun e => e <| e_config := config |>)
  end.

(** ** Main loop *)

(** [kcpmux_conn_timer_callback] and [kcpmux_stream_timer_callback]: the
    owner is cast to the type the callback expects. *)
Definition run_timeout (cb : timer_cb) (own : option obj) (now_ms : Z) : W unit :=
  match own, cb with
  | None, _ => mret tt
  | Some (OConn c), conn_timer_callback => kcpmux_conn_update c now_ms
  | Some (OStream s), stream_timer_callback => kcpmux_stream_update s now_ms
  | _, _ => ub
  end.

(** The dispatch loop of [kcpmux_engine_update].  Handlers never add to the
    due list, so one round per due node suffices. *)
Fixpoint dispatch_loop (fuel : nat) (now : Z) : W unit :=
  due ← gets (fun w => tm_due (w_timers w));
  match due, fuel with
  | [], _ => mret tt
  | _ :: _, O => ub
  | n :: _, S fuel' =>
      in_timers (modify (fun t => t <| tm_due ::= list.tail |>));;
      in_timers (mod_node n (fun nd => nd <| tn_state := TIMER_RUNNING |>));;
      mod_engine (fun e => e <| e_timer_dispatch_count ::= inc64 |>);;
      nd ← in_timers (get_node n);
      match timeout_cb nd with
      | Some cb => run_timeout cb (owner nd) now
      | None => mret tt
      end;;
      nd ← in_timers (get_node n);
      when (bool_decide (tn_state nd = TIMER_RUNNING))
        (in_timers (mod_node n (fun nd => nd <| tn_state := TIMER_IDLE |>)));;
      dispatch_loop fuel' now
  end.

Definition kcpmux_engine_update : W unit :=
  now ← kcpmux_engine_now;
  mod_engine (fun e => e <| e_external_timer_armed := false |>);;
  in_timers (modify (fun t => t <| tm_due := [] |>));;
  in_timers (kcpmux_timer_collect_due now);;
  kcpmux_engine_operation_enter;;
  n ← gets (fun w => length (tm_due (w_timers w)));
  dispatch_loop n now;;
  kcpmux_engine_operation_leave.

(** [None] is a NULL pointer; [size] is the length of [buf]. *)
Definition kcpmux_engine_input (buf a : option (list Z)) : W Z :=
  match buf, a with
  | Some buf, Some a =>
      if bool_decide (buf = []) then mret (- KCPMUX_ERR_INVALID_PARAM)
      else
        kcpmux_engine_operation_enter;;
        mod_stats (fun x => x <| es_rx_packets ::= inc64 |>
                              <| es_rx_bytes ::= add64 (Z.of_nat (length buf)) |>);;
        now ← kcpmux_engine_now;
        ret ← kcpmux_protocol_input buf a now;
        kcpmux_engine_operation_leave;;
        mret ret
  | _, _ => mret (- KCPMUX_ERR_INVALID_PARAM)
  end.

(** The loop of [kcpmux_engine_finish_batch]: each round takes a stream off
    the list and [kcpmux_stream_finish_batch_at] adds none. *)
Fixpoint finish_batch_loop (fuel : nat) (now : Z) : W unit :=
  e ← get_engine;
  match e_pending_batch_streams e, fuel with
  | [], _ => mret tt
  | _ :: _, O => ub
  | s :: _, S fuel' =>
      batch_unlink s;;
      kcpmux_stream_finish_batch_at s now;;
      finish_batch_loop fuel' now
  end.

Definition kcpmux_engine_finish_batch : W unit :=
  now ← kcpmux_engine_now;
  kcpmux_engine_operation_enter;;
  n ← gets (fun w => length (e_pending_batch_streams (w_engine w)));
  finish_batch_loop n now;;
  kcpmux_engine_operation_leave.
End mux.
