(* ===== verification/Sample.v ===== *)
(** * A concrete host and KCP

    An instance of both parameters of the model, used to evaluate the
    definitions: a host whose clock advances with every event, whose socket
    and allocator never fail and which accepts every connection and stream,
    and a KCP that queues messages and puts them on the wire at the next
    update.  The worlds built here are runs of the public entry points. *)

From S2P Require Import Prelude Types Timer Hashtable Vectored World Engine Conn Messages Stream Mux.

(** ** The parameters *)

Record queue_kcp := mk_queue { q_unsent : list (list Z); q_received : list (list Z) }.

Fixpoint flush_queue (l : list (list Z)) (k : queue_kcp) : kact queue_kcp unit :=
  match l with
  | [] => KRet k tt
  | b :: l' => KOut b (fun _ => flush_queue l' k)
  end.

#[export] Instance queue_ops : Kcp := {|
  K := queue_kcp;
  kcp_create _ _ := Some (mk_queue [] []);
  kcp_setmss k _ := k;
  kcp_send k b :=
    if INT_MAX <? Z.of_nat (length b) then KRet k (-1)
    else KRet (mk_queue (q_unsent k ++ [b]) (q_received k)) 0;
  kcp_sendv := None;
  kcp_input k b := KRet (mk_queue (q_unsent k) (q_received k ++ [b])) 0;
  kcp_recv k _ :=
    match q_received k with
    | [] => (-1, [], k)
    | b :: l => (Z.of_nat (length b), b, mk_queue (q_unsent k) l)
    end;
  kcp_peeksize k := match q_received k with [] => -1 | b :: _ => Z.of_nat (length b) end;
  kcp_waitsnd k := Z.of_nat (length (q_unsent k));
  kcp_update k _ := flush_queue (q_unsent k) (mk_queue [] (q_received k));
  kcp_check _ now := Z.min INT64_MAX (now + 10);
  kcp_current_update k _ := k
|}.

#[export] Instance steady_host : Host := {|
  host_monotonic_time_ms tr := Z.min INT64_MAX (1000 + Z.of_nat (length tr));
  host_random_u64 _ := 6;
  host_rand _ := 0;
  host_alloc _ := true;
  host_write_socketv _ _ _ := 1;
  host_conn_connect_notify _ _ _ :=
    mk_connect_response KCPMUX_ACK_RESULT_OK proto_ext_zero
      [SetConnCallbacks (Some (mk_conn_callbacks (Some 5%positive) (Some 6%positive) (Some 7%positive))) 42];
  host_stream_create_notify _ _ _ :=
    mk_create_response 0 [SetStreamCallbacks (Some (mk_stream_callbacks None (Some 8%positive) None (Some 9%positive))) 43]
|}.

Definition all_callbacks : engine_callbacks :=
  mk_engine_callbacks (Some 1%positive) (Some 2%positive) None (Some 3%positive)
    (Some 4%positive) (Some 10%positive).

(** ** Runs *)

Definition run {A} (m : W A) (w : option (world K)) : option (world K) :=
  w ← w; p ← m w; Some p.2.

(** The packets written since the engine was created, oldest first. *)
Definition written (w : world K) : list (list Z) :=
  reverse (omap (fun ev => match ev with
                           | EvWrite iov _ _ => Some (flatten iov)
                           | _ => None
                           end) (w_trace w)).

Definition client_addr : list Z := [10; 0; 0; 1].
Definition server_addr : list Z := [10; 0; 0; 2].

Definition booted : option (world K) :=
  p ← kcpmux_engine_create None None None (Some all_callbacks) 0 [];
  e ← p.1;
  Some (boot e p.2).

(** A client that has called [kcpmux_conn_connect], and the CONNECT it sent. *)
Definition client_connecting : option (world K) :=
  run (kcpmux_conn_connect (Some server_addr) None None
         (Some (mk_conn_callbacks (Some 5%positive) (Some 6%positive) (Some 7%positive))) 41) booted.

Definition last_packet (w : option (world K)) : list Z :=
  default [] (w ← w; head (reverse (written w))).

(** The server that received it, and the client that received the answer. *)
Definition server_connected : option (world K) :=
  run (kcpmux_engine_input (Some (last_packet client_connecting)) (Some client_addr)) booted.
Definition client_connected : option (world K) :=
  run (kcpmux_engine_input (Some (last_packet server_connected)) (Some server_addr)) client_connecting.

(** The client opens a stream, sends five bytes and flushes; the server
    receives the payload. *)
Definition client_stream : option (world K) :=
  run (kcpmux_stream_create (Some 1%positive) None None 44) client_connected.
Definition client_sent : option (world K) :=
  run (kcpmux_stream_send (Some 2%positive) (Some [1; 2; 3; 4; 5]) true) client_stream.
Definition server_received : option (world K) :=
  run (kcpmux_engine_input (Some (last_packet client_sent)) (Some client_addr)) server_connected.
Definition server_read : option (Z * list Z) :=
  w ← server_received; p ← kcpmux_stream_recv (Some 2%positive) 100 w; Some p.1.

(** ** The runs as worlds *)

(** The value of a computation that has one. *)
Definition outcome {A : Type} (o : option A) : match o return Type with Some _ => A | None => unit end :=
  match o with Some x => x | None => tt end.

Definition booted_world := Eval vm_compute in outcome booted.
Definition connecting_world := Eval vm_compute in outcome client_connecting.
Definition connected_world := Eval vm_compute in outcome client_connected.
Definition stream_world := Eval vm_compute in outcome client_stream.
Definition server_world := Eval vm_compute in outcome server_connected.
Definition client_conn := Eval vm_compute in outcome (w_conns connected_world !! 1%positive).
Definition sample_open_stream := Eval vm_compute in outcome (w_streams stream_world !! 2%positive).
Definition stream_world_conn := Eval vm_compute in outcome (w_conns stream_world !! 1%positive).
