(* ===== verification/Adapter.v ===== *)
(** * The table of KCP operations and its default (src/src/kcpmux_kcp.c)

    The engine is created with a table of function pointers, or with the
    default table, whose functions forward to the vendored ikcp library.  The
    class [Kcp] of [World] is what a complete table provides; here a table is
    turned into an instance of it, ikcp being a parameter with the behaviour
    its header documents as laws. *)

From S2P Require Import Prelude Types Timer Hashtable Vectored World Engine Conn Messages Stream Mux.

(** ** Tables *)

(** [void *] instances are values of [P]; [None] is a NULL function pointer.
    The output callback that [setoutput] installs is always [__kcp_output], so
    it is not an argument. *)
Record kcp_ops (P : Type) := mk_kcp_ops {
  op_create : option (trace -> Z -> option P);
  op_release : option (P -> unit);
  op_setmss : option (P -> Z -> P);
  op_setoutput : option (P -> P);
  op_send : option (P -> list Z -> kact P Z);
  op_input : option (P -> list Z -> kact P Z);
  op_recv : option (P -> Z -> Z * list Z * P);
  op_peeksize : option (P -> Z);
  op_waitsnd : option (P -> Z);
  op_update : option (P -> Z -> kact P unit);
  op_check : option (P -> Z -> Z);
  op_current : option (P -> Z);
  op_current_update : option (P -> Z -> P);
  op_sendv : option (P -> list iovec -> Z -> Z -> kact P Z)
}.
Arguments mk_kcp_ops {P}.
Arguments op_create {P} _.
Arguments op_release {P} _.
Arguments op_setmss {P} _.
Arguments op_setoutput {P} _.
Arguments op_send {P} _.
Arguments op_input {P} _.
Arguments op_recv {P} _.
Arguments op_peeksize {P} _.
Arguments op_waitsnd {P} _.
Arguments op_update {P} _.
Arguments op_check {P} _.
Arguments op_current {P} _.
Arguments op_current_update {P} _.
Arguments op_sendv {P} _.

Definition present {A} (f : option A) : bool := bool_decide (is_Some f).

Definition kcpmux_kcp_ops_valid {P} (ops : option (kcp_ops P)) : bool :=
  match ops with
  | None => false
  | Some ops =>
      present (op_create ops) && present (op_release ops) && present (op_setmss ops) &&
      present (op_setoutput ops) && present (op_send ops) && present (op_input ops) &&
      present (op_recv ops) && present (op_peeksize ops) && present (op_waitsnd ops) &&
      present (op_update ops) && present (op_check ops) && present (op_current ops) &&
      present (op_current_update ops)
  end.

(** What the streams of an engine call: the table with its pointers
    dereferenced.  [kcpmux_stream_new] calls [setoutput] right after
    [setmss]. *)
Definition kcp_of_ops {P} (ops : kcp_ops P) : option Kcp :=
  create ← op_create ops;
  release ← op_release ops;
  setmss ← op_setmss ops;
  setoutput ← op_setoutput ops;
  send ← op_send ops;
  input ← op_input ops;
  recv ← op_recv ops;
  peeksize ← op_peeksize ops;
  waitsnd ← op_waitsnd ops;
  update ← op_update ops;
  check ← op_check ops;
  current ← op_current ops;
  current_update ← op_current_update ops;
  Some {|
    K := P;
    kcp_create := create;
    kcp_setmss := fun k mss => setoutput (setmss k mss);
    kcp_send := send;
    kcp_sendv := op_sendv ops;
    kcp_input := input;
    kcp_recv := recv;
    kcp_peeksize := peeksize;
    kcp_waitsnd := waitsnd;
    kcp_update := update;
    kcp_check := check;
    kcp_current_update := current_update
  |}.

(** ** The default table *)

(** The interface of src/third_party/kcp/ikcp.h. *)
Class Ikcp := {
  ikcpcb : Type;
  ikcp_create : trace -> Z -> option ikcpcb;
  ikcp_release : ikcpcb -> unit;
  ikcp_nodelay : ikcpcb -> Z -> Z -> Z -> Z -> ikcpcb;
  ikcp_setmtu : ikcpcb -> Z -> Z * ikcpcb;
  ikcp_setoutput : ikcpcb -> ikcpcb;
  ikcp_send : ikcpcb -> list Z -> kact ikcpcb Z;
  ikcp_sendv : ikcpcb -> list iovec -> Z -> Z -> kact ikcpcb Z;
  ikcp_input : ikcpcb -> list Z -> kact ikcpcb Z;
  ikcp_recv : ikcpcb -> Z -> Z * list Z * ikcpcb;
  ikcp_peeksize : ikcpcb -> Z;
  ikcp_waitsnd : ikcpcb -> Z;
  ikcp_update : ikcpcb -> Z -> kact ikcpcb unit;
  ikcp_check : ikcpcb -> Z -> Z;
  ikcp_current : ikcpcb -> Z;
  ikcp_current_update : ikcpcb -> Z -> ikcpcb
}.

Definition KCPMUX_KCP_NODELAY : Z := 0.
Definition KCPMUX_KCP_NODELAY_INTERVAL : Z := 10.
Definition KCPMUX_KCP_NODELAY_FASTACK : Z := 3.
Definition KCPMUX_KCP_NODELAY_FLOWCTRL : Z := 1.

(** C's [!]. *)
Definition lnot (x : Z) : Z := if x =? 0 then 1 else 0.

Section default_ops.
Context {IK : Ikcp}.

Definition kcpmux_default_ikcp_create (tr : trace) (kcp_conv : Z) : option ikcpcb :=
  match ikcp_create tr kcp_conv with
  | None => None
  | Some kcp =>
      Some (ikcp_nodelay kcp KCPMUX_KCP_NODELAY KCPMUX_KCP_NODELAY_INTERVAL
              KCPMUX_KCP_NODELAY_FASTACK (lnot KCPMUX_KCP_NODELAY_FLOWCTRL))
  end.

(** The result of [ikcp_setmtu] is ignored. *)
Definition kcpmux_default_ikcp_setmss (kcp : ikcpcb) (mss : Z) : ikcpcb :=
  snd (ikcp_setmtu kcp (mss + KCPMUX_IKCP_OVERHEAD)).

Definition kcpmux_default_ikcp_release (kcp : ikcpcb) : unit := ikcp_release kcp.
Definition kcpmux_default_ikcp_setoutput (kcp : ikcpcb) : ikcpcb := ikcp_setoutput kcp.
Definition kcpmux_default_ikcp_send (kcp : ikcpcb) (buf : list Z) : kact ikcpcb Z := ikcp_send kcp buf.
Definition kcpmux_default_ikcp_input (kcp : ikcpcb) (data : list Z) : kact ikcpcb Z := ikcp_input kcp data.
Definition kcpmux_default_ikcp_recv (kcp : ikcpcb) (len : Z) : Z * list Z * ikcpcb := ikcp_recv kcp len.
Definition kcpmux_default_ikcp_peeksize (kcp : ikcpcb) : Z := ikcp_peeksize kcp.
Definition kcpmux_default_ikcp_waitsnd (kcp : ikcpcb) : Z := ikcp_waitsnd kcp.
Definition kcpmux_default_ikcp_update (kcp : ikcpcb) (current : Z) : kact ikcpcb unit := ikcp_update kcp current.
Definition kcpmux_default_ikcp_check (kcp : ikcpcb) (current : Z) : Z := ikcp_check kcp current.
Definition kcpmux_default_ikcp_current (kcp : ikcpcb) : Z := ikcp_current kcp.
Definition kcpmux_default_ikcp_current_update (kcp : ikcpcb) (current : Z) : ikcpcb :=
  ikcp_current_update kcp current.
Definition kcpmux_default_ikcp_sendv (kcp : ikcpcb) (iov : list iovec) (first_offset len : Z) : kact ikcpcb Z :=
  ikcp_sendv kcp iov first_offset len.

Definition kcpmux_default_kcp_ops : kcp_ops ikcpcb := {|
  op_create := Some kcpmux_default_ikcp_create;
  op_release := Some kcpmux_default_ikcp_release;
  op_setmss := Some kcpmux_default_ikcp_setmss;
  op_setoutput := Some kcpmux_default_ikcp_setoutput;
  op_send := Some kcpmux_default_ikcp_send;
  op_input := Some kcpmux_default_ikcp_input;
  op_recv := Some kcpmux_default_ikcp_recv;
  op_peeksize := Some kcpmux_default_ikcp_peeksize;
  op_waitsnd := Some kcpmux_default_ikcp_waitsnd;
  op_update := Some kcpmux_default_ikcp_update;
  op_check := Some kcpmux_default_ikcp_check;
  op_current := Some kcpmux_default_ikcp_current;
  op_current_update := Some kcpmux_default_ikcp_current_update;
  op_sendv := Some kcpmux_default_ikcp_sendv
|}.

(** The table an engine is created with. *)
Definition selected_kcp_ops (ops : option {P & kcp_ops P}) : {P & kcp_ops P} :=
  match ops with
  | Some ops => ops
  | None => existT ikcpcb kcpmux_default_kcp_ops
  end.

(** [kcpmux_engine_create] with its last argument: the engine runs on the
    operations of the table it selects. *)
Definition engine_create_with (config : option engine_config) (default_conn_config : option conn_config)
    (default_stream_config : option stream_config) (callbacks : option engine_callbacks)
    (user_data : Z) (ops : option {P & kcp_ops P}) {HO : Host} (tr : trace) :
    option (option ({KO : Kcp & engine}) * trace) :=
  let selected := selected_kcp_ops ops in
  if negb (kcpmux_kcp_ops_valid (Some (projT2 selected))) then Some (None, tr)
  else
    match kcp_of_ops (projT2 selected) with
    | None => Some (None, tr)
    | Some KO =>
        match kcpmux_engine_create config default_conn_config default_stream_config callbacks user_data tr with
        | None => None
        | Some (None, tr') => Some (None, tr')
        | Some (Some e, tr') => Some (Some (existT KO e), tr')
        end
    end.
End default_ops.

(** A table is accepted exactly when it makes a KCP; only the vectored send is
    optional. *)
Lemma valid_kcp_of_ops {P} (ops : kcp_ops P) :
  kcpmux_kcp_ops_valid (Some ops) = true <-> is_Some (kcp_of_ops ops).
Proof.
  unfold kcpmux_kcp_ops_valid, kcp_of_ops, present. destruct ops; cbn. split.
  - rewrite !andb_true_iff, !bool_decide_eq_true. intros H.
    repeat match goal with H : _ /\ _ |- _ => destruct H as [H ?] end.
    repeat match goal with H : is_Some _ |- _ => destruct H as [? ->] end. by eexists.
  - intros [KO H].
    repeat match type of H with (?o ≫= _) = _ => destruct o as [?|]; [cbn in H|discriminate] end.
    by rewrite !bool_decide_eq_true_2.
Qed.

(** ** The size of KCP's packets *)

(** Every buffer an operation hands to the output callback satisfies [ok], and
    it leaves a state satisfying [fits]. *)
Fixpoint outputs {P R} (ok : list Z -> Prop) (fits : P -> Prop) (a : kact P R) : Prop :=
  match a with
  | KRet k _ => fits k
  | KOut buf cont => ok buf /\ forall r, outputs ok fits (cont r)
  end.

(** The state in which an operation may end. *)
Inductive leads_to {P R} : kact P R -> P -> Prop :=
| leads_ret k r : leads_to (KRet k r) k
| leads_out buf cont r k : leads_to (cont r) k -> leads_to (KOut buf cont) k.

Lemma outputs_mono {P R} (ok ok' : list Z -> Prop) (fits : P -> Prop) (a : kact P R) :
  (forall b, ok b -> ok' b) -> outputs ok fits a -> outputs ok' fits a.
Proof. intros Hok. induction a as [|buf cont IH]; cbn; [done|]. intros [? ?]. eauto. Qed.

(** What the multiplexer expects of a KCP: on a stream whose configuration was
    accepted, all its packets fit in a protocol message.  [kcp_fits mss k]: [k]
    may be the KCP of a stream configured with [mss]. *)
Definition payload_ok (buf : list Z) : Prop :=
  0 < Z.of_nat (length buf) <= KCPMUX_PROTO_MSG_MAX_LEN - KCPMUX_PROTO_STREAM_HEADER_LEN.

Definition accepted_mss (mss : Z) : Prop :=
  0 <= mss /\ exists src cfg, kcpmux_stream_config_prepare src = Some cfg /\ sc_kcp_mss cfg = mss.

Class KcpFits (KO : Kcp) := {
  kcp_fits : Z -> K -> Prop;
  fits_new tr id k mss : kcp_create tr id = Some k -> kcp_fits mss (kcp_setmss k mss);
  fits_send mss k b : accepted_mss mss -> kcp_fits mss k -> outputs payload_ok (kcp_fits mss) (kcp_send k b);
  fits_sendv mss f k iov off n : kcp_sendv = Some f -> accepted_mss mss -> kcp_fits mss k ->
    outputs payload_ok (kcp_fits mss) (f k iov off n);
  fits_input mss k b : accepted_mss mss -> kcp_fits mss k -> outputs payload_ok (kcp_fits mss) (kcp_input k b);
  fits_update mss k now : accepted_mss mss -> kcp_fits mss k ->
    outputs payload_ok (kcp_fits mss) (kcp_update k now);
  fits_recv mss k n : kcp_fits mss k -> kcp_fits mss (kcp_recv k n).2;
  fits_current_update mss k now : kcp_fits mss k -> kcp_fits mss (kcp_current_update k now)
}.

(** Laws of ikcp.  [ikcp_sized mtu k]: the MTU of [k] is [mtu], and no segment
    it holds exceeds it; [ikcp_idle k]: it holds no segment.  A new instance
    has the MTU 1400 ([IKCP_MTU_DEF]); [ikcp_setmtu] refuses an MTU under 50
    and fails without memory; packets are not empty and at most an MTU
    long. *)
Class IkcpLaws {IK : Ikcp} := {
  ikcp_sized : Z -> ikcpcb -> Prop;
  ikcp_idle : ikcpcb -> Prop;
  il_create tr id k : ikcp_create tr id = Some k -> ikcp_sized 1400 k /\ ikcp_idle k;
  il_nodelay k m a b c d : ikcp_sized m k -> ikcp_idle k ->
    ikcp_sized m (ikcp_nodelay k a b c d) /\ ikcp_idle (ikcp_nodelay k a b c d);
  il_setmtu k m m' : ikcp_sized m k -> ikcp_idle k ->
    let (r, k') := ikcp_setmtu k m' in
    ikcp_idle k' /\ (r = 0 /\ 50 <= m' /\ ikcp_sized m' k' \/ r < 0 /\ ikcp_sized m k');
  il_setoutput k m : ikcp_sized m k -> ikcp_sized m (ikcp_setoutput k);
  il_send k m b : ikcp_sized m k ->
    outputs (fun b => 0 < Z.of_nat (length b) <= m) (ikcp_sized m) (ikcp_send k b);
  il_sendv k m iov off n : ikcp_sized m k ->
    outputs (fun b => 0 < Z.of_nat (length b) <= m) (ikcp_sized m) (ikcp_sendv k iov off n);
  il_input k m b : ikcp_sized m k ->
    outputs (fun b => 0 < Z.of_nat (length b) <= m) (ikcp_sized m) (ikcp_input k b);
  il_update k m now : ikcp_sized m k ->
    outputs (fun b => 0 < Z.of_nat (length b) <= m) (ikcp_sized m) (ikcp_update k now);
  il_recv k m n : ikcp_sized m k -> ikcp_sized m (ikcp_recv k n).2;
  il_current_update k m now : ikcp_sized m k -> ikcp_sized m (ikcp_current_update k now)
}.
#[global] Arguments IkcpLaws : clear implicits.

Lemma accepted_mss_range mss : accepted_mss mss -> 1 <= mss <= 1463.
Proof.
  intros (Hpos & src & cfg & H & <-). unfold kcpmux_stream_config_prepare in H. case_match eqn:E; [done|].
  injection H as <-. rewrite !orb_false_iff, !Z.eqb_neq, !Z.ltb_ge in E.
  unfold KCPMUX_PROTO_MSG_MAX_LEN, KCPMUX_PROTO_STREAM_HEADER_LEN, KCPMUX_PROTO_COMMON_LEN, KCPMUX_IKCP_OVERHEAD in *.
  lia.
Qed.

Section default_fits.
Context {IK : Ikcp} {IL : IkcpLaws IK}.

Lemma default_sized tr id k :
  kcpmux_default_ikcp_create tr id = Some k -> ikcp_sized 1400 k /\ ikcp_idle k.
Proof.
  unfold kcpmux_default_ikcp_create. destruct (ikcp_create tr id) as [k0|] eqn:E; [|done].
  intros [= <-]. destruct (il_create _ _ _ E). by apply il_nodelay.
Qed.

(** The MTU after [setmss]: the one asked for, or the MTU of a new instance. *)
Definition mtu_of (mss m : Z) : Prop := m = 1400 \/ 26 <= mss /\ m = mss + KCPMUX_IKCP_OVERHEAD.

Definition sized_for (mss : Z) (k : ikcpcb) : Prop := exists m, mtu_of mss m /\ ikcp_sized m k.

Lemma setmss_sized k mss :
  ikcp_sized 1400 k -> ikcp_idle k -> sized_for mss (kcpmux_default_ikcp_setmss k mss).
Proof.
  intros Hs Hi. pose proof (il_setmtu k 1400 (mss + KCPMUX_IKCP_OVERHEAD) Hs Hi) as H.
  unfold kcpmux_default_ikcp_setmss. destruct (ikcp_setmtu k (mss + KCPMUX_IKCP_OVERHEAD)) as [r k']. cbn.
  unfold sized_for, mtu_of, KCPMUX_IKCP_OVERHEAD in *.
  destruct H as (_ & [(_ & ? & ?)|[_ ?]]); [exists (mss + 24)|exists 1400]; (split; [lia|done]).
Qed.

Lemma outputs_sized {R} mss m (a : kact ikcpcb R) :
  accepted_mss mss -> mtu_of mss m ->
  outputs (fun b => 0 < Z.of_nat (length b) <= m) (ikcp_sized m) a ->
  outputs payload_ok (sized_for mss) a.
Proof.
  intros Hacc%accepted_mss_range Hm. induction a as [k r|buf cont IH]; cbn; [by exists m|].
  intros [? ?]. split; [|eauto]. unfold payload_ok, mtu_of, KCPMUX_PROTO_MSG_MAX_LEN,
    KCPMUX_PROTO_STREAM_HEADER_LEN, KCPMUX_PROTO_COMMON_LEN, KCPMUX_IKCP_OVERHEAD in *. lia.
Qed.
End default_fits.

Section default_kcp.
Context {IK : Ikcp}.

Lemma default_ops_complete : is_Some (kcp_of_ops kcpmux_default_kcp_ops).
Proof. by eexists. Qed.

Definition default_kcp : Kcp := is_Some_proj default_ops_complete.

Context {IL : IkcpLaws IK}.

#[export] Instance default_kcp_fits : KcpFits default_kcp.
Proof.
  unshelve econstructor; [exact sized_for|..].
  - intros tr id k mss (Hs & Hi)%default_sized. destruct (setmss_sized k mss Hs Hi) as (m & ? & ?).
    exists m. split; [done|]. by apply il_setoutput.
  - intros mss k b Hacc (m & Hm & Hk). by apply (outputs_sized mss m), il_send.
  - intros mss f k iov off n [= <-] Hacc (m & Hm & Hk). by apply (outputs_sized mss m), il_sendv.
  - intros mss k b Hacc (m & Hm & Hk). by apply (outputs_sized mss m), il_input.
  - intros mss k now Hacc (m & Hm & Hk). by apply (outputs_sized mss m), il_update.
  - intros mss k n (m & Hm & Hk). exists m. split; [done|]. by apply il_recv.
  - intros mss k now (m & Hm & Hk). exists m. split; [done|]. by apply il_current_update.
Defined.

(** What [sized_for] says of an accepted segment size below 26: the KCP keeps
    its MTU of 1400, [ikcp_setmtu] having refused. *)
Lemma small_mss_ignored mss k : mss < 26 -> sized_for mss k -> ikcp_sized 1400 k.
Proof. intros Hm (m & [->|[? _]] & Hk); [done|lia]. Qed.
End default_kcp.

(** Whatever happens to a stream's KCP between its creation and its release. *)
Inductive kcp_life {KO : Kcp} (mss : Z) : K -> Prop :=
| life_new tr id k : kcp_create tr id = Some k -> kcp_life mss (kcp_setmss k mss)
| life_recv k n : kcp_life mss k -> kcp_life mss (kcp_recv k n).2
| life_current k now : kcp_life mss k -> kcp_life mss (kcp_current_update k now)
| life_send k b k' : kcp_life mss k -> leads_to (kcp_send k b) k' -> kcp_life mss k'
| life_sendv k f iov off n k' :
    kcp_sendv = Some f -> kcp_life mss k -> leads_to (f k iov off n) k' -> kcp_life mss k'
| life_input k b k' : kcp_life mss k -> leads_to (kcp_input k b) k' -> kcp_life mss k'
| life_update k now k' : kcp_life mss k -> leads_to (kcp_update k now) k' -> kcp_life mss k'.

Lemma outputs_leads_to {P R} ok (fits : P -> Prop) (a : kact P R) k :
  outputs ok fits a -> leads_to a k -> fits k.
Proof. intros Ho Hl. induction Hl as [|buf cont r k Hl IH]; [done|]. destruct Ho. auto. Qed.

Lemma kcp_life_fits {KO : Kcp} {KF : KcpFits KO} mss k :
  accepted_mss mss -> kcp_life mss k -> kcp_fits mss k.
Proof.
  intros Hacc. induction 1; eauto using fits_new, fits_recv, fits_current_update;
    (eapply outputs_leads_to; [|done]); eauto using fits_send, fits_sendv, fits_input, fits_update.
Qed.


(** ** A concrete ikcp *)

(** A KCP that refuses messages longer than a segment and puts each message in
    a packet of its own. *)
Record mini_kcp := mk_mini { mini_mtu : Z; mini_queue : list (list Z) }.
#[export] Instance eta_mini : Eta mini_kcp := fun r => mk_mini (mini_mtu r) (mini_queue r).

Fixpoint mini_flush (l : list (list Z)) (k : mini_kcp) : kact mini_kcp unit :=
  match l with
  | [] => KRet k tt
  | b :: l' => KOut b (fun _ => mini_flush l' k)
  end.

Definition mini_send (k : mini_kcp) (b : list Z) : kact mini_kcp Z :=
  if mini_mtu k <? 24 + Z.of_nat (length b) then KRet k (-2)
  else KRet (k <| mini_queue ::= fun l => l ++ [replicate 24 0 ++ b] |>) 0.

Definition mini_ikcp : Ikcp := {|
  ikcpcb := mini_kcp;
  ikcp_create _ _ := Some (mk_mini 1400 []);
  ikcp_release _ := tt;
  ikcp_nodelay k _ _ _ _ := k;
  ikcp_setmtu k m := if m <? 50 then (-1, k) else (0, k <| mini_mtu := m |>);
  ikcp_setoutput k := k;
  ikcp_send := mini_send;
  ikcp_sendv k iov off n := mini_send k (take (Z.to_nat n) (drop (Z.to_nat off) (flatten iov)));
  ikcp_input k _ := KRet k 0;
  ikcp_recv k _ := (-1, [], k);
  ikcp_peeksize _ := -1;
  ikcp_waitsnd k := Z.of_nat (length (mini_queue k));
  ikcp_update k _ := mini_flush (mini_queue k) (k <| mini_queue := [] |>);
  ikcp_check _ now := now + 10;
  ikcp_current _ := 0;
  ikcp_current_update k _ := k
|}.

Definition mini_sized (m : Z) (k : mini_kcp) : Prop :=
  mini_mtu k = m /\ Forall (fun b : list Z => 0 < Z.of_nat (length b) <= m) (mini_queue k).

Lemma mini_send_sized k m b :
  mini_sized m k -> outputs (fun b => 0 < Z.of_nat (length b) <= m) (mini_sized m) (mini_send k b).
Proof.
  intros [Hm Hq]. unfold mini_send. destruct (Z.ltb_spec (mini_mtu k) (24 + Z.of_nat (length b))); [done|].
  split; [done|]. apply list.Forall_app_2; [done|]. constructor; [|done].
  rewrite length_app, length_replicate. lia.
Qed.

Lemma mini_flush_sized l k m :
  mini_sized m k -> Forall (fun b : list Z => 0 < Z.of_nat (length b) <= m) l ->
  outputs (fun b => 0 < Z.of_nat (length b) <= m) (mini_sized m) (mini_flush l k).
Proof. intros Hk. induction 1; cbn; auto. Qed.

Definition mini_laws : IkcpLaws mini_ikcp.
Proof.
  refine {| ikcp_sized := (mini_sized : Z -> @ikcpcb mini_ikcp -> Prop);
            ikcp_idle := ((fun k => mini_queue k = []) : @ikcpcb mini_ikcp -> Prop) |}; try done.
  - intros tr id k [= <-]. done.
  - intros k m m' [Hm Hq] Hi. cbn. destruct (Z.ltb_spec m' 50).
    + split; [done|]. right. split; [lia|done].
    + split; [done|]. left. split_and!; [done|done|]. split; [done|]. cbn. by rewrite Hi.
  - apply mini_send_sized.
  - intros k m iov off n. apply mini_send_sized.
  - intros k m now [Hm Hq]. apply mini_flush_sized; [|done]. split; [done|]. constructor.
Defined.

(** A stream configured for 20-byte segments: its KCP has an MTU of 1400 and
    takes a message of 1000 bytes. *)
Definition small_mss : stream_config := kcpmux_stream_config_init <| sc_kcp_mss := 20 |>.

Definition small_kcp : mini_kcp := mk_mini 1400 [replicate 24 0 ++ replicate 1000 7].

