(* ===== verification/Life.v ===== *)
(** * Life cycles of connections and streams: the abstract machine

    What the library promises about the life of the handles it gives out,
    without its data structures: which state changes a connection or stream
    can make, when it is closed, when its memory is released.  [LifeSim] shows
    that every entry point of the library performs a sequence of these steps.

    The second half proves, by induction over the steps, the properties a user
    of the handles relies on. *)

From S2P Require Import Prelude Types World.
From stdpp Require Import relations.
#[local] Open Scope Z_scope.

(** ** Abstract state *)

Record conn_life := mk_conn_life {
  cl_state : conn_state;
  cl_initiator : bool;
  cl_closed : bool;
  cl_local_id : Z
}.
#[export] Instance eta_conn_life : Eta conn_life := fun r =>
  mk_conn_life (cl_state r) (cl_initiator r) (cl_closed r) (cl_local_id r).

Record stream_life := mk_stream_life {
  sl_id : Z;
  sl_conn : positive;
  sl_initiator : bool;
  sl_state : stream_state;
  sl_phase : close_phase;
  sl_closed : bool
}.
#[export] Instance eta_stream_life : Eta stream_life := fun r =>
  mk_stream_life (sl_id r) (sl_conn r) (sl_initiator r) (sl_state r) (sl_phase r) (sl_closed r).

(** [lf_next] is the address the allocator uses next, [lf_next_id] the next
    connection identifier (0 when exhausted), [lf_pending] the objects closed
    but not yet released. *)
Record life := mk_life {
  lf_conns : gmap positive conn_life;
  lf_streams : gmap positive stream_life;
  lf_next : positive;
  lf_next_id : Z;
  lf_pending : list obj
}.
#[export] Instance eta_life : Eta life := fun r =>
  mk_life (lf_conns r) (lf_streams r) (lf_next r) (lf_next_id r) (lf_pending r).

Definition clife (k : conn) : conn_life :=
  mk_conn_life (c_state k) (c_is_initiator k) (c_internal_closed k) (c_local_connection_id k).

Definition slife {K} (st : stream K) : stream_life :=
  mk_stream_life (s_stream_id st) (s_conn st) (s_is_initiator st) (s_state st)
    (s_close_phase st) (s_internal_closed st).

(** The abstraction of a world. *)
Definition life_of {K} (w : world K) : life :=
  mk_life (clife <$> w_conns w) (slife <$> w_streams w) (w_next_addr w)
    (e_next_connection_id (w_engine w)) (e_pending_release_list (w_engine w)).

(** ** Steps *)

Inductive conn_edge : conn_state -> conn_state -> Prop :=
| edge_connect : conn_edge CONN_INIT CONN_CONNECTING
| edge_accept : conn_edge CONN_INIT CONN_CONNECTED
| edge_ack : conn_edge CONN_CONNECTING CONN_CONNECTED
| edge_fail_connecting : conn_edge CONN_CONNECTING CONN_ERROR
| edge_fail_connected : conn_edge CONN_CONNECTED CONN_ERROR
| edge_close_init : conn_edge CONN_INIT CONN_CLOSING
| edge_close_connecting : conn_edge CONN_CONNECTING CONN_CLOSING
| edge_close_connected : conn_edge CONN_CONNECTED CONN_CLOSING.

Inductive phase_edge : close_phase -> close_phase -> Prop :=
| edge_drained : phase_edge CLOSE_LOCAL_DRAIN CLOSE_WAIT_ACK
| edge_peer_closed : phase_edge CLOSE_LOCAL_DRAIN CLOSE_FINALIZE
| edge_peer_closed_wait : phase_edge CLOSE_WAIT_ACK CLOSE_FINALIZE
| edge_tail_read : phase_edge CLOSE_REMOTE_DRAIN CLOSE_FINALIZE.

Definition conn_terminal (s : conn_state) : conn_state :=
  if bool_decide (s = CONN_ERROR) then CONN_ERROR else CONN_CLOSED.
Definition stream_terminal (s : stream_state) : stream_state :=
  if bool_decide (s = STREAM_ERROR) then STREAM_ERROR else STREAM_CLOSED.

Definition forget (o : obj) (L : life) : life :=
  match o with
  | OConn c => L <| lf_conns ::= delete c |>
  | OStream s => L <| lf_streams ::= delete s |>
  end.

Inductive life_step : life -> life -> Prop :=
(** An allocation that did not become an object, an identifier not used. *)
| step_skip_addr L :
    life_step L (L <| lf_next ::= Pos.succ |>)
| step_skip_id L :
    lf_next_id L <> 0 -> life_step L (L <| lf_next_id ::= inc64 |>)
| step_conn_new L init :
    lf_next_id L <> 0 ->
    life_step L (L <| lf_conns ::= <[lf_next L := mk_conn_life CONN_INIT init false (lf_next_id L)]> |>
                   <| lf_next ::= Pos.succ |> <| lf_next_id ::= inc64 |>)
| step_conn_state L c k s :
    lf_conns L !! c = Some k -> cl_closed k = false -> conn_edge (cl_state k) s ->
    life_step L (L <| lf_conns ::= <[c := k <| cl_state := s |>]> |>)
| step_conn_close L c k :
    lf_conns L !! c = Some k -> cl_closed k = false ->
    life_step L (L <| lf_conns ::= <[c := k <| cl_state ::= conn_terminal |> <| cl_closed := true |>]> |>
                   <| lf_pending ::= fun l => l ++ [OConn c] |>)
| step_stream_new L id c k init :
    lf_conns L !! c = Some k -> cl_state k = CONN_CONNECTED -> id <> 0 ->
    life_step L (L <| lf_streams ::= <[lf_next L := mk_stream_life id c init STREAM_OPEN CLOSE_NONE false]> |>
                   <| lf_next ::= Pos.succ |>)
| step_stream_closing L s x p :
    lf_streams L !! s = Some x -> sl_state x = STREAM_OPEN ->
    p = CLOSE_LOCAL_DRAIN \/ p = CLOSE_REMOTE_DRAIN \/ p = CLOSE_WAIT_ACK ->
    life_step L (L <| lf_streams ::= <[s := x <| sl_state := STREAM_CLOSING |> <| sl_phase := p |>]> |>)
| step_stream_error L s x :
    lf_streams L !! s = Some x -> sl_state x = STREAM_OPEN ->
    life_step L (L <| lf_streams ::= <[s := x <| sl_state := STREAM_ERROR |>]> |>)
| step_stream_phase L s x p :
    lf_streams L !! s = Some x -> phase_edge (sl_phase x) p ->
    life_step L (L <| lf_streams ::= <[s := x <| sl_phase := p |>]> |>)
| step_stream_close L s x :
    lf_streams L !! s = Some x -> sl_closed x = false ->
    life_step L (L <| lf_streams ::= <[s := x <| sl_state ::= stream_terminal |> <| sl_closed := true |>]> |>
                   <| lf_pending ::= fun l => l ++ [OStream s] |>)
| step_release L o l :
    lf_pending L = o :: l ->
    life_step L (forget o (L <| lf_pending := l |>)).

(** ** Invariant of the machine *)

Definition closed_conn (s : conn_state) : Prop := s = CONN_CLOSED \/ s = CONN_ERROR.
Definition closed_stream (s : stream_state) : Prop := s = STREAM_CLOSED \/ s = STREAM_ERROR.

Record life_ok (L : life) : Prop := {
  (** Handles are fresh: every address in use is below the next one. *)
  lok_conn_addr c k : lf_conns L !! c = Some k -> (c < lf_next L)%positive;
  lok_stream_addr s x : lf_streams L !! s = Some x -> (s < lf_next L)%positive;
  (** Connection identifiers are nonzero and not reused. *)
  lok_next_id : in_u 64 (lf_next_id L);
  lok_id c k : lf_conns L !! c = Some k ->
    0 < cl_local_id k < 2 ^ 64 /\ (lf_next_id L = 0 \/ cl_local_id k < lf_next_id L);
  lok_id_inj c c' k k' : lf_conns L !! c = Some k -> lf_conns L !! c' = Some k' ->
    cl_local_id k = cl_local_id k' -> c = c';
  (** Closed objects are in a terminal state and wait for their release; an
      object in state CLOSED is closed. *)
  lok_conn_closed c k : lf_conns L !! c = Some k -> cl_closed k = true ->
    closed_conn (cl_state k) /\ OConn c ∈ lf_pending L;
  lok_conn_state c k : lf_conns L !! c = Some k -> cl_state k = CONN_CLOSED -> cl_closed k = true;
  lok_stream_closed s x : lf_streams L !! s = Some x -> sl_closed x = true ->
    closed_stream (sl_state x) /\ OStream s ∈ lf_pending L;
  lok_stream_state s x : lf_streams L !! s = Some x -> sl_state x = STREAM_CLOSED -> sl_closed x = true;
  (** The close phase is that of a stream being closed. *)
  lok_open s x : lf_streams L !! s = Some x -> sl_state x = STREAM_OPEN -> sl_phase x = CLOSE_NONE;
  lok_closing s x : lf_streams L !! s = Some x -> sl_state x = STREAM_CLOSING -> sl_phase x <> CLOSE_NONE;
  lok_stream_id s x : lf_streams L !! s = Some x -> sl_id x <> 0;
  (** Each object is released once, and only after it was closed. *)
  lok_pending_nodup : NoDup (lf_pending L);
  lok_pending_conn c : OConn c ∈ lf_pending L -> exists k, lf_conns L !! c = Some k /\ cl_closed k = true;
  lok_pending_stream s : OStream s ∈ lf_pending L -> exists x, lf_streams L !! s = Some x /\ sl_closed x = true
}.

Lemma closed_conn_terminal s : closed_conn (conn_terminal s).
Proof. unfold conn_terminal, closed_conn. case_bool_decide; auto. Qed.

Lemma closed_stream_terminal s : closed_stream (stream_terminal s).
Proof. unfold stream_terminal, closed_stream. case_bool_decide; auto. Qed.

(** Splits a lookup in an updated map into the updated entry and the others. *)
Ltac split_lookups :=
  repeat match goal with
  | H : <[_ := _]> _ !! _ = Some _ |- _ =>
      apply lookup_insert_Some in H as [(<- & <-)|(? & H)]
  | H : delete _ _ !! _ = Some _ |- _ => apply lookup_delete_Some in H as (? & H)
  end; cbn in *.

Lemma life_ok_skip L n i :
  life_ok L -> (lf_next L <= n)%positive -> in_u 64 i ->
  (i = 0 \/ (lf_next_id L <> 0 /\ lf_next_id L <= i)) ->
  life_ok (L <| lf_next := n |> <| lf_next_id := i |>).
Proof.
  intros [] Hn Hi Hle. constructor; cbn; try done.
  - intros c k Hc. apply lok_conn_addr0 in Hc. lia.
  - intros s x Hs. apply lok_stream_addr0 in Hs. lia.
  - intros c k Hc. destruct (lok_id0 c k Hc) as [? [?|?]]; lia.
Qed.

Lemma inc64_next i : in_u 64 i -> i <> 0 -> in_u 64 (inc64 i) /\ (inc64 i = 0 \/ inc64 i = i + 1).
Proof.
  intros Hi Hne. unfold inc64. split; [by apply wrap_range|].
  destruct (decide (i + 1 = 2 ^ 64)) as [->|]; [by left|right].
  apply wrap_small. unfold in_u in *. lia.
Qed.

(** One object changes, its identity does not. *)
Lemma life_ok_conn_upd L c k k' l :
  life_ok L -> lf_conns L !! c = Some k ->
  cl_local_id k' = cl_local_id k -> cl_closed k = false ->
  (cl_closed k' = false /\ cl_state k' <> CONN_CLOSED /\ l = lf_pending L \/
   cl_closed k' = true /\ closed_conn (cl_state k') /\ l = lf_pending L ++ [OConn c]) ->
  life_ok (L <| lf_conns ::= <[c := k']> |> <| lf_pending := l |>).
Proof.
  intros Hok Hc Hid Hcl Hcase. pose proof Hok as [].
  assert (Hnin : OConn c ∉ lf_pending L).
  { intros Hin. destruct (lok_pending_conn0 c Hin) as (k0 & ? & ?). congruence. }
  assert (Hsub : forall o, o ∈ lf_pending L -> o ∈ l).
  { intros o Ho. destruct Hcase as [(_ & _ & ->)|(_ & _ & ->)]; [done|]. apply elem_of_app. by left. }
  assert (Hinv : forall o, o ∈ l -> o <> OConn c -> o ∈ lf_pending L).
  { intros o Ho Hne. destruct Hcase as [(_ & _ & ->)|(_ & _ & ->)]; [done|].
    apply elem_of_app in Ho as [Ho|Ho%list_elem_of_singleton]; done. }
  constructor; cbn; intros; split_lookups; eauto.
  - rewrite Hid. eauto.
  - eapply lok_id_inj0; [done|exact Hc|congruence].
  - eapply lok_id_inj0; [exact Hc|done|congruence].
  - destruct Hcase as [(? & ? & ?)|(? & ? & ->)]; [congruence|].
    split; [done|]. apply elem_of_app. right. by apply list_elem_of_singleton.
  - split; [|apply Hsub]; by eapply lok_conn_closed0.
  - naive_solver.
  - split; [|apply Hsub]; by eapply lok_stream_closed0.
  - destruct Hcase as [(? & ? & ->)|(? & ? & ->)]; [done|].
    apply list.NoDup_app. split_and!; [done| |apply list.NoDup_singleton].
    by intros o Ho ->%list_elem_of_singleton.
  - destruct (decide (c0 = c)) as [->|Hne].
    + exists k'. rewrite lookup_insert_eq. split; [done|].
      by destruct Hcase as [(_ & _ & ->)|(? & _ & _)].
    + rewrite lookup_insert_ne by done. apply lok_pending_conn0, Hinv; congruence.
Qed.

Lemma life_ok_stream_upd L s x x' l :
  life_ok L -> lf_streams L !! s = Some x ->
  sl_id x' = sl_id x -> 
  (sl_state x' = STREAM_OPEN -> sl_phase x' = CLOSE_NONE) ->
  (sl_state x' = STREAM_CLOSING -> sl_phase x' <> CLOSE_NONE) ->
  (sl_closed x' = sl_closed x /\ l = lf_pending L /\
     (sl_closed x = true -> closed_stream (sl_state x')) /\
     (sl_state x' = STREAM_CLOSED -> sl_closed x = true) \/
   sl_closed x = false /\ sl_closed x' = true /\ closed_stream (sl_state x') /\
     l = lf_pending L ++ [OStream s]) ->
  life_ok (L <| lf_streams ::= <[s := x']> |> <| lf_pending := l |>).
Proof.
  intros Hok Hs Hid Hopen Hclosing Hcase. pose proof Hok as [].
  assert (Hsub : forall o, o ∈ lf_pending L -> o ∈ l).
  { intros o Ho. destruct Hcase as [(_ & -> & _)|(_ & _ & _ & ->)]; [done|].
    apply elem_of_app. by left. }
  assert (Hinv : forall o, o ∈ l -> o <> OStream s -> o ∈ lf_pending L).
  { intros o Ho Hne. destruct Hcase as [(_ & -> & _)|(_ & _ & _ & ->)]; [done|].
    apply elem_of_app in Ho as [Ho|Ho%list_elem_of_singleton]; done. }
  constructor; cbn; intros; split_lookups; eauto.
  - split; [|apply Hsub]; by eapply lok_conn_closed0.
  - destruct Hcase as [(Hc & -> & Ht & ?)|(? & ? & ? & ->)]; [|split; [done|apply elem_of_app; right; by apply list_elem_of_singleton]].
    rewrite Hc in *. split; [auto|]. by eapply lok_stream_closed0.
  - split; [|apply Hsub]; by eapply lok_stream_closed0.
  - destruct Hcase as [(Hc & -> & Ht & ?)|(? & ? & ? & ->)]; [|done]. rewrite Hc. auto.
  - rewrite Hid. eauto.
  - destruct Hcase as [(Hc & -> & Ht & ?)|(? & ? & ? & ->)]; [done|].
    apply list.NoDup_app. split_and!; [done| |apply list.NoDup_singleton].
    intros o Ho ->%list_elem_of_singleton.
    destruct (lok_pending_stream0 s Ho) as (? & ? & ?). congruence.
  - destruct (decide (s0 = s)) as [->|Hne].
    + exists x'. rewrite lookup_insert_eq. split; [done|].
      destruct Hcase as [(Hc & -> & Ht & ?)|(? & ? & ? & ->)]; [|done].
      destruct (lok_pending_stream0 s) as (? & ? & ?); [done|]. congruence.
    + rewrite lookup_insert_ne by done. apply lok_pending_stream0, Hinv; congruence.
Qed.

Lemma life_ok_release L o l :
  life_ok L -> lf_pending L = o :: l -> life_ok (forget o (L <| lf_pending := l |>)).
Proof.
  intros [] Hp. rewrite Hp in *. pose proof lok_pending_nodup0 as [Hno Hnd]%list.NoDup_cons.
  destruct o as [c|s]; constructor; cbn; intros; split_lookups; eauto.
  all: repeat match goal with
    | H : OConn ?c ∈ _ |- exists _, _ =>
        destruct (lok_pending_conn0 c) as (? & ? & ?); [set_solver|]; eexists;
        rewrite ?lookup_delete_ne by set_solver; eauto
    | H : OStream ?s ∈ _ |- exists _, _ =>
        destruct (lok_pending_stream0 s) as (? & ? & ?); [set_solver|]; eexists;
        rewrite ?lookup_delete_ne by set_solver; eauto
    | H : lf_conns _ !! ?c = Some ?k, H' : cl_closed ?k = true |- _ =>
        destruct (lok_conn_closed0 c k H H'); split; [done|set_solver]
    | H : lf_streams _ !! ?s = Some ?k, H' : sl_closed ?k = true |- _ =>
        destruct (lok_stream_closed0 s k H H'); split; [done|set_solver]
    end.
Qed.

Lemma life_ok_conn_new L init :
  life_ok L -> lf_next_id L <> 0 ->
  life_ok (L <| lf_conns ::= <[lf_next L := mk_conn_life CONN_INIT init false (lf_next_id L)]> |>
             <| lf_next ::= Pos.succ |> <| lf_next_id ::= inc64 |>).
Proof.
  intros [] Hne. pose proof (inc64_next _ lok_next_id0 Hne) as [Hr Hi].
  constructor; cbn; intros; split_lookups; eauto; try lia; try done.
  all: repeat match goal with
    | H : lf_conns _ !! _ = Some _ |- (_ < _)%positive => apply lok_conn_addr0 in H; lia
    | H : lf_streams _ !! _ = Some _ |- (_ < _)%positive => apply lok_stream_addr0 in H; lia
    | H : lf_conns _ !! _ = Some _ |- _ => destruct (lok_id0 _ _ H) as [? [?|?]]; clear H; lia
    | |- 0 < lf_next_id _ < _ /\ _ => unfold in_u in lok_next_id0; lia
    | H : OConn _ ∈ _ |- exists _, _ =>
        destruct (lok_pending_conn0 _ H) as (k & Hk & ?); exists k;
        rewrite lookup_insert_ne; [done|]; apply lok_conn_addr0 in Hk; lia
    end.
Qed.

Lemma life_ok_stream_new L id c init :
  life_ok L -> id <> 0 ->
  life_ok (L <| lf_streams ::= <[lf_next L := mk_stream_life id c init STREAM_OPEN CLOSE_NONE false]> |>
             <| lf_next ::= Pos.succ |>).
Proof.
  intros [] Hne. constructor; cbn; intros; split_lookups; eauto; try lia; try done.
  all: repeat match goal with
    | H : lf_conns _ !! _ = Some _ |- (_ < _)%positive => apply lok_conn_addr0 in H; lia
    | H : lf_streams _ !! _ = Some _ |- (_ < _)%positive => apply lok_stream_addr0 in H; lia
    | H : OStream _ ∈ _ |- exists _, _ =>
        destruct (lok_pending_stream0 _ H) as (k & Hk & ?); exists k;
        rewrite lookup_insert_ne; [done|]; apply lok_stream_addr0 in Hk; lia
    end.
Qed.

Lemma life_eta L : mk_life (lf_conns L) (lf_streams L) (lf_next L) (lf_next_id L) (lf_pending L) = L.
Proof. by destruct L. Qed.

Lemma life_step_ok L L' : life_ok L -> life_step L L' -> life_ok L'.
Proof.
  intros Hok Hstep. destruct Hstep.
  - pose proof (lok_next_id _ Hok) as Hid.
    exact (life_ok_skip L (Pos.succ (lf_next L)) (lf_next_id L) Hok ltac:(lia) Hid
      ltac:(unfold in_u in Hid; lia)).
  - pose proof (inc64_next _ (lok_next_id _ Hok) H) as [Hr Hi].
    exact (life_ok_skip L (lf_next L) (inc64 (lf_next_id L)) Hok ltac:(lia) Hr ltac:(lia)).
  - by apply life_ok_conn_new.
  - destruct L. eapply (life_ok_conn_upd _ c k _ lf_pending0 Hok); try done.
    left. cbn. by destruct H1.
  - destruct L. eapply (life_ok_conn_upd _ c k _ _ Hok); try done. right.
    cbn. split_and!; [done|apply closed_conn_terminal|done].
  - by apply life_ok_stream_new.
  - destruct L. eapply (life_ok_stream_upd _ s x _ lf_pending0 Hok); try done; cbn.
    + by destruct H1 as [->|[->| ->]].
    + left. split_and!; try done. intros Hc.
      destruct (lok_stream_closed _ Hok s x H Hc) as [[?|?] _]; congruence.
  - destruct L. eapply (life_ok_stream_upd _ s x _ lf_pending0 Hok); try done; cbn.
    left. split_and!; try done. by right.
  - destruct L. eapply (life_ok_stream_upd _ s x _ lf_pending0 Hok); try done; cbn.
    + intros Ho. apply (lok_open _ Hok s x H) in Ho. rewrite Ho in H0. by inversion H0.
    + intros _. by inversion H0.
    + left. split_and!; try done.
      * intros Hc. by destruct (lok_stream_closed _ Hok s x H Hc).
      * intros Hc. by apply (lok_stream_state _ Hok s x).
  - destruct L. eapply (life_ok_stream_upd _ s x _ _ Hok); try done; cbn.
    + destruct (closed_stream_terminal (sl_state x)) as [-> | ->]; done.
    + destruct (closed_stream_terminal (sl_state x)) as [-> | ->]; done.
    + right. split_and!; [done|done|apply closed_stream_terminal|done].
  - by apply life_ok_release.
Qed.

Lemma life_steps_ok L L' : life_ok L -> rtc life_step L L' -> life_ok L'.
Proof. induction 2; eauto using life_step_ok. Qed.

(** ** Streams live on connections that came up *)

Definition came_up (s : conn_state) : Prop := s <> CONN_INIT /\ s <> CONN_CONNECTING.

Definition started (L : life) : Prop := forall s x,
  lf_streams L !! s = Some x -> sl_closed x = false ->
  (sl_conn x < lf_next L)%positive /\
  (forall k, lf_conns L !! sl_conn x = Some k -> came_up (cl_state k)).

Lemma came_up_edge s s' : came_up s -> conn_edge s s' -> came_up s'.
Proof. intros [H1 H2] He. by destruct He. Qed.

Lemma came_up_terminal s : came_up (conn_terminal s).
Proof. unfold conn_terminal, came_up. by case_bool_decide. Qed.

Lemma started_step L L' : life_ok L -> started L -> life_step L L' -> started L'.
Proof.
  intros Hok Hst Hstep.
  assert (Hold : forall s x, lf_streams L !! s = Some x -> sl_closed x = false -> sl_conn x <> lf_next L).
  { intros s x Hx Hc. destruct (Hst s x Hx Hc). lia. }
  destruct Hstep; intros s' x' Hx' Hc'; cbn in *; split_lookups.
  all: try (split; [by destruct (Hst _ _ Hx' Hc'); lia|]); try (intros k' Hk'; split_lookups); try (by eapply Hst).
  - apply lookup_insert_Some in Hk' as [[E _]|[_ Hk']]; [by destruct (Hold _ _ Hx' Hc')|by eapply Hst].
  - apply lookup_insert_Some in Hk' as [[E <-]|[_ Hk']]; [|by eapply Hst].
    eapply came_up_edge; [|done]. eapply Hst; [done..|]. by rewrite <- E.
  - apply lookup_insert_Some in Hk' as [[E <-]|[_ Hk']]; [apply came_up_terminal|by eapply Hst].
  - split; [pose proof (lok_conn_addr _ Hok _ _ H); lia|]. intros k' Hk'. rewrite H in Hk'.
    injection Hk' as <-. by rewrite H0.
  - destruct o as [c|s]; cbn in *; split_lookups; destruct (Hst _ _ Hx' Hc') as [Ha Hu]; (split; [done|]).
    + intros k' [_ Hk']%lookup_delete_Some. by apply Hu.
    + done.
Qed.

Lemma started_steps L L' : life_ok L -> started L -> rtc life_step L L' -> started L'.
Proof. intros Hok Hst Hr. induction Hr; [done|]. eauto using started_step, life_step_ok. Qed.

(** The streams of a connection that is still to come up are closed. *)
Lemma not_up_closed L c k s x :
  started L -> lf_conns L !! c = Some k -> ~ came_up (cl_state k) ->
  lf_streams L !! s = Some x -> sl_conn x = c -> sl_closed x = true.
Proof.
  intros Hst Hk Hn Hx Hc. destruct (sl_closed x) eqn:E; [done|].
  destruct (Hst s x Hx E) as [_ Hu]. destruct Hn. apply Hu. by rewrite Hc.
Qed.
