(* ===== verification/LifeSim.v ===== *)
(** * Every entry point follows the life-cycle machine

    [quiet] computations do not change what [life_of] sees: timers, sockets,
    statistics, batching, configuration.  The other internal functions have
    their effect on the life cycles stated exactly; from these the entry
    points are shown to perform sequences of [life_step]s. *)

From S2P Require Import Prelude Types Timer Hashtable Vectored World Engine Conn Messages Stream Mux Life.
From stdpp Require Import relations.
#[local] Open Scope Z_scope.

Create HintDb quiet discriminated.
#[export] Hint Constants Opaque : quiet.

Section sim.
Context {KO : Kcp} {HO : Host}.
Implicit Types (c s : positive) (w : world K).

(** ** Quiet computations *)

Definition quiet {A} (m : W A) : Prop := forall w, wlp m (fun _ w' => life_of w' = life_of w) w.

Lemma quiet_ret {A} (a : A) : quiet (mret a).
Proof. intros w. by apply wlp_ret. Qed.

Lemma quiet_bind {A B} (m : W A) (f : A -> W B) :
  quiet m -> (forall a, quiet (f a)) -> quiet (m ≫= f).
Proof.
  intros Hm Hf w. apply wlp_bind. eapply wlp_mono; [apply Hm|].
  intros a w' <-. apply Hf.
Qed.

Lemma quiet_ub {A} : quiet (ub : W A).
Proof. done. Qed.

Lemma quiet_gets {A} (f : world K -> A) : quiet (gets f).
Proof. intros w. by apply wlp_gets. Qed.

Lemma quiet_deref {A} (f : world K -> option A) : quiet (deref f).
Proof. intros w. by apply wlp_deref. Qed.

Lemma quiet_when b (m : W unit) : quiet m -> quiet (when b m).
Proof. destruct b; [done|]. intros _. apply quiet_ret. Qed.

Lemma quiet_for_each {A} (f : A -> W unit) l : (forall x, quiet (f x)) -> quiet (for_each f l).
Proof. intros Hf. induction l; cbn; [apply quiet_ret|by apply quiet_bind]. Qed.

Lemma quiet_in_timers {A} (m : M timers A) : quiet (in_timers m).
Proof. intros w a w'. unfold in_timers, zoom. destruct (m _) as [[??]|]; [|done]. by intros [= <- <-]. Qed.

Lemma quiet_in_trace {A} (m : M trace A) : quiet (in_trace m).
Proof. intros w a w'. unfold in_trace, zoom. destruct (m _) as [[??]|]; [|done]. by intros [= <- <-]. Qed.

Lemma quiet_emit ev : quiet (emit ev).
Proof. intros w. by apply wlp_modify. Qed.

Lemma quiet_mod_engine f :
  (forall e, e_next_connection_id (f e) = e_next_connection_id e) ->
  (forall e, e_pending_release_list (f e) = e_pending_release_list e) ->
  quiet (mod_engine f).
Proof.
  intros H1 H2 w. apply wlp_modify. unfold life_of. cbn. by rewrite H1, H2.
Qed.

Lemma quiet_mod_conn c f : (forall k, clife (f k) = clife k) -> quiet (mod_conn c f).
Proof.
  intros Hf w. apply wlp_bind, wlp_deref. intros k Hk. apply wlp_modify.
  unfold life_of. cbn. f_equal. rewrite fmap_insert, Hf. apply insert_id.
  by rewrite lookup_fmap, Hk.
Qed.

Lemma quiet_mod_stream s f : (forall st, slife (f st) = slife st) -> quiet (mod_stream s f).
Proof.
  intros Hf w. apply wlp_bind, wlp_deref. intros st Hst. apply wlp_modify.
  unfold life_of. cbn. f_equal. rewrite fmap_insert, Hf. apply insert_id.
  by rewrite lookup_fmap, Hst.
Qed.
End sim.

#[export] Hint Resolve quiet_ret quiet_ub quiet_gets quiet_deref quiet_in_timers quiet_in_trace
  quiet_emit : quiet.

Ltac quiet_step :=
  lazymatch goal with
  | |- quiet (mbind _ _) => apply quiet_bind; [|intros ?]
  | |- quiet (when _ _) => apply quiet_when
  | |- quiet (for_each _ _) => apply quiet_for_each; intros ?
  | |- quiet (mod_engine _) => apply quiet_mod_engine; [intros; reflexivity..]
  | |- quiet (mod_stats _) => apply quiet_mod_engine; [intros; reflexivity..]
  | |- quiet (mod_conn _ _) => apply quiet_mod_conn; intros; reflexivity
  | |- quiet (mod_stream _ _) => apply quiet_mod_stream; intros; reflexivity
  | |- quiet (match _ with _ => _ end) => case_match
  | |- quiet (let _ := _ in _) => cbv zeta
  | |- quiet _ => solve [eauto with quiet]
  end.
Ltac quiet := repeat quiet_step.

Section quiet.
Context {KO : Kcp} {HO : Host}.
Implicit Types (c s : positive) (w : world K).

Lemma quiet_get_engine : quiet get_engine.
Proof. apply quiet_gets. Qed.
Lemma quiet_get_conn c : quiet (get_conn c).
Proof. apply quiet_deref. Qed.
Lemma quiet_get_stream s : quiet (get_stream s).
Proof. apply quiet_deref. Qed.
Lemma quiet_ask {A} (f : trace -> A) rec : quiet (ask f rec).
Proof. apply quiet_in_trace. Qed.
#[local] Hint Resolve quiet_get_engine quiet_get_conn quiet_get_stream quiet_ask : quiet.
Lemma quiet_alloc : quiet alloc.
Proof. apply quiet_ask. Qed.
Lemma quiet_stream_conn s : quiet (stream_conn s).
Proof. unfold stream_conn. quiet. Qed.
Lemma quiet_get_kcp s : quiet (get_kcp s).
Proof. unfold get_kcp. quiet. Qed.
Lemma quiet_now : quiet kcpmux_engine_now.
Proof. apply quiet_ask. Qed.
Lemma quiet_random cb : quiet (kcpmux_engine_random_u64 cb).
Proof. apply quiet_in_trace. Qed.
Lemma quiet_htb_new n : quiet (htb_new n).
Proof. apply quiet_in_trace. Qed.
#[local] Hint Resolve quiet_alloc quiet_stream_conn quiet_get_kcp quiet_now quiet_random quiet_htb_new : quiet.

Lemma quiet_rearm now : quiet (kcpmux_engine_rearm_timer now).
Proof. unfold kcpmux_engine_rearm_timer. quiet. Qed.
#[local] Hint Resolve quiet_rearm : quiet.
Lemma quiet_enter : quiet kcpmux_engine_operation_enter.
Proof. unfold kcpmux_engine_operation_enter. quiet. Qed.
Lemma quiet_reserve_alloc n : quiet (reserve_alloc n).
Proof. unfold reserve_alloc. quiet. Qed.
#[local] Hint Resolve quiet_enter quiet_reserve_alloc : quiet.
Lemma quiet_register o cb : quiet (kcpmux_engine_register_timer_node o cb).
Proof. unfold kcpmux_engine_register_timer_node. quiet. Qed.
Lemma quiet_unregister o : quiet (kcpmux_engine_unregister_timer_node o).
Proof. unfold kcpmux_engine_unregister_timer_node. quiet. Qed.
Lemma quiet_timer_schedule o d : quiet (timer_schedule o d).
Proof. unfold timer_schedule. quiet. Qed.
#[local] Hint Resolve quiet_register quiet_unregister quiet_timer_schedule : quiet.
Lemma quiet_schedule o d now : quiet (kcpmux_engine_schedule_timer_node o d now).
Proof. unfold kcpmux_engine_schedule_timer_node. quiet. Qed.
Lemma quiet_cancel o now : quiet (kcpmux_engine_cancel_timer_node o now).
Proof. unfold kcpmux_engine_cancel_timer_node. quiet. Qed.
Lemma quiet_write_socketv iov a : quiet (kcpmux_engine_write_socketv iov a).
Proof. unfold kcpmux_engine_write_socketv. quiet. Qed.
Lemma quiet_add_conn c : quiet (kcpmux_engine_add_conn c).
Proof. unfold kcpmux_engine_add_conn. quiet. Qed.
Lemma quiet_remove_conn c : quiet (kcpmux_engine_remove_conn c).
Proof. unfold kcpmux_engine_remove_conn. quiet. Qed.
Lemma quiet_get_conn_by_id a i : quiet (kcpmux_engine_get_conn_by_id a i).
Proof. unfold kcpmux_engine_get_conn_by_id. quiet. Qed.
Lemma quiet_get_passive_conn a i : quiet (kcpmux_engine_get_passive_conn a i).
Proof. unfold kcpmux_engine_get_passive_conn. quiet. Qed.
#[local] Hint Resolve quiet_schedule quiet_cancel quiet_write_socketv quiet_add_conn
  quiet_remove_conn quiet_get_conn_by_id quiet_get_passive_conn : quiet.

Lemma quiet_conn_refresh c now : quiet (kcpmux_conn_refresh_timer c now).
Proof. unfold kcpmux_conn_refresh_timer. quiet. Qed.
#[local] Hint Resolve quiet_conn_refresh : quiet.
Lemma quiet_note_receive c t p : quiet (kcpmux_conn_note_receive c t p).
Proof. unfold kcpmux_conn_note_receive. quiet. Qed.
Lemma quiet_add_stream c s : quiet (kcpmux_conn_add_stream c s).
Proof. unfold kcpmux_conn_add_stream. quiet. Qed.
Lemma quiet_remove_stream c s : quiet (kcpmux_conn_remove_stream c s).
Proof. unfold kcpmux_conn_remove_stream. quiet. Qed.
Lemma quiet_get_stream_by_id c i : quiet (kcpmux_conn_get_stream_by_id c i).
Proof. unfold kcpmux_conn_get_stream_by_id. quiet. Qed.
#[local] Hint Resolve quiet_note_receive quiet_add_stream quiet_remove_stream quiet_get_stream_by_id : quiet.
Lemma quiet_alloc_stream_id_loop n c : quiet (alloc_stream_id_loop n c).
Proof. induction n; cbn [alloc_stream_id_loop]; quiet. Qed.
#[local] Hint Resolve quiet_alloc_stream_id_loop : quiet.
Lemma quiet_alloc_stream_id c : quiet (kcpmux_conn_alloc_stream_id c).
Proof. unfold kcpmux_conn_alloc_stream_id. quiet. Qed.
Lemma quiet_conn_writev c iov : quiet (kcpmux_conn_write_socketv c iov).
Proof. unfold kcpmux_conn_write_socketv. quiet. Qed.
#[local] Hint Resolve quiet_alloc_stream_id quiet_conn_writev : quiet.
Lemma quiet_conn_write c b : quiet (kcpmux_conn_write_socket c b).
Proof. apply quiet_conn_writev. Qed.
Lemma quiet_engine_set_config cfg : quiet (kcpmux_engine_set_config cfg).
Proof. unfold kcpmux_engine_set_config. quiet. Qed.
Lemma quiet_conn_set_config oc cfg : quiet (kcpmux_conn_set_config oc cfg).
Proof. unfold kcpmux_conn_set_config. quiet. Qed.
Lemma quiet_conn_set_callbacks oc cbs ud : quiet (kcpmux_conn_set_callbacks oc cbs ud).
Proof. unfold kcpmux_conn_set_callbacks. quiet. Qed.
#[local] Hint Resolve quiet_conn_write quiet_conn_set_config quiet_conn_set_callbacks : quiet.

Lemma quiet_p_connect c : quiet (kcpmux_protocol_send_conn_connect c).
Proof. unfold kcpmux_protocol_send_conn_connect. quiet. Qed.
Lemma quiet_p_connect_ack c r : quiet (kcpmux_protocol_send_conn_connect_ack c r).
Proof. unfold kcpmux_protocol_send_conn_connect_ack. quiet. Qed.
Lemma quiet_p_keepalive c : quiet (kcpmux_protocol_send_conn_keepalive c).
Proof. unfold kcpmux_protocol_send_conn_keepalive. quiet. Qed.
Lemma quiet_p_close c r : quiet (kcpmux_protocol_send_conn_close c r).
Proof. unfold kcpmux_protocol_send_conn_close. quiet. Qed.
Lemma quiet_p_close_ack c r : quiet (kcpmux_protocol_send_conn_close_ack c r).
Proof. unfold kcpmux_protocol_send_conn_close_ack. quiet. Qed.
Lemma quiet_p_stream_close s r : quiet (kcpmux_protocol_send_stream_close s r).
Proof. unfold kcpmux_protocol_send_stream_close. quiet. Qed.
Lemma quiet_p_stream_close_ack s r : quiet (kcpmux_protocol_send_stream_close_ack s r).
Proof. unfold kcpmux_protocol_send_stream_close_ack. quiet. Qed.
Lemma quiet_p_payload s b : quiet (kcpmux_protocol_send_stream_payload s b).
Proof. unfold kcpmux_protocol_send_stream_payload. quiet. Qed.
#[local] Hint Resolve quiet_p_connect quiet_p_connect_ack quiet_p_keepalive quiet_p_close
  quiet_p_close_ack quiet_p_stream_close quiet_p_stream_close_ack quiet_p_payload : quiet.
Lemma quiet_send_connect c : quiet (kcpmux_conn_send_connect c).
Proof. unfold kcpmux_conn_send_connect. quiet. Qed.
Lemma quiet_send_connect_ack c r : quiet (kcpmux_conn_send_connect_ack c r).
Proof. apply quiet_p_connect_ack. Qed.
Lemma quiet_send_keepalive c : quiet (kcpmux_conn_send_keepalive c).
Proof. unfold kcpmux_conn_send_keepalive. quiet. Qed.
Lemma quiet_send_close c r : quiet (kcpmux_conn_send_close c r).
Proof. unfold kcpmux_conn_send_close. quiet. Qed.
Lemma quiet_send_close_ack c r : quiet (kcpmux_conn_send_close_ack c r).
Proof. apply quiet_p_close_ack. Qed.
#[local] Hint Resolve quiet_send_connect quiet_send_connect_ack quiet_send_keepalive
  quiet_send_close quiet_send_close_ack : quiet.

Lemma quiet_mark_read_blocked s now : quiet (kcpmux_stream_mark_read_blocked s now).
Proof. unfold kcpmux_stream_mark_read_blocked. quiet. Qed.
Lemma quiet_batch_linked s : quiet (batch_linked s).
Proof. apply quiet_gets. Qed.
Lemma quiet_batch_unlink s : quiet (batch_unlink s).
Proof. unfold batch_unlink. quiet. Qed.
#[local] Hint Resolve quiet_mark_read_blocked quiet_batch_linked quiet_batch_unlink : quiet.
Lemma quiet_clear_pending s : quiet (kcpmux_stream_clear_pending s).
Proof. unfold kcpmux_stream_clear_pending. quiet. Qed.
Lemma quiet_accumulate s now : quiet (kcpmux_stream_accumulate_update s now).
Proof. unfold kcpmux_stream_accumulate_update. quiet. Qed.
Lemma quiet_kcp_output s b : quiet (kcp_output s b).
Proof. unfold kcp_output. quiet. Qed.
#[local] Hint Resolve quiet_clear_pending quiet_accumulate quiet_kcp_output : quiet.
Lemma quiet_run_kact {R} s (a : kact K R) : quiet (run_kact s a).
Proof. induction a; cbn [run_kact]; quiet. Qed.
#[local] Hint Resolve quiet_run_kact : quiet.
Lemma quiet_ops_send s b : quiet (ops_send s b).
Proof. unfold ops_send. quiet. Qed.
Lemma quiet_ops_input s b : quiet (ops_input s b).
Proof. unfold ops_input. quiet. Qed.
Lemma quiet_ops_update s now : quiet (ops_update s now).
Proof. unfold ops_update. quiet. Qed.
Lemma quiet_ops_current_update s now : quiet (ops_current_update s now).
Proof. unfold ops_current_update. quiet. Qed.
Lemma quiet_ops_check s now : quiet (ops_check s now).
Proof. unfold ops_check. quiet. Qed.
Lemma quiet_ops_waitsnd s : quiet (ops_waitsnd s).
Proof. unfold ops_waitsnd. quiet. Qed.
Lemma quiet_ops_peeksize s : quiet (ops_peeksize s).
Proof. unfold ops_peeksize. quiet. Qed.
#[local] Hint Resolve quiet_ops_send quiet_ops_input quiet_ops_update quiet_ops_current_update
  quiet_ops_check quiet_ops_waitsnd quiet_ops_peeksize : quiet.
Lemma quiet_stream_refresh s now : quiet (kcpmux_stream_refresh_timer s now).
Proof. unfold kcpmux_stream_refresh_timer. quiet. Qed.
#[local] Hint Resolve quiet_stream_refresh : quiet.
Lemma quiet_stream_send_close s r : quiet (kcpmux_stream_send_close s r).
Proof. unfold kcpmux_stream_send_close. quiet. Qed.
Lemma quiet_stream_send_close_ack s r : quiet (kcpmux_stream_send_close_ack s r).
Proof. apply quiet_p_stream_close_ack. Qed.
Lemma quiet_stream_set_config os cfg : quiet (kcpmux_stream_set_config os cfg).
Proof. unfold kcpmux_stream_set_config. quiet. Qed.
Lemma quiet_stream_set_callbacks os cbs ud : quiet (kcpmux_stream_set_callbacks os cbs ud).
Proof. unfold kcpmux_stream_set_callbacks. quiet. Qed.
#[local] Hint Resolve quiet_stream_send_close quiet_stream_send_close_ack quiet_stream_set_config
  quiet_stream_set_callbacks : quiet.
Lemma quiet_contiguous_chunk s x n : quiet (kcpmux_stream_send_contiguous_chunk s x n).
Proof. unfold kcpmux_stream_send_contiguous_chunk. quiet. Qed.
Lemma quiet_vectored_chunk s x n : quiet (kcpmux_stream_send_vectored_chunk s x n).
Proof. unfold kcpmux_stream_send_vectored_chunk. quiet. Qed.
#[local] Hint Resolve quiet_contiguous_chunk quiet_vectored_chunk : quiet.
Lemma quiet_send_loop {C} (f : send_chunk_fn C) s :
  (forall x n, quiet (f s x n)) ->
  forall fuel x cs rem tot, quiet (send_loop fuel f s x cs rem tot).
Proof. intros Hf fuel. induction fuel; intros; cbn [send_loop]; quiet. Qed.
#[local] Hint Resolve quiet_send_loop : quiet.
Lemma quiet_send_chunks_body {C} (f : send_chunk_fn C) s now n fl x :
  (forall x n, quiet (f s x n)) -> quiet (send_chunks_body s now n fl f x).
Proof. intros Hf. unfold send_chunks_body. quiet. Qed.
#[local] Hint Resolve quiet_send_chunks_body : quiet.
Lemma quiet_finish_batch_at s now : quiet (kcpmux_stream_finish_batch_at s now).
Proof. unfold kcpmux_stream_finish_batch_at. quiet. Qed.
#[local] Hint Resolve quiet_finish_batch_at : quiet.
Lemma quiet_finish_batch os : quiet (kcpmux_stream_finish_batch os).
Proof. unfold kcpmux_stream_finish_batch. quiet. Qed.
Lemma quiet_peek_size os : quiet (kcpmux_stream_peek_size os).
Proof. unfold kcpmux_stream_peek_size. quiet. Qed.
Lemma quiet_write_unblock s now : quiet (write_unblock s now).
Proof. unfold write_unblock. quiet. Qed.
Lemma quiet_read_unblock s now : quiet (read_unblock s now).
Proof. unfold read_unblock. quiet. Qed.
#[local] Hint Resolve quiet_finish_batch quiet_peek_size quiet_write_unblock quiet_read_unblock : quiet.
Lemma quiet_handle_payload s b t : quiet (kcpmux_stream_handle_payload s b t).
Proof. unfold kcpmux_stream_handle_payload. quiet. Qed.
Lemma quiet_conn_setter c a : quiet (conn_setter_run c a).
Proof. unfold conn_setter_run. quiet. Qed.
Lemma quiet_stream_setter s a : quiet (stream_setter_run s a).
Proof. unfold stream_setter_run. quiet. Qed.
Lemma quiet_note_rx c n : quiet (note_rx c n).
Proof. unfold note_rx. quiet. Qed.
Lemma quiet_byte_at b o : quiet (byte_at b o).
Proof. apply quiet_deref. Qed.
Lemma quiet_u16_at b o : quiet (u16_at b o).
Proof. apply quiet_deref. Qed.
Lemma quiet_u32_at b o : quiet (u32_at b o).
Proof. apply quiet_deref. Qed.
Lemma quiet_u64_at b o : quiet (u64_at b o).
Proof. apply quiet_deref. Qed.
Lemma quiet_store_peer_ext c b o n : quiet (store_peer_ext c b o n).
Proof. unfold store_peer_ext. quiet. Qed.
End quiet.

#[export] Hint Resolve
  quiet_get_engine quiet_get_conn quiet_get_stream quiet_ask quiet_alloc
  quiet_stream_conn quiet_get_kcp quiet_now quiet_random quiet_htb_new quiet_rearm
  quiet_enter quiet_reserve_alloc quiet_register quiet_unregister quiet_timer_schedule
  quiet_schedule quiet_cancel quiet_write_socketv quiet_add_conn quiet_remove_conn
  quiet_get_conn_by_id quiet_get_passive_conn quiet_conn_refresh quiet_note_receive
  quiet_add_stream quiet_remove_stream quiet_get_stream_by_id
  quiet_alloc_stream_id_loop quiet_alloc_stream_id quiet_conn_writev quiet_conn_write
  quiet_conn_set_config quiet_conn_set_callbacks quiet_p_connect quiet_p_connect_ack
  quiet_p_keepalive quiet_p_close quiet_p_close_ack quiet_p_stream_close
  quiet_p_stream_close_ack quiet_p_payload quiet_send_connect quiet_send_connect_ack
  quiet_send_keepalive quiet_send_close quiet_send_close_ack quiet_mark_read_blocked
  quiet_batch_linked quiet_batch_unlink quiet_clear_pending quiet_accumulate
  quiet_kcp_output quiet_run_kact quiet_ops_send quiet_ops_input quiet_ops_update
  quiet_ops_current_update quiet_ops_check quiet_ops_waitsnd quiet_ops_peeksize
  quiet_stream_refresh quiet_stream_send_close quiet_stream_send_close_ack
  quiet_stream_set_config quiet_stream_set_callbacks quiet_contiguous_chunk
  quiet_vectored_chunk quiet_send_loop quiet_send_chunks_body quiet_finish_batch_at
  quiet_finish_batch quiet_peek_size quiet_write_unblock quiet_read_unblock
  quiet_handle_payload quiet_conn_setter quiet_stream_setter quiet_note_rx
  quiet_byte_at quiet_u16_at quiet_u32_at quiet_u64_at quiet_store_peer_ext : quiet.

(** ** Rules for computations that are not quiet

    [L] names the life cycles of the current world, so that facts about them
    survive quiet steps. *)

Section rules.
Context {KO : Kcp} {HO : Host}.
Implicit Types (c s : positive) (w : world K) (L : life).

Lemma wlp_quiet {A} L (m : W A) (Q : A -> world K -> Prop) w :
  life_of w = L -> quiet m -> (forall a w', life_of w' = L -> Q a w') -> wlp m Q w.
Proof. intros HL Hm HQ. eapply wlp_mono; [apply Hm|]. intros a w' Hw. apply HQ. congruence. Qed.

Lemma wlp_quiet_bind {A B} L (m : W A) (f : A -> W B) (Q : B -> world K -> Prop) w :
  life_of w = L -> quiet m -> (forall a w', life_of w' = L -> wlp (f a) Q w') ->
  wlp (m ≫= f) Q w.
Proof. intros HL Hm Hf. apply wlp_bind. by eapply wlp_quiet. Qed.

Lemma wlp_get_conn {B} L c (f : conn -> W B) (Q : B -> world K -> Prop) w :
  life_of w = L ->
  (forall k, lf_conns L !! c = Some (clife k) -> wlp (f k) Q w) -> wlp (get_conn c ≫= f) Q w.
Proof.
  intros <- Hf. apply wlp_bind, wlp_deref. intros k Hk. apply Hf. cbn. by rewrite lookup_fmap, Hk.
Qed.

Lemma wlp_get_stream {B} L s (f : stream K -> W B) (Q : B -> world K -> Prop) w :
  life_of w = L ->
  (forall st, lf_streams L !! s = Some (slife st) -> wlp (f st) Q w) ->
  wlp (get_stream s ≫= f) Q w.
Proof.
  intros <- Hf. apply wlp_bind, wlp_deref. intros k Hk. apply Hf. cbn. by rewrite lookup_fmap, Hk.
Qed.

Lemma wlp_mod_conn L c f (Q : unit -> world K -> Prop) w :
  life_of w = L ->
  (forall k w', lf_conns L !! c = Some (clife k) ->
     life_of w' = L <| lf_conns ::= <[c := clife (f k)]> |> -> Q tt w') ->
  wlp (mod_conn c f) Q w.
Proof.
  intros <- HQ. apply wlp_bind, wlp_deref. intros k Hk. apply wlp_modify, (HQ k).
  - cbn. by rewrite lookup_fmap, Hk.
  - unfold life_of. cbn. by rewrite fmap_insert.
Qed.

Lemma wlp_mod_stream L s f (Q : unit -> world K -> Prop) w :
  life_of w = L ->
  (forall st w', lf_streams L !! s = Some (slife st) ->
     life_of w' = L <| lf_streams ::= <[s := slife (f st)]> |> -> Q tt w') ->
  wlp (mod_stream s f) Q w.
Proof.
  intros <- HQ. apply wlp_bind, wlp_deref. intros st Hst. apply wlp_modify, (HQ st).
  - cbn. by rewrite lookup_fmap, Hst.
  - unfold life_of. cbn. by rewrite fmap_insert.
Qed.

Lemma wlp_upd_conn L c k f g w :
  life_of w = L -> lf_conns L !! c = Some k -> (forall k', clife (f k') = g (clife k')) ->
  wlp (mod_conn c f) (fun _ w' => life_of w' = L <| lf_conns ::= <[c := g k]> |>) w.
Proof.
  intros HL Hk Hg. eapply wlp_mod_conn; [done|]. intros k' w' Hk' ->.
  rewrite Hg. replace (clife k') with k by congruence. done.
Qed.

Lemma wlp_upd_stream L s x f g w :
  life_of w = L -> lf_streams L !! s = Some x -> (forall st, slife (f st) = g (slife st)) ->
  wlp (mod_stream s f) (fun _ w' => life_of w' = L <| lf_streams ::= <[s := g x]> |>) w.
Proof.
  intros HL Hx Hg. eapply wlp_mod_stream; [done|]. intros st w' Hst ->.
  rewrite Hg. replace (slife st) with x by congruence. done.
Qed.

Lemma wlp_queue_release L o (Q : unit -> world K -> Prop) w :
  life_of w = L ->
  (forall w', life_of w' = L <| lf_pending ::= fun l => l ++ [o] |> -> Q tt w') ->
  wlp (kcpmux_engine_queue_release o) Q w.
Proof. intros <- HQ. by apply wlp_modify, HQ. Qed.

Lemma wlp_free_obj L o (Q : unit -> world K -> Prop) w :
  life_of w = L -> (forall w', life_of w' = forget o L -> Q tt w') -> wlp (free_obj o) Q w.
Proof.
  intros <- HQ. apply wlp_bind, wlp_modify, wlp_modify, HQ.
  destruct o; unfold life_of; cbn; by rewrite fmap_delete.
Qed.

(** ** State changes *)

Lemma wlp_conn_set_state L c new (Q : unit -> world K -> Prop) w :
  life_of w = L ->
  (forall k w', lf_conns L !! c = Some k ->
     life_of w' = (if cl_closed k || bool_decide (cl_state k = new) then L
                   else L <| lf_conns ::= <[c := k <| cl_state := new |>]> |>) -> Q tt w') ->
  wlp (kcpmux_conn_set_state c new) Q w.
Proof.
  intros HL HQ. unfold kcpmux_conn_set_state. eapply wlp_get_conn; [done|]. intros k Hk.
  specialize (HQ (clife k)). cbn in HQ.
  destruct (_ || _); [by apply wlp_ret, HQ|].
  apply wlp_bind. eapply wlp_mod_conn; [done|]. intros k' w' Hk' Hw'.
  assert (Hl : life_of w' = L <| lf_conns ::= <[c := (clife k) <| cl_state := new |>]> |>).
  { rewrite Hw'. replace (clife k) with (clife k') by congruence. done. }
  eapply wlp_quiet; [exact Hl|quiet|]. intros [] w'' Hw''. by apply HQ.
Qed.

Lemma wlp_stream_set_state L s new (Q : unit -> world K -> Prop) w :
  life_of w = L ->
  (forall x w', lf_streams L !! s = Some x ->
     life_of w' = (if bool_decide (sl_state x = new) then L
                   else L <| lf_streams ::= <[s := x <| sl_state := new |>]> |>) -> Q tt w') ->
  wlp (kcpmux_stream_set_state s new) Q w.
Proof.
  intros HL HQ. unfold kcpmux_stream_set_state. eapply wlp_get_stream; [done|]. intros st Hst.
  specialize (HQ (slife st)). cbn in HQ.
  case_bool_decide; [by apply wlp_ret, HQ|].
  apply wlp_bind. eapply wlp_mod_stream; [done|]. intros st' w' Hst' Hw'.
  assert (Hl : life_of w' = L <| lf_streams ::= <[s := (slife st) <| sl_state := new |>]> |>).
  { rewrite Hw'. replace (slife st) with (slife st') by congruence. done. }
  eapply wlp_quiet; [exact Hl|quiet|]. intros [] w'' Hw''. by apply HQ.
Qed.

(** ** Closing a stream *)

Definition sclose s L : life :=
  match lf_streams L !! s with
  | Some x =>
      if sl_closed x then L
      else L <| lf_streams ::= <[s := x <| sl_state ::= stream_terminal |> <| sl_closed := true |>]> |>
             <| lf_pending ::= fun l => l ++ [OStream s] |>
  | None => L
  end.

Lemma sclose_step s L : rtc life_step L (sclose s L).
Proof.
  unfold sclose. destruct (lf_streams L !! s) as [x|] eqn:Hx; [|done].
  destruct (sl_closed x) eqn:Hc; [done|]. by apply rtc_once, step_stream_close.
Qed.

Lemma sclose_conns s L : lf_conns (sclose s L) = lf_conns L.
Proof. unfold sclose. repeat case_match; done. Qed.

Lemma sclose_mark s m L :
  sclose s (L <| lf_conns := m |>) = (sclose s L) <| lf_conns := m |>.
Proof. unfold sclose. cbn. destruct (lf_streams L !! s) as [x|]; [|done]. by destruct (sl_closed x). Qed.

Lemma wlp_stream_close_internal L s r (Q : unit -> world K -> Prop) w :
  life_of w = L -> (forall w', life_of w' = sclose s L -> Q tt w') ->
  wlp (kcpmux_stream_close_internal s r) Q w.
Proof.
  intros HL HQ. unfold kcpmux_stream_close_internal. eapply wlp_get_stream; [done|].
  intros st Hst. unfold sclose in HQ. rewrite Hst in HQ. cbn in HQ.
  destruct (s_internal_closed st); [by apply wlp_ret, HQ|].
  apply wlp_bind. eapply wlp_mod_stream; [done|]. intros st1 w1 Hst1 HL1.
  change (slife _) with ((slife st1) <| sl_closed := true |>) in HL1.
  replace (slife st1) with (slife st) in HL1 by congruence.
  do 6 (eapply wlp_quiet_bind; [exact HL1|quiet|]; intros _ w1' HL1'; clear w1 HL1;
        rename w1' into w1, HL1' into HL1).
  apply wlp_bind. eapply (wlp_mono _ (fun _ w' => life_of w' =
    L <| lf_streams ::= <[s := (slife st) <| sl_state ::= stream_terminal |> <| sl_closed := true |>]> |>)).
  { unfold stream_terminal. apply wlp_when; intros Hb.
    - apply negb_true_iff, bool_decide_eq_false in Hb.
      eapply wlp_mod_stream; [done|]. intros st2 w2 Hst2 HL2. cbn in Hst2.
      rewrite lookup_insert_eq in Hst2. apply (inj Some) in Hst2. rewrite HL2.
      change (slife (st2 <| s_state := STREAM_CLOSED |>)) with ((slife st2) <| sl_state := STREAM_CLOSED |>). rewrite <- Hst2.
      cbn. rewrite insert_insert_eq, bool_decide_eq_false_2 by done. done.
    - apply negb_false_iff, bool_decide_eq_true in Hb. rewrite HL1. cbn.
      rewrite bool_decide_eq_true_2 by done. by rewrite <- Hb. }
  intros _ w2 HL2. eapply wlp_quiet_bind; [exact HL2|quiet|]. intros _ w3 HL3.
  eapply wlp_queue_release; [done|]. done.
Qed.

(** ** Closing a connection *)

Definition scloses (ss : list positive) L : life := fold_left (fun L s => sclose s L) ss L.

Lemma scloses_step ss L : rtc life_step L (scloses ss L).
Proof.
  revert L. induction ss as [|s ss IH]; intros L; [done|].
  etrans; [apply sclose_step|apply IH].
Qed.

Lemma scloses_conns ss L : lf_conns (scloses ss L) = lf_conns L.
Proof.
  revert L. induction ss as [|s ss IH]; intros L; [done|].
  cbn. rewrite IH. apply sclose_conns.
Qed.

Lemma scloses_snoc ss s L : scloses (ss ++ [s]) L = sclose s (scloses ss L).
Proof. unfold scloses. by rewrite fold_left_app. Qed.

Definition cclose c L : life :=
  match lf_conns L !! c with
  | Some k =>
      if cl_closed k then L
      else L <| lf_conns ::= <[c := k <| cl_state ::= conn_terminal |> <| cl_closed := true |>]> |>
             <| lf_pending ::= fun l => l ++ [OConn c] |>
  | None => L
  end.

Lemma cclose_step c L : rtc life_step L (cclose c L).
Proof.
  unfold cclose. destruct (lf_conns L !! c) as [x|] eqn:Hx; [|done].
  destruct (cl_closed x) eqn:Hc; [done|]. by apply rtc_once, step_conn_close.
Qed.

(** The loop over the buckets closes some streams and leaves connections
    alone. *)
Lemma wlp_close_cascade L m c r n (Q : unit -> world K -> Prop) w :
  life_of w = L <| lf_conns := m |> ->
  (forall w' ss, life_of w' = (scloses ss L) <| lf_conns := m |> -> Q tt w') ->
  wlp (for_each (fun i => close_bucket c i r) (seq 0 n)) Q w.
Proof.
  intros HL HQ.
  set (I := fun w => exists ss, life_of w = (scloses ss L) <| lf_conns := m |>).
  eapply (wlp_mono _ (fun _ => I)); [|intros [] w' [ss Hss]; by eapply HQ].
  apply wlp_for_each; [by exists []|]. intros i w1 _ HI. unfold close_bucket.
  destruct HI as [ss1 HL1].
  eapply wlp_quiet_bind; [done|quiet|]. intros k w2 HL2.
  eapply wlp_quiet_bind; [done|quiet|]. intros b w3 HL3.
  apply wlp_for_each; [by exists ss1|]. intros s w4 _ [ss HL4].
  eapply wlp_stream_close_internal; [done|]. intros w5 HL5.
  exists (ss ++ [s]). by rewrite HL5, sclose_mark, scloses_snoc.
Qed.

Lemma wlp_conn_close_internal L c r (Q : unit -> world K -> Prop) w :
  life_of w = L -> (forall w' ss, life_of w' = cclose c (scloses ss L) -> Q tt w') ->
  wlp (kcpmux_conn_close_internal c r) Q w.
Proof.
  intros HL HQ. unfold kcpmux_conn_close_internal. eapply wlp_get_conn; [done|].
  intros k Hk. destruct (c_internal_closed k) eqn:Hcl.
  { apply wlp_ret, (HQ w []). cbn. unfold cclose. rewrite Hk. cbn. by rewrite Hcl. }
  apply wlp_bind. eapply wlp_mod_conn; [done|]. intros k1 w1 Hk1 HL1.
  change (clife (k1 <| c_internal_closed := true |>)) with ((clife k1) <| cl_closed := true |>) in HL1.
  replace (clife k1) with (clife k) in HL1 by congruence.
  do 3 (eapply wlp_quiet_bind; [exact HL1|quiet|]; intros _ w1' HL1'; clear w1 HL1;
        rename w1' into w1, HL1' into HL1).
  apply wlp_bind. eapply (wlp_close_cascade L); [exact HL1|]. intros w2 ss HL2.
  assert (HQ' : forall w', life_of w' =
      (scloses ss L) <| lf_conns ::= <[c := (clife k) <| cl_state ::= conn_terminal |> <| cl_closed := true |>]> |>
                     <| lf_pending ::= fun l => l ++ [OConn c] |> -> Q tt w').
  { intros w' Hw'. apply (HQ w' ss). rewrite Hw'. unfold cclose. rewrite scloses_conns, Hk.
    cbn. by rewrite Hcl. }
  clear HQ. apply wlp_bind. eapply (wlp_mono _ (fun _ w' => life_of w' =
    (scloses ss L) <| lf_conns ::= <[c := (clife k) <| cl_state ::= conn_terminal |> <| cl_closed := true |>]> |>)).
  { unfold conn_terminal. apply wlp_when; intros Hb.
    - apply negb_true_iff, bool_decide_eq_false in Hb.
      eapply wlp_mod_conn; [done|]. intros k2 w3 Hk2 HL3. cbn in Hk2.
      rewrite lookup_insert_eq in Hk2. apply (inj Some) in Hk2. rewrite HL3.
      change (clife (k2 <| c_state := CONN_CLOSED |>)) with ((clife k2) <| cl_state := CONN_CLOSED |>).
      rewrite <- Hk2. cbn. rewrite scloses_conns, insert_insert_eq, bool_decide_eq_false_2 by done. done.
    - apply negb_false_iff, bool_decide_eq_true in Hb. rewrite HL2. cbn.
      rewrite scloses_conns, bool_decide_eq_true_2 by done. by rewrite <- Hb. }
  intros _ w3 HL3. eapply wlp_quiet_bind; [exact HL3|quiet|]. intros k3 w4 HL4.
  eapply wlp_quiet_bind; [exact HL4|quiet|]. intros _ w5 HL5.
  eapply wlp_queue_release; [exact HL5|]. done.
Qed.

(** ** Close phases *)

Lemma wlp_schedule_finalize L s r now (Q : unit -> world K -> Prop) w :
  life_of w = L ->
  (forall x w', lf_streams L !! s = Some x ->
     life_of w' = L <| lf_streams ::= <[s := x <| sl_phase := CLOSE_FINALIZE |>]> |> -> Q tt w') ->
  wlp (kcpmux_stream_schedule_finalize s r now) Q w.
Proof.
  intros HL HQ. unfold kcpmux_stream_schedule_finalize. apply wlp_bind.
  eapply wlp_mod_stream; [done|]. intros st w1 Hst HL1.
  eapply wlp_quiet; [exact HL1|quiet|]. intros [] w2 HL2. by apply (HQ (slife st)).
Qed.

(** ** Release *)

Lemma wlp_release_cb L o (Q : unit -> world K -> Prop) w :
  life_of w = L -> (forall w', life_of w' = forget o L -> Q tt w') -> wlp (release_cb o) Q w.
Proof.
  intros HL HQ. destruct o as [c|s]; cbn.
  - eapply wlp_quiet_bind; [done|quiet|]. intros k w1 HL1.
    eapply wlp_quiet_bind; [done|quiet|]. intros _ w2 HL2. by eapply wlp_free_obj.
  - eapply wlp_quiet_bind; [done|quiet|]. intros k w1 HL1. by eapply wlp_free_obj.
Qed.

Lemma forget_pending o L f : forget o (L <| lf_pending ::= f |>) = (forget o L) <| lf_pending ::= f |>.
Proof. by destruct o. Qed.

Lemma wlp_drain_loop fuel L (Q : unit -> world K -> Prop) w :
  life_of w = L ->
  (forall w', rtc life_step L (life_of w') -> lf_pending (life_of w') = [] -> Q tt w') ->
  wlp (drain_loop fuel) Q w.
Proof.
  revert L w. induction fuel as [|fuel IH]; intros L w HL HQ; cbn [drain_loop];
    apply wlp_bind, wlp_gets.
  all: destruct (e_pending_release_list (w_engine w)) as [|o l] eqn:Hp;
    [apply wlp_ret, HQ; [by rewrite HL|done]|].
  { apply wlp_ub. }
  apply wlp_bind, wlp_modify. apply wlp_bind.
  eapply wlp_release_cb; [reflexivity|]. intros w' Hw'.
  assert (Hstep : life_step L (life_of w')).
  { rewrite Hw'. replace (life_of _) with (L <| lf_pending := l |>).
    - apply step_release. by rewrite <- HL.
    - rewrite <- HL. unfold life_of. cbn. by rewrite Hp. }
  eapply IH; [reflexivity|]. intros w'' Hr He. apply HQ; [|done]. by eapply rtc_l.
Qed.

Lemma wlp_operation_leave L (Q : unit -> world K -> Prop) w :
  life_of w = L -> (forall w', rtc life_step L (life_of w') -> Q tt w') ->
  wlp kcpmux_engine_operation_leave Q w.
Proof.
  intros HL HQ. unfold kcpmux_engine_operation_leave. apply wlp_bind, wlp_gets.
  case_match; [apply wlp_ret, HQ; by rewrite HL|].
  eapply wlp_quiet_bind; [done|quiet|]. intros _ w1 HL1.
  case_match; [apply wlp_ret, HQ; by rewrite HL1|].
  eapply wlp_quiet_bind; [done|quiet|]. intros _ w2 HL2.
  apply wlp_bind. unfold kcpmux_engine_drain_pending_release. apply wlp_bind, wlp_gets.
  eapply wlp_drain_loop; [done|]. intros w3 Hr _.
  eapply wlp_quiet; [reflexivity|quiet|]. intros [] w4 HL4. apply HQ. by rewrite HL4.
Qed.

(** ** Creation *)

Definition with_conn c x L : life := L <| lf_conns ::= <[c := x]> |>.
Definition with_stream s x L : life := L <| lf_streams ::= <[s := x]> |>.

Lemma wlp_malloc_conn L (Q : option positive -> world K -> Prop) w :
  life_of w = L ->
  (forall w', life_of w' = L -> Q None w') ->
  (forall w', life_of w' = with_conn (lf_next L) (clife conn_zero) (L <| lf_next ::= Pos.succ |>) ->
     Q (Some (lf_next L)) w') ->
  wlp malloc_conn Q w.
Proof.
  intros HL HN HS. unfold malloc_conn. eapply wlp_quiet_bind; [done|quiet|]. intros ok w1 HL1.
  destruct ok; cbn; [|by apply wlp_ret, HN].
  apply wlp_bind, wlp_gets, wlp_bind, wlp_modify, wlp_ret.
  replace (w_next_addr w1) with (lf_next L) by by rewrite <- HL1.
  apply HS. rewrite <- HL1. unfold life_of, with_conn. cbn. by rewrite fmap_insert.
Qed.

Lemma wlp_malloc_stream L c (Q : option positive -> world K -> Prop) w :
  life_of w = L ->
  (forall w', life_of w' = L -> Q None w') ->
  (forall w', life_of w' = with_stream (lf_next L) (slife (stream_zero (K := K) c)) (L <| lf_next ::= Pos.succ |>) ->
     Q (Some (lf_next L)) w') ->
  wlp (malloc_stream c) Q w.
Proof.
  intros HL HN HS. unfold malloc_stream. eapply wlp_quiet_bind; [done|quiet|]. intros ok w1 HL1.
  destruct ok; cbn; [|by apply wlp_ret, HN].
  apply wlp_bind, wlp_gets, wlp_bind, wlp_modify, wlp_ret.
  replace (w_next_addr w1) with (lf_next L) by by rewrite <- HL1.
  apply HS. rewrite <- HL1. unfold life_of, with_stream. cbn. by rewrite fmap_insert.
Qed.

(** A further change to the object just created. *)
Lemma wlp_mod_conn_new L c x f (Q : unit -> world K -> Prop) w :
  life_of w = with_conn c x L ->
  (forall k w', clife k = x -> life_of w' = with_conn c (clife (f k)) L -> Q tt w') ->
  wlp (mod_conn c f) Q w.
Proof.
  intros HL HQ. eapply wlp_mod_conn; [done|]. intros k w' Hk HL'.
  cbn in Hk. rewrite lookup_insert_eq in Hk. apply (inj Some) in Hk.
  apply (HQ k); [done|]. rewrite HL'. unfold with_conn. cbn. by rewrite insert_insert_eq.
Qed.

Lemma wlp_mod_stream_new L s x f (Q : unit -> world K -> Prop) w :
  life_of w = with_stream s x L ->
  (forall st w', slife st = x -> life_of w' = with_stream s (slife (f st)) L -> Q tt w') ->
  wlp (mod_stream s f) Q w.
Proof.
  intros HL HQ. eapply wlp_mod_stream; [done|]. intros k w' Hk HL'.
  cbn in Hk. rewrite lookup_insert_eq in Hk. apply (inj Some) in Hk.
  apply (HQ k); [done|]. rewrite HL'. unfold with_stream. cbn. by rewrite insert_insert_eq.
Qed.

Lemma forget_conn_new c x L : lf_conns L !! c = None -> forget (OConn c) (with_conn c x L) = L.
Proof. intros Hc. destruct L. unfold with_conn. cbn in *. by rewrite delete_insert_id. Qed.

Lemma forget_stream_new s x L : lf_streams L !! s = None -> forget (OStream s) (with_stream s x L) = L.
Proof. intros Hc. destruct L. unfold with_stream. cbn in *. by rewrite delete_insert_id. Qed.

(** Freeing the half-built object leaves a used address behind. *)
Lemma wlp_abandon_conn L c x (Q : option positive -> world K -> Prop) w :
  life_of w = with_conn c x L -> lf_conns L !! c = None ->
  (forall w', life_of w' = L -> Q None w') -> wlp (free_obj (OConn c);; mret None) Q w.
Proof.
  intros HL Hc HQ. apply wlp_bind. eapply wlp_free_obj; [done|]. intros w' HL'.
  apply wlp_ret, HQ. rewrite HL'. by apply forget_conn_new.
Qed.

Lemma wlp_abandon_stream L s x (Q : option positive -> world K -> Prop) w :
  life_of w = with_stream s x L -> lf_streams L !! s = None ->
  (forall w', life_of w' = L -> Q None w') -> wlp (free_obj (OStream s);; mret None) Q w.
Proof.
  intros HL Hc HQ. apply wlp_bind. eapply wlp_free_obj; [done|]. intros w' HL'.
  apply wlp_ret, HQ. rewrite HL'. by apply forget_stream_new.
Qed.

Definition conn_created init L : life :=
  with_conn (lf_next L) (mk_conn_life CONN_INIT init false (lf_next_id L))
    (L <| lf_next ::= Pos.succ |> <| lf_next_id ::= inc64 |>).

Definition stream_created id c init L : life :=
  with_stream (lf_next L) (mk_stream_life id c init STREAM_OPEN CLOSE_NONE false)
    (L <| lf_next ::= Pos.succ |>).

Lemma conn_created_step init L : lf_next_id L <> 0 -> life_step L (conn_created init L).
Proof. exact (step_conn_new L init). Qed.

Lemma stream_created_step id c k init L :
  lf_conns L !! c = Some k -> cl_state k = CONN_CONNECTED -> id <> 0 ->
  life_step L (stream_created id c init L).
Proof. exact (step_stream_new L id c k init). Qed.

Lemma wlp_conn_new L pa cfg init (Q : option positive -> world K -> Prop) w :
  life_of w = L -> lf_conns L !! lf_next L = None ->
  (forall w', rtc life_step L (life_of w') -> Q None w') ->
  (forall w', lf_next_id L <> 0 -> life_of w' = conn_created init L -> Q (Some (lf_next L)) w') ->
  wlp (kcpmux_conn_new pa cfg init) Q w.
Proof.
  intros HL Hfresh HN HS. unfold kcpmux_conn_new.
  assert (HN0 : forall w', life_of w' = L -> Q None w') by (intros w' E; apply HN; by rewrite E).
  destruct pa as [a|]; [|by apply wlp_ret, HN0].
  case_match; [by apply wlp_ret, HN0|]. case_match; [by apply wlp_ret, HN0|].
  apply wlp_bind. eapply wlp_malloc_conn; [done|intros w1 HL1; by apply wlp_ret, HN0|].
  intros w1 HL1. apply wlp_bind. eapply wlp_mod_conn_new; [done|]. intros k0 w2 Hk0 HL2.
  apply wlp_bind, wlp_gets.
  assert (Hid : e_next_connection_id (w_engine w2) = lf_next_id L)
    by (change (lf_next_id (life_of w2) = lf_next_id L); by rewrite HL2).
  rewrite Hid. set (c := lf_next L) in *.
  assert (Hskip : forall w', life_of w' = L <| lf_next ::= Pos.succ |> -> Q None w')
    by (intros w' HL'; apply HN; rewrite HL'; apply rtc_once, step_skip_addr).
  destruct (Z.eqb_spec (lf_next_id L) 0) as [|Hne]; [by eapply wlp_abandon_conn|].
  assert (Hskip2 : forall w', life_of w' = L <| lf_next ::= Pos.succ |> <| lf_next_id ::= inc64 |> -> Q None w').
  { intros w' HL'. apply HN. rewrite HL'. eapply rtc_l; [apply step_skip_addr|].
    apply rtc_once. by apply step_skip_id. }
  apply wlp_bind. eapply wlp_mod_conn_new; [done|]. intros k1 w3 Hk1 HL3.
  apply wlp_bind, wlp_modify.
  match goal with |- wlp _ _ ?w => assert (HL4 : life_of w =
    with_conn c (mk_conn_life CONN_INIT init false (lf_next_id L))
      (L <| lf_next ::= Pos.succ |> <| lf_next_id ::= inc64 |>)); [|generalize dependent w; intros w4 HL4] end.
  { transitivity ((life_of w3) <| lf_next_id ::= inc64 |>); [done|]. rewrite HL3.
    unfold with_conn. cbn. unfold clife. cbn. subst. injection Hk1 as -> -> -> _.
    injection Hk0 as _ _ -> _. done. }
  clear w1 HL1 HL2 Hid w3 HL3 k0 Hk0 k1 Hk1.
  set (L2 := L <| lf_next ::= Pos.succ |> <| lf_next_id ::= inc64 |>) in *.
  destruct (kcpmux_conn_config_prepare _); [|by eapply wlp_abandon_conn].
  do 3 (eapply wlp_quiet_bind; [exact HL4|quiet|]; intros ? w4' HL4'; clear w4 HL4;
        rename w4' into w4, HL4' into HL4).
  eapply wlp_quiet_bind; [exact HL4|quiet|]. intros om w5 HL5.
  destruct om; [|by eapply wlp_abandon_conn].
  eapply wlp_quiet_bind; [exact HL5|quiet|]. intros _ w6 HL6.
  eapply wlp_quiet_bind; [exact HL6|quiet|]. intros ret w7 HL7.
  case_match; [by eapply wlp_abandon_conn|].
  do 3 (eapply wlp_quiet_bind; [exact HL7|quiet|]; intros ? w4' HL4'; clear w7 HL7;
        rename w4' into w7, HL4' into HL7).
  by apply wlp_ret, HS.
Qed.

Lemma wlp_stream_new L c id cfg init (Q : option positive -> world K -> Prop) w :
  life_of w = L -> lf_streams L !! lf_next L = None ->
  (forall w', rtc life_step L (life_of w') -> Q None w') ->
  (forall w', id <> 0 -> life_of w' = stream_created id c init L -> Q (Some (lf_next L)) w') ->
  wlp (kcpmux_stream_new c id cfg init) Q w.
Proof.
  intros HL Hfresh HN HS. unfold kcpmux_stream_new.
  assert (HN0 : forall w', life_of w' = L -> Q None w') by (intros w' E; apply HN; by rewrite E).
  destruct (Z.eqb_spec id 0); [by apply wlp_ret, HN0|].
  apply wlp_bind. eapply wlp_malloc_stream; [done|intros w1 HL1; by apply wlp_ret, HN0|].
  intros w1 HL1. apply wlp_bind. eapply wlp_mod_stream_new; [done|]. intros k0 w2 Hk0 HL2.
  set (s := lf_next L) in *. set (L2 := L <| lf_next ::= Pos.succ |>) in *.
  assert (Hskip : forall w', life_of w' = L2 -> Q None w')
    by (intros w' HL'; apply HN; rewrite HL'; apply rtc_once, step_skip_addr).
  assert (HL3 : life_of w2 = with_stream s (mk_stream_life id c init STREAM_OPEN CLOSE_NONE false) L2).
  { rewrite HL2. f_equal. injection Hk0 as H1 H2 H3 H4 H5 H6. unfold slife. cbn. congruence. }
  clear w1 HL1 k0 Hk0 HL2.
  do 2 (eapply wlp_quiet_bind; [exact HL3|quiet|]; intros ? w4' HL4'; clear w2 HL3;
        rename w4' into w2, HL4' into HL3).
  destruct (kcpmux_stream_config_prepare _); [|by eapply wlp_abandon_stream].
  eapply wlp_quiet_bind; [exact HL3|quiet|]. intros _ w3 HL4.
  eapply wlp_quiet_bind; [exact HL4|quiet|]. intros ok w4 HL5.
  destruct ok; [|by eapply wlp_abandon_stream].
  eapply wlp_quiet_bind; [exact HL5|quiet|]. intros _ w5 HL6.
  eapply wlp_quiet_bind; [exact HL6|quiet|]. intros ret w6 HL7.
  case_match.
  { eapply wlp_quiet_bind; [exact HL7|quiet|]. intros _ w7 HL8. by eapply wlp_abandon_stream. }
  do 3 (eapply wlp_quiet_bind; [exact HL7|quiet|]; intros ? w4' HL4'; clear w6 HL7;
        rename w4' into w6, HL4' into HL7).
  apply wlp_bind. eapply wlp_mod_stream_new; [done|]. intros st w7 Hst HL8.
  change (slife (st <| s_state := STREAM_OPEN |>)) with ((slife st) <| sl_state := STREAM_OPEN |>) in HL8.
  rewrite Hst in HL8.
  do 2 (eapply wlp_quiet_bind; [exact HL8|quiet|]; intros ? w4' HL4'; clear w7 HL8;
        rename w4' into w7, HL4' into HL8).
  by apply wlp_ret, HS.
Qed.
End rules.

(** ** The entry points *)

Section follows.
Context {KO : Kcp} {HO : Host}.
Implicit Types (c s : positive) (w : world K) (L : life).

(** [m] performs life-cycle steps only. *)
Definition follows {A} (m : W A) : Prop := forall w,
  life_ok (life_of w) -> wlp m (fun _ w' => rtc life_step (life_of w) (life_of w')) w.

Lemma quiet_follows {A} (m : W A) : quiet m -> follows m.
Proof. intros Hm w _. eapply wlp_mono; [apply Hm|]. by intros _ w' ->. Qed.

Lemma follows_bind {A B} (m : W A) (f : A -> W B) :
  follows m -> (forall a, follows (f a)) -> follows (m ≫= f).
Proof.
  intros Hm Hf w Hok. apply wlp_bind. eapply wlp_mono; [by apply Hm|].
  intros a w' Hr. cbn in Hr. eapply wlp_mono; [apply Hf; by eapply life_steps_ok|].
  intros b w'' Hr'. by etrans.
Qed.

Lemma follows_when b (m : W unit) : follows m -> follows (when b m).
Proof. destruct b; [done|]. intros _. apply quiet_follows, quiet_ret. Qed.

Lemma follows_sclose s r : follows (kcpmux_stream_close_internal s r).
Proof.
  intros w _. eapply wlp_stream_close_internal; [done|]. intros w' ->. apply sclose_step.
Qed.

Lemma follows_cclose c r : follows (kcpmux_conn_close_internal c r).
Proof.
  intros w _. eapply wlp_conn_close_internal; [done|]. intros w' ss ->.
  etrans; [apply scloses_step|apply cclose_step].
Qed.

Lemma follows_leave : follows kcpmux_engine_operation_leave.
Proof. intros w _. eapply wlp_operation_leave; [done|]. by intros w'. Qed.

(** A state change from a known state along an edge. *)
Lemma wlp_conn_edge L c k new w :
  life_of w = L -> lf_conns L !! c = Some k -> conn_edge (cl_state k) new ->
  wlp (kcpmux_conn_set_state c new) (fun _ w' => rtc life_step L (life_of w')) w.
Proof.
  intros HL Hk He. eapply wlp_conn_set_state; [done|]. intros k' w' Hk' Hw'.
  rewrite Hk in Hk'. apply (inj Some) in Hk' as <-. rewrite Hw'.
  destruct (cl_closed k) eqn:Hc; [done|]. cbn [orb]. case_bool_decide; [done|].
  by apply rtc_once, (step_conn_state L c k new).
Qed.

Lemma wlp_finalize L s x r now w :
  life_of w = L -> lf_streams L !! s = Some x -> phase_edge (sl_phase x) CLOSE_FINALIZE ->
  wlp (kcpmux_stream_schedule_finalize s r now) (fun _ w' => rtc life_step L (life_of w')) w.
Proof.
  intros HL Hx He. eapply wlp_schedule_finalize; [done|]. intros x' w' Hx' ->.
  rewrite Hx in Hx'. apply (inj Some) in Hx' as <-.
  by apply rtc_once, (step_stream_phase L s x CLOSE_FINALIZE).
Qed.

(** An open stream enters a close phase. *)
Lemma wlp_enter_closing L s x p (f : stream K -> stream K) w :
  life_of w = L -> lf_streams L !! s = Some x -> sl_state x = STREAM_OPEN ->
  p = CLOSE_LOCAL_DRAIN \/ p = CLOSE_REMOTE_DRAIN \/ p = CLOSE_WAIT_ACK ->
  (forall st, slife (f st) = (slife st) <| sl_phase := p |>) ->
  wlp (mod_stream s f;; kcpmux_stream_set_state s STREAM_CLOSING)
    (fun _ w' => rtc life_step L (life_of w') /\ exists x', lf_streams (life_of w') !! s = Some x' /\
       sl_phase x' = p) w.
Proof.
  intros HL Hx Ho Hp Hf. apply wlp_bind.
  eapply wlp_mono; [by apply (wlp_upd_stream L s x f (fun x => x <| sl_phase := p |>))|].
  intros [] w1 HL1. cbv beta in HL1.
  eapply wlp_stream_set_state; [exact HL1|]. intros x' w' Hx' Hw'.
  cbn in Hx'. rewrite lookup_insert_eq in Hx'. apply (inj Some) in Hx'. rewrite Hw', <- Hx'. cbn.
  rewrite Ho. rewrite bool_decide_eq_false_2 by done. cbn. rewrite insert_insert_eq.
  split; [by apply rtc_once, (step_stream_closing L s x p)|].
  eexists. rewrite lookup_insert_eq. done.
Qed.
End follows.

Ltac follows_step :=
  lazymatch goal with
  | |- follows (mbind _ _) => apply follows_bind; [|intros ?]
  | |- follows (when _ _) => apply follows_when
  | |- follows (match _ with _ => _ end) => case_match
  | |- follows (let _ := _ in _) => cbv zeta
  | |- follows _ => first [solve [apply quiet_follows; quiet] | solve [eauto with quiet]]
  end.
Ltac follows := repeat follows_step.
