(* ===== verification/LifeEntry.v ===== *)
(** * The entry points follow the life-cycle machine

    [call] is the public interface: one constructor per function of
    include/kcpmux/kcpmux.h that changes state, with its arguments.  Every call
    is shown to perform life-cycle steps, whatever the host and KCP answer. *)

From S2P Require Import Prelude Types Timer Hashtable Vectored World Engine Conn Messages Stream Mux Life LifeSim.
From stdpp Require Import relations.
#[local] Open Scope Z_scope.

Section entry.
Context {KO : Kcp} {HO : Host}.
Implicit Types (c s : positive) (w : world K) (L : life).

#[local] Hint Resolve follows_sclose follows_cclose follows_leave : quiet.

Lemma life_ok_fresh L : life_ok L -> lf_conns L !! lf_next L = None /\ lf_streams L !! lf_next L = None.
Proof.
  intros Hok. split.
  - destruct (lf_conns L !! lf_next L) eqn:E; [|done]. apply (lok_conn_addr _ Hok) in E. lia.
  - destruct (lf_streams L !! lf_next L) eqn:E; [|done]. apply (lok_stream_addr _ Hok) in E. lia.
Qed.

(** Sequencing after steps already made. *)
Lemma wlp_then {A B} L (m : W A) (f : A -> W B) w :
  life_ok L -> wlp m (fun _ w' => rtc life_step L (life_of w')) w ->
  (forall a, follows (f a)) ->
  wlp (m ≫= f) (fun _ w' => rtc life_step L (life_of w')) w.
Proof.
  intros Hok Hm Hf. apply wlp_bind. eapply wlp_mono; [exact Hm|]. intros a w' Hr. cbn in Hr.
  eapply wlp_mono; [apply Hf; by eapply life_steps_ok|]. intros b w'' Hr'. by etrans.
Qed.

Lemma wlp_bind_assoc {A B C} (m : W A) (n : A -> W B) (f : B -> W C) Q w :
  wlp ((m ≫= n) ≫= f) Q w -> wlp (m ≫= fun a => n a ≫= f) Q w.
Proof. unfold wlp, mbind, M_bind. by destruct (m w) as [[??]|]. Qed.

(** ** Streams *)

Lemma follows_advance s now : follows (kcpmux_stream_advance_local_close s now).
Proof.
  intros w Hok. unfold kcpmux_stream_advance_local_close.
  eapply wlp_get_stream; [done|]. intros st Hst.
  destruct (s_internal_closed st) eqn:Hcl; cbn; [by apply wlp_ret|].
  case_bool_decide as Hph; cbn; [|by apply wlp_ret].
  eapply wlp_quiet_bind; [done|quiet|]. intros n w1 HL1.
  case_match; [apply wlp_ret; by rewrite HL1|].
  apply wlp_then; [done| |intros; follows].
  eapply wlp_mono.
  { by eapply (wlp_upd_stream _ s (slife st) _ (fun x => x <| sl_phase := CLOSE_WAIT_ACK |>)). }
  intros _ w2 ->. apply rtc_once, (step_stream_phase _ s (slife st)); [done|].
  cbn. rewrite Hph. constructor.
Qed.
#[local] Hint Resolve follows_advance : quiet.

Lemma follows_stream_create_body c cfg cbs ud : follows (stream_create_body c cfg cbs ud).
Proof.
  intros w Hok. unfold stream_create_body. destruct (life_ok_fresh _ Hok) as [_ Hfr].
  eapply wlp_quiet_bind; [done|quiet|]. intros _ w1 HL1.
  eapply wlp_get_conn; [exact HL1|]. intros k Hk.
  case_bool_decide as Hst; cbn; [|apply wlp_ret; by rewrite HL1].
  eapply wlp_quiet_bind; [exact HL1|quiet|]. intros id w2 HL2.
  case_match; [apply wlp_ret; by rewrite HL2|].
  apply wlp_then; [done| |intros; follows].
  eapply wlp_stream_new; [exact HL2|done|done|]. intros w3 Hid ->.
  by eapply rtc_once, stream_created_step.
Qed.
#[local] Hint Resolve follows_stream_create_body : quiet.

Lemma follows_stream_create oc cfg cbs ud : follows (kcpmux_stream_create oc cfg cbs ud).
Proof. unfold kcpmux_stream_create. follows. Qed.

Lemma follows_stream_close_body s : follows (stream_close_body s).
Proof.
  intros w Hok. unfold stream_close_body.
  eapply wlp_quiet_bind; [done|quiet|]. intros _ w1 HL1.
  eapply wlp_get_stream; [exact HL1|]. intros st Hst.
  destruct (s_state st) eqn:Hs; [| |apply wlp_ret; by rewrite HL1|apply wlp_ret; by rewrite HL1].
  - eapply wlp_quiet_bind; [exact HL1|quiet|]. intros now w2 HL2.
    apply wlp_bind_assoc, wlp_then; [done| |intros; follows].
    eapply wlp_mono; [apply (wlp_enter_closing _ s (slife st) CLOSE_LOCAL_DRAIN _ _ HL2 Hst Hs); [auto|done]|].
    by intros _ w' [? _].
  - case_bool_decide as Hp; [|apply wlp_ret; by rewrite HL1].
    eapply wlp_quiet_bind; [exact HL1|quiet|]. intros now w2 HL2.
    eapply wlp_finalize; [exact HL2|done|]. cbn. rewrite Hp. constructor.
Qed.
#[local] Hint Resolve follows_stream_close_body : quiet.

Lemma follows_stream_close os : follows (kcpmux_stream_close os).
Proof. unfold kcpmux_stream_close. follows. Qed.

Lemma follows_send_chunks {C} (f : send_chunk_fn C) s n fl v x :
  (forall x n, quiet (f s x n)) -> follows (kcpmux_stream_send_chunks s n fl v f x).
Proof. intros Hf. unfold kcpmux_stream_send_chunks. follows. Qed.
#[local] Hint Resolve follows_send_chunks : quiet.

Lemma follows_send os b fl : follows (kcpmux_stream_send os b fl).
Proof. unfold kcpmux_stream_send. follows. Qed.

Lemma follows_sendv os b fl : follows (kcpmux_stream_sendv os b fl).
Proof. unfold kcpmux_stream_sendv. follows. Qed.

Lemma follows_recv os n : follows (kcpmux_stream_recv os n).
Proof.
  unfold kcpmux_stream_recv. destruct os as [s|]; [|follows]. case_match; [follows|].
  do 3 (apply follows_bind; [follows|intros ?]).
  case_match; [follows|]. case_match; [follows|]. case_match; [follows|].
  apply follows_bind; [follows|intros k]. case_match. case_match.
  apply follows_bind; [follows|intros _]. case_match; [follows|].
  apply follows_bind; [follows|intros _]. apply follows_bind; [follows|intros left].
  apply follows_bind; [|intros _; follows]. apply follows_when.
  intros w Hok. eapply wlp_quiet_bind; [done|quiet|]. intros now w1 HL1.
  eapply wlp_get_stream; [exact HL1|]. intros st Hst.
  case_bool_decide as Hs; cbn; [case_bool_decide as Hp|].
  - eapply wlp_finalize; [exact HL1|done|]. cbn. rewrite Hp. constructor.
  - eapply wlp_quiet; [exact HL1|quiet|]. by intros _ w' ->.
  - eapply wlp_quiet; [exact HL1|quiet|]. by intros _ w' ->.
Qed.

Lemma follows_stream_update_body s now : follows (stream_update_body s now).
Proof. unfold stream_update_body. follows. Qed.
#[local] Hint Resolve follows_stream_update_body : quiet.

Lemma follows_stream_update s now : follows (kcpmux_stream_update s now).
Proof. unfold kcpmux_stream_update. follows. Qed.

Lemma follows_handle_close s r : follows (kcpmux_stream_handle_close s r).
Proof.
  intros w Hok. unfold kcpmux_stream_handle_close.
  eapply wlp_get_stream; [done|]. intros st Hst.
  case_match; [by apply wlp_ret|]. case_match.
  { match goal with |- wlp ?m _ _ => assert (Hf : follows m) by follows end. by apply Hf. }
  eapply wlp_quiet_bind; [done|quiet|]. intros _ w1 HL1.
  eapply wlp_quiet_bind; [exact HL1|quiet|]. intros now w2 HL2.
  destruct (s_state st) eqn:Hs; [| |apply wlp_ret; by rewrite HL2|apply wlp_ret; by rewrite HL2].
  - eapply wlp_quiet_bind; [exact HL2|quiet|]. intros _ w3 HL3.
    apply wlp_bind_assoc, wlp_bind.
    eapply wlp_mono; [apply (wlp_enter_closing _ s (slife st) CLOSE_REMOTE_DRAIN _ _ HL3 Hst Hs); [auto|done]|].
    intros _ w4 (Hr & x & Hx & Hp). 
    assert (Hok4 : life_ok (life_of w4)) by by eapply life_steps_ok.
    eapply wlp_quiet_bind; [done|quiet|]. intros n w5 HL5.
    eapply wlp_mono; [|intros ? ? Hr'; etrans; [exact Hr|exact Hr']].
    apply wlp_then; [done| |intros; follows].
    apply wlp_when; [intros _|intros _; by rewrite HL5].
    eapply wlp_finalize; [exact HL5|done|]. rewrite Hp. constructor.
  - destruct (s_close_phase st) eqn:Hp.
    + apply wlp_ret. by rewrite HL2.
    + eapply wlp_quiet_bind; [exact HL2|quiet|]. intros _ w3 HL3.
      apply wlp_then; [done| |intros; follows].
      eapply wlp_finalize; [exact HL3|done|]. cbn. rewrite Hp. constructor.
    + eapply wlp_quiet_bind; [exact HL2|quiet|]. intros _ w3 HL3.
      apply wlp_then; [done| |intros; follows].
      eapply wlp_finalize; [exact HL3|done|]. cbn. rewrite Hp. constructor.
    + eapply wlp_quiet; [exact HL2|quiet|]. by intros _ w' ->.
    + eapply wlp_quiet; [exact HL2|quiet|]. by intros _ w' ->.
Qed.
#[local] Hint Resolve follows_stream_update follows_handle_close : quiet.

(** ** Connections *)

Lemma follows_conn_update_body c now : follows (conn_update_body c now).
Proof.
  intros w Hok. unfold conn_update_body. eapply wlp_get_conn; [done|]. intros k Hk. cbv zeta.
  destruct (c_state k) eqn:Hs.
  1, 5, 6: by apply wlp_ret.
  - case_match; [|by apply wlp_ret]. case_match.
    { eapply wlp_quiet; [done|quiet|]. by intros _ w' ->. }
    apply wlp_then; [done| |intros; follows].
    eapply wlp_conn_edge; [done|done|]. cbn. rewrite Hs. constructor.
  - case_match; [|case_match].
    + apply wlp_then; [done| |intros; follows].
      eapply wlp_conn_edge; [done|done|]. cbn. rewrite Hs. constructor.
    + apply wlp_then; [done| |intros; follows].
      eapply wlp_conn_edge; [done|done|]. cbn. rewrite Hs. constructor.
    + eapply wlp_quiet; [done|quiet|]. by intros _ w' ->.
  - match goal with |- wlp ?m _ _ => assert (Hf : follows m) by follows end. by apply Hf.
Qed.
#[local] Hint Resolve follows_conn_update_body : quiet.

Lemma follows_conn_update c now : follows (kcpmux_conn_update c now).
Proof. unfold kcpmux_conn_update. follows. Qed.

Lemma follows_conn_close_body c : follows (conn_close_body c).
Proof.
  intros w Hok. unfold conn_close_body.
  eapply wlp_quiet_bind; [done|quiet|]. intros _ w1 HL1.
  eapply wlp_get_conn; [exact HL1|]. intros k Hk.
  case_match; [apply wlp_ret; by rewrite HL1|].
  assert (Hedge : match c_state k with CONN_CLOSING | CONN_CLOSED | CONN_ERROR => True
                  | _ => conn_edge (c_state k) CONN_CLOSING end)
    by (destruct (c_state k); constructor).
  destruct (c_state k) eqn:Hs; try (apply wlp_ret; by rewrite HL1).
  all: eapply wlp_quiet_bind; [exact HL1|quiet|]; intros now w2 HL2;
    eapply wlp_quiet_bind; [exact HL2|quiet|]; intros _ w3 HL3;
    apply wlp_then; [done| |intros; follows];
    eapply wlp_conn_edge; [exact HL3|done|]; cbn; by rewrite Hs.
Qed.
#[local] Hint Resolve follows_conn_update follows_conn_close_body : quiet.

Lemma follows_conn_close oc : follows (kcpmux_conn_close oc).
Proof. unfold kcpmux_conn_close. follows. Qed.

(** The connection just created is in state INIT and not closed. *)
Lemma conn_created_lookup init L :
  lf_conns (conn_created init L) !! lf_next L = Some (mk_conn_life CONN_INIT init false (lf_next_id L)).
Proof. apply lookup_insert_eq. Qed.

Lemma stream_created_lookup id c init L :
  lf_streams (stream_created id c init L) !! lf_next L =
  Some (mk_stream_life id c init STREAM_OPEN CLOSE_NONE false).
Proof. apply lookup_insert_eq. Qed.

Lemma follows_connect a cfg ext cbs ud : follows (kcpmux_conn_connect a cfg ext cbs ud).
Proof.
  intros w Hok. unfold kcpmux_conn_connect. destruct (life_ok_fresh _ Hok) as [Hfr _].
  destruct a as [a|]; [|by apply wlp_ret].
  eapply wlp_quiet_bind; [done|quiet|]. intros _ w1 HL1.
  eapply wlp_quiet_bind; [exact HL1|quiet|]. intros _ w2 HL2.
  apply wlp_bind. eapply wlp_conn_new; [exact HL2|done| |].
  { intros w3 Hr. assert (Hf : follows (kcpmux_engine_operation_leave;; mret (M := W) (@None positive)))
      by follows.
    eapply wlp_mono; [apply Hf; by eapply life_steps_ok|]. intros ? ? Hr'. by etrans. }
  intros w3 Hid HL3. set (c := lf_next (life_of w)) in *. set (L := conn_created true (life_of w)) in *.
  assert (Hstep : life_step (life_of w) L) by by apply conn_created_step.
  eapply wlp_mono; [|intros ? ? Hr; eapply rtc_l; [exact Hstep|exact Hr]].
  assert (HokL : life_ok L) by by eapply life_step_ok.
  do 5 (eapply wlp_quiet_bind; [exact HL3|quiet|]; intros ? w3' HL3'; clear w3 HL3;
        rename w3' into w3, HL3' into HL3).
  apply wlp_then; [done| |intros; follows].
  eapply wlp_mono; [eapply (wlp_upd_conn L c _ _ (fun k => k <| cl_state := CONN_CONNECTING |>) w3 HL3);
    [apply conn_created_lookup|done]|].
  intros _ w4 ->. eapply rtc_once, step_conn_state; [apply conn_created_lookup|done|constructor].
Qed.

(** ** Received packets *)

Lemma follows_accept_connect b a i n t : follows (accept_connect b a i n t).
Proof.
  intros w Hok. unfold accept_connect, accept_ask, accept_answer, accept_reply. destruct (life_ok_fresh _ Hok) as [Hfr _].
  apply wlp_bind. eapply wlp_conn_new; [done|done| |].
  { intros w1 Hr. by apply wlp_ret. }
  intros w3 Hid HL3. set (c := lf_next (life_of w)) in *. set (L := conn_created false (life_of w)) in *.
  assert (Hstep : life_step (life_of w) L) by by apply conn_created_step.
  eapply wlp_mono; [|intros ? ? Hr; eapply rtc_l; [exact Hstep|exact Hr]].
  assert (HokL : life_ok L) by by eapply life_step_ok.
  do 8 (eapply wlp_quiet_bind; [exact HL3|quiet|]; intros ? w3' HL3'; clear w3 HL3;
        rename w3' into w3, HL3' into HL3).
  eapply wlp_quiet_bind; [exact HL3|quiet|]; intros _ w4 HL4.
  apply wlp_then; [done| |intros; follows]. case_match.
  - apply wlp_then; [done| |intros; follows].
    eapply wlp_conn_edge; [exact HL4|apply conn_created_lookup|constructor].
  - match goal with |- wlp ?m _ _ => assert (Hf : follows m) by follows end.
    rewrite <- HL4 in *. by apply Hf.
Qed.
#[local] Hint Resolve follows_accept_connect : quiet.

Lemma wlp_stream_error L s x w :
  life_of w = L -> lf_streams L !! s = Some x -> sl_state x = STREAM_OPEN ->
  wlp (kcpmux_stream_set_state s STREAM_ERROR) (fun _ w' => rtc life_step L (life_of w')) w.
Proof.
  intros HL Hx Ho. eapply wlp_stream_set_state; [done|]. intros x' w' Hx' Hw'.
  rewrite Hx in Hx'. apply (inj Some) in Hx' as <-. rewrite Hw', Ho.
  rewrite bool_decide_eq_false_2 by done. by apply rtc_once, step_stream_error.
Qed.

(** A peer's stream is created on a connected connection only. *)
Lemma wlp_accept_stream b c k i t f w :
  life_ok (life_of w) -> lf_conns (life_of w) !! c = Some k -> cl_state k = CONN_CONNECTED ->
  wlp (accept_stream b c i t f) (fun _ w' => rtc life_step (life_of w) (life_of w')) w.
Proof.
  intros Hok Hk Hs. unfold accept_stream. destruct (life_ok_fresh _ Hok) as [_ Hfr].
  apply wlp_bind. eapply wlp_stream_new; [done|done| |].
  { intros w1 Hr. by apply wlp_ret. }
  intros w3 Hid HL3. set (s := lf_next (life_of w)) in *.
  set (L := stream_created i c false (life_of w)) in *.
  assert (Hstep : life_step (life_of w) L) by by eapply stream_created_step.
  eapply wlp_mono; [|intros ? ? Hr; eapply rtc_l; [exact Hstep|exact Hr]].
  assert (HokL : life_ok L) by by eapply life_step_ok.
  do 5 (eapply wlp_quiet_bind; [exact HL3|quiet|]; intros ? w3' HL3'; clear w3 HL3;
        rename w3' into w3, HL3' into HL3).
  case_match.
  - apply wlp_bind_assoc, wlp_then; [done| |intros; follows].
    eapply wlp_mono; [apply (wlp_enter_closing L s _ CLOSE_WAIT_ACK _ w3 HL3
      (stream_created_lookup i c false (life_of w)) eq_refl); [auto|done]|].
    by intros _ w' [? _].
  - eapply wlp_quiet_bind; [exact HL3|quiet|]. intros ret w4 HL4.
    apply wlp_then; [done| |intros; follows]. case_match.
    + apply wlp_then; [done| |intros; follows].
      eapply wlp_stream_error; [exact HL4|apply stream_created_lookup|done].
    + eapply wlp_quiet; [exact HL4|quiet|]. by intros _ w' ->.
Qed.

Lemma follows_input_payload b c t : follows (input_stream_payload b c t).
Proof.
  intros w Hok. unfold input_stream_payload. eapply wlp_get_conn; [done|]. intros k Hk.
  case_bool_decide as Hs; cbn; [|by apply wlp_ret]. case_match; [by apply wlp_ret|].
  eapply wlp_quiet_bind; [done|quiet|]. intros i w1 HL1.
  case_match; [apply wlp_ret; by rewrite HL1|].
  eapply wlp_quiet_bind; [exact HL1|quiet|]. intros os w2 HL2.
  destruct os as [s|]; [eapply wlp_quiet; [exact HL2|quiet|]; by intros _ w' ->|].
  case_match; [apply wlp_ret; by rewrite HL2|]. case_match; [apply wlp_ret; by rewrite HL2|].
  case_match; [|apply wlp_ret; by rewrite HL2].
  rewrite <- HL2 in Hok, Hk |- *. by eapply wlp_accept_stream.
Qed.

Lemma follows_input_connect_ack b c t : follows (input_connect_ack b c t).
Proof.
  intros w Hok. unfold input_connect_ack. eapply wlp_get_conn; [done|]. intros k Hk.
  case_bool_decide as Hs; cbn; [|by apply wlp_ret]. case_match; [by apply wlp_ret|].
  eapply wlp_quiet_bind; [done|quiet|]. intros i w1 HL1.
  case_match; [apply wlp_ret; by rewrite HL1|].
  do 3 (eapply wlp_quiet_bind; [exact HL1|quiet|]; intros ? w1' HL1'; clear w1 HL1;
        rename w1' into w1, HL1' into HL1).
  case_match; [apply wlp_ret; by rewrite HL1|]. case_match; [apply wlp_ret; by rewrite HL1|].
  eapply wlp_quiet_bind; [exact HL1|quiet|]. intros _ w2 HL2.
  apply wlp_then; [done| |intros; follows]. case_match.
  - do 2 (eapply wlp_quiet_bind; [exact HL2|quiet|]; intros ? w1' HL1'; clear w2 HL2;
        rename w1' into w2, HL1' into HL2).
    eapply wlp_conn_edge; [exact HL2|done|]. cbn. rewrite Hs. constructor.
  - eapply wlp_quiet_bind; [exact HL2|quiet|]. intros _ w3 HL3.
    apply wlp_then; [done| |intros; follows].
    eapply wlp_conn_edge; [exact HL3|done|]. cbn. rewrite Hs. constructor.
Qed.
#[local] Hint Resolve follows_input_payload follows_input_connect_ack : quiet.

Lemma follows_input_connect b a i t : follows (input_connect b a i t).
Proof. unfold input_connect. follows. Qed.
Lemma follows_input_keepalive b c t : follows (input_keepalive b c t).
Proof. unfold input_keepalive. follows. Qed.
Lemma follows_input_conn_close b c t : follows (input_conn_close b c t).
Proof. unfold input_conn_close. follows. Qed.
Lemma follows_input_conn_close_ack b c t : follows (input_conn_close_ack b c t).
Proof. unfold input_conn_close_ack. follows. Qed.
Lemma follows_input_stream_close b c t : follows (input_stream_close b c t).
Proof. unfold input_stream_close. follows. Qed.
Lemma follows_input_stream_close_ack b c t : follows (input_stream_close_ack b c t).
Proof. unfold input_stream_close_ack. follows. Qed.
#[local] Hint Resolve follows_input_connect follows_input_keepalive follows_input_conn_close
  follows_input_conn_close_ack follows_input_stream_close follows_input_stream_close_ack : quiet.

Lemma follows_protocol_input b a t : follows (kcpmux_protocol_input b a t).
Proof. unfold kcpmux_protocol_input. follows. Qed.
#[local] Hint Resolve follows_protocol_input : quiet.

(** ** Engine *)

Lemma follows_destroy_loop fuel : follows (destroy_loop fuel).
Proof. induction fuel; cbn [destroy_loop]; follows. Qed.

Lemma follows_dispatch_loop fuel now : follows (dispatch_loop fuel now).
Proof. induction fuel; cbn [dispatch_loop]; unfold run_timeout; follows. Qed.

Lemma quiet_finish_batch_loop fuel now : quiet (finish_batch_loop fuel now).
Proof. induction fuel; cbn [finish_batch_loop]; quiet. Qed.
#[local] Hint Resolve follows_destroy_loop follows_dispatch_loop quiet_finish_batch_loop : quiet.

Lemma follows_engine_update : follows kcpmux_engine_update.
Proof. unfold kcpmux_engine_update. follows. Qed.
Lemma follows_engine_input b a : follows (kcpmux_engine_input b a).
Proof. unfold kcpmux_engine_input. follows. Qed.
Lemma follows_engine_finish_batch : follows kcpmux_engine_finish_batch.
Proof. unfold kcpmux_engine_finish_batch. follows. Qed.
Lemma follows_engine_destroy : follows kcpmux_engine_destroy.
Proof. unfold kcpmux_engine_destroy. follows. Qed.
End entry.
