(* ===== verification/LifeSpec.v ===== *)
(** * Guarantees on handles, for every sequence of calls

    [call] is the public interface: one constructor per function of
    include/kcpmux/kcpmux.h that changes state, with its arguments.  The
    theorems hold for every host, every KCP implementation and every sequence
    of calls. *)

From S2P Require Import Prelude Types Timer Hashtable Vectored World Engine Conn Messages Stream Mux Life LifeSim LifeEntry Sample.
From stdpp Require Import relations.
#[local] Open Scope Z_scope.

Inductive call :=
| CallConnect (a : option (list Z)) (config : option conn_config) (ext : option proto_ext)
    (cbs : option conn_callbacks) (user_data : Z)
| CallConnClose (c : option positive)
| CallConnSetConfig (c : option positive) (config : option conn_config)
| CallConnSetCallbacks (c : option positive) (cbs : option conn_callbacks) (user_data : Z)
| CallStreamCreate (c : option positive) (config : option stream_config)
    (cbs : option stream_callbacks) (user_data : Z)
| CallStreamClose (s : option positive)
| CallStreamSetConfig (s : option positive) (config : option stream_config)
| CallStreamSetCallbacks (s : option positive) (cbs : option stream_callbacks) (user_data : Z)
| CallStreamSend (s : option positive) (buf : option (list Z)) (flush : bool)
| CallStreamSendv (s : option positive) (iov : option (list iovec)) (flush : bool)
| CallStreamFinishBatch (s : option positive)
| CallStreamPeekSize (s : option positive)
| CallStreamRecv (s : option positive) (size : Z)
| CallEngineSetConfig (config : option engine_config)
| CallEngineUpdate
| CallEngineInput (buf a : option (list Z))
| CallEngineFinishBatch.

Section spec.
Context {KO : Kcp} {HO : Host}.
Implicit Types (c s : positive) (w : world K) (L : life).

Definition forget_result {A} (m : W A) : W unit := _ ← m; mret tt.

Definition exec (x : call) : W unit :=
  match x with
  | CallConnect a cfg ext cbs ud => forget_result (kcpmux_conn_connect a cfg ext cbs ud)
  | CallConnClose c => forget_result (kcpmux_conn_close c)
  | CallConnSetConfig c cfg => kcpmux_conn_set_config c cfg
  | CallConnSetCallbacks c cbs ud => kcpmux_conn_set_callbacks c cbs ud
  | CallStreamCreate c cfg cbs ud => forget_result (kcpmux_stream_create c cfg cbs ud)
  | CallStreamClose s => forget_result (kcpmux_stream_close s)
  | CallStreamSetConfig s cfg => kcpmux_stream_set_config s cfg
  | CallStreamSetCallbacks s cbs ud => kcpmux_stream_set_callbacks s cbs ud
  | CallStreamSend s buf fl => forget_result (kcpmux_stream_send s buf fl)
  | CallStreamSendv s iov fl => forget_result (kcpmux_stream_sendv s iov fl)
  | CallStreamFinishBatch s => kcpmux_stream_finish_batch s
  | CallStreamPeekSize s => forget_result (kcpmux_stream_peek_size s)
  | CallStreamRecv s n => forget_result (kcpmux_stream_recv s n)
  | CallEngineSetConfig cfg => kcpmux_engine_set_config cfg
  | CallEngineUpdate => kcpmux_engine_update
  | CallEngineInput buf a => forget_result (kcpmux_engine_input buf a)
  | CallEngineFinishBatch => kcpmux_engine_finish_batch
  end.

Definition exec_all (l : list call) : W unit := for_each exec l.

#[local] Hint Resolve quiet_engine_set_config follows_connect follows_conn_close follows_stream_create follows_stream_close
  follows_send follows_sendv follows_recv follows_engine_update follows_engine_input
  follows_engine_finish_batch : quiet.

Lemma follows_exec x : follows (exec x).
Proof. destruct x; cbn [exec]; unfold forget_result; follows. Qed.

Lemma follows_exec_all l : follows (exec_all l).
Proof.
  induction l as [|x l IH]; [apply quiet_follows, quiet_ret|].
  apply follows_bind; [apply follows_exec|done].
Qed.

(** C3. Every call of the public interface, on every input and whatever the
    host and KCP answer, changes connections and streams only by the steps of
    the life-cycle machine: states advance along its edges, an object is closed
    once, memory is released only for closed objects and in the order they were
    closed. *)
Theorem calls_refine_life_cycle x w w' :
  life_ok (life_of w) -> exec x w = Some (tt, w') ->
  rtc life_step (life_of w) (life_of w').
Proof. intros Hok Hrun. exact (follows_exec x w Hok tt w' Hrun). Qed.

(** ** From engine creation on *)

Lemma create_next_id ec dc ds cb ud tr e tr' :
  kcpmux_engine_create ec dc ds cb ud tr = Some (Some e, tr') ->
  0 < e_next_connection_id e < 2 ^ 63 /\ e_pending_release_list e = [] /\ e_operation_depth e = 0 /\
  e_timer_node_count e = 0 /\ is_Some (ecb_set_timer (e_callbacks e)).
Proof.
  unfold kcpmux_engine_create. destruct cb as [cb|]; [|done].
  destruct (kcpmux_engine_callbacks_valid cb) eqn:Hcb; [|done]. cbn [negb]. case_match; [|done]. case_match; [|done].
  unfold mbind, M_bind. 
  destruct (ask_tr _ _ tr) as [[ok tr1]|]; [|done]. destruct ok; cbn; [|done].
  destruct (htb_new_tr 64 tr1) as [[[m|] tr2]|]; [|done..]. cbn.
  destruct (htb_new_tr 64 tr2) as [[[h|] tr3]|]; [|done..]. cbn.
  destruct (random_u64_tr cb tr3) as [[r tr4]|]; [|done]. intros [= <- _].
  cbn [e_next_connection_id e_pending_release_list e_operation_depth e_timer_node_count e_callbacks].
  apply andb_prop in Hcb as [[Hset%bool_decide_eq_true _]%andb_prop _]. split; [|done]. change (Z.shiftr UINT64_MAX 1) with (Z.ones 63).
  rewrite Z.land_ones by lia. pose proof (Z.mod_pos_bound r (2 ^ 63) ltac:(lia)).
  destruct (Z.eqb_spec (r mod 2 ^ 63) 0); lia.
Qed.

Lemma boot_life_ok e tr :
  0 < e_next_connection_id e < 2 ^ 63 -> e_pending_release_list e = [] ->
  life_ok (life_of (boot e tr)).
Proof.
  intros Hid Hp. constructor; cbn; rewrite ?Hp, ?fmap_empty; intros *; try (by rewrite lookup_empty);
    try (by intros []%elem_of_nil); try (constructor; fail).
  unfold in_u. lia.
Qed.

Lemma reachable_life_ok ec dc ds cb ud tr e tr' l w :
  kcpmux_engine_create ec dc ds cb ud tr = Some (Some e, tr') ->
  exec_all l (boot e tr') = Some (tt, w) -> life_ok (life_of w).
Proof.
  intros Hc Hrun. destruct (create_next_id _ _ _ _ _ _ _ _ Hc) as (Hid & Hp & _).
  pose proof (boot_life_ok e tr' Hid Hp) as Hok.
  eapply life_steps_ok; [exact Hok|]. exact (follows_exec_all l _ Hok tt w Hrun).
Qed.

(** C24. Connection identifiers name connections: in every state reached from
    engine creation by any sequence of calls, each live connection has a
    nonzero identifier and no two live connections share one, so that a packet's
    destination identifier is never ambiguous; the handles given out are
    distinct from each other as well. *)
Theorem connection_ids_unique ec dc ds cb ud tr e tr' l w c c' k k' :
  kcpmux_engine_create ec dc ds cb ud tr = Some (Some e, tr') ->
  exec_all l (boot e tr') = Some (tt, w) ->
  w_conns w !! c = Some k -> w_conns w !! c' = Some k' ->
  0 < c_local_connection_id k < 2 ^ 64 /\
  (c_local_connection_id k = c_local_connection_id k' -> c = c').
Proof.
  intros Hc Hrun Hk Hk'. pose proof (reachable_life_ok _ _ _ _ _ _ _ _ _ _ Hc Hrun) as Hok.
  assert (HL : lf_conns (life_of w) !! c = Some (clife k)) by (cbn; by rewrite lookup_fmap, Hk).
  assert (HL' : lf_conns (life_of w) !! c' = Some (clife k')) by (cbn; by rewrite lookup_fmap, Hk').
  split; [by apply (lok_id _ Hok _ _ HL)|]. exact (lok_id_inj _ Hok _ _ _ _ HL HL').
Qed.

(** C25. A stream's close phase agrees with its state in every reachable world:
    an open stream is in no close phase, a closing one is in some phase, a
    closed one has reached a terminal state, and its identifier is not zero. *)
Theorem stream_phase_consistent ec dc ds cb ud tr e tr' l w s st :
  kcpmux_engine_create ec dc ds cb ud tr = Some (Some e, tr') ->
  exec_all l (boot e tr') = Some (tt, w) ->
  w_streams w !! s = Some st ->
  s_stream_id st <> 0 /\
  (s_state st = STREAM_OPEN -> s_close_phase st = CLOSE_NONE /\ s_internal_closed st = false) /\
  (s_state st = STREAM_CLOSING -> s_close_phase st <> CLOSE_NONE /\ s_internal_closed st = false) /\
  (s_state st = STREAM_CLOSED <-> s_internal_closed st = true /\ s_state st <> STREAM_ERROR).
Proof.
  intros Hc Hrun Hs. pose proof (reachable_life_ok _ _ _ _ _ _ _ _ _ _ Hc Hrun) as Hok.
  assert (HL : lf_streams (life_of w) !! s = Some (slife st)) by (cbn; by rewrite lookup_fmap, Hs).
  assert (Hcl : s_internal_closed st = true -> closed_stream (s_state st))
    by (intros Hx; by apply (lok_stream_closed _ Hok s (slife st))).
  unfold closed_stream in Hcl. split; [by apply (lok_stream_id _ Hok s (slife st))|].
  split; [|split; [|split]].
  - intros Ho. split; [by apply (lok_open _ Hok s (slife st))|].
    destruct (s_internal_closed st); [|done]. destruct Hcl; congruence.
  - intros Ho. split; [by apply (lok_closing _ Hok s (slife st))|].
    destruct (s_internal_closed st); [|done]. destruct Hcl; congruence.
  - intros Hx. split; [by apply (lok_stream_state _ Hok s (slife st))|congruence].
  - intros [Hx Hne]. destruct (Hcl Hx); congruence.
Qed.

(** ** Progress of a handle's life *)

Definition conn_rank (x : conn_state) : Z :=
  match x with
  | CONN_INIT => 0 | CONN_CONNECTING => 1 | CONN_CONNECTED => 2 | CONN_CLOSING => 3
  | CONN_CLOSED | CONN_ERROR => 4
  end.
Definition stream_rank (x : stream_state) : Z :=
  match x with
  | STREAM_OPEN => 0 | STREAM_CLOSING => 1 | STREAM_CLOSED | STREAM_ERROR => 2
  end.

Record conn_le (k k' : conn_life) : Prop := {
  conn_le_id : cl_local_id k' = cl_local_id k;
  conn_le_initiator : cl_initiator k' = cl_initiator k;
  conn_le_closed : cl_closed k = true -> cl_closed k' = true;
  conn_le_state : cl_state k' = cl_state k \/ conn_rank (cl_state k) < conn_rank (cl_state k')
}.

Record stream_le (x x' : stream_life) : Prop := {
  stream_le_id : sl_id x' = sl_id x;
  stream_le_conn : sl_conn x' = sl_conn x;
  stream_le_closed : sl_closed x = true -> sl_closed x' = true;
  stream_le_state : sl_state x' = sl_state x \/ stream_rank (sl_state x) < stream_rank (sl_state x')
}.

(** [life_le L L']: what was dead stays dead, what is alive in both has only
    advanced. *)
Record life_le L L' : Prop := {
  le_next : (lf_next L <= lf_next L')%positive;
  le_conn c k' : (c < lf_next L)%positive -> lf_conns L' !! c = Some k' ->
    exists k, lf_conns L !! c = Some k /\ conn_le k k';
  le_stream s x' : (s < lf_next L)%positive -> lf_streams L' !! s = Some x' ->
    exists x, lf_streams L !! s = Some x /\ stream_le x x'
}.

Lemma conn_le_refl k : conn_le k k.
Proof. constructor; auto. Qed.
Lemma stream_le_refl x : stream_le x x.
Proof. constructor; auto. Qed.

Lemma conn_le_trans a b d : conn_le a b -> conn_le b d -> conn_le a d.
Proof.
  intros [H1 H2 H3 H4] [H1' H2' H3' H4']. constructor; [congruence|congruence|auto|].
  destruct H4 as [E|?], H4' as [E'|?]; rewrite ?E, ?E' in *; auto; right; lia.
Qed.
Lemma stream_le_trans a b d : stream_le a b -> stream_le b d -> stream_le a d.
Proof.
  intros [H1 H2 H3 H4] [H1' H2' H3' H4']. constructor; [congruence|congruence|auto|].
  destruct H4 as [E|?], H4' as [E'|?]; rewrite ?E, ?E' in *; auto; right; lia.
Qed.

Lemma life_le_refl L : life_le L L.
Proof. constructor; [lia|eauto using conn_le_refl|eauto using stream_le_refl]. Qed.

Lemma life_le_trans L1 L2 L3 : life_le L1 L2 -> life_le L2 L3 -> life_le L1 L3.
Proof.
  intros [H1 H2 H3] [H1' H2' H3']. constructor; [lia| |].
  - intros c k Hc Hk. destruct (H2' c k) as (k2 & Hk2 & ?); [lia|done|].
    destruct (H2 c k2) as (k1 & ? & ?); [done|done|]. eauto using conn_le_trans.
  - intros c k Hc Hk. destruct (H3' c k) as (k2 & Hk2 & ?); [lia|done|].
    destruct (H3 c k2) as (k1 & ? & ?); [done|done|]. eauto using stream_le_trans.
Qed.

Lemma life_le_conn L c k k' l :
  lf_conns L !! c = Some k -> conn_le k k' ->
  life_le L (L <| lf_conns ::= <[c := k']> |> <| lf_pending := l |>).
Proof.
  intros Hk Hle. constructor; cbn; [lia| |eauto using stream_le_refl].
  intros c0 k0 _ Hk0. split_lookups; eauto using conn_le_refl.
Qed.

Lemma life_le_stream L s x x' l :
  lf_streams L !! s = Some x -> stream_le x x' ->
  life_le L (L <| lf_streams ::= <[s := x']> |> <| lf_pending := l |>).
Proof.
  intros Hk Hle. constructor; cbn; [lia|eauto using conn_le_refl|].
  intros c0 k0 _ Hk0. split_lookups; eauto using stream_le_refl.
Qed.

Lemma conn_terminal_rank x : conn_terminal x = x \/ conn_rank x < conn_rank (conn_terminal x).
Proof. destruct x; vm_compute; auto. Qed.
Lemma stream_terminal_rank x : stream_terminal x = x \/ stream_rank x < stream_rank (stream_terminal x).
Proof. destruct x; vm_compute; auto. Qed.

Lemma life_step_le L L' : life_step L L' -> life_le L L'.
Proof.
  intros Hstep. destruct Hstep.
  - constructor; cbn; [lia|eauto using conn_le_refl|eauto using stream_le_refl].
  - constructor; cbn; [lia|eauto using conn_le_refl|eauto using stream_le_refl].
  - constructor; cbn; [lia| |eauto using stream_le_refl].
    intros c k Hc Hk. split_lookups; [lia|eauto using conn_le_refl].
  - apply (life_le_conn L c k _ (lf_pending L)); [done|].
    constructor; cbn; auto. right. destruct H1; cbn; lia.
  - eapply (life_le_conn L c k); [done|]. constructor; cbn; auto using conn_terminal_rank.
  - constructor; cbn; [lia|eauto using conn_le_refl|].
    intros c' k' Hc Hk. split_lookups; [lia|eauto using stream_le_refl].
  - apply (life_le_stream L s x _ (lf_pending L)); [done|].
    constructor; cbn; auto. right. rewrite H0. cbn. lia.
  - apply (life_le_stream L s x _ (lf_pending L)); [done|].
    constructor; cbn; auto. right. rewrite H0. cbn. lia.
  - apply (life_le_stream L s x _ (lf_pending L)); [done|]. constructor; cbn; auto.
  - eapply (life_le_stream L s x); [done|]. constructor; cbn; auto using stream_terminal_rank.
  - destruct o; constructor; cbn; try lia; eauto using conn_le_refl, stream_le_refl;
      intros ? ? _ ?; split_lookups; eauto using conn_le_refl, stream_le_refl.
Qed.

Lemma life_steps_le L L' : rtc life_step L L' -> life_le L L'.
Proof. induction 1; eauto using life_le_refl, life_le_trans, life_step_le. Qed.

End spec.

(** ** A session of the sample host *)

(** The client connects, learns the peer's answer, opens a stream, sends and
    closes the stream. *)
Definition session : list call :=
  [ CallConnect (Some server_addr) None None
      (Some (mk_conn_callbacks (Some 5%positive) (Some 6%positive) (Some 7%positive))) 41;
    CallEngineInput (Some (last_packet server_connected)) (Some server_addr);
    CallStreamCreate (Some 1%positive) None None 44;
    CallStreamSend (Some 2%positive) (Some [1; 2; 3; 4; 5]) true;
    CallStreamClose (Some 2%positive) ].

Definition sample_create := Eval vm_compute in
  outcome (p ← kcpmux_engine_create None None None (Some all_callbacks) 0 []; e ← p.1; Some (e, p.2)).
Definition sample_boot : world K := boot sample_create.1 sample_create.2.
Definition sample_opened := Eval vm_compute in
  outcome (run (exec_all (take 3 session)) (Some sample_boot)).
Definition sample_closing := Eval vm_compute in
  outcome (run (exec_all session) (Some sample_boot)).

Lemma sample_boot_ok : life_ok (life_of sample_boot).
Proof. apply boot_life_ok; [split|]; vm_compute; reflexivity. Qed.

Lemma sample_opened_ok : life_ok (life_of sample_opened).
Proof.
  apply (reachable_life_ok None None None (Some all_callbacks) 0 [] sample_create.1 sample_create.2 (take 3 session));
    vm_compute; reflexivity.
Qed.

Lemma calls_refine_life_cycle_witness :
  exists w', exec (CallStreamClose (Some 2%positive)) sample_opened = Some (tt, w') /\
    rtc life_step (life_of sample_opened) (life_of w') /\ life_of w' <> life_of sample_opened.
Proof.
  let o := eval vm_compute in (outcome (run (exec (CallStreamClose (Some 2%positive))) (Some sample_opened))) in
  exists o; assert (exec (CallStreamClose (Some 2%positive)) sample_opened = Some (tt, o))
    as Hrun by (vm_compute; reflexivity).
  split; [exact Hrun|]. split; [|vm_compute; discriminate].
  exact (calls_refine_life_cycle (CallStreamClose (Some 2%positive)) _ _ sample_opened_ok Hrun).
Defined.

Lemma sample_create_eq :
  kcpmux_engine_create None None None (Some all_callbacks) 0 [] =
  Some (Some sample_create.1, sample_create.2).
Proof. vm_compute. reflexivity. Qed.

Lemma session_runs :
  exec_all session (boot sample_create.1 sample_create.2) = Some (tt, sample_closing).
Proof. vm_compute. reflexivity. Qed.

Definition sample_conn := Eval vm_compute in outcome (w_conns sample_closing !! 1%positive).
Definition sample_stream := Eval vm_compute in outcome (w_streams sample_closing !! 2%positive).

Lemma sample_conn_eq : w_conns sample_closing !! 1%positive = Some sample_conn.
Proof. vm_compute. reflexivity. Qed.
Lemma sample_stream_eq : w_streams sample_closing !! 2%positive = Some sample_stream.
Proof. vm_compute. reflexivity. Qed.

Lemma connection_ids_unique_witness :
  w_conns sample_closing !! 1%positive = Some sample_conn /\
  0 < c_local_connection_id sample_conn < 2 ^ 64.
Proof.
  split; [exact sample_conn_eq|].
  exact (proj1 (connection_ids_unique _ _ _ _ _ _ _ _ _ _ _ _ _ _
    sample_create_eq session_runs sample_conn_eq sample_conn_eq)).
Defined.

Lemma stream_phase_consistent_witness :
  w_streams sample_closing !! 2%positive = Some sample_stream /\
  s_state sample_stream = STREAM_CLOSING /\ s_close_phase sample_stream <> CLOSE_NONE.
Proof.
  assert (s_state sample_stream = STREAM_CLOSING) as Hst by (vm_compute; reflexivity).
  split; [exact sample_stream_eq|]. split; [exact Hst|].
  destruct (stream_phase_consistent _ _ _ _ _ _ _ _ _ _ _ _
    sample_create_eq session_runs sample_stream_eq) as (_ & _ & Hc & _).
  exact (proj1 (Hc Hst)).
Defined.

Lemma session_ends :
  exec_all (drop 3 session) sample_opened = Some (tt, sample_closing).
Proof. vm_compute. reflexivity. Qed.

