(* ===== verification/Deadlines.v ===== *)
(** * Timeouts of connections and arming of the host's timer

    A connection's deadline (src/kcpmux_conn.c) is the first instant at which
    one of its timeouts has expired, and the host's one-shot timer
    (src/kcpmux_engine.c) is armed for the earliest deadline of all. *)

From S2P Require Import Prelude Types Timer TimerProofs TimerSpec Hashtable Vectored World Engine Conn Messages Stream Mux Sample.
#[local] Open Scope Z_scope.

(** ** What the configuration promises

    An interval counted from [ts] is over; sums are exact, not saturated. *)
Definition expired (ts ms now : Z) : Prop := ts + ms <= now.

Definition timeout_due (k : conn) (now : Z) : Prop :=
  let cfg := c_config k in
  match c_state k with
  | CONN_CONNECTING | CONN_CLOSING => expired (c_last_ctrl_ts k) (cc_ctrl_timeout_ms cfg) now
  | CONN_CONNECTED =>
      expired (c_last_recv_ts k) (cc_keepalive_timeout_ms cfg) now \/
      (0 < cc_idle_timeout_ms cfg /\ expired (c_last_payload_ts k) (cc_idle_timeout_ms cfg) now) \/
      (0 < cc_keepalive_interval_ms cfg /\
       expired (c_last_keepalive_ts k) (cc_keepalive_interval_ms cfg) now)
  | _ => False
  end.

Lemma deadline_after_expired a i now :
  now < INT64_MAX -> kcpmux_timer_deadline_after a i <= now <-> expired a i now.
Proof. unfold kcpmux_timer_deadline_after, expired. destruct (Z.ltb_spec (INT64_MAX - i) a); lia. Qed.

Lemma deadline_after_max a i : kcpmux_timer_deadline_after a i <= INT64_MAX.
Proof. unfold kcpmux_timer_deadline_after. destruct (Z.ltb_spec (INT64_MAX - i) a); lia. Qed.

Section deadlines.
Context {KO : Kcp} {HO : Host}.
Implicit Types (c s : positive) (w : world K).

(** The deadline before the test for "none". *)
Definition raw_deadline (k : conn) : Z := default INT64_MAX (kcpmux_conn_calculate_deadline k).

Lemma raw_deadline_due k now :
  c_internal_closed k = false -> now < INT64_MAX -> raw_deadline k <= now <-> timeout_due k now.
Proof.
  intros Hc Hnow. unfold raw_deadline, kcpmux_conn_calculate_deadline, timeout_due. rewrite Hc.
  assert (Hd : forall d, default INT64_MAX (if d =? INT64_MAX then None else Some d) = d)
    by (intros d; destruct (Z.eqb_spec d INT64_MAX); [by subst|done]).
  rewrite Hd. destruct (c_state k); rewrite <- ?deadline_after_expired by done; try lia.
  repeat match goal with |- context [kcpmux_timer_deadline_after ?a ?b] =>
    generalize (kcpmux_timer_deadline_after a b); intros end.
  repeat match goal with
  | |- context [if ?a <? ?b then _ else _] => destruct (Z.ltb_spec a b)
  | H : context [if ?a <? ?b then _ else _] |- _ => destruct (Z.ltb_spec a b)
  end; lia.
Qed.

Lemma ltb_false_iff a b : (a <=? b) = false <-> ~ a <= b.
Proof. rewrite Z.leb_gt. lia. Qed.

(** C22. No timeout of a connection is missed and none fires early: the
    deadline armed by [kcpmux_conn_calculate_deadline] has passed exactly when
    one of the connection's configured timeouts has expired, and as long as
    none has, the timer handler changes nothing. *)
Theorem conn_deadline_exact c k now w :
  w_conns w !! c = Some k -> c_internal_closed k = false -> now < INT64_MAX ->
  (timeout_due k now <->
     exists d, kcpmux_conn_calculate_deadline k = Some d /\ d <= now) /\
  (~ timeout_due k now -> conn_update_body c now w = Some (true, w)).
Proof.
  intros Hk Hc Hnow. split.
  - rewrite <- (raw_deadline_due k now Hc Hnow). unfold raw_deadline.
    destruct (kcpmux_conn_calculate_deadline k) as [d|]; cbn; split.
    + eauto. + by intros (? & [= <-] & ?). + lia. + by intros (? & ? & _).
  - unfold conn_update_body, timeout_due, mbind, M_bind, get_conn, deref. rewrite Hk.
    destruct (c_state k); rewrite <- ?deadline_after_expired by done; intros Hn; try done.
    1, 3: by rewrite (proj2 (ltb_false_iff _ _) Hn).
    apply Decidable.not_or in Hn as [H1 Hn]. apply Decidable.not_or in Hn as [H2 H3].
    rewrite (proj2 (ltb_false_iff _ _) H1).
    destruct (Z.ltb_spec 0 (cc_idle_timeout_ms (c_config k)));
      destruct (Z.ltb_spec 0 (cc_keepalive_interval_ms (c_config k))); cbn;
      repeat match goal with |- context [?a <=? ?b] => destruct (Z.leb_spec a b) end; try tauto; done.
Qed.

(** ** The host's timer *)

(** What [kcpmux_engine_rearm_timer] does to a world with a well-formed
    scheduler. *)
Definition arm (d delay : Z) w : world K :=
  w <| w_engine ::= fun e => e <| e_external_timer_armed := true |>
                               <| e_external_timer_deadline_ms := d |> |>
    <| w_trace ::= cons (EvSetTimer delay) |>.

Definition earliest (t : timers) (d : Z) : Prop :=
  exists n, deadlines t !! n = Some d /\ forall k d', deadlines t !! k = Some d' -> d <= d'.

Lemma earliest_unique t d d' : earliest t d -> earliest t d' -> d = d'.
Proof. intros (n & Hn & Hmin) (n' & Hn' & Hmin'). apply Z.le_antisymm; eauto. Qed.

(** The host's one-shot is set for the earliest deadline, unless an operation
    that will set it is running. *)
Definition host_armed w : Prop := forall f d,
  ecb_set_timer (e_callbacks (w_engine w)) = Some f -> e_operation_depth (w_engine w) = 0 ->
  earliest (w_timers w) d ->
  e_external_timer_armed (w_engine w) = true /\ e_external_timer_deadline_ms (w_engine w) = d.

Lemma host_armed_same w w' :
  deadlines (w_timers w') = deadlines (w_timers w) ->
  e_callbacks (w_engine w') = e_callbacks (w_engine w) ->
  e_operation_depth (w_engine w') = e_operation_depth (w_engine w) ->
  e_external_timer_armed (w_engine w') = e_external_timer_armed (w_engine w) ->
  e_external_timer_deadline_ms (w_engine w') = e_external_timer_deadline_ms (w_engine w) ->
  host_armed w -> host_armed w'.
Proof.
  intros Hd Hc Hn Ha Hx Hw f d Hf H0 He. unfold earliest in He. rewrite Hd in He.
  rewrite Ha, Hx. apply (Hw f); congruence || done.
Qed.

Lemma peek_node t n :
  timers_ok t -> head (tm_heap t) = Some n ->
  exists nd, tm_nodes t !! n = Some nd /\ earliest t (deadline_ms nd).
Proof.
  intros Hok Hh. destruct (peek_ok t Hok) as (r & [= <-] & Hr). rewrite Hh in Hr.
  destruct Hr as (d & Hd & Hmin). pose proof Hd as Hd'. rewrite deadlines_lookup in Hd'.
  destruct (tm_nodes t !! n) as [nd|]; [|done]. exists nd. split; [done|].
  cbn in Hd'. unfold armed_at in Hd'. case_decide; [|done]. injection Hd' as <-.
  by exists n.
Qed.

Lemma rearm_ok now w :
  timers_ok (w_timers w) ->
  wp (kcpmux_engine_rearm_timer now) (fun _ w' =>
    let e := w_engine w in
    if bool_decide (is_Some (ecb_set_timer (e_callbacks e))) && (e_operation_depth e <=? 0)
    then (deadlines (w_timers w) = ∅ /\ w' = w) \/
         exists d, earliest (w_timers w) d /\
           ((e_external_timer_armed e = true /\ e_external_timer_deadline_ms e = d /\ w' = w) \/
            w' = arm d (if d <=? now then 0 else u64 (u64 d - u64 now)) w)
    else w' = w) w.
Proof.
  intros Hok. unfold kcpmux_engine_rearm_timer, get_engine. rewrite wp_bind, wp_gets.
  replace (e_operation_depth (w_engine w) <=? 0) with (negb (0 <? e_operation_depth (w_engine w)))
    by (by rewrite Z.ltb_antisym, negb_involutive).
  destruct (bool_decide (is_Some _)), (0 <? e_operation_depth (w_engine w)); cbn [negb orb andb];
    try by rewrite wp_ret.
  unfold in_timers, kcpmux_timer_peek. rewrite wp_bind, wp_zoom, wp_gets.
  replace (w <| w_timers := w_timers w |>) with w by by destruct w.
  destruct (head (tm_heap (w_timers w))) as [n|] eqn:Hh.
  - destruct (peek_node _ _ Hok Hh) as (nd & Hnd & He).
    rewrite wp_bind, wp_zoom, (wp_get_node _ nd) by done.
    replace (w <| w_timers := w_timers w |>) with w by by destruct w.
    destruct (e_external_timer_armed (w_engine w) &&
      (e_external_timer_deadline_ms (w_engine w) =? deadline_ms nd)) eqn:Ha.
    + rewrite wp_ret. right. exists (deadline_ms nd). split; [done|left].
      apply andb_true_iff in Ha as [? ?%Z.eqb_eq]. done.
    + unfold mod_engine, emit. rewrite wp_bind, wp_modify, wp_modify. right.
      exists (deadline_ms nd). split; [done|]. by right.
  - rewrite wp_ret. left. split; [|done].
    destruct (peek_ok _ Hok) as (r & [= <-] & Hr). by rewrite Hh in Hr.
Qed.

Lemma u64_delay d now : in_i64 d -> in_i64 now -> now < d -> u64 (u64 d - u64 now) = d - now.
Proof.
  unfold in_i64. intros Hd Hn Hlt. change INT64_MIN with (- 2 ^ 63) in *.
  change INT64_MAX with (2 ^ 63 - 1) in *.
  rewrite wrap_sub_idemp. apply wrap_small. unfold in_u. lia.
Qed.

(** C23. The host is never left without a wake-up. Outside an operation, with a
    timer callback installed, [kcpmux_engine_rearm_timer] leaves the one-shot
    timer armed for the earliest deadline of any connection or stream; a newly
    requested delay is exactly the time until that deadline, and 0 when it has
    passed, although it is computed in unsigned 64-bit arithmetic. Inside an
    operation, or with no deadline pending, it asks for nothing. *)
Theorem rearm_exact now w :
  timers_ok (w_timers w) -> in_i64 now ->
  (forall n d, deadlines (w_timers w) !! n = Some d -> in_i64 d) ->
  exists w', kcpmux_engine_rearm_timer now w = Some (tt, w') /\
    w_timers w' = w_timers w /\
    (0 < e_operation_depth (w_engine w) \/ deadlines (w_timers w) = ∅ -> w' = w) /\
    forall f d, ecb_set_timer (e_callbacks (w_engine w)) = Some f ->
      e_operation_depth (w_engine w) = 0 -> earliest (w_timers w) d ->
      e_external_timer_armed (w_engine w') = true /\
      e_external_timer_deadline_ms (w_engine w') = d /\
      (w_trace w' = w_trace w /\ w' = w \/
       w_trace w' = EvSetTimer (Z.max 0 (d - now)) :: w_trace w).
Proof.
  intros Hok Hnow Hd. pose proof (rearm_ok now w Hok) as Hwp.
  apply wp_some in Hwp as ([] & w' & Hrun & Hw'). exists w'. split; [done|].
  cbv zeta in Hw'. destruct (bool_decide (is_Some (ecb_set_timer (e_callbacks (w_engine w))))) eqn:Hcb;
    cbn [andb] in Hw'.
  2: { subst w'. split_and!; [done|done|]. intros f d Hf. apply bool_decide_eq_false in Hcb.
       destruct Hcb. eauto. }
  destruct (Z.leb_spec (e_operation_depth (w_engine w)) 0).
  2: { subst w'. split_and!; [done|done|]. intros; lia. }
  destruct Hw' as [[He ->]|(d0 & He & Hcase)].
  { split_and!; [done|done|]. intros f d _ _ (n & Hn & _). by rewrite He, lookup_empty in Hn. }
  split_and!; [by destruct Hcase as [(_ & _ & ->)| ->]| |].
  - intros [|Hempty]; [lia|]. destruct He as (n & Hn & _). by rewrite Hempty, lookup_empty in Hn.
  - intros f d _ _ Hed. rewrite (earliest_unique _ _ _ Hed He).
    destruct Hcase as [(Ha & Hx & ->)| ->]; [auto|]. split; [done|]. split; [done|]. right.
    cbn. do 2 f_equal. destruct He as (n & Hn & _). apply Hd in Hn.
    destruct (Z.leb_spec d0 now); [lia|]. rewrite u64_delay by done. lia.
Qed.

(** ** Reserved capacity *)

(** The nodes registered with the engine. *)
Definition registered (t : timers) : gset obj :=
  dom (filter (fun p => is_Some (owner p.2)) (tm_nodes t)).

Lemma elem_registered t n :
  n ∈ registered t <-> exists nd, tm_nodes t !! n = Some nd /\ is_Some (owner nd).
Proof.
  unfold registered. rewrite elem_of_dom. split.
  - intros [nd Hnd]. apply map_lookup_filter_Some in Hnd as [? ?]. eauto.
  - intros (nd & ? & ?). exists nd. by apply map_lookup_filter_Some.
Qed.

(** [kcpmux_engine_register_timer_node] keeps the array large enough for every
    registered node at once. *)
Record reserved w : Prop := {
  rs_timers : timers_ok (w_timers w);
  rs_count : Z.of_nat (size (registered (w_timers w))) <= e_timer_node_count (w_engine w);
  rs_capacity : e_timer_node_count (w_engine w) <= tm_capacity (w_timers w);
  rs_heap n : n ∈ tm_heap (w_timers w) -> n ∈ registered (w_timers w)
}.

Lemma registered_become t t' n nd :
  nodes_become t t' n nd ->
  (is_Some (owner nd) -> registered t' = {[n]} ∪ registered t) /\
  (owner nd = None -> registered t' = registered t ∖ {[n]}).
Proof.
  intros Hb.
  assert (Hown : forall x y : timer_node, erase x = erase y -> owner x = owner y)
    by (intros x y He; by apply (f_equal owner) in He).
  assert (Hk : forall k, k ∈ registered t' <-> (k = n /\ is_Some (owner nd)) \/ (k <> n /\ k ∈ registered t)).
  { intros k. rewrite !elem_registered.
    assert (He : erase <$> tm_nodes t' !! k = <[n := erase nd]> (erased (tm_nodes t)) !! k)
      by (rewrite <- Hb; unfold erased; by rewrite lookup_fmap).
    destruct (decide (k = n)) as [->|Hne].
    - rewrite lookup_insert_eq in He. destruct (tm_nodes t' !! n) as [nd'|]; [|done].
      apply (inj Some), Hown in He. split; [intros (? & [= <-] & ?); left; by rewrite <- He|].
      intros [[_ ?]|[? _]]; [|done]. exists nd'. by rewrite He.
    - rewrite lookup_insert_ne in He by done. unfold erased in He. rewrite lookup_fmap in He.
      destruct (tm_nodes t' !! k) as [a|], (tm_nodes t !! k) as [b|]; try done; [|naive_solver].
      apply (inj Some), Hown in He. split.
      + intros (? & [= <-] & ?). right. split; [done|]. exists b. by rewrite <- He.
      + intros [[? ?]|[_ (? & [= <-] & ?)]]; [done|]. exists a. by rewrite He. }
  split; intros Ho; apply set_eq; intros k; rewrite Hk.
  - rewrite elem_of_union, elem_of_singleton. destruct (decide (k = n)); tauto.
  - rewrite elem_of_difference, elem_of_singleton, Ho.
    split; [intros [[_ [? ?]]|?]; [done|tauto]|tauto].
Qed.

Lemma world_timers_eta w : w <| w_timers := w_timers w |> = w.
Proof. by destruct w. Qed.

Lemma wp_timers {A} (m : M timers A) (Q : A -> world K -> Prop) w :
  wp m (fun a t => Q a (w <| w_timers := t |>)) (w_timers w) -> wp (in_timers m) Q w.
Proof. unfold in_timers. by rewrite wp_zoom. Qed.

Lemma wp_timers_get {B} o nd (f : timer_node -> W B) Q w :
  tm_nodes (w_timers w) !! o = Some nd -> wp (f nd) Q w -> wp (in_timers (get_node o) ≫= f) Q w.
Proof.
  intros Hn Hf. rewrite wp_bind. apply wp_timers. rewrite (wp_get_node _ nd) by done.
  by rewrite world_timers_eta.
Qed.

(** The engine without what timers and statistics change. *)
Definition eng_core (e : engine) :=
  (e_conn_map e, e_handshake_map e, e_pending_release_list e, e_operation_depth e,
   e_pending_batch_streams e, e_default_stream_config e, e_conn_count e, e_next_connection_id e, e_callbacks e).

(** What arming the host's timer leaves alone, with the events it may add. *)
Record only_arms w w' : Prop := {
  oa_timers : w_timers w' = w_timers w;
  oa_count : e_timer_node_count (w_engine w') = e_timer_node_count (w_engine w);
  oa_core : eng_core (w_engine w') = eng_core (w_engine w);
  oa_next : w_next_addr w' = w_next_addr w;
  oa_conns : w_conns w' = w_conns w;
  oa_streams : w_streams w' = w_streams w;
  oa_trace : w_trace w' = w_trace w \/ exists delay, w_trace w' = EvSetTimer delay :: w_trace w;
  oa_host : host_armed w'
}.

Lemma rearm_only_arms now w :
  timers_ok (w_timers w) -> wp (kcpmux_engine_rearm_timer now) (fun _ => only_arms w) w.
Proof.
  intros Hok. eapply wp_mono; [|by apply rearm_ok]. cbv zeta. intros [] w' H.
  destruct (bool_decide (is_Some (ecb_set_timer (e_callbacks (w_engine w))))) eqn:Hcb;
    destruct (Z.leb_spec (e_operation_depth (w_engine w)) 0); cbn [andb] in H;
    [destruct H as [(Hno & ->)|(d & He & [(Ha & Hd & ->)| ->])]|subst w'..];
    constructor; cbn; eauto; intros f d' Hf Hdep Hd'.
  - destruct Hd' as (n & Hn & _). by rewrite Hno, lookup_empty in Hn.
  - split; [done|]. by rewrite Hd, (earliest_unique _ _ _ He Hd').
  - split; [done|]. by rewrite (earliest_unique _ _ _ He Hd').
  - lia.
  - apply bool_decide_eq_false in Hcb. destruct Hcb. eauto.
  - apply bool_decide_eq_false in Hcb. destruct Hcb. eauto.
Qed.

(** Whom a node belongs to and what its timeout calls. *)
Definition node_owner (nd : timer_node) : option obj * option timer_cb := (owner nd, timeout_cb nd).

(** What changing the timer node of [o] leaves alone. *)
Record retimes o w w' : Prop := {
  rt_core : eng_core (w_engine w') = eng_core (w_engine w);
  rt_next : w_next_addr w' = w_next_addr w;
  rt_conns : w_conns w' = w_conns w;
  rt_streams : w_streams w' = w_streams w;
  rt_due : tm_due (w_timers w') `sublist_of` tm_due (w_timers w);
  rt_live n : is_Some (tm_nodes (w_timers w') !! n) <-> is_Some (tm_nodes (w_timers w) !! n);
  rt_others n : n <> o -> erase <$> tm_nodes (w_timers w') !! n = erase <$> tm_nodes (w_timers w) !! n;
  rt_events : w_trace w ⊆ w_trace w'
}.

Lemma owner_erase (x : option timer_node) : node_owner <$> x = node_owner <$> (erase <$> x).
Proof. by destruct x. Qed.

Lemma rt_nodes o w w' n :
  retimes o w w' -> n <> o ->
  node_owner <$> tm_nodes (w_timers w') !! n = node_owner <$> tm_nodes (w_timers w) !! n.
Proof. intros Hr Hn. rewrite owner_erase, (rt_others _ _ _ Hr n Hn). by rewrite <- owner_erase. Qed.

Lemma become_other t t' o nd n :
  nodes_become t t' o nd -> n <> o -> erase <$> tm_nodes t' !! n = erase <$> tm_nodes t !! n.
Proof.
  intros Hb Hne. apply (f_equal (lookup n)) in Hb. rewrite lookup_insert_ne in Hb by done.
  unfold erased in Hb. by rewrite !lookup_fmap in Hb.
Qed.

Lemma retimes_arm o w w1 w' : retimes o w w1 -> only_arms w1 w' -> retimes o w w'.
Proof.
  intros [H1 H2 H3 H4 H5 H6 H7 H8] [Ht _ Hc Hn Hk Hs Htr Ha].
  constructor; rewrite ?Ht; try (congruence || done).
  etrans; [exact H8|]. destruct Htr as [->|[? ->]]; [done|set_solver].
Qed.

Lemma become_owner t t' o nd n :
  nodes_become t t' o nd ->
  node_owner <$> tm_nodes t' !! n =
    if decide (n = o) then Some (node_owner nd) else node_owner <$> tm_nodes t !! n.
Proof.
  intros Hb. assert (He : erase <$> tm_nodes t' !! n = <[o := erase nd]> (erased (tm_nodes t)) !! n)
    by (rewrite <- Hb; unfold erased; by rewrite lookup_fmap).
  rewrite owner_erase, He. case_decide as Hd.
  - subst. by rewrite lookup_insert_eq.
  - rewrite lookup_insert_ne by done. unfold erased. rewrite lookup_fmap. by rewrite <- owner_erase.
Qed.

Lemma become_live t t' o nd n :
  nodes_become t t' o nd -> is_Some (tm_nodes t !! o) ->
  is_Some (tm_nodes t' !! n) <-> is_Some (tm_nodes t !! n).
Proof.
  intros Hb Ho. rewrite <- !(fmap_is_Some node_owner), (become_owner _ _ _ _ _ Hb).
  case_decide; [subst|done]. rewrite fmap_is_Some. split; [done|eauto].
Qed.

Lemma reserved_same w w' :
  w_timers w' = w_timers w -> e_timer_node_count (w_engine w') = e_timer_node_count (w_engine w) ->
  reserved w -> reserved w'.
Proof. intros Ht Hc []. constructor; by rewrite Ht, ?Hc. Qed.

(** There is room for a registered node that is not armed. *)
Lemma reserved_room w o :
  reserved w -> o ∈ registered (w_timers w) -> o ∉ tm_heap (w_timers w) ->
  Z.of_nat (length (tm_heap (w_timers w))) + 1 <= tm_capacity (w_timers w).
Proof.
  intros [Hok Hcount Hcap Hheap] Ho Hni.
  assert (Hsub : list_to_set (o :: tm_heap (w_timers w)) ⊆ registered (w_timers w)).
  { intros x. rewrite elem_of_list_to_set, elem_of_cons. intros [->|]; auto. }
  apply subseteq_size in Hsub. rewrite size_list_to_set in Hsub.
  - cbn in Hsub. lia.
  - apply list.NoDup_cons. split; [done|]. apply (to_rep _ Hok).
Qed.

(** Scheduling a registered node never needs memory. *)
Lemma schedule_node_ok o d now w :
  reserved w -> o ∈ registered (w_timers w) ->
  wp (kcpmux_engine_schedule_timer_node o d now) (fun r w' => r = KCPMUX_ERR_OK /\ reserved w' /\
    registered (w_timers w') = registered (w_timers w) /\
    deadlines (w_timers w') = <[o := Z.max d now]> (deadlines (w_timers w)) /\
    retimes o w w' /\ host_armed w' /\
    node_owner <$> tm_nodes (w_timers w') !! o = node_owner <$> tm_nodes (w_timers w) !! o /\
    (w_trace w' = w_trace w \/ exists delay, w_trace w' = EvSetTimer delay :: w_trace w)) w.
Proof.
  intros Hr Ho. pose proof Hr as [Hok Hcount Hcap Hheap].
  pose proof Ho as (nd & Hnd & own & Hown)%elem_registered.
  unfold kcpmux_engine_schedule_timer_node. apply (wp_timers_get o nd); [done|].
  rewrite bool_decide_eq_false_2 by congruence.
  replace (if d <? now then now else d) with (Z.max d now) by (destruct (Z.ltb_spec d now); lia).
  rewrite wp_bind. unfold timer_schedule. apply (wp_timers_get o nd); [done|].
  rewrite wp_bind, wp_gets, wp_bind.
  apply (wp_mono _ (fun _ w' => w' = w)); cycle 1.
  { case_bool_decide as Hs; [by rewrite wp_ret|]. unfold reserve_alloc.
    rewrite wp_bind, wp_gets. unfold reserve_reallocs.
    pose proof (reserved_room w o Hr Ho) as Hroom. rewrite (proj2 (Z.leb_le _ _)); [done|].
    apply Hroom. by rewrite <- (to_heap _ Hok _ _ Hnd). }
  intros b ? ->. apply wp_timers. eapply wp_mono; [|by apply (schedule_ok b o nd)].
  intros r t' (Hok' & [(-> & Hsch)|(-> & -> & Hs & Hc & _)]); cycle 1.
  { exfalso. rewrite (to_heap _ Hok _ _ Hnd) in Hs. pose proof (reserved_room w o Hr Ho Hs). lia. }
  destruct Hsch as (Hb & Hh & Hdue & Hc & _).
  assert (Hreg : registered t' = registered (w_timers w)).
  { destruct (registered_become _ _ _ _ Hb) as [-> _]; [set_solver|cbn; eauto]. }
  assert (Hr' : reserved (w <| w_timers := t' |>)).
  { constructor; cbn; rewrite ?Hreg; [done|done|lia|].
    intros n [->|Hn]%Hh; auto. }
  rewrite wp_bind, Z.eqb_refl. cbn [when].
  eapply wp_mono; [|apply rearm_only_arms; done]. intros [] w' Hoa. rewrite wp_ret.
  assert (Hrt : retimes o w (w <| w_timers := t' |>)).
  { constructor; cbn; try done.
    - rewrite Hdue. apply sublist_filter.
    - intros n. by rewrite (become_live _ _ _ _ n Hb) by eauto.
    - intros n. by apply (become_other _ _ _ _ n Hb). }
  split; [done|]. pose proof (retimes_arm _ _ _ _ Hrt Hoa). destruct Hoa as [Ht Hcn _ _ _ _ Htr Ha].
  split; [by eapply (reserved_same (w <| w_timers := t' |>))|]. rewrite Ht. cbn.
  split_and!; try done; [by rewrite (deadlines_become _ _ _ _ Hb)|].
  by rewrite (become_owner _ _ _ _ o Hb), decide_True, Hnd.
Qed.

Lemma cancel_node_ok o nd now w :
  reserved w -> tm_nodes (w_timers w) !! o = Some nd ->
  wp (kcpmux_engine_cancel_timer_node o now) (fun _ w' => reserved w' /\ retimes o w w' /\ host_armed w' /\
    o ∉ tm_due (w_timers w') /\ node_owner <$> tm_nodes (w_timers w') !! o = node_owner <$> tm_nodes (w_timers w) !! o) w.
Proof.
  intros Hr Hnd. pose proof Hr as [Hok Hcount Hcap Hheap].
  unfold kcpmux_engine_cancel_timer_node. rewrite wp_bind. apply wp_timers.
  eapply wp_mono; [|by apply (cancel_ok o nd)]. intros [] t' (Hok' & Hb & Hh & Hd & Hc & _).
  assert (Hreg : registered t' = registered (w_timers w)).
  { apply set_eq. intros n. rewrite !elem_registered. pose proof (become_owner _ _ _ _ n Hb) as Hn.
    assert (Hn' : node_owner <$> tm_nodes t' !! n = node_owner <$> tm_nodes (w_timers w) !! n)
      by (rewrite Hn; case_decide as E; [by rewrite E, Hnd|done]).
    unfold node_owner in Hn'.
    destruct (tm_nodes t' !! n) as [a|], (tm_nodes (w_timers w) !! n) as [b|]; try done.
    injection Hn' as Ha _. split; intros (x & [= <-] & Hx); eexists; (split; [done|]); congruence. }
  eapply wp_mono; [|apply rearm_only_arms; done]. intros [] w' Hoa.
  assert (Hrt : retimes o w (w <| w_timers := t' |>)).
  { constructor; cbn; try done.
    - rewrite Hd. apply sublist_filter.
    - intros n. by rewrite (become_live _ _ _ _ n Hb) by eauto.
    - intros n. by apply (become_other _ _ _ _ n Hb). }
  pose proof (retimes_arm _ _ _ _ Hrt Hoa). destruct Hoa as [Ht Hcn _ _ _ _ _ Ha].
  split; [eapply (reserved_same (w <| w_timers := t' |>)); [done|done|]|].
  - constructor; cbn; rewrite ?Hreg; [done|done|by rewrite Hc|]. intros n [_ ?]%Hh. by apply Hheap.
  - split; [done|]. split; [done|]. rewrite Ht. cbn. split; [rewrite Hd, filter_ne_elem; by intros []|].
    by rewrite (become_owner _ _ _ _ o Hb), decide_True, Hnd.
Qed.

(** A node in neither queue; its fields are free. *)
Definition parked (nd : timer_node) : Prop :=
  tn_state nd <> TIMER_HEAP /\ tn_state nd <> TIMER_DUE.

Lemma idle_parked nd : tn_state nd = TIMER_IDLE -> parked nd.
Proof. unfold parked. by intros ->. Qed.

Lemma parked_update_ok t n nd nd' :
  timers_ok t -> tm_nodes t !! n = Some nd -> parked nd -> parked nd' ->
  let t' := t <| tm_nodes ::= <[n := nd']> |> in
  timers_ok t' /\ nodes_become t t' n nd'.
Proof.
  intros Hok Hn [Hs Hs2] [Hs' Hs2'] t'.
  assert (Hb : nodes_become t t' n nd') by (unfold nodes_become, t'; cbn; apply erased_insert).
  assert (Hh : n ∉ tm_heap t) by by rewrite <- (to_heap _ Hok _ _ Hn).
  assert (Hd : n ∉ tm_due t) by by rewrite <- (to_due _ Hok _ _ Hn).
  split; [|done]. apply (timers_ok_step t t' n nd'); try done; cbn.
  - apply heap_rep_insert; [apply Hok|done].
  - apply Hok.
  - rewrite lookup_insert_eq. eauto.
  - apply Hok.
Qed.

Lemma wp_ask {A} (f : trace -> A) rec (Q : A -> world K -> Prop) w :
  wp (ask f rec) Q w <-> Q (f (w_trace w)) (w <| w_trace ::= cons (rec (f (w_trace w))) |>).
Proof. unfold ask, in_trace. by rewrite wp_zoom. Qed.

Lemma register_node_ok o cb nd w :
  reserved w -> tm_nodes (w_timers w) !! o = Some nd -> parked nd ->
  wp (kcpmux_engine_register_timer_node o cb) (fun r w' => reserved w' /\
    deadlines (w_timers w') = deadlines (w_timers w) /\
    (r = KCPMUX_ERR_OK /\ registered (w_timers w') = {[o]} ∪ registered (w_timers w) \/
     r = KCPMUX_ERR_OOM /\ w_timers w' = w_timers w) /\
    retimes o w w' /\ (host_armed w -> host_armed w') /\
    (r = KCPMUX_ERR_OK -> node_owner <$> tm_nodes (w_timers w') !! o = Some (Some o, Some cb))) w.
Proof.
  intros Hr Hn Hs. pose proof Hr as [Hok Hcount Hcap Hheap].
  unfold kcpmux_engine_register_timer_node, get_engine. rewrite wp_bind, wp_gets.
  destruct (Z.ltb_spec (SIZE_MAX - 2) (e_timer_node_count (w_engine w))).
  { rewrite wp_ret. split_and!; [done|done|by right|by constructor|done|done]. }
  rewrite wp_bind.
  apply (wp_mono _ (fun _ w1 => w_timers w1 = w_timers w /\ w_engine w1 = w_engine w /\
    w_next_addr w1 = w_next_addr w /\ w_conns w1 = w_conns w /\ w_streams w1 = w_streams w /\
    w_trace w ⊆ w_trace w1)); cycle 1.
  { unfold reserve_alloc. rewrite wp_bind, wp_gets. destruct (reserve_reallocs _ _).
    - unfold alloc. rewrite wp_ask. split_and!; [done..|cbn; set_solver].
    - by rewrite wp_ret. }
  intros b w1 (Ht & He & Hx1 & Hx2 & Hx3 & Hx4). rewrite wp_bind. apply wp_timers. rewrite Ht.
  eapply wp_mono; [|apply reserve_ok; [done|unfold SIZE_MAX in *; lia]].
  intros r t1 (Hok1 & [(-> & Hc1 & _ & Ht1)|(-> & -> & _)]); cycle 1.
  { cbn [Z.eqb KCPMUX_ERR_OOM KCPMUX_ERR_OK negb]. rewrite wp_ret.
    split; [eapply (reserved_same w); cbn; by rewrite ?He|].
    split_and!; [done|by right| |intros Ha; eapply host_armed_same; [..|exact Ha]; cbn; by rewrite ?He|done].
    constructor; cbn; by rewrite ?He, ?Ht. }
  rewrite Z.eqb_refl. cbn [negb].
  assert (Hn1 : tm_nodes t1 !! o = Some nd) by by rewrite Ht1.
  set (nd' := mk_timer_node None 0 0 (Some o) (Some cb) TIMER_IDLE).
  destruct (parked_update_ok t1 o nd nd' Hok1 Hn1 Hs (idle_parked nd' eq_refl)) as [Hok2 Hb].
  rewrite wp_bind. apply wp_timers. unfold kcpmux_timer_node_init.
  rewrite (wp_mod_node _ nd) by done. unfold mod_engine. rewrite wp_bind, wp_modify, wp_ret.
  match goal with |- context [reserved ?x] => set (w2 := x) end.
  set (t2 := t1 <| tm_nodes ::= <[o := nd']> |>) in *.
  assert (Hw2 : w_timers w2 = t2) by done.
  assert (He2 : e_timer_node_count (w_engine w2) = e_timer_node_count (w_engine w) + 1)
    by (cbn; rewrite He; lia).
  assert (Hrt : retimes o w w2).
  { constructor; rewrite ?Hw2; cbn -[tm_nodes]; try done.
    - by rewrite He.
    - by rewrite Ht1.
    - intros n. rewrite (become_live _ _ _ _ _ Hb) by eauto. by rewrite Ht1.
    - intros n Hne. rewrite (become_other _ _ _ _ n Hb) by done. by rewrite Ht1. }
  assert (Hdl : deadlines t2 = deadlines (w_timers w)).
  { rewrite (deadlines_become _ _ _ _ Hb).
    replace (deadlines t1) with (deadlines (w_timers w)) by by rewrite Ht1.
    apply map_eq. intros k. destruct (decide (k = o)) as [->|].
    + rewrite lookup_partial_alter_eq, deadlines_lookup, Hn. cbn. unfold armed_at.
      destruct Hs as [Hs _]. by repeat case_decide.
    + by rewrite lookup_partial_alter_ne. }
  assert (Harm : host_armed w -> host_armed w2).
  { intros Ha. eapply host_armed_same; [..|exact Ha]; [exact Hdl|cbn; by rewrite He..]. }
  assert (Hown : node_owner <$> tm_nodes t2 !! o = Some (Some o, Some cb))
    by by rewrite (become_owner _ _ _ _ o Hb), decide_True.
  clearbody w2.
  destruct (registered_become _ _ _ _ Hb) as [Hreg _]. specialize (Hreg ltac:(cbn; eauto)).
  replace (registered t1) with (registered (w_timers w)) in Hreg by by rewrite Ht1.
  rewrite Hw2. split; [|split; [exact Hdl|split; [by left|by split]]].
  constructor; rewrite Hw2, ?He2, ?Hreg; [done| |cbn; lia|].
  - pose proof (size_union_alt ({[o]} : gset obj) (registered (w_timers w))) as Hsz.
    rewrite size_singleton in Hsz.
    pose proof (subseteq_size (registered (w_timers w) ∖ {[o]}) (registered (w_timers w)) ltac:(set_solver)).
    lia.
  - intros n Hn'. apply elem_of_union. right. apply Hheap. cbn in Hn'. by rewrite Ht1 in Hn'.
Qed.

Lemma unregister_node_ok o nd w :
  reserved w -> tm_nodes (w_timers w) !! o = Some nd -> is_Some (owner nd) ->
  wp (kcpmux_engine_unregister_timer_node o) (fun _ w' => reserved w' /\
    registered (w_timers w') = registered (w_timers w) ∖ {[o]} /\
    deadlines (w_timers w') = delete o (deadlines (w_timers w)) /\
    e_timer_node_count (w_engine w') = e_timer_node_count (w_engine w) - 1 /\
    retimes o w w' /\ o ∉ tm_due (w_timers w') /\ host_armed w') w.
Proof.
  intros Hr Hn Hown. pose proof Hr as [Hok Hcount Hcap Hheap].
  assert (Ho : o ∈ registered (w_timers w)) by (apply elem_registered; eauto).
  unfold kcpmux_engine_unregister_timer_node. apply (wp_timers_get o nd); [done|].
  rewrite bool_decide_eq_false_2 by (destruct Hown; congruence).
  rewrite wp_bind. unfold kcpmux_engine_now. rewrite wp_ask.
  rewrite wp_bind. apply wp_timers. cbn [w_timers upd].
  eapply wp_mono; [|by apply (cancel_ok o nd)].
  intros [] t1 (Hok1 & Hb1 & Hh1 & Hd1 & Hc1 & _).
  assert (exists nd1, tm_nodes t1 !! o = Some nd1 /\ tn_state nd1 = TIMER_IDLE) as (nd1 & Hn1 & Hs1).
  { assert (He : erased (tm_nodes t1) !! o = Some (erase (nd <| tn_state := TIMER_IDLE |>)))
      by (rewrite Hb1; apply lookup_insert_eq).
    unfold erased in He. rewrite lookup_fmap in He. destruct (tm_nodes t1 !! o) as [x|]; [|done].
    apply (inj Some), erase_state in He. eauto. }
  set (nd2 := nd1 <| owner := None |> <| timeout_cb := None |>).
  destruct (parked_update_ok t1 o nd1 nd2 Hok1 Hn1 (idle_parked nd1 Hs1) (idle_parked nd2 Hs1)) as [Hok2 Hb2].
  rewrite wp_bind. apply wp_timers. cbn [w_timers upd]. rewrite (wp_mod_node _ nd1) by done.
  unfold mod_engine. rewrite wp_bind, wp_modify.
  set (t2 := t1 <| tm_nodes ::= <[o := nd2]> |>) in *.
  match goal with |- wp _ _ ?x => set (w2 := x) end.
  assert (Hw2 : w_timers w2 = t2) by done.
  assert (Hsz : 1 + Z.of_nat (size (registered (w_timers w) ∖ {[o]})) =
                Z.of_nat (size (registered (w_timers w)))).
  { pose proof (size_union_alt ({[o]} : gset obj) (registered (w_timers w))) as Hu.
    rewrite size_singleton in Hu.
    replace ({[o]} ∪ registered (w_timers w)) with (registered (w_timers w)) in Hu by set_solver. lia. }
  assert (He2 : e_timer_node_count (w_engine w2) = e_timer_node_count (w_engine w) - 1).
  { cbn. destruct (Z.ltb_spec 0 (e_timer_node_count (w_engine w))); lia. }
  assert (Hrt : retimes o w w2).
  { constructor; rewrite ?Hw2; cbn -[tm_nodes]; try done.
    - rewrite Hd1. apply sublist_filter.
    - intros n. rewrite (become_live _ _ _ _ _ Hb2), (become_live _ _ _ _ _ Hb1) by eauto. done.
    - intros n Hne. by rewrite (become_other _ _ _ _ n Hb2), (become_other _ _ _ _ n Hb1).
    - set_solver. }
  clearbody w2.
  destruct (registered_become _ _ _ _ Hb1) as [Hreg1 _]. specialize (Hreg1 Hown).
  destruct (registered_become _ _ _ _ Hb2) as [_ Hreg2]. specialize (Hreg2 eq_refl).
  assert (Hreg : registered t2 = registered (w_timers w) ∖ {[o]}) by (rewrite Hreg2, Hreg1; set_solver).
  assert (Hr2 : reserved w2).
  { constructor; rewrite Hw2, ?He2, ?Hreg; [done|lia|cbn; lia|].
    intros n Hn'. change (tm_heap t2) with (tm_heap t1) in Hn'. apply Hh1 in Hn' as [? ?].
    set_solver. }
  eapply wp_mono; [|apply rearm_only_arms; by rewrite Hw2]. intros [] w' Hoa.
  pose proof (retimes_arm _ _ _ _ Hrt Hoa). destruct Hoa as [Ht Hcn _ _ _ _ _ Ha].
  split; [by eapply reserved_same|]. rewrite Ht, Hw2, Hcn, He2.
  split_and!; [done| |done|done| |done]; cycle 1.
  { change (tm_due t2) with (tm_due t1). rewrite Hd1, filter_ne_elem. by intros []. }
  rewrite (deadlines_become _ _ _ _ Hb2), (deadlines_become _ _ _ _ Hb1).
  apply map_eq. intros k. destruct (decide (k = o)) as [->|].
  - rewrite lookup_partial_alter_eq, lookup_delete_eq. unfold armed_at. cbn. by rewrite Hs1.
  - by rewrite !lookup_partial_alter_ne, lookup_delete_ne.
Qed.

(** C17. Registration pays for scheduling: the timer array always has room for
    every registered node, so scheduling the timer of a registered connection
    or stream cannot fail, whatever the allocator does, and arms exactly that
    node, never in the past; registering either makes the room or reports
    OOM, and unregistering disarms the node and gives its room back. *)
Theorem timer_capacity_reserved o nd w :
  reserved w -> tm_nodes (w_timers w) !! o = Some nd ->
  (o ∈ registered (w_timers w) -> forall d now, exists w',
     kcpmux_engine_schedule_timer_node o d now w = Some (KCPMUX_ERR_OK, w') /\ reserved w' /\
     deadlines (w_timers w') = <[o := Z.max d now]> (deadlines (w_timers w)) /\
     (w_trace w' = w_trace w \/ exists delay, w_trace w' = EvSetTimer delay :: w_trace w)) /\
  (tn_state nd = TIMER_IDLE -> forall cb, exists r w',
     kcpmux_engine_register_timer_node o cb w = Some (r, w') /\ reserved w' /\
     deadlines (w_timers w') = deadlines (w_timers w) /\
     (r = KCPMUX_ERR_OK /\ registered (w_timers w') = {[o]} ∪ registered (w_timers w) \/
      r = KCPMUX_ERR_OOM /\ w_timers w' = w_timers w)) /\
  (o ∈ registered (w_timers w) -> exists w',
     kcpmux_engine_unregister_timer_node o w = Some (tt, w') /\ reserved w' /\
     registered (w_timers w') = registered (w_timers w) ∖ {[o]} /\
     deadlines (w_timers w') = delete o (deadlines (w_timers w)) /\
     e_timer_node_count (w_engine w') = e_timer_node_count (w_engine w) - 1).
Proof.
  intros Hr Hn. split_and!.
  - intros Ho d now. pose proof (schedule_node_ok o d now w Hr Ho) as Hwp.
    apply wp_some in Hwp as (r & w' & Hrun & -> & ? & _ & ? & _ & _ & _ & ?). eauto 6.
  - intros Hs cb. pose proof (register_node_ok o cb nd w Hr Hn (idle_parked nd Hs)) as Hwp.
    apply wp_some in Hwp as (r & w' & ? & ? & ? & ? & _). eauto 6.
  - intros Ho. pose proof Ho as (nd' & ? & ?)%elem_registered. simplify_eq.
    pose proof (unregister_node_ok o nd w Hr Hn ltac:(done)) as Hwp.
    apply wp_some in Hwp as ([] & w' & ? & ? & ? & ? & ? & _). eauto 6.
Qed.
End deadlines.

(** ** Witnesses *)

(** The connecting client of [Sample], 500 ms after its CONNECT. *)
Lemma conn_deadline_exact_witness :
  exists k, w_conns connecting_world !! 1%positive = Some k /\ timeout_due k 2000 /\
    exists d, kcpmux_conn_calculate_deadline k = Some d /\ d <= 2000.
Proof.
  set (k := outcome (w_conns connecting_world !! 1%positive)).
  exists k. assert (Hdue : timeout_due k 2000) by (vm_compute; discriminate).
  split; [reflexivity|]. split; [exact Hdue|].
  apply (conn_deadline_exact 1 k 2000 connecting_world); [reflexivity|reflexivity|reflexivity|exact Hdue].
Defined.

(** The two armed nodes of [TimerSpec] in a world of their own. *)
Definition armed_world : world K :=
  booted_world <| w_timers := sample2 |> <| w_engine ::= fun e => e <| e_timer_node_count := 2 |> |>.

Definition armed_node := Eval vm_compute in outcome (tm_nodes sample2 !! OConn 1).

Lemma armed_world_deadlines n d :
  deadlines (w_timers armed_world) !! n = Some d -> d = 20 \/ d = 30.
Proof.
  intros H. assert (Hm : map_to_list (deadlines (w_timers armed_world)) = [(OStream 2, 20); (OConn 1, 30)])
    by (vm_compute; reflexivity).
  apply elem_of_map_to_list in H. rewrite Hm in H.
  apply elem_of_cons in H as [H|H]; [simplify_eq; auto|].
  apply list_elem_of_singleton in H. simplify_eq; auto.
Qed.

Lemma armed_world_reserved : reserved armed_world.
Proof.
  constructor.
  - apply sample2_ok.
  - vm_compute. discriminate.
  - vm_compute. discriminate.
  - intros n Hn. apply elem_registered.
    assert (Hh : tm_heap (w_timers armed_world) = [OStream 2; OConn 1]) by (vm_compute; reflexivity).
    rewrite Hh in Hn. apply elem_of_cons in Hn as [->|Hn]; [|apply list_elem_of_singleton in Hn as ->];
      eexists; (split; [vm_compute; reflexivity|vm_compute; eauto]).
Qed.

Lemma rearm_exact_witness :
  exists w', kcpmux_engine_rearm_timer 5 armed_world = Some (tt, w') /\
    e_external_timer_deadline_ms (w_engine w') = 20.
Proof.
  destruct (rearm_exact 5 armed_world) as (w' & Hrun & _ & _ & Harm).
  - apply sample2_ok.
  - vm_compute. split; discriminate.
  - intros n d [-> | ->]%armed_world_deadlines; vm_compute; split; discriminate.
  - exists w'. split; [exact Hrun|].
    apply (Harm 1%positive 20); [vm_compute; reflexivity|vm_compute; reflexivity|].
    exists (OStream 2). split; [vm_compute; reflexivity|].
    intros k d' [-> | ->]%armed_world_deadlines; lia.
Defined.

Lemma timer_capacity_reserved_witness :
  exists w', kcpmux_engine_schedule_timer_node (OConn 1) 7 10 armed_world = Some (KCPMUX_ERR_OK, w') /\
    deadlines (w_timers w') = <[OConn 1 := 10]> (deadlines (w_timers armed_world)).
Proof.
  destruct (timer_capacity_reserved (OConn 1) armed_node armed_world
    armed_world_reserved) as [Hs _]; [vm_compute; reflexivity|].
  destruct (Hs ltac:(apply elem_registered; eexists; split; [vm_compute; reflexivity|vm_compute; eauto]) 7 10)
    as (w' & Hrun & _ & Hd & _).
  exists w'. split; [exact Hrun|exact Hd].
Defined.
