(* ===== verification/Wire.v ===== *)
(** * The wire protocol: what is sent is what is understood

    For each message the encoders of [Messages] produce, dispatch of the packet
    by [kcpmux_protocol_input] in the peer reduces to the peer's reaction to
    the values the sender put in: every length check passes and every field is
    read back. *)

From S2P Require Import Prelude Types Timer ByteOrder Hashtable Vectored World Engine Conn Messages Stream Mux Sample.
#[local] Open Scope Z_scope.

Section wire.
Context {KO : Kcp} {HO : Host}.
Implicit Types (c s : positive) (w : world K) (k : conn).

(** ** Reading fields *)

Lemma byte_at_ok {B} buf off b (f : Z -> W B) w :
  buf !! Z.to_nat off = Some b -> (byte_at buf off ≫= f) w = f b w.
Proof. unfold byte_at, deref, mbind, M_bind. by intros ->. Qed.

(** A field at [off] after the bytes [pre]. *)
Lemma u16_at_ok {B} buf pre v post off (f : Z -> W B) w :
  buf = pre ++ write_u16 v ++ post -> off = Z.of_nat (length pre) -> in_u 16 v ->
  (u16_at buf off ≫= f) w = f v w.
Proof.
  intros -> -> Hv. unfold u16_at, deref, mbind, M_bind. rewrite Nat2Z.id.
  by rewrite (proj1 (read_written pre post v) Hv).
Qed.

Lemma u32_at_ok {B} buf pre v post off (f : Z -> W B) w :
  buf = pre ++ write_u32 v ++ post -> off = Z.of_nat (length pre) -> in_u 32 v ->
  (u32_at buf off ≫= f) w = f v w.
Proof.
  intros -> -> Hv. unfold u32_at, deref, mbind, M_bind. rewrite Nat2Z.id.
  by rewrite (proj1 (proj2 (read_written pre post v)) Hv).
Qed.

Lemma u64_at_ok {B} buf pre v post off (f : Z -> W B) w :
  buf = pre ++ write_u64 v ++ post -> off = Z.of_nat (length pre) -> in_u 64 v ->
  (u64_at buf off ≫= f) w = f v w.
Proof.
  intros -> -> Hv. unfold u64_at, deref, mbind, M_bind. rewrite Nat2Z.id.
  by rewrite (proj2 (proj2 (read_written pre post v)) Hv).
Qed.

Lemma write_lengths v :
  length (write_u16 v) = 2%nat /\ length (write_u32 v) = 4%nat /\ length (write_u64 v) = 8%nat.
Proof. done. Qed.

(** ** The common header *)

Record addr_ok (a : list Z) : Prop := {
  addr_ok_nonempty : 0 < Z.of_nat (length a);
  addr_ok_max : Z.of_nat (length a) <= KCPMUX_ADDR_MAX_LEN
}.

(** The dispatch of [kcpmux_protocol_input] on the message type. *)
Definition dispatch (T : Z) (buf : list Z) c (now : Z) : W Z :=
  if T =? KCPMUX_MSG_CONN_CONNECT_ACK then input_connect_ack buf c now
  else if T =? KCPMUX_MSG_CONN_KEEPALIVE then input_keepalive buf c now
  else if T =? KCPMUX_MSG_CONN_CLOSE then input_conn_close buf c now
  else if T =? KCPMUX_MSG_CONN_CLOSE_ACK then input_conn_close_ack buf c now
  else if T =? KCPMUX_MSG_STREAM_CLOSE then input_stream_close buf c now
  else if T =? KCPMUX_MSG_STREAM_CLOSE_ACK then input_stream_close_ack buf c now
  else if T =? KCPMUX_MSG_STREAM_PAYLOAD then input_stream_payload buf c now
  else mret (- KCPMUX_ERR_INVALID_FORMAT).

(** The connection with identifier [id] at address [a] reacts with [f] to a
    packet of [size] bytes. *)
Definition delivered (id : Z) (a : list Z) (size : Z) (f : positive -> W Z) : W Z :=
  oc ← kcpmux_engine_get_conn_by_id (Some a) id;
  match oc with
  | None => mret (- KCPMUX_ERR_NOT_FOUND)
  | Some c => note_rx c size;; f c
  end.

Lemma delivered_ext id a size f g w :
  (forall c w', f c w' = g c w') -> delivered id a size f w = delivered id a size g w.
Proof. intros H. apply bind_ext. intros [c|] w'; [|done]. apply bind_ext. intros []. apply H. Qed.

Lemma input_addr_ok {A} a (x y : A) :
  addr_ok a ->
  (if (Z.of_nat (length a) =? 0) || (KCPMUX_ADDR_MAX_LEN <? Z.of_nat (length a)) then x else y) = y.
Proof.
  intros [H1 H2]. destruct (Z.eqb_spec (Z.of_nat (length a)) 0); [lia|].
  destruct (Z.ltb_spec KCPMUX_ADDR_MAX_LEN (Z.of_nat (length a))); [lia|done].
Qed.

(** A packet with a nonzero destination. *)
Lemma input_common T p body a now w :
  addr_ok a -> T <> KCPMUX_MSG_CONN_CONNECT -> 0 < p < 2 ^ 64 ->
  let buf := (T :: write_u64 p) ++ body in
  kcpmux_protocol_input buf a now w =
  delivered p a (Z.of_nat (length buf)) (fun c => dispatch T buf c now) w.
Proof.
  intros Ha HT Hp buf. unfold kcpmux_protocol_input.
  assert (Hlen : 9 <= Z.of_nat (length buf)).
  { unfold buf. rewrite length_app. change (length (T :: write_u64 p)) with 9%nat. lia. }
  rewrite input_addr_ok by done.
  rewrite (proj2 (Z.ltb_ge (Z.of_nat (length buf)) 1)) by lia.
  rewrite (proj2 (Z.ltb_ge (Z.of_nat (length buf)) KCPMUX_PROTO_COMMON_LEN)) by done.
  rewrite (byte_at_ok _ _ T) by done.
  rewrite (u64_at_ok _ [T] p body) by (done || (unfold in_u; lia)).
  rewrite (proj2 (Z.eqb_neq T _) HT), (proj2 (Z.eqb_neq p 0)) by lia. done.
Qed.

(** ** Messages between connected peers *)

(** Reads the next field of a packet whose bytes are known. *)
Ltac packet_len := rewrite (proj2 (Z.ltb_ge (Z.of_nat (length _)) _)) by done.
Ltac packet_eq := rewrite <- ?app_assoc; reflexivity.

(** The reactions of a connection to the fields of a message. *)
Definition on_conn_close (now reason : Z) c : W Z :=
  kcpmux_conn_note_receive c now false;;
  _ ← kcpmux_conn_send_close_ack c reason;
  kcpmux_conn_close_internal c reason;;
  mret 0.

Definition on_conn_close_ack (now : Z) c : W Z :=
  k ← get_conn c;
  if bool_decide (c_state k = CONN_CLOSING) then
    kcpmux_conn_note_receive c now false;;
    k ← get_conn c;
    kcpmux_conn_close_internal c (c_close_reason k);;
    mret 0
  else mret (- KCPMUX_ERR_STATE).

Definition on_stream_close (now stream_id reason : Z) c : W Z :=
  os ← kcpmux_conn_get_stream_by_id c stream_id;
  match os with
  | None => mret (- KCPMUX_ERR_NOT_FOUND)
  | Some s => kcpmux_conn_note_receive c now false;; kcpmux_stream_handle_close s reason
  end.

Definition on_stream_close_ack (now stream_id : Z) c : W Z :=
  os ← kcpmux_conn_get_stream_by_id c stream_id;
  match os with
  | None => mret (- KCPMUX_ERR_STATE)
  | Some s =>
      st ← get_stream s;
      if bool_decide (s_state st = STREAM_CLOSING) && bool_decide (s_close_phase st = CLOSE_WAIT_ACK)
      then
        kcpmux_conn_note_receive c now false;;
        kcpmux_stream_close_internal s (s_close_reason st);;
        mret 0
      else mret (- KCPMUX_ERR_STATE)
  end.

Definition on_stream_payload (now stream_id : Z) (payload : list Z) c : W Z :=
  k ← get_conn c;
  if bool_decide (c_state k = CONN_CONNECTED) then
    os ← kcpmux_conn_get_stream_by_id c stream_id;
    match os with
    | Some s =>
        ret ← kcpmux_stream_handle_payload s payload now;
        when (ret =? 0) (kcpmux_conn_note_receive c now true);;
        mret ret
    | None =>
        if stream_id mod 2 =? Z.b2z (c_is_initiator k) then mret (- KCPMUX_ERR_INVALID_FORMAT)
        else if kcpmux_conn_is_new_peer_stream_id k stream_id then
          match ccb_stream_create_notify (c_callbacks k) with
          | None => mret (- KCPMUX_ERR_NOT_FOUND)
          | Some f => accept_stream payload c stream_id now f
          end
        else mret (- KCPMUX_ERR_NOT_FOUND)
    end
  else mret (- KCPMUX_ERR_STATE).

Lemma conn_close_understood T k reason c now w :
  input_conn_close (conn_close_msg T k reason) c now w = on_conn_close now reason c w.
Proof.
  unfold input_conn_close, conn_close_msg, write_common. packet_len.
  by rewrite (byte_at_ok _ _ reason) by done.
Qed.

Lemma conn_close_ack_understood T k reason c now w :
  input_conn_close_ack (conn_close_msg T k reason) c now w = on_conn_close_ack now c w.
Proof.
  unfold input_conn_close_ack, conn_close_msg, write_common, on_conn_close_ack.
  apply bind_ext. intros k' w'. case_bool_decide; [|done]. cbn [negb]. by packet_len.
Qed.

Lemma stream_close_understood T k id reason c now w :
  0 < id < 2 ^ 32 ->
  input_stream_close (stream_close_msg T k id reason) c now w = on_stream_close now id reason c w.
Proof.
  intros Hid. unfold input_stream_close, stream_close_msg, write_common. packet_len.
  rewrite (u32_at_ok _ (T :: write_u64 (if T =? KCPMUX_MSG_CONN_CONNECT then 0 else c_peer_connection_id k)) id [reason])
    by (done || (unfold in_u; lia)).
  rewrite (proj2 (Z.eqb_neq id 0)) by lia. by rewrite (byte_at_ok _ _ reason) by done.
Qed.

Lemma stream_close_ack_understood T k id reason c now w :
  0 < id < 2 ^ 32 ->
  input_stream_close_ack (stream_close_msg T k id reason) c now w = on_stream_close_ack now id c w.
Proof.
  intros Hid. unfold input_stream_close_ack, stream_close_msg, write_common. packet_len.
  rewrite (u32_at_ok _ (T :: write_u64 (if T =? KCPMUX_MSG_CONN_CONNECT then 0 else c_peer_connection_id k)) id [reason])
    by (done || (unfold in_u; lia)).
  rewrite (proj2 (Z.eqb_neq id 0)) by lia.
  apply bind_ext. intros [s|] w'; [|done]. apply bind_ext. intros st w1.
  by do 2 case_bool_decide.
Qed.

Lemma stream_payload_understood k id payload c now w :
  0 < id < 2 ^ 32 ->
  input_stream_payload (stream_payload_header k id ++ payload) c now w =
  on_stream_payload now id payload c w.
Proof.
  intros Hid. unfold input_stream_payload, on_stream_payload.
  apply bind_ext. intros k' w'. case_bool_decide; [|done]. cbn [negb].
  assert (Hl : length (stream_payload_header k id) = 13%nat) by done.
  rewrite (proj2 (Z.ltb_ge (Z.of_nat (length _)) _)).
  2: { rewrite length_app, Hl. unfold KCPMUX_PROTO_STREAM_HEADER_LEN, KCPMUX_PROTO_COMMON_LEN. lia. }
  rewrite (u32_at_ok _ (write_common KCPMUX_MSG_STREAM_PAYLOAD (c_peer_connection_id k)) id payload)
    by (done || (unfold in_u; lia)).
  rewrite (proj2 (Z.eqb_neq id 0)) by lia.
  replace (drop (Z.to_nat KCPMUX_PROTO_STREAM_HEADER_LEN) (stream_payload_header k id ++ payload))
    with payload by done.
  apply bind_ext. intros [s|] w1; [done|]. destruct (_ =? _); [done|].
  by destruct (kcpmux_conn_is_new_peer_stream_id k' id).
Qed.

(** C4. Between connected peers every message is understood as it was meant.
    The bytes sent for a keep-alive, a connection or stream close or its
    acknowledgement, or a stream payload reach the connection whose identifier
    the sender holds, at the sender's address, and make it react to exactly the
    stream identifier, close reason and payload the sender put in; no length
    or format check rejects them. *)
Theorem messages_understood k a now w :
  addr_ok a -> 0 < c_peer_connection_id k < 2 ^ 64 ->
  (forall t, kcpmux_protocol_input (conn_keepalive_msg k t) a now w =
     delivered (c_peer_connection_id k) a KCPMUX_PROTO_KEEPALIVE_LEN
       (fun c => kcpmux_conn_note_receive c now false;; mret 0) w) /\
  (forall reason,
     kcpmux_protocol_input (conn_close_msg KCPMUX_MSG_CONN_CLOSE k reason) a now w =
     delivered (c_peer_connection_id k) a KCPMUX_PROTO_CONN_CLOSE_LEN (on_conn_close now reason) w /\
     kcpmux_protocol_input (conn_close_msg KCPMUX_MSG_CONN_CLOSE_ACK k reason) a now w =
     delivered (c_peer_connection_id k) a KCPMUX_PROTO_CONN_CLOSE_LEN (on_conn_close_ack now) w) /\
  (forall id reason, 0 < id < 2 ^ 32 ->
     kcpmux_protocol_input (stream_close_msg KCPMUX_MSG_STREAM_CLOSE k id reason) a now w =
     delivered (c_peer_connection_id k) a KCPMUX_PROTO_STREAM_CLOSE_LEN (on_stream_close now id reason) w /\
     kcpmux_protocol_input (stream_close_msg KCPMUX_MSG_STREAM_CLOSE_ACK k id reason) a now w =
     delivered (c_peer_connection_id k) a KCPMUX_PROTO_STREAM_CLOSE_LEN (on_stream_close_ack now id) w) /\
  (forall id payload, 0 < id < 2 ^ 32 ->
     kcpmux_protocol_input (stream_payload_header k id ++ payload) a now w =
     delivered (c_peer_connection_id k) a (KCPMUX_PROTO_STREAM_HEADER_LEN + Z.of_nat (length payload))
       (on_stream_payload now id payload) w).
Proof.
  intros Ha Hp. split_and!.
  - intros t. unfold conn_keepalive_msg, write_common. rewrite input_common by done.
    apply delivered_ext. intros c w'. unfold dispatch, input_keepalive. cbn [Z.eqb]. by packet_len.
  - intros reason. split; unfold conn_close_msg, write_common; rewrite input_common by done;
      apply delivered_ext; intros c w'; [apply conn_close_understood|apply conn_close_ack_understood].
  - intros id reason Hid. split; unfold stream_close_msg, write_common;
      rewrite input_common by done; apply delivered_ext; intros c w';
      [by apply stream_close_understood|by apply stream_close_ack_understood].
  - intros id payload Hid. unfold stream_payload_header, write_common. rewrite <- app_assoc.
    rewrite input_common by done. rewrite app_assoc, length_app.
    replace (Z.of_nat (length _ + length payload)) with
      (KCPMUX_PROTO_STREAM_HEADER_LEN + Z.of_nat (length payload)) by (rewrite Nat2Z.inj_add; done).
    apply delivered_ext. intros c w'. by apply stream_payload_understood.
Qed.

(** ** The handshake *)

(** The extension a connection sends: the bytes in use of its buffer. *)
Definition ext_bytes (x : proto_ext) : list Z := take (Z.to_nat (pe_len x)) (pe_data x).

Record ext_ok (x : proto_ext) : Prop := {
  ext_ok_len : 0 <= pe_len x <= KCPMUX_PROTO_EXT_MAX_LEN;
  ext_ok_data : pe_len x <= Z.of_nat (length (pe_data x))
}.

Definition on_connect (buf a : list Z) (now source_id ext_len : Z) : W Z :=
  oc ← kcpmux_engine_get_passive_conn (Some a) source_id;
  match oc with
  | Some c =>
      k ← get_conn c;
      if bool_decide (c_state k = CONN_CONNECTED) then
        note_rx c (Z.of_nat (length buf));;
        kcpmux_conn_note_receive c now false;;
        _ ← kcpmux_conn_send_connect_ack c KCPMUX_ACK_RESULT_OK;
        mret 0
      else mret (- KCPMUX_ERR_STATE)
  | None => accept_connect buf a source_id ext_len now
  end.

Definition set_peer_ext c (bytes : list Z) : W unit :=
  when (negb (bool_decide (bytes = [])))
    (mod_conn c (fun k => k <| c_peer_proto_ext ::= proto_ext_store bytes |>)).

Definition on_connect_ack (now source_id result : Z) (bytes : list Z) c : W Z :=
  k ← get_conn c;
  if bool_decide (c_state k = CONN_CONNECTING) then
    kcpmux_conn_note_receive c now false;;
    (if result =? KCPMUX_ACK_RESULT_OK then
       mod_conn c (fun k => k <| c_peer_connection_id := source_id |>);;
       set_peer_ext c bytes;;
       kcpmux_conn_set_state c CONN_CONNECTED
     else
       mod_stats (fun x => x <| es_conn_rejected_total ::= inc64 |>);;
       kcpmux_conn_set_state c CONN_ERROR;;
       kcpmux_conn_close_internal c
         (if result =? KCPMUX_ACK_RESULT_VERSION then KCPMUX_CLOSE_REASON_VERSION
          else KCPMUX_CLOSE_REASON_REJECTED));;
    mret 0
  else mret (- KCPMUX_ERR_STATE).

Lemma ext_bytes_length x : ext_ok x -> Z.of_nat (length (ext_bytes x)) = pe_len x.
Proof. intros [? ?]. unfold ext_bytes. rewrite length_take. lia. Qed.

Lemma ext_read x : ext_ok x ->
  (if 0 <? pe_len x then read_bytes_at (Some (pe_data x)) 0 (pe_len x) else Some []) =
  Some (ext_bytes x).
Proof.
  intros [? ?]. unfold ext_bytes, read_bytes_at. destruct (Z.ltb_spec 0 (pe_len x)); cbn.
  - by rewrite (proj2 (Z.leb_le _ _)).
  - by replace (pe_len x) with 0 by lia.
Qed.

(** The extension that ends a packet is stored as it was sent. *)
Lemma store_peer_ext_ok c pre bytes off n w :
  off = Z.of_nat (length pre) -> n = Z.of_nat (length bytes) ->
  store_peer_ext c (pre ++ bytes) off n w = set_peer_ext c bytes w.
Proof.
  intros -> ->. unfold store_peer_ext, set_peer_ext. destruct bytes as [|b bytes]; [done|].
  cbn [when bool_decide]. rewrite bool_decide_eq_false_2 by done. cbn [negb when].
  rewrite (proj2 (Z.ltb_lt _ _)) by (cbn; lia). cbn [when].
  unfold mbind, M_bind, deref, read_bytes_at. cbn [mbind option_bind].
  rewrite (proj2 (Z.leb_le 0 _)), (proj2 (Z.leb_le _ _)) by (rewrite ?length_app; lia). cbn [andb].
  rewrite !Nat2Z.id, drop_app_length, take_ge by done. done.
Qed.

Lemma connect_understood k a now w :
  addr_ok a -> 0 < c_local_connection_id k < 2 ^ 64 -> ext_ok (c_self_proto_ext k) ->
  exists buf, conn_connect_msg k = Some buf /\
    kcpmux_protocol_input buf a now w =
      on_connect buf a now (c_local_connection_id k) (pe_len (c_self_proto_ext k)) w /\
    forall c w', store_peer_ext c buf KCPMUX_PROTO_CONNECT_LEN (pe_len (c_self_proto_ext k)) w' =
      set_peer_ext c (ext_bytes (c_self_proto_ext k)) w'.
Proof.
  intros Ha Hid Hext. unfold conn_connect_msg. rewrite ext_read by done. cbn [mbind option_bind].
  set (x := c_self_proto_ext k) in *. pose proof (ext_bytes_length x Hext) as Hl.
  destruct Hext as [Hx _]. unfold KCPMUX_PROTO_EXT_MAX_LEN in Hx.
  rewrite (wrap_small 16 (pe_len x)) by (unfold in_u; lia).
  unfold write_common. cbn [Z.eqb]. rewrite Z.eqb_refl.
  set (pre := (KCPMUX_MSG_CONN_CONNECT :: write_u64 0) ++ write_u64 (c_local_connection_id k) ++
    [KCPMUX_VERSION] ++ write_u16 (pe_len x)).
  assert (Hpre : length pre = 20%nat) by done.
  eexists. split; [done|].
  match goal with |- kcpmux_protocol_input ?b _ _ _ = _ /\ _ => set (buf := b) end.
  assert (Hbuf : buf = pre ++ ext_bytes x) by (unfold buf, pre; by rewrite <- !app_assoc).
  assert (Hlen : Z.of_nat (length buf) = 20 + pe_len x) by (rewrite Hbuf, length_app, Hpre; lia).
  split; [|intros c w'; rewrite Hbuf; apply store_peer_ext_ok; [done|lia]].
  unfold kcpmux_protocol_input. rewrite input_addr_ok by done.
  rewrite (proj2 (Z.ltb_ge (Z.of_nat (length buf)) 1)) by lia.
  rewrite (proj2 (Z.ltb_ge (Z.of_nat (length buf)) KCPMUX_PROTO_COMMON_LEN))
    by (unfold KCPMUX_PROTO_COMMON_LEN; lia).
  rewrite (byte_at_ok _ _ KCPMUX_MSG_CONN_CONNECT) by done.
  rewrite (u64_at_ok buf [KCPMUX_MSG_CONN_CONNECT] 0 (drop 9 buf)) by done.
  rewrite Z.eqb_refl. unfold input_connect.
  rewrite (proj2 (Z.ltb_ge (Z.of_nat (length buf)) KCPMUX_PROTO_CONNECT_LEN))
    by (unfold KCPMUX_PROTO_CONNECT_LEN, KCPMUX_PROTO_COMMON_LEN; lia).
  rewrite Z.eqb_refl. cbn [orb negb].
  rewrite (u64_at_ok buf (take 9 buf) (c_local_connection_id k) (drop 17 buf))
    by (done || (unfold in_u; lia)).
  rewrite (proj2 (Z.eqb_neq _ 0)) by lia.
  rewrite (byte_at_ok _ _ KCPMUX_VERSION) by done.
  rewrite (u16_at_ok buf (take 18 buf) (pe_len x) (ext_bytes x)) by (done || (unfold in_u; lia)).
  rewrite (proj2 (Z.ltb_ge _ _)) by (unfold KCPMUX_PROTO_EXT_MAX_LEN; lia).
  rewrite (proj2 (Z.ltb_ge _ _)) by (unfold KCPMUX_PROTO_CONNECT_LEN, KCPMUX_PROTO_COMMON_LEN; lia).
  unfold on_connect. apply bind_ext. intros [c|] w'; rewrite Z.eqb_refl; [|done].
  apply bind_ext. intros k' w1. by case_bool_decide.
Qed.

Lemma connect_ack_understood k result a now w :
  addr_ok a -> 0 < c_peer_connection_id k < 2 ^ 64 -> 0 < c_local_connection_id k < 2 ^ 64 ->
  ext_ok (c_self_proto_ext k) ->
  exists buf, conn_connect_ack_msg k result = Some buf /\
    kcpmux_protocol_input buf a now w =
      delivered (c_peer_connection_id k) a
        (KCPMUX_PROTO_CONNECT_ACK_LEN + pe_len (c_self_proto_ext k))
        (on_connect_ack now (c_local_connection_id k) result (ext_bytes (c_self_proto_ext k))) w.
Proof.
  intros Ha Hp Hid Hext. unfold conn_connect_ack_msg. rewrite ext_read by done. cbn [mbind option_bind].
  set (x := c_self_proto_ext k) in *. pose proof (ext_bytes_length x Hext) as Hl.
  destruct Hext as [Hx _]. unfold KCPMUX_PROTO_EXT_MAX_LEN in Hx.
  rewrite (wrap_small 16 (pe_len x)) by (unfold in_u; lia).
  change (write_common KCPMUX_MSG_CONN_CONNECT_ACK (c_peer_connection_id k))
    with (KCPMUX_MSG_CONN_CONNECT_ACK :: write_u64 (c_peer_connection_id k)).
  set (pre := (KCPMUX_MSG_CONN_CONNECT_ACK :: write_u64 (c_peer_connection_id k)) ++
    write_u64 (c_local_connection_id k) ++ [KCPMUX_VERSION; result] ++ write_u16 (pe_len x)).
  assert (Hpre : length pre = 21%nat) by done.
  eexists. split; [done|]. rewrite input_common by done.
  match goal with |- context [dispatch _ ?b] => set (buf := b) end.
  assert (Hbuf : buf = pre ++ ext_bytes x) by (unfold buf, pre; by rewrite <- !app_assoc).
  assert (Hlen : Z.of_nat (length buf) = KCPMUX_PROTO_CONNECT_ACK_LEN + pe_len x)
    by (rewrite Hbuf, length_app, Hpre, Nat2Z.inj_add, Hl; done).
  rewrite Hlen. apply delivered_ext. intros c w'.
  unfold dispatch. rewrite Z.eqb_refl. unfold input_connect_ack, on_connect_ack.
  apply bind_ext. intros k' w1. case_bool_decide; [|done]. cbn [negb].
  rewrite Hlen. rewrite (proj2 (Z.ltb_ge _ KCPMUX_PROTO_CONNECT_ACK_LEN)) by lia.
  rewrite (u64_at_ok buf (take 9 buf) (c_local_connection_id k) (drop 17 buf))
    by (done || (unfold in_u; lia)).
  rewrite (proj2 (Z.eqb_neq _ 0)) by lia.
  rewrite (byte_at_ok _ _ KCPMUX_VERSION), (byte_at_ok _ _ result) by done.
  rewrite (u16_at_ok buf (take 19 buf) (pe_len x) (ext_bytes x)) by (done || (unfold in_u; lia)).
  rewrite (proj2 (Z.ltb_ge (KCPMUX_PROTO_EXT_MAX_LEN) _)) by (unfold KCPMUX_PROTO_EXT_MAX_LEN; lia).
  rewrite (proj2 (Z.ltb_ge _ (KCPMUX_PROTO_CONNECT_ACK_LEN + pe_len x))) by lia.
  apply bind_ext. intros [] w2. rewrite Z.eqb_refl. cbn [andb negb orb].
  unfold mbind, M_bind. destruct (result =? KCPMUX_ACK_RESULT_OK) eqn:Hr.
  - destruct (mod_conn c _ w2) as [[[] w3]|]; [|done].
    rewrite Hbuf, (store_peer_ext_ok c pre) by (done || lia). done.
  - destruct (mod_stats _ w2) as [[[] w3]|]; [|done].
    destruct (kcpmux_conn_set_state c CONN_ERROR w3) as [[[] w4]|]; [|done].
    by destruct (result =? KCPMUX_ACK_RESULT_VERSION).
Qed.

(** C5. The handshake is understood. A CONNECT announces to the peer the
    sender's identifier and extension, and the peer either answers an already
    connected passive connection of that identifier again or accepts a new one;
    a CONNECT_ACK carries the answerer's identifier, result and extension back
    to the connection that asked, which becomes connected exactly when the
    result is OK. Extensions of every permitted length arrive as sent. *)
Theorem handshake_understood k a now w :
  addr_ok a -> 0 < c_local_connection_id k < 2 ^ 64 -> ext_ok (c_self_proto_ext k) ->
  (exists buf, conn_connect_msg k = Some buf /\
     kcpmux_protocol_input buf a now w =
       on_connect buf a now (c_local_connection_id k) (pe_len (c_self_proto_ext k)) w /\
     forall c w', store_peer_ext c buf KCPMUX_PROTO_CONNECT_LEN (pe_len (c_self_proto_ext k)) w' =
       set_peer_ext c (ext_bytes (c_self_proto_ext k)) w') /\
  (0 < c_peer_connection_id k < 2 ^ 64 -> forall result,
     exists buf, conn_connect_ack_msg k result = Some buf /\
     kcpmux_protocol_input buf a now w =
       delivered (c_peer_connection_id k) a
         (KCPMUX_PROTO_CONNECT_ACK_LEN + pe_len (c_self_proto_ext k))
         (on_connect_ack now (c_local_connection_id k) result (ext_bytes (c_self_proto_ext k))) w).
Proof.
  intros Ha Hid Hext. split; [by apply connect_understood|].
  intros Hp result. by apply connect_ack_understood.
Qed.
End wire.

(** ** Witnesses: the client of [Sample] talks to the server *)

Definition close_packet : list Z := Eval vm_compute in
  conn_close_msg KCPMUX_MSG_CONN_CLOSE client_conn 0.
Definition connect_packet := Eval vm_compute in outcome (conn_connect_msg client_conn).
Definition server_closed := Eval vm_compute in
  outcome (run (kcpmux_protocol_input close_packet client_addr 5000) (Some server_world)).

Lemma client_addr_ok : addr_ok client_addr.
Proof. split; [reflexivity|discriminate]. Qed.

(** The client's close reaches the server, which acknowledges and closes. *)
Lemma messages_understood_witness :
  kcpmux_protocol_input close_packet client_addr 5000 server_world = Some (0, server_closed) /\
  delivered (c_peer_connection_id client_conn) client_addr KCPMUX_PROTO_CONN_CLOSE_LEN
    (on_conn_close 5000 0) server_world = Some (0, server_closed).
Proof.
  assert (Hrun : kcpmux_protocol_input close_packet client_addr 5000 server_world = Some (0, server_closed))
    by (vm_compute; reflexivity).
  assert (Hp : 0 < c_peer_connection_id client_conn < 2 ^ 64) by (vm_compute; split; reflexivity).
  split; [exact Hrun|]. rewrite <- Hrun. symmetry.
  exact (proj1 (proj1 (proj2 (messages_understood client_conn client_addr 5000 server_world
    client_addr_ok Hp)) 0)).
Defined.

Lemma connect_packet_eq : conn_connect_msg client_conn = Some connect_packet.
Proof. vm_compute. reflexivity. Qed.

(** The client's CONNECT is taken for one of its identifier, by any peer. *)
Lemma handshake_understood_witness :
  kcpmux_protocol_input connect_packet client_addr 1000 booted_world =
  on_connect connect_packet client_addr 1000 (c_local_connection_id client_conn) 0 booted_world.
Proof.
  assert (Hid : 0 < c_local_connection_id client_conn < 2 ^ 64) by (vm_compute; split; reflexivity).
  assert (Hext : ext_ok (c_self_proto_ext client_conn))
    by (split; vm_compute; [split; discriminate|discriminate]).
  destruct (handshake_understood client_conn client_addr 1000 booted_world client_addr_ok Hid Hext)
    as ((buf & Hb & Hin & _) & _).
  rewrite connect_packet_eq in Hb. injection Hb as <-. exact Hin.
Defined.
