(* ===== verification/Sending.v ===== *)
(** * Vectored and contiguous sends agree (src/kcpmux_stream.c)

    [kcpmux_stream_sendv] of a list of fragments does what
    [kcpmux_stream_send] does with the bytes of the fragments in one buffer:
    the chunks handed to KCP, the result and the state left behind are the
    same, whether KCP gathers the fragments itself or the stream copies each
    chunk. *)

From S2P Require Import Prelude Types Timer Hashtable Vectored World Engine Conn Messages Stream Sample.
#[local] Open Scope Z_scope.

Section sending.
Context {KO : Kcp} {HO : Host}.
Implicit Types (s : positive) (w : world K).

(** What [kcpmux_kcp_ops_t] asks of [sendv], when it is provided: gather [len]
    bytes starting [first_offset] bytes into the first fragment and send them. *)
Definition sendv_gathers : Prop :=
  match kcp_sendv with
  | None => True
  | Some sendv => forall k c n, ctx_ok c -> 0 <= n < 2 ^ 32 -> n <= Z.of_nat (length (rest c)) ->
      sendv k (drop (vc_index c) (vc_iov c)) (vc_offset c) n = kcp_send k (take (Z.to_nat n) (rest c))
  end.

(** The two contexts of the send loop stand before the same bytes. *)
Record same_bytes (b : contiguous_send_context) (c : vectored_send_context) : Prop := {
  sb_ok : ctx_ok c;
  sb_offset : 0 <= cc_offset b <= Z.of_nat (length (cc_buf b));
  sb_max : Z.of_nat (length (cc_buf b)) < 2 ^ 32;
  sb_rest : rest c = drop (Z.to_nat (cc_offset b)) (cc_buf b)
}.

Definition same_result (r : option ((Z * contiguous_send_context) * world K))
    (r' : option ((Z * vectored_send_context) * world K)) (b : contiguous_send_context)
    (n : Z) : Prop :=
  match r, r' with
  | Some (ret, b', w1), Some (ret', c', w2) => ret = ret' /\ w1 = w2 /\
      (0 <= ret -> same_bytes b' c' /\ cc_buf b' = cc_buf b /\ cc_offset b' = cc_offset b + n)
  | None, None => True
  | _, _ => False
  end.

(** One chunk. *)
Lemma chunk_agrees s b c n w :
  sendv_gathers -> same_bytes b c -> 0 <= n -> cc_offset b + n <= Z.of_nat (length (cc_buf b)) ->
  same_result (kcpmux_stream_send_contiguous_chunk s b n w)
    (kcpmux_stream_send_vectored_chunk s c n w) b n.
Proof.
  intros Hkcp [Hok Ho Hmax Hrest] Hn Hle.
  assert (Hlen : Z.of_nat (length (rest c)) = Z.of_nat (length (cc_buf b)) - cc_offset b)
    by (rewrite Hrest, length_drop; lia).
  set (bytes := take (Z.to_nat n) (rest c)).
  assert (Hc : kcpmux_stream_send_contiguous_chunk s b n w =
    (ret ← ops_send s bytes;
     mret (ret, if 0 <=? ret then mk_cctx (cc_buf b) (u32 (cc_offset b + n)) else b)) w).
  { unfold kcpmux_stream_send_contiguous_chunk. rewrite (bind_deref _ _ _ bytes); [done|].
    unfold read_bytes_at.
    cbn [mbind option_bind]. rewrite (proj2 (Z.leb_le _ _)), (proj2 (Z.leb_le _ _)) by lia.
    cbn [andb]. unfold bytes. by rewrite Hrest. }
  assert (Hv : kcpmux_stream_send_vectored_chunk s c n w =
    (ret ← ops_send s bytes;
     if 0 <=? ret then
       context' ← deref (fun _ => kcpmux_vectored_advance c n); mret (ret, context')
     else mret (ret, c)) w).
  { unfold kcpmux_stream_send_vectored_chunk. unfold sendv_gathers in Hkcp.
    destruct kcp_sendv as [sendv|].
    - rewrite bind_assoc. unfold ops_send. rewrite bind_assoc. unfold mbind, M_bind.
      destruct (get_kcp s w) as [[k w1]|]; [|done]. rewrite Hkcp; [done..|lia|lia].
    - rewrite bind_assoc, (bind_deref _ _ _ bytes); [done|]. apply vectored_copy_ok; [done|lia|lia]. }
  rewrite Hc, Hv. unfold mbind, M_bind.
  destruct (ops_send s bytes w) as [[ret w1]|]; [|done].
  destruct (Z.leb_spec 0 ret).
  - destruct (vectored_advance_ok c n Hok) as (c' & Hadv & Hok' & _ & Hrest'); [lia..|].
    unfold deref. rewrite Hadv. cbn. split; [done|]. split; [done|]. intros _.
    rewrite wrap_small by (unfold in_u; lia). split; [|done].
    split; cbn; [done|lia|done|].
    rewrite Hrest', Hrest, drop_drop. f_equal. lia.
  - cbn. split; [done|]. split; [done|]. lia.
Qed.

Lemma send_loop_agrees fuel s b c chunk remaining total w :
  sendv_gathers -> same_bytes b c -> 0 <= chunk ->
  remaining = Z.of_nat (length (cc_buf b)) - cc_offset b ->
  send_loop fuel kcpmux_stream_send_vectored_chunk s c chunk remaining total w =
  send_loop fuel kcpmux_stream_send_contiguous_chunk s b chunk remaining total w.
Proof.
  intros Hkcp Hb Hchunk Hrem. revert b c remaining total w Hb Hrem.
  induction fuel as [|fuel IH]; intros b c remaining total w Hb Hrem; cbn [send_loop];
    destruct (Z.leb_spec remaining 0) as [|Hpos]; try done.
  set (n := if remaining <? chunk then remaining else chunk).
  assert (Hn : 0 <= n <= remaining) by (unfold n; destruct (Z.ltb_spec remaining chunk); lia).
  pose proof (chunk_agrees s b c n w Hkcp Hb) as Hch. unfold same_result in Hch.
  unfold mbind, M_bind.
  destruct (kcpmux_stream_send_contiguous_chunk s b n w) as [[[ret b'] w1]|],
    (kcpmux_stream_send_vectored_chunk s c n w) as [[[ret' c'] w2]|]; try (exfalso; apply Hch; lia); [|done].
  destruct Hch as (-> & -> & Hnext); [lia..|].
  destruct (Z.ltb_spec ret' 0); [done|].
  destruct Hnext as (Hb' & Hbuf & Hoff); [lia|].
  pose proof (sb_max _ _ Hb). pose proof (sb_offset _ _ Hb).
  rewrite (wrap_small 32 (remaining - n)) by (unfold in_u; lia).
  apply IH; [done|]. rewrite Hbuf, Hoff. lia.
Qed.

Lemma flatten_length iov :
  Forall iovec_ok iov -> Z.of_nat (length (flatten iov)) = fold_right (fun v n => iov_len v + n) 0 iov.
Proof.
  induction 1 as [|v l Hv Hl IH]; [done|]. rewrite flatten_cons, length_app, Nat2Z.inj_add, IH.
  rewrite iov_bytes_length by done. done.
Qed.

Lemma sendv_total_ok iov total :
  Forall iovec_ok iov -> 0 <= total -> total + Z.of_nat (length (flatten iov)) <= INT_MAX ->
  sendv_total iov total = Some (total + Z.of_nat (length (flatten iov))).
Proof.
  intros Hiov. revert total. induction Hiov as [|v l Hv Hl IH]; intros total Ht Hle.
  - cbn. f_equal. lia.
  - rewrite flatten_cons, length_app, Nat2Z.inj_add in Hle |- *.
    pose proof (iov_bytes_length v Hv) as Hlen. pose proof Hv as [[H0 _] Hd].
    cbn [sendv_total].
    assert ((0 <? iov_len v) && bool_decide (iov_data v = None) = false) as ->.
    { destruct (Z.ltb_spec 0 (iov_len v)); [|done]. destruct Hd as (d & -> & _); [lia|done]. }
    unfold INT_MAX in *. rewrite wrap_small by (unfold in_u; lia).
    destruct (Z.ltb_spec (2 ^ 31 - 1) (total + iov_len v)); [lia|].
    rewrite IH by lia. f_equal. lia.
Qed.

(** C19. Sending fragments is sending their concatenation. For fragments that
    are valid and add up to at most INT_MAX bytes, [kcpmux_stream_sendv]
    computes the total as their combined length, and from there on its result,
    the packets and notifications it causes and the state it leaves are those
    of [kcpmux_stream_send] on one buffer with the same bytes, however the
    bytes are cut into fragments. *)
Theorem sendv_is_send s iov flush now st w :
  sendv_gathers -> Forall iovec_ok iov -> Z.of_nat (length (flatten iov)) <= INT_MAX ->
  w_streams w !! s = Some st -> 0 <= sc_kcp_mss (s_config st) ->
  let size := Z.of_nat (length (flatten iov)) in
  sendv_total iov 0 = Some size /\
  send_chunks_body s now size flush kcpmux_stream_send_vectored_chunk
    (mk_vctx iov (skip_empty iov 0) 0) w =
  send_chunks_body s now size flush kcpmux_stream_send_contiguous_chunk
    (mk_cctx (flatten iov) 0) w.
Proof.
  intros Hkcp Hiov Hmax Hs Hmss size. split; [by rewrite sendv_total_ok by (done || lia)|].
  unfold send_chunks_body, get_stream. rewrite !(bind_deref _ _ _ st) by done.
  assert (Hloop : forall w', send_loop (Z.to_nat size) kcpmux_stream_send_vectored_chunk s
      (mk_vctx iov (skip_empty iov 0) 0) (sc_kcp_mss (s_config st)) size 0 w' =
    send_loop (Z.to_nat size) kcpmux_stream_send_contiguous_chunk s
      (mk_cctx (flatten iov) 0) (sc_kcp_mss (s_config st)) size 0 w').
  { intros w'. unfold INT_MAX in Hmax. apply send_loop_agrees; [done| |done|cbn; lia].
    split; cbn; [by constructor; [|left]|lia|lia|]. rewrite drop_0. by apply (skip_empty_rest iov 0). }
  unfold mbind, M_bind. destruct (get_conn (s_conn st) w) as [[k w1]|]; [|done].
  destruct (s_internal_closed st); [done|]. destruct (_ || _); [done|].
  destruct ((if 0 <? size then ops_waitsnd s else mret 0) w1) as [[ws w2]|]; [|done].
  destruct (_ && _); [done|].
  destruct (ops_current_update s now w2) as [[[] w3]|]; [|done]. by rewrite Hloop.
Qed.

(** ** The pause threshold *)

Lemma s32_large v : 2 ^ 31 <= v < 2 ^ 32 -> s32 v < 0.
Proof.
  intros Hv. unfold s32. rewrite wrap_small by (unfold in_u; lia).
  destruct (Z.ltb_spec v (2 ^ 31)); lia.
Qed.

End sending.

(** The client's stream with a threshold of 2^31. *)
Definition paused_stream : stream K :=
  sample_open_stream <| s_config ::= fun c => c <| sc_send_pause_threshold := 2 ^ 31 |> |>.
Definition paused_world : world K := stream_world <| w_streams ::= <[2%positive := paused_stream]> |>.


(** A KCP with a vectored send: it gathers the bytes and queues them. *)
Definition gather_ops : Kcp := {|
  K := queue_kcp;
  kcp_create := @kcp_create queue_ops;
  kcp_setmss := @kcp_setmss queue_ops;
  kcp_send := @kcp_send queue_ops;
  kcp_sendv := Some (fun k iov off n =>
    @kcp_send queue_ops k (take (Z.to_nat n) (drop (Z.to_nat off) (flatten iov))));
  kcp_input := @kcp_input queue_ops;
  kcp_recv := @kcp_recv queue_ops;
  kcp_peeksize := @kcp_peeksize queue_ops;
  kcp_waitsnd := @kcp_waitsnd queue_ops;
  kcp_update := @kcp_update queue_ops;
  kcp_check := @kcp_check queue_ops;
  kcp_current_update := @kcp_current_update queue_ops
|}.

Lemma gather_ops_gathers : @sendv_gathers gather_ops.
Proof. intros k c n _ _ _. reflexivity. Qed.

(** The fragments [1 2 3], nothing, [4 5] on the stream of the client. *)
Lemma sendv_is_send_witness :
  let iov := [mk_iovec (Some [1; 2; 3]) 3; mk_iovec None 0; mk_iovec (Some [4; 5]) 2] in
  @send_chunks_body gather_ops steady_host _ 2%positive 2000 5 true
    (@kcpmux_stream_send_vectored_chunk gather_ops steady_host) (mk_vctx iov 0 0) stream_world =
  @send_chunks_body gather_ops steady_host _ 2%positive 2000 5 true
    (@kcpmux_stream_send_contiguous_chunk gather_ops steady_host) (mk_cctx [1; 2; 3; 4; 5] 0) stream_world.
Proof.
  intros iov.
  assert (Hiov : Forall iovec_ok iov).
  { repeat constructor; cbn; try lia; intros _; eexists; (split; [done|cbn; lia]). }
  refine (proj2 (@sendv_is_send gather_ops steady_host 2%positive iov true 2000 sample_open_stream
    stream_world gather_ops_gathers Hiov _ _ _)).
  - vm_compute. discriminate.
  - vm_compute. reflexivity.
  - vm_compute. discriminate.
Defined.
