(* ===== verification/Ident.v ===== *)
(** * Stream identifiers (src/kcpmux_conn.c)

    The identifiers a connection hands out: nonzero, of its own parity, not in
    use, found within [stream_count + 1] attempts although the 32-bit counter
    wraps around; and the serial-number order by which identifiers of the peer
    count as new. *)

From S2P Require Import Prelude Types Timer ByteOrder Hash Hashtable Vectored World Engine Conn Messages Stream Sample.
#[local] Open Scope Z_scope.

(** ** The order on peer identifiers *)

(** [id] is [d] steps ahead of [latest] on the 32-bit circle. *)
Definition ahead (latest id d : Z) : Prop := id = u32 (latest + d).

(** C21. A peer's stream identifier is new when it is the peer's to give out
    and lies strictly ahead of the last one accepted, by less than half of the
    32-bit circle; in particular an identifier is never newer than one that is
    newer than it, so a late packet of an old stream cannot reopen it. *)
Theorem peer_stream_id_order k id :
  in_u 32 id -> in_u 32 (c_latest_peer_stream_id k) ->
  (kcpmux_conn_is_new_peer_stream_id k id = true <->
   id <> 0 /\ Z.odd id <> c_is_initiator k /\
   (c_peer_stream_id_initialized k = true ->
      exists d, 0 < d < 2 ^ 31 /\ ahead (c_latest_peer_stream_id k) id d)) /\
  (c_peer_stream_id_initialized k = true -> kcpmux_conn_is_new_peer_stream_id k id = true ->
   kcpmux_conn_is_new_peer_stream_id (k <| c_latest_peer_stream_id := id |>)
     (c_latest_peer_stream_id k) = false).
Proof.
  intros Hid Hl.
  assert (Hpar : (Z.land id 1 =? Z.b2z (c_is_initiator k)) = Bool.eqb (Z.odd id) (c_is_initiator k)).
  { change 1 with (Z.ones 1). rewrite Z.land_ones by lia. change (2 ^ 1) with 2.
    rewrite Zmod_odd. by destruct (Z.odd id), (c_is_initiator k). }
  set (l := c_latest_peer_stream_id k) in *.
  assert (Hdelta : negb (u32 (id - l) =? 0) && (u32 (id - l) <? 0x80000000) = true <->
    exists d, 0 < d < 2 ^ 31 /\ ahead l id d).
  { unfold ahead, in_u, wrap in *. split.
    - intros [H1 H2]%andb_true_iff. exists ((id - l) mod 2 ^ 32).
      apply negb_true_iff, Z.eqb_neq in H1. apply Z.ltb_lt in H2.
      pose proof (Z.mod_pos_bound (id - l) (2 ^ 32)). split; [lia|].
      rewrite Zplus_mod_idemp_r. replace (l + (id - l)) with id by lia. by rewrite Z.mod_small.
    - intros (d & Hd & ->). rewrite Zminus_mod_idemp_l. replace (l + d - l) with d by lia.
      rewrite Z.mod_small by lia. destruct (Z.eqb_spec d 0); [lia|].
      destruct (Z.ltb_spec d 0x80000000); [done|lia]. }
  split.
  - unfold kcpmux_conn_is_new_peer_stream_id. fold l. rewrite Hpar.
    destruct (Z.eqb_spec id 0); [naive_solver|].
    destruct (Bool.eqb_spec (Z.odd id) (c_is_initiator k)); [naive_solver|].
    destruct (c_peer_stream_id_initialized k); cbn [negb]; [|naive_solver].
    rewrite Hdelta. naive_solver.
  - intros Hi. unfold kcpmux_conn_is_new_peer_stream_id. fold l. cbn. rewrite Hi. cbn [negb].
    destruct (id =? 0); [done|]. destruct (Z.land id 1 =? _); [done|].
    intros (d & Hd & Ha)%Hdelta. destruct (l =? 0); [done|]. destruct (Z.land l 1 =? _); [done|].
    apply not_true_iff_false. intros [H1 H2]%andb_true_iff. apply Z.ltb_lt in H2.
    unfold ahead, in_u, wrap in *. subst id. revert H2. rewrite Zminus_mod_idemp_r.
    replace (l - (l + d)) with (- d) by lia.
    rewrite Z_mod_nz_opp_full; rewrite Z.mod_small by lia; lia.
Qed.

(** ** The candidates of the allocator *)

(** [stream_id == 0 ? (is_initiator ? 1 : 2) : stream_id] *)
Definition norm_id (init : bool) (id : Z) : Z := if id =? 0 then (if init then 1 else 2) else id.
Definition next_id (init : bool) (id : Z) : Z := u32 (norm_id init id + 2).

(** The value of the counter before attempt [i]. *)
Definition counter (init : bool) (id : Z) (i : nat) : Z := Nat.iter i (next_id init) id.
Definition candidate (init : bool) (id : Z) (i : nat) : Z := norm_id init (counter init id i).

Record counter_ok (init : bool) (id : Z) : Prop := {
  counter_range : in_u 32 id;
  counter_parity : Z.odd id = init
}.

(** The counter walks through the identifiers of its parity in a cycle: the
    odd ones, or the even ones but 0. *)
Definition slot (init : bool) (id : Z) : Z := if init then id / 2 else norm_id init id / 2 - 1.
Definition period (init : bool) : Z := if init then 2 ^ 31 else 2 ^ 31 - 1.

Lemma odd_half id : id = 2 * (id / 2) + Z.b2z (Z.odd id).
Proof. pose proof (Zmod_odd id). pose proof (Z.div_mod id 2). destruct (Z.odd id); cbn; lia. Qed.

Lemma norm_id_ok init id :
  counter_ok init id -> 0 < norm_id init id < 2 ^ 32 /\ Z.odd (norm_id init id) = init.
Proof.
  intros [Hr Hp]. unfold norm_id, in_u in *. destruct (Z.eqb_spec id 0) as [->|]; [|split; [lia|done]].
  by destruct init.
Qed.

Lemma next_id_ok init id : counter_ok init id -> counter_ok init (next_id init id).
Proof.
  intros Hc. pose proof (norm_id_ok init id Hc) as [Hn Hp]. unfold next_id.
  split; [by apply wrap_range|]. unfold wrap.
  rewrite (Z.mod_eq _ (2 ^ 32)) by lia.
  replace (norm_id init id + 2 - 2 ^ 32 * ((norm_id init id + 2) / 2 ^ 32))
    with (norm_id init id + 2 * (1 - 2 ^ 31 * ((norm_id init id + 2) / 2 ^ 32))) by lia.
  by rewrite Z.odd_add_mul_2.
Qed.

Lemma counter_ok_iter init id i : counter_ok init id -> counter_ok init (counter init id i).
Proof. intros Hc. induction i as [|i IH]; [done|]. by apply next_id_ok. Qed.

Lemma slot_next init id :
  counter_ok init id ->
  0 <= slot init id < period init /\ slot init (next_id init id) = (slot init id + 1) mod period init.
Proof.
  intros Hc. pose proof (norm_id_ok init id Hc) as [Hn Hp]. destruct Hc as [Hr Hpar].
  pose proof (odd_half (norm_id init id)) as Hh. rewrite Hp in Hh.
  unfold next_id, slot, period, in_u in *. destruct init; cbn [Z.b2z] in *.
  - assert (norm_id true id = id) as E by (unfold norm_id; destruct (Z.eqb_spec id 0); [by subst|done]).
    rewrite E in *. split; [lia|].
    destruct (decide (id + 2 < 2 ^ 32)).
    + rewrite (wrap_small 32) by (unfold in_u; lia). rewrite Z.mod_small by lia.
      replace (id + 2) with (id + 1 * 2) by lia. by rewrite Z.div_add by lia.
    + unfold wrap. assert (id + 2 = 1 + 1 * 2 ^ 32) as -> by lia.
      rewrite Z.mod_add, Z.mod_small by lia. change (1 / 2) with 0.
      assert (id / 2 + 1 = 2 ^ 31) as -> by lia. by rewrite Z.mod_same.
  - set (v := norm_id false id / 2) in *. assert (norm_id false id = 2 * v) as -> by lia.
    split; [lia|]. destruct (decide (2 * v + 2 < 2 ^ 32)).
    + rewrite (wrap_small 32) by (unfold in_u; lia).
      unfold norm_id. destruct (Z.eqb_spec (2 * v + 2) 0); [lia|].
      rewrite Z.mod_small by lia. replace (2 * v + 2) with ((v + 1) * 2) by lia.
      rewrite Z.div_mul by lia. lia.
    + unfold wrap. assert (2 * v + 2 = 2 ^ 32) as -> by lia. rewrite Z.mod_same by lia.
      assert (v - 1 + 1 = 2 ^ 31 - 1) as -> by lia. rewrite Z.mod_same by lia. done.
Qed.

Lemma slot_counter init id i :
  counter_ok init id -> slot init (counter init id i) = (slot init id + Z.of_nat i) mod period init.
Proof.
  intros Hc. induction i as [|i IH].
  - pose proof (slot_next init id Hc) as [H _]. cbn. rewrite Z.mod_small; lia.
  - pose proof (slot_next _ _ (counter_ok_iter init id i Hc)) as [_ H].
    change (counter init id (S i)) with (next_id init (counter init id i)).
    rewrite H, IH, Zplus_mod_idemp_l. f_equal. lia.
Qed.

Lemma slot_norm init id : counter_ok init id ->
  norm_id init id = if init then 2 * slot init id + 1 else 2 * (slot init id + 1).
Proof.
  intros Hc. pose proof (norm_id_ok init id Hc) as [Hn Hp].
  pose proof (odd_half (norm_id init id)) as Hh. rewrite Hp in Hh. destruct Hc as [Hr Hpar].
  unfold slot. destruct init; cbn [Z.b2z] in *; [|lia].
  assert (norm_id true id = id) as E by (unfold norm_id; destruct (Z.eqb_spec id 0); [by subst|done]).
  rewrite E in *. lia.
Qed.

Lemma candidate_inj init id i j :
  counter_ok init id -> Z.of_nat i < period init -> Z.of_nat j < period init ->
  candidate init id i = candidate init id j -> i = j.
Proof.
  intros Hc Hi Hj H. unfold candidate in H.
  rewrite !slot_norm in H by by apply counter_ok_iter.
  assert (Hs : slot init (counter init id i) = slot init (counter init id j))
    by (destruct init; lia).
  rewrite !slot_counter in Hs by done.
  assert (0 < period init) by (unfold period; destruct init; lia).
  rewrite !(Z.mod_eq _ (period init)) in Hs by lia.
  set (q := (slot init id + Z.of_nat i) / period init) in *.
  set (q' := (slot init id + Z.of_nat j) / period init) in *.
  assert (Hd : Z.of_nat i - Z.of_nat j = period init * (q - q')) by lia.
  assert (q - q' = 0) by nia. nia.
Qed.

Section alloc.
Context {KO : Kcp} {HO : Host}.
Implicit Types (c s : positive) (w : world K) (k : conn).

(** ** The table of the streams of a connection *)

Definition stream_key w s : Z := default 0 (s_stream_id <$> w_streams w !! s).

Record stream_table_ok w k : Prop := {
  st_htb : htb_ok (stream_key w) stream_hash (c_stream_map k);
  st_live s : s ∈ entries (c_stream_map k) -> is_Some (w_streams w !! s);
  st_count : c_stream_count k = num (c_stream_map k);
  st_few : c_stream_count k < 2 ^ 31 - 1
}.

(** On live streams the comparison callback compares identifiers. *)
Lemma stream_find_eq w ht id h :
  (forall s, s ∈ entries ht -> is_Some (w_streams w !! s)) ->
  kcpmux_htb_find (stream_cmp (w_streams w) id) h ht =
  kcpmux_htb_find (key_cmp (stream_key w) id) h ht.
Proof.
  intros Hlive. apply htb_find_ext. intros s Hs. destruct (Hlive s Hs) as [st Hst].
  unfold stream_cmp, key_cmp, stream_key. rewrite Hst. cbn. f_equal.
  destruct (Z.eqb_spec id (s_stream_id st)); [by rewrite bool_decide_eq_true_2|by rewrite bool_decide_eq_false_2].
Qed.

(** An identifier is in use when a stream of the table has it. *)
Definition in_use w k id : Prop := id ∈ (stream_key w <$> entries (c_stream_map k)).

Lemma get_stream_by_id_ok w c k id :
  w_conns w !! c = Some k -> stream_table_ok w k ->
  exists r, kcpmux_conn_get_stream_by_id c id w = Some (r, w) /\ (is_Some r <-> in_use w k id).
Proof.
  intros Hk [Hht Hlive _ _]. unfold kcpmux_conn_get_stream_by_id, get_conn, mbind, M_bind, deref.
  rewrite Hk, stream_find_eq by done.
  destruct (htb_find_ok (stream_key w) stream_hash (c_stream_map k) id Hht) as (r & -> & Hr).
  exists r. split; [done|]. unfold in_use. rewrite list_elem_of_fmap. split.
  - intros [s Hs]. apply Hr in Hs as [? ?]. eauto.
  - intros (s & -> & Hs). exists s. by apply Hr.
Qed.

(** Only the counter has moved. *)
Definition bump c k n w : world K := w <| w_conns ::= <[c := k <| c_next_stream_id := n |>]> |>.

Lemma bump_same c k w : w_conns w !! c = Some k -> bump c k (c_next_stream_id k) w = w.
Proof.
  intros Hk. unfold bump. destruct w. cbn in *. f_equal. apply insert_id. rewrite Hk.
  by destruct k.
Qed.

Lemma alloc_loop_step rounds c k w :
  w_conns w !! c = Some k ->
  alloc_stream_id_loop (S rounds) c w =
  (let id := norm_id (c_is_initiator k) (c_next_stream_id k) in
   let w1 := bump c k (next_id (c_is_initiator k) (c_next_stream_id k)) w in
   match kcpmux_conn_get_stream_by_id c id w1 with
   | Some (None, w2) => Some (id, w2)
   | Some (Some _, w2) => alloc_stream_id_loop rounds c w2
   | None => None
   end).
Proof.
  intros Hk. cbn [alloc_stream_id_loop]. unfold get_conn.
  rewrite (bind_deref _ _ _ k) by done. cbv zeta. unfold mod_conn, get_conn.
  rewrite bind_assoc, (bind_deref _ _ _ k) by done.
  erewrite bind_some by reflexivity.
  fold (norm_id (c_is_initiator k) (c_next_stream_id k)).
  fold (next_id (c_is_initiator k) (c_next_stream_id k)).
  unfold mbind, M_bind. fold (bump c k (next_id (c_is_initiator k) (c_next_stream_id k)) w).
  destruct (kcpmux_conn_get_stream_by_id c _ _) as [[[?|] ?]|]; done.
Qed.

Lemma alloc_loop_ok rounds c k w :
  stream_table_ok w k -> w_conns w !! c = Some k ->
  counter_ok (c_is_initiator k) (c_next_stream_id k) ->
  let cand := candidate (c_is_initiator k) (c_next_stream_id k) in
  exists n r, alloc_stream_id_loop rounds c w = Some (r, bump c k n w) /\
    counter_ok (c_is_initiator k) n /\
    ((r = 0 /\ forall i, (i < rounds)%nat -> in_use w k (cand i)) \/
     (exists i, r = cand i /\ ~ in_use w k r)).
Proof.
  revert k w. induction rounds as [|rounds IH]; intros k w Htab Hk Hn cand.
  { exists (c_next_stream_id k), 0. split; [|split; [done|left; split; [done|lia]]].
    by rewrite bump_same. }
  rewrite (alloc_loop_step _ _ k) by done. cbv zeta.
  set (init := c_is_initiator k) in *. set (id := c_next_stream_id k) in *.
  set (k1 := k <| c_next_stream_id := next_id init id |>).
  set (w1 := bump c k (next_id init id) w).
  assert (Hk1 : w_conns w1 !! c = Some k1) by (unfold w1, bump; cbn; apply lookup_insert_eq).
  assert (Htab1 : stream_table_ok w1 k1) by by destruct Htab.
  destruct (get_stream_by_id_ok w1 c k1 (norm_id init id) Hk1 Htab1) as (r & -> & Huse).
  assert (H0 : cand 0%nat = norm_id init id) by done.
  destruct r as [s|].
  - assert (Huse0 : in_use w k (cand 0%nat)) by (rewrite H0; apply Huse; eauto).
    destruct (IH k1 w1 Htab1 Hk1 (next_id_ok init id Hn)) as (n & r & Hrun & Hn' & Hcase).
    exists n, r. split; [|split; [done|]].
    { rewrite Hrun. unfold w1, bump. cbn. by rewrite insert_insert_eq. }
    assert (Hc : forall i, candidate (c_is_initiator k1) (c_next_stream_id k1) i = cand (S i)).
    { intros i. unfold cand, candidate, counter, k1. cbn [c_is_initiator c_next_stream_id upd].
      fold init id. by rewrite Nat.iter_succ_r. }
    destruct Hcase as [[-> Hall]|(i & -> & Hfree)]; [left|right].
    + split; [done|]. intros [|i] Hi; [done|]. rewrite <- Hc. apply Hall. lia.
    + exists (S i). by rewrite Hc in *.
  - exists (next_id init id), (norm_id init id). split; [done|].
    split; [by apply next_id_ok|]. right. exists 0%nat. split; [done|].
    intros Hin. by apply Huse in Hin as [? ?].
Qed.

(** C20. A connection never runs out of stream identifiers while it has fewer
    than 2^31 - 1 streams: [kcpmux_conn_alloc_stream_id] always finds, within
    its [stream_count + 1] attempts and across the wrap-around of the 32-bit
    counter, a nonzero identifier of the connection's own parity that no stream
    of the connection uses, and changes nothing but the counter; the counter
    starts with the right parity and keeps it. *)
Theorem alloc_stream_id_fresh c k w :
  w_conns w !! c = Some k -> stream_table_ok w k ->
  counter_ok (c_is_initiator k) (c_next_stream_id k) ->
  (exists id n, kcpmux_conn_alloc_stream_id c w = Some (id, bump c k n w) /\
     0 < id < 2 ^ 32 /\ Z.odd id = c_is_initiator k /\ ~ in_use w k id /\
     counter_ok (c_is_initiator k) n) /\
  (forall init r, counter_ok init (first_stream_id init r) /\ first_stream_id init r <> 0).
Proof.
  intros Hk Htab Hn. split.
  - unfold kcpmux_conn_alloc_stream_id, get_conn. rewrite (bind_deref _ _ _ k) by done.
    destruct (alloc_loop_ok (S (Z.to_nat (c_stream_count k))) c k w Htab Hk Hn)
      as (n & r & -> & Hn' & [[-> Hall]|(i & -> & Hfree)]).
    + exfalso. set (cand := candidate (c_is_initiator k) (c_next_stream_id k)) in *.
      destruct Htab as [Hht _ Hcount Hfew]. rewrite (htb_ok_num _ _ _ Hht) in Hcount.
      set (m := S (Z.to_nat (c_stream_count k))) in *.
      assert (Hnd : NoDup (cand <$> seq 0 m)).
      { apply NoDup_fmap_2_strong; [|apply NoDup_seq]. intros i j Hi Hj.
        apply elem_of_seq in Hi, Hj.
        assert (2 ^ 31 - 1 <= period (c_is_initiator k)) by (unfold period; destruct (c_is_initiator k); lia).
        apply candidate_inj; [done|lia|lia]. }
      assert (Hsub : cand <$> seq 0 m ⊆+ (stream_key w <$> entries (c_stream_map k))).
      { apply NoDup_submseteq; [done|]. intros x (i & -> & Hi)%list_elem_of_fmap.
        apply elem_of_seq in Hi. apply Hall. lia. }
      apply submseteq_length in Hsub. rewrite !length_fmap, length_seq in Hsub.
      unfold entries in Hsub. lia.
    + exists (candidate (c_is_initiator k) (c_next_stream_id k) i), n. split; [done|].
      destruct (norm_id_ok _ _ (counter_ok_iter _ _ i Hn)) as [Hr Hp].
      by split_and!; [apply Hr..|exact Hp| |].
  - intros init r. unfold first_stream_id. pose proof (wrap_range 32 r ltac:(lia)) as Hr.
    set (x := u32 r) in *. clearbody x. pose proof (odd_half x) as Hx.
    unfold in_u in Hr. destruct init.
    + assert (Z.lor x 1 = x / 2 * 2 + 1) as ->.
      { rewrite Hx at 1. replace (2 * (x / 2) + Z.b2z (Z.odd x)) with (x / 2 * 2 ^ 1 + Z.b2z (Z.odd x)) by lia.
        rewrite <- lor_shiftl by (lia || (destruct (Z.odd x); cbn; lia)).
        rewrite <- Z.lor_assoc. replace (Z.lor (Z.b2z (Z.odd x)) 1) with 1 by by destruct (Z.odd x).
        by rewrite lor_shiftl by lia. }
      split; [|lia]. split; [unfold in_u; destruct (Z.odd x); cbn in Hx; lia|].
      rewrite Z.add_comm, Z.mul_comm. apply Z.odd_add_mul_2.
    + assert (Z.land x (Z.lnot 1) = x / 2 * 2) as ->.
      { rewrite <- Z.ldiff_land. change 1 with (Z.ones 1). rewrite Z.ldiff_ones_r by lia.
        by rewrite Z.shiftl_mul_pow2, Z.shiftr_div_pow2 by lia. }
      destruct (Z.eqb_spec (x / 2 * 2) 0); (split; [|lia]); split; unfold in_u; try done.
      * destruct (Z.odd x); cbn in Hx; lia.
      * rewrite Z.mul_comm. by rewrite Z.odd_mul.
Qed.
End alloc.

(** ** Witnesses *)

(** The peer's identifiers wrap around: 4 is newer than 2^32 - 2. *)
Definition wrapping_conn : conn :=
  client_conn <| c_latest_peer_stream_id := 2 ^ 32 - 2 |> <| c_peer_stream_id_initialized := true |>.

Lemma peer_stream_id_order_witness :
  kcpmux_conn_is_new_peer_stream_id wrapping_conn 4 = true /\
  kcpmux_conn_is_new_peer_stream_id (wrapping_conn <| c_latest_peer_stream_id := 4 |>) (2 ^ 32 - 2) = false.
Proof.
  assert (H4 : in_u 32 4) by (unfold in_u; lia).
  assert (Hl : in_u 32 (c_latest_peer_stream_id wrapping_conn)) by (unfold in_u; cbn; lia).
  destruct (peer_stream_id_order wrapping_conn 4 H4 Hl) as [Hnew Hanti].
  assert (Hn : kcpmux_conn_is_new_peer_stream_id wrapping_conn 4 = true).
  { apply Hnew. split; [discriminate|]. split; [vm_compute; discriminate|]. intros _.
    exists 6. split; [lia|]. vm_compute. reflexivity. }
  split; [exact Hn|]. apply Hanti; [reflexivity|exact Hn].
Defined.


Lemma stream_world_table : stream_table_ok stream_world stream_world_conn.
Proof.
  constructor; [| |vm_compute; reflexivity|vm_compute; reflexivity].
  - destruct (htb_new_ok (A:=positive) (stream_key stream_world) stream_hash 32) as (ht & Hnew & Hok & He & _).
    vm_compute in Hnew. apply (inj Some) in Hnew. subst ht.
    destruct (htb_add_ok _ _ _ 2%positive Hok) as (ht' & Hadd & Hok' & _).
    { rewrite He. apply not_elem_of_nil. }
    enough (c_stream_map stream_world_conn = ht') as -> by done.
    apply (inj Some). rewrite <- Hadd. vm_compute. reflexivity.
  - intros s Hs. assert (He : entries (c_stream_map stream_world_conn) = [2%positive]) by (vm_compute; reflexivity).
    rewrite He in Hs. apply list_elem_of_singleton in Hs as ->. vm_compute. eauto.
Qed.

Lemma alloc_stream_id_fresh_witness :
  exists id n, kcpmux_conn_alloc_stream_id 1 stream_world =
      Some (id, bump 1 stream_world_conn n stream_world) /\ ~ in_use stream_world stream_world_conn id.
Proof.
  destruct (alloc_stream_id_fresh 1 stream_world_conn stream_world) as [(id & n & Hrun & _ & _ & Hfree & _) _].
  - vm_compute. reflexivity.
  - exact stream_world_table.
  - split; [vm_compute; split; [discriminate|reflexivity]|vm_compute; reflexivity].
  - exists id, n. split; [exact Hrun|exact Hfree].
Defined.
