(* ===== verification/Reject.v ===== *)
(** * Packets that are refused (src/kcpmux_protocol.c)

    A packet that does not parse, or that names no connection, is reported to
    the caller and changes nothing: a peer, or anyone who can write to the
    socket, cannot disturb the state with it. *)

From S2P Require Import Prelude Types Timer ByteOrder Hashtable Vectored World Engine Conn Messages Stream Mux Wire Sample.
#[local] Open Scope Z_scope.

Section reject.
Context {KO : Kcp} {HO : Host}.
Implicit Types (w : world K).

Definition size (buf : list Z) : Z := Z.of_nat (length buf).

(** The packets refused before any connection is looked up, with the error. *)
Inductive refused (buf a : list Z) : Z -> Prop :=
| refused_empty : buf = [] -> refused buf a (- KCPMUX_ERR_INVALID_PARAM)
| refused_addr : ~ addr_ok a -> refused buf a (- KCPMUX_ERR_INVALID_PARAM)
| refused_header :
    addr_ok a -> 0 < size buf < KCPMUX_PROTO_COMMON_LEN ->
    refused buf a (- KCPMUX_ERR_INVALID_FORMAT)
| refused_destination T :
    addr_ok a -> KCPMUX_PROTO_COMMON_LEN <= size buf ->
    buf !! 0%nat = Some T -> T <> KCPMUX_MSG_CONN_CONNECT -> read_u64 buf 1 = Some 0 ->
    refused buf a (- KCPMUX_ERR_INVALID_FORMAT)
| refused_connect destination_id :
    addr_ok a -> KCPMUX_PROTO_COMMON_LEN <= size buf ->
    buf !! 0%nat = Some KCPMUX_MSG_CONN_CONNECT -> read_u64 buf 1 = Some destination_id ->
    size buf < KCPMUX_PROTO_CONNECT_LEN \/ destination_id <> 0 ->
    refused buf a (- KCPMUX_ERR_INVALID_FORMAT)
| refused_source :
    addr_ok a -> KCPMUX_PROTO_CONNECT_LEN <= size buf ->
    buf !! 0%nat = Some KCPMUX_MSG_CONN_CONNECT -> read_u64 buf 1 = Some 0 ->
    read_u64 buf 9 = Some 0 ->
    refused buf a (- KCPMUX_ERR_INVALID_FORMAT)
| refused_extension source_id version ext_len :
    addr_ok a -> KCPMUX_PROTO_CONNECT_LEN <= size buf ->
    buf !! 0%nat = Some KCPMUX_MSG_CONN_CONNECT -> read_u64 buf 1 = Some 0 ->
    read_u64 buf 9 = Some source_id -> source_id <> 0 ->
    buf !! 17%nat = Some version -> read_u16 buf 18 = Some ext_len ->
    KCPMUX_PROTO_EXT_MAX_LEN < ext_len \/ size buf < KCPMUX_PROTO_CONNECT_LEN + ext_len ->
    refused buf a (- KCPMUX_ERR_INVALID_FORMAT).

Lemma addr_test a :
  (Z.of_nat (length a) =? 0) || (KCPMUX_ADDR_MAX_LEN <? Z.of_nat (length a)) = false <-> addr_ok a.
Proof.
  rewrite orb_false_iff, Z.eqb_neq, Z.ltb_ge. split; [intros [? ?]; constructor; lia|intros []; lia].
Qed.

Lemma read_bind {A B} (o : option A) v (f : A -> W B) w :
  o = Some v -> (deref (fun _ => o) ≫= f) w = f v w.
Proof. intros H. by rewrite (bind_deref _ _ _ v). Qed.

(** The tests that do not depend on the world, as rewriting steps. *)
Ltac refuse :=
  repeat match goal with
  | H : ?l !! ?i = Some _ |- context [deref (fun _ => ?l !! ?j)] =>
      change j with i; rewrite (read_bind _ _ _ _ H)
  | H : read_u64 ?l ?i = Some _ |- context [deref (fun _ => read_u64 ?l ?j)] =>
      change j with i; rewrite (read_bind _ _ _ _ H)
  | H : read_u16 ?l ?i = Some _ |- context [deref (fun _ => read_u16 ?l ?j)] =>
      change j with i; rewrite (read_bind _ _ _ _ H)
  | |- context [(?a <? ?b) || negb (0 =? 0)] =>
      rewrite (proj2 (Z.ltb_ge a b)) by done; cbn [orb negb Z.eqb]
  | |- context [if ?a <? ?b then _ else _] => destruct (Z.ltb_spec a b); try (exfalso; unfold size, KCPMUX_PROTO_CONNECT_LEN, KCPMUX_PROTO_COMMON_LEN in *; lia)
  | |- context [if ?a =? ?b then _ else _] => destruct (Z.eqb_spec a b); try (exfalso; congruence)
  end.

Lemma refused_ok buf a err now w :
  refused buf a err -> kcpmux_protocol_input buf a now w = Some (err, w).
Proof.
  intros Hr. unfold kcpmux_protocol_input, input_connect, byte_at, u64_at, u16_at.
  destruct Hr; fold (size buf) in *.
  - subst buf. done.
  - destruct (Z.ltb_spec (size buf) 1); [done|].
    destruct (_ || _) eqn:E; [done|]. by apply addr_test in E.
  - rewrite (proj2 (addr_test a)) by done. refuse. done.
  - rewrite (proj2 (addr_test a)) by done. refuse. done.
  - rewrite (proj2 (addr_test a)) by done. refuse.
    destruct (Z.ltb_spec (size buf) KCPMUX_PROTO_CONNECT_LEN); [done|].
    destruct (Z.eqb_spec destination_id 0); [|done]. exfalso; lia.
  - rewrite (proj2 (addr_test a)) by done. refuse. done.
  - rewrite (proj2 (addr_test a)) by done. refuse; done.
Qed.

End reject.

