(* ===== verification/Shape.v ===== *)
(** * The shape of the state, and computations that keep it

    [wp m Q w] says in particular that [m] does not get stuck: no NULL or
    dangling pointer is followed, no array or buffer is left, no loop runs away.
    To prove it of every entry point the state is seen through its [shape]: which
    objects are alive, closed, linked in which table, registered with the
    scheduler, waiting for release.  [misc_ok] collects what holds between any
    two statements.  [on S m Q] says that [m] runs to completion in every state
    of shape [S] and relates result and new shape by [Q]; [calm] computations
    leave the shape alone, so facts about it survive every call of them. *)

From S2P Require Import Prelude Types Timer TimerProofs TimerSpec Hashtable Vectored World Engine Conn Messages Stream Mux Deadlines Wire.
From stdpp Require Import gmap.
#[local] Open Scope Z_scope.

(** ** Shapes *)

Record cshape := mk_cshape {
  ch_closed : bool;
  ch_in_map : bool;
  ch_init : bool;
  ch_map : htb positive;
  ch_ext : proto_ext;
  ch_id : Z
}.
#[export] Instance eta_cshape : Eta cshape := fun r =>
  mk_cshape (ch_closed r) (ch_in_map r) (ch_init r) (ch_map r) (ch_ext r) (ch_id r).

Record sshape := mk_sshape {
  sh_conn : positive;
  sh_id : Z;
  sh_closed : bool;
  sh_in_map : bool;
  sh_kcp : bool;
  sh_mss : Z
}.
#[export] Instance eta_sshape : Eta sshape := fun r =>
  mk_sshape (sh_conn r) (sh_id r) (sh_closed r) (sh_in_map r) (sh_kcp r) (sh_mss r).

Record shape := mk_shape {
  sp_conns : gmap positive cshape;
  sp_streams : gmap positive sshape;
  sp_nodes : gset obj;
  sp_registered : gset obj;
  sp_next : positive;
  sp_conn_map : htb positive;
  sp_handshake : htb positive;
  sp_pending : list obj;
  sp_depth : Z;
  sp_count : Z;
  sp_next_id : Z
}.
#[export] Instance eta_shape : Eta shape := fun r =>
  mk_shape (sp_conns r) (sp_streams r) (sp_nodes r) (sp_registered r) (sp_next r)
    (sp_conn_map r) (sp_handshake r) (sp_pending r) (sp_depth r)
    (sp_count r) (sp_next_id r).

Definition cshape_of (k : conn) : cshape :=
  mk_cshape (c_internal_closed k) (c_in_engine_map k) (c_is_initiator k) (c_stream_map k)
    (c_self_proto_ext k) (c_local_connection_id k).

Definition sshape_of {K} (st : stream K) : sshape :=
  mk_sshape (s_conn st) (s_stream_id st) (s_internal_closed st) (s_in_stream_map st)
    (bool_decide (is_Some (s_kcp st))) (sc_kcp_mss (s_config st)).

Definition shape_of {K} (w : world K) : shape :=
  mk_shape (cshape_of <$> w_conns w) (sshape_of <$> w_streams w) (dom (tm_nodes (w_timers w)))
    (registered (w_timers w)) (w_next_addr w) (e_conn_map (w_engine w))
    (e_handshake_map (w_engine w)) (e_pending_release_list (w_engine w))
    (e_operation_depth (w_engine w)) (e_conn_count (w_engine w))
    (e_next_connection_id (w_engine w)).

(** The callback installed for an object. *)
Definition cb_of (o : obj) : timer_cb :=
  match o with OConn _ => conn_timer_callback | OStream _ => stream_timer_callback end.

(** Configurations within the C types of their fields. *)
Definition sconfig_ok (cfg : stream_config) : Prop :=
  0 <= sc_kcp_mss cfg /\ sc_batch_threshold cfg < 2 ^ 32.

Definition owners_ok (t : timers) : Prop := forall o nd own,
  tm_nodes t !! o = Some nd -> owner nd = Some own -> own = o /\ timeout_cb nd = Some (cb_of o).

Definition pend_ok {K} (st : stream K) : Prop :=
  0 <= s_pending_count st /\ sc_batch_threshold (s_config st) < 2 ^ 32.

Record misc_ok {KO : Kcp} (w : world K) : Prop := {
  mo_reserved : reserved w;
  mo_owner : owners_ok (w_timers w);
  mo_due n : n ∈ tm_due (w_timers w) -> n ∈ registered (w_timers w);
  mo_default : sconfig_ok (e_default_stream_config (w_engine w));
  mo_batch_nodup : NoDup (e_pending_batch_streams (w_engine w));
  mo_batch s : s ∈ e_pending_batch_streams (w_engine w) ->
    OStream s ∈ registered (w_timers w) /\
    exists st, w_streams w !! s = Some st /\ s_internal_closed st = false /\ 0 < s_pending_count st;
  mo_pend s st : w_streams w !! s = Some st -> pend_ok st
}.

(** What neither the shape nor [misc_ok] lets change in a stream. *)
Definition skeep {K} (st : stream K) :=
  (sshape_of st, s_pending_count st, sc_batch_threshold (s_config st)).

Section shape.
Context {KO : Kcp} {HO : Host}.
Implicit Types (c s : positive) (w : world K) (S : shape).

Lemma misc_ok_same w w' :
  w_timers w' = w_timers w ->
  e_timer_node_count (w_engine w') = e_timer_node_count (w_engine w) ->
  e_pending_batch_streams (w_engine w') = e_pending_batch_streams (w_engine w) ->
  e_default_stream_config (w_engine w') = e_default_stream_config (w_engine w) ->
  skeep <$> w_streams w' = skeep <$> w_streams w ->
  misc_ok w -> misc_ok w'.
Proof.
  intros Ht Hc Hb Hd Hs [Hr Ho Hdue Hdef Hn Hm Hp].
  assert (Hk : forall s st, w_streams w !! s = Some st ->
    exists st', w_streams w' !! s = Some st' /\ skeep st' = skeep st).
  { intros s st Hst. apply (f_equal (lookup s)) in Hs. rewrite !lookup_fmap, Hst in Hs.
    destruct (w_streams w' !! s) as [st'|]; [|done]. apply (inj Some) in Hs. eauto. }
  assert (Hk' : forall s st', w_streams w' !! s = Some st' ->
    exists st, w_streams w !! s = Some st /\ skeep st' = skeep st).
  { intros s st' Hst. apply (f_equal (lookup s)) in Hs. rewrite !lookup_fmap, Hst in Hs.
    destruct (w_streams w !! s) as [st|]; [|done]. apply (inj Some) in Hs. eauto. }
  constructor; rewrite ?Ht, ?Hb, ?Hd; [by eapply reserved_same|done..| |].
  - intros s Hin. destruct (Hm s Hin) as (Hreg & st & Hst & Hcl & Hpos).
    destruct (Hk s st Hst) as (st' & Hst' & He). split; [done|]. exists st'. split; [done|].
    injection He as _ _ He' _ _ _ -> _. cbn in *. by rewrite He'.
  - intros s st' Hst'. destruct (Hk' s st' Hst') as (st & Hst & He). specialize (Hp s st Hst).
    unfold pend_ok in *. by injection He as _ _ _ _ _ _ -> ->.
Qed.

(** ** Hoare triples over shapes *)

Definition on {A} S (m : W A) (Q : A -> shape -> Prop) : Prop := forall w,
  misc_ok w -> shape_of w = S ->
  wp m (fun a w' => Q a (shape_of w') /\ misc_ok w' /\
    tm_due (w_timers w') `sublist_of` tm_due (w_timers w)) w.

Definition calm {A} S (m : W A) (R : A -> Prop) : Prop := on S m (fun a S' => S' = S /\ R a).

Lemma on_ret {A} S (a : A) (Q : A -> shape -> Prop) : Q a S -> on S (mret a) Q.
Proof. intros Ha w Hw <-. rewrite wp_ret. by split. Qed.

Lemma on_bind {A B} S (m : W A) (f : A -> W B) R Q :
  on S m R -> (forall a S', R a S' -> on S' (f a) Q) -> on S (m ≫= f) Q.
Proof.
  intros Hm Hf w Hw HS. rewrite wp_bind. eapply wp_mono; [|by apply Hm].
  intros a w1 (Ha & Hw1 & Hd). eapply wp_mono; [|by apply (Hf a _ Ha)].
  intros b w2 (? & ? & ?). split; [done|]. split; [done|]. by etrans.
Qed.

Lemma on_mono {A} S (m : W A) (R Q : A -> shape -> Prop) :
  on S m R -> (forall a S', R a S' -> Q a S') -> on S m Q.
Proof. intros Hm HR w Hw HS. eapply wp_mono; [|by apply Hm]. intros a w' [? ?]. auto. Qed.

Lemma on_calm {A} S (m : W A) (R : A -> Prop) (Q : A -> shape -> Prop) :
  calm S m R -> (forall a, R a -> Q a S) -> on S m Q.
Proof. intros Hm HQ. eapply on_mono; [exact Hm|]. intros a S' [-> ?]. auto. Qed.

Lemma on_calm_bind {A B} S (m : W A) (f : A -> W B) R Q :
  calm S m R -> (forall a, R a -> on S (f a) Q) -> on S (m ≫= f) Q.
Proof. intros Hm Hf. eapply on_bind; [exact Hm|]. intros a S' [-> ?]. auto. Qed.

Lemma calm_ret {A} S (a : A) (R : A -> Prop) : R a -> calm S (mret a) R.
Proof. intros. by apply on_ret. Qed.

Lemma calm_bind {A B} S (m : W A) (f : A -> W B) R Q :
  calm S m R -> (forall a, R a -> calm S (f a) Q) -> calm S (m ≫= f) Q.
Proof. apply on_calm_bind. Qed.

Lemma calm_weaken {A} S (m : W A) (R Q : A -> Prop) :
  calm S m R -> (forall a, R a -> Q a) -> calm S m Q.
Proof. intros Hm HR. eapply on_calm; [exact Hm|]. auto. Qed.

Lemma calm_any {A} S (m : W A) (R : A -> Prop) : calm S m R -> calm S m (fun _ => True).
Proof. intros. by eapply calm_weaken. Qed.

Lemma calm_when S b (m : W unit) (R : unit -> Prop) :
  (b = true -> calm S m R) -> (b = false -> R tt) -> calm S (when b m) R.
Proof. destruct b; cbn; [auto|]. intros _ H. apply calm_ret. auto. Qed.

Lemma calm_for_each {A} S (f : A -> W unit) l :
  (forall x, x ∈ l -> calm S (f x) (fun _ => True)) -> calm S (for_each f l) (fun _ => True).
Proof.
  induction l as [|x l IH]; intros Hf; cbn; [by apply calm_ret|].
  apply (calm_bind _ _ _ (fun _ => True)); [apply Hf; by left|].
  intros _ _. apply IH. intros. apply Hf. by right.
Qed.

Lemma calm_gets {A} S (f : world K -> A) (R : A -> Prop) :
  (forall w, misc_ok w -> shape_of w = S -> R (f w)) -> calm S (gets f) R.
Proof. intros HR w Hw HS. rewrite wp_gets. auto. Qed.

Lemma calm_deref {A} S (f : world K -> option A) (R : A -> Prop) :
  (forall w, misc_ok w -> shape_of w = S -> exists a, f w = Some a /\ R a) -> calm S (deref f) R.
Proof.
  intros Hf w Hw HS. destruct (Hf w Hw HS) as (a & Ha & HR). rewrite (wp_deref _ _ _ a) by done. auto.
Qed.

Lemma on_modify S (f : world K -> world K) (Q : unit -> shape -> Prop) :
  (forall w, misc_ok w -> shape_of w = S ->
     misc_ok (f w) /\ w_timers (f w) = w_timers w /\ Q tt (shape_of (f w))) ->
  on S (modify f) Q.
Proof.
  intros Hf w Hw HS. rewrite wp_modify. destruct (Hf w Hw HS) as (? & -> & ?). auto.
Qed.

Lemma calm_in_trace {A} S (m : M trace A) (R : A -> Prop) :
  (forall tr, exists a tr', m tr = Some (a, tr') /\ R a) -> calm S (in_trace m) R.
Proof.
  intros Hm w Hw HS. unfold in_trace. rewrite wp_zoom. unfold wp.
  destruct (Hm (w_trace w)) as (a & tr & -> & Ha). split; [done|]. split; [|done].
  revert Hw. by apply misc_ok_same.
Qed.

Lemma calm_ask {A} S (f : trace -> A) rec (R : A -> Prop) :
  (forall tr, R (f tr)) -> calm S (ask f rec) R.
Proof. intros HR. apply calm_in_trace. intros tr. eexists _, _. by split. Qed.

Lemma calm_emit S ev : calm S (emit ev) (fun _ => True).
Proof.
  apply on_modify. intros w Hw HS. split; [|by split]. revert Hw. by apply misc_ok_same.
Qed.

(** ** The engine *)

(** What the shape and [misc_ok] see of the engine. *)
Definition eng_shape (e : engine) := (eng_core e, e_timer_node_count e).

Lemma on_mod_engine S f (Q : unit -> shape -> Prop) :
  (forall e, e_timer_node_count (f e) = e_timer_node_count e) ->
  (forall e, e_pending_batch_streams (f e) = e_pending_batch_streams e) ->
  (forall e, e_default_stream_config (f e) = e_default_stream_config e) ->
  (forall w, shape_of w = S -> Q tt (shape_of (w <| w_engine ::= f |>))) ->
  on S (mod_engine f) Q.
Proof.
  intros H1 H2 H3 HQ. apply on_modify. intros w Hw HS. split; [|split; [done|by apply HQ]].
  revert Hw. apply misc_ok_same; cbn; auto.
Qed.

Lemma calm_mod_engine S f :
  (forall e, eng_shape (f e) = eng_shape e) -> calm S (mod_engine f) (fun _ => True).
Proof.
  intros Hf.
  assert (Hf' := fun e => f_equal fst (Hf e)). cbn in Hf'. unfold eng_core in Hf'.
  apply on_mod_engine.
  - intros e. exact (f_equal snd (Hf e)).
  - intros e. by injection (Hf' e).
  - intros e. by injection (Hf' e).
  - intros w <-. split; [|done]. unfold shape_of. cbn. by injection (Hf' (w_engine w)) as -> -> -> -> _ _ -> -> _.
Qed.

(** ** Objects *)

Lemma shape_conn w c x :
  sp_conns (shape_of w) !! c = Some x <-> exists k, w_conns w !! c = Some k /\ cshape_of k = x.
Proof. cbn. rewrite lookup_fmap, fmap_Some. naive_solver. Qed.

Lemma shape_stream w s x :
  sp_streams (shape_of w) !! s = Some x <-> exists st, w_streams w !! s = Some st /\ sshape_of st = x.
Proof. cbn. rewrite lookup_fmap, fmap_Some. naive_solver. Qed.

Lemma calm_get_conn S c :
  is_Some (sp_conns S !! c) -> calm S (get_conn c) (fun k => sp_conns S !! c = Some (cshape_of k)).
Proof.
  intros [x Hx]. apply calm_deref. intros w _ <-. apply shape_conn in Hx as (k & Hk & _).
  exists k. split; [done|]. apply shape_conn. eauto.
Qed.

Lemma calm_get_stream S s :
  is_Some (sp_streams S !! s) ->
  calm S (get_stream s) (fun st => sp_streams S !! s = Some (sshape_of st)).
Proof.
  intros [x Hx]. apply calm_deref. intros w _ <-. apply shape_stream in Hx as (st & Hst & _).
  exists st. split; [done|]. apply shape_stream. eauto.
Qed.

(** A store through a pointer, its effect on the shape computed by [g]. *)
Lemma on_mod_conn S c x f (Q : unit -> shape -> Prop) :
  sp_conns S !! c = Some x ->
  (forall k, cshape_of k = x -> Q tt (S <| sp_conns ::= <[c := cshape_of (f k)]> |>)) ->
  on S (mod_conn c f) Q.
Proof.
  intros Hx HQ w Hw <-. unfold mod_conn, get_conn.
  apply shape_conn in Hx as (k & Hk & Hx). rewrite wp_bind, (wp_deref _ _ _ k) by done.
  rewrite wp_modify. split; [|split; [revert Hw; by apply misc_ok_same|done]].
  specialize (HQ k Hx). unfold shape_of in HQ |- *. cbn in HQ |- *. by rewrite fmap_insert.
Qed.

Lemma calm_mod_conn S c f :
  is_Some (sp_conns S !! c) ->
  (forall k, sp_conns S !! c = Some (cshape_of k) -> cshape_of (f k) = cshape_of k) ->
  calm S (mod_conn c f) (fun _ => True).
Proof.
  intros [x Hx] Hf. eapply on_mod_conn; [done|]. intros k Hk. split; [|done].
  rewrite Hf, Hk by congruence. destruct S; cbn in *. f_equal. by apply insert_id.
Qed.

Lemma on_mod_stream S s x f (Q : unit -> shape -> Prop) :
  sp_streams S !! s = Some x ->
  (forall st, sshape_of st = x -> pend_ok st ->
     s_pending_count (f st) = s_pending_count st /\
     sc_batch_threshold (s_config (f st)) < 2 ^ 32 /\
     s_internal_closed (f st) = s_internal_closed st /\
     Q tt (S <| sp_streams ::= <[s := sshape_of (f st)]> |>)) ->
  on S (mod_stream s f) Q.
Proof.
  intros Hx HQ w Hw <-. unfold mod_stream, get_stream.
  apply shape_stream in Hx as (st & Hst & Hx). rewrite wp_bind, (wp_deref _ _ _ st) by done.
  destruct Hw as [Hr Ho Hdue Hdef Hn Hm Hp]. pose proof (Hp s st Hst) as Hps.
  destruct (HQ st Hx Hps) as (Hcnt & Hthr & Hcl & HQ').
  rewrite wp_modify. split; [|split; [|done]].
  - unfold shape_of in HQ' |- *. cbn in HQ' |- *. by rewrite fmap_insert.
  - constructor; cbn; [by apply (reserved_same w)|done..| |].
    + intros s' Hs'. destruct (Hm s' Hs') as (Hreg & st' & Hst' & Hc' & Hp'). split; [done|].
      destruct (decide (s' = s)) as [->|Hne]; [|exists st'; by rewrite lookup_insert_ne].
      rewrite Hst in Hst'. apply (inj Some) in Hst' as <-. exists (f st).
      rewrite lookup_insert_eq, Hcl, Hcnt. by split.
    + intros s' st' [[-> <-]|[_ ?]]%lookup_insert_Some; [|by eapply Hp].
      unfold pend_ok. rewrite Hcnt. by destruct Hps.
Qed.

Lemma calm_mod_stream S s f :
  is_Some (sp_streams S !! s) ->
  (forall st, sp_streams S !! s = Some (sshape_of st) -> skeep (f st) = skeep st) ->
  calm S (mod_stream s f) (fun _ => True).
Proof.
  intros [x Hx] Hf. eapply on_mod_stream; [done|]. intros st Hst [_ Hthr].
  rewrite <- Hst in Hx. pose proof (Hf st Hx) as He. unfold skeep in He.
  pose proof (f_equal (fun x => x.1.1) He) as Hsh. pose proof (f_equal (fun x => x.1.2) He) as Hcnt.
  pose proof (f_equal snd He) as Hthr'. cbn in Hsh, Hcnt, Hthr'.
  split; [done|]. split; [by rewrite Hthr'|].
  split; [by apply (f_equal sh_closed) in Hsh|]. split; [|done].
  rewrite Hsh. destruct S; cbn in *. f_equal. by apply insert_id.
Qed.
End shape.
