(* ===== verification/Steps.v ===== *)
(** * Timers, batches and memory, seen through the shape

    The operations of src/kcpmux_engine.c that reach below the shape: the
    scheduler keeps its invariant and the registered nodes, the list of streams
    with batched updates keeps its members alive, allocation and release change
    exactly the set of live objects. *)

From S2P Require Import Prelude Types Timer TimerProofs TimerSpec Hashtable Vectored World Engine Conn Messages Stream Mux Deadlines Wire Shape.
From stdpp Require Import gmap.
#[local] Open Scope Z_scope.

(** ** Computations on the scheduler *)

Record timers_keep (t t' : timers) : Prop := {
  tk_ok : timers_ok t';
  tk_nodes n : node_owner <$> tm_nodes t' !! n = node_owner <$> tm_nodes t !! n;
  tk_due : tm_due t' `sublist_of` tm_due t;
  tk_heap n : n ∈ tm_heap t' -> n ∈ tm_heap t \/ n ∈ registered t;
  tk_capacity : tm_capacity t <= tm_capacity t'
}.

Lemma timers_keep_refl t : timers_ok t -> timers_keep t t.
Proof. intros. constructor; [done|done|done|by left|done]. Qed.

Lemma registered_owner t n :
  n ∈ registered t <-> exists own cb, node_owner <$> tm_nodes t !! n = Some (Some own, cb).
Proof.
  rewrite elem_registered. split.
  - intros (nd & -> & [own Ho]). exists own, (timeout_cb nd). unfold node_owner. cbn. by rewrite Ho.
  - intros (own & cb & H). destruct (tm_nodes t !! n) as [nd|]; [|done]. exists nd. split; [done|].
    injection H as Ho _. rewrite Ho. eauto.
Qed.

Lemma owner_registered t t' :
  (forall n, node_owner <$> tm_nodes t' !! n = node_owner <$> tm_nodes t !! n) ->
  registered t' = registered t /\ dom (tm_nodes t') = dom (tm_nodes t) /\
  (owners_ok t -> owners_ok t').
Proof.
  intros Hn. split_and!.
  - apply set_eq. intros n. rewrite !registered_owner. by setoid_rewrite Hn.
  - apply set_eq. intros n. rewrite !elem_of_dom, <- !(fmap_is_Some node_owner). by rewrite Hn.
  - intros Ho n nd' own Hnd' Hown. specialize (Hn n). rewrite Hnd' in Hn.
    destruct (tm_nodes t !! n) as [nd|] eqn:E; [|done]. injection Hn as Hn1 Hn2.
    rewrite Hn2. apply (Ho n nd own); congruence.
Qed.

(** Taking a node off the due list and marking it running. *)
Lemma pop_due_ok t n l nd :
  timers_ok t -> tm_due t = n :: l -> tm_nodes t !! n = Some nd ->
  timers_keep t (t <| tm_due := l |> <| tm_nodes ::= <[n := nd <| tn_state := TIMER_RUNNING |>]> |>).
Proof.
  intros Hok Hd Hn. set (t' := t <| tm_due := l |> <| tm_nodes ::= _ |>).
  assert (Hs : tn_state nd = TIMER_DUE) by (apply (to_due _ Hok _ _ Hn); rewrite Hd; by left).
  pose proof (to_due_nodup _ Hok) as Hnd. rewrite Hd in Hnd. apply list.NoDup_cons in Hnd as [Hni Hnd].
  set (nd' := nd <| tn_state := TIMER_RUNNING |>) in *.
  assert (Hb : nodes_become t t' n nd') by (unfold nodes_become, t'; cbn; apply erased_insert).
  assert (Hh : n ∉ tm_heap t) by (rewrite <- (to_heap _ Hok _ _ Hn), Hs; done).
  constructor; cbn; [|intros k; cbn|by rewrite Hd; apply sublist_cons|by left|done].
  - apply (timers_ok_step t t' n nd'); try done; cbn.
    + apply heap_rep_insert; [apply Hok|done].
    + intros k Hk. rewrite Hd, elem_of_cons. naive_solver.
    + rewrite lookup_insert_eq. eauto.
    + apply Hok.
  - destruct (decide (k = n)) as [->|Hne]; [by rewrite lookup_insert_eq, Hn|by rewrite lookup_insert_ne].
Qed.

(** Collecting due nodes registers and unregisters nothing. *)
Lemma collected_owner now t t' D :
  collected now t t' D -> forall n, node_owner <$> tm_nodes t' !! n = node_owner <$> tm_nodes t !! n.
Proof.
  intros Hc n. pose proof (cl_nodes _ _ _ _ Hc n) as Hm.
  destruct (tm_nodes t' !! n) as [a|], (tm_nodes t !! n) as [b|]; try done.
  apply (inj Some) in Hm. cbn. f_equal. unfold node_owner.
  pose proof (f_equal owner Hm) as H1. pose proof (f_equal timeout_cb Hm) as H2.
  cbn in H1, H2. rewrite H1, H2. by case_decide.
Qed.

Section steps.
Context {KO : Kcp} {HO : Host}.
Implicit Types (c s : positive) (w : world K) (S : shape) (o : obj).

Lemma misc_ok_timers w t :
  timers_keep (w_timers w) t -> misc_ok w -> misc_ok (w <| w_timers := t |>).
Proof.
  intros [Hok Hn Hd Hh Hc] [[Hok0 Hcnt Hcap Hheap] Ho Hdue Hdef Hnd Hm Hp].
  destruct (owner_registered _ _ Hn) as (Hreg & Hdom & Howners).
  constructor; cbn; [|by apply Howners| |done|done|by rewrite Hreg|done].
  - constructor; cbn; [done|by rewrite Hreg|lia|].
    intros n Hin. rewrite Hreg. destruct (Hh n Hin); auto.
  - intros n Hin. rewrite Hreg. apply Hdue. by eapply elem_of_sublist.
Qed.

Lemma calm_in_timers {A} S (m : M timers A) (R : A -> Prop) :
  (forall t, timers_ok t -> owners_ok t -> dom (tm_nodes t) = sp_nodes S ->
     registered t = sp_registered S -> wp m (fun a t' => R a /\ timers_keep t t') t) ->
  calm S (in_timers m) R.
Proof.
  intros Hm w Hw HS. unfold in_timers. rewrite wp_zoom. eapply wp_mono; [|apply Hm].
  - intros a t [Ha Ht]. destruct (owner_registered _ _ (tk_nodes _ _ Ht)) as (Hreg & Hdom & _).
    split; [split; [|done]|split; [by apply misc_ok_timers|by apply Ht]].
    rewrite <- HS. unfold shape_of. cbn. by rewrite Hreg, Hdom.
  - apply Hw.
  - apply Hw.
  - by rewrite <- HS.
  - by rewrite <- HS.
Qed.

Lemma calm_get_node S o :
  o ∈ sp_nodes S ->
  calm S (in_timers (get_node o)) (fun nd => is_Some (owner nd) <-> o ∈ sp_registered S).
Proof.
  intros Ho. apply calm_in_timers. intros t Hok _ Hdom Hreg. rewrite <- Hdom in Ho.
  apply elem_of_dom in Ho as [nd Hnd]. rewrite (wp_get_node _ nd) by done.
  split; [|by apply timers_keep_refl]. rewrite <- Hreg, elem_registered. naive_solver.
Qed.

Lemma calm_rearm S now : calm S (kcpmux_engine_rearm_timer now) (fun _ => True).
Proof.
  intros w Hw HS. eapply wp_mono; [|apply rearm_ok, Hw].
  cbv zeta. intros [] w' H.
  assert (w' = w \/ exists d n, w' = arm d n w) as [->|(d & n & ->)].
  { destruct (_ && _); [destruct H as [(_ & ->)|(d & _ & [(_ & _ & ->)| ->])]|subst w']; eauto. }
  - by split.
  - split; [by split|]. split; [|done]. revert Hw. by apply misc_ok_same.
Qed.

Lemma calm_cancel S o now :
  o ∈ sp_nodes S -> calm S (kcpmux_engine_cancel_timer_node o now) (fun _ => True).
Proof.
  intros Ho. unfold kcpmux_engine_cancel_timer_node.
  apply (calm_bind _ _ _ (fun _ => True)); [|intros; apply calm_rearm].
  apply calm_in_timers. intros t Hok _ Hdom _. rewrite <- Hdom in Ho.
  apply elem_of_dom in Ho as [nd Hnd]. eapply wp_mono; [|by apply (cancel_ok o nd)].
  intros [] t' (Hok' & Hb & Hh & Hd & Hc & _). split; [done|]. constructor; [done| | | |lia].
  - intros n. rewrite (become_owner _ _ _ _ n Hb). case_decide as E; [by rewrite E, Hnd|done].
  - rewrite Hd. apply sublist_filter.
  - intros n [_ ?]%Hh. by left.
Qed.

Lemma calm_timer_schedule S o d :
  o ∈ sp_nodes S -> o ∈ sp_registered S -> calm S (timer_schedule o d) (fun _ => True).
Proof.
  intros Ho Hr. unfold timer_schedule.
  eapply calm_bind; [by apply calm_get_node|]. intros nd _.
  apply (calm_bind _ _ _ (fun _ => True)); [by apply calm_gets|]. intros n _.
  apply (calm_bind _ _ _ (fun _ => True)).
  { case_bool_decide; [by apply calm_ret|]. unfold reserve_alloc.
    apply (calm_bind _ _ _ (fun _ => True)); [by apply calm_gets|]. intros t _.
    destruct (reserve_reallocs _ _); [by apply calm_ask|by apply calm_ret]. }
  intros b _. apply calm_in_timers. intros t Hok _ Hdom Hreg. rewrite <- Hdom in Ho.
  apply elem_of_dom in Ho as [nd' Hnd]. eapply wp_mono; [|by apply (schedule_ok b o nd')].
  intros r t' (Hok' & [(_ & Hb & Hh & Hd & Hc & _)|(_ & -> & _)]);
    (split; [done|]); [|by apply timers_keep_refl].
  constructor; [done| | | |done].
  - intros k. rewrite (become_owner _ _ _ _ k Hb). destruct (decide (k = o)) as [->|]; [by rewrite Hnd|done].
  - rewrite Hd. apply sublist_filter.
  - intros k [->|?]%Hh; [right; by rewrite Hreg|by left].
Qed.

Lemma calm_schedule S o d now :
  o ∈ sp_nodes S -> calm S (kcpmux_engine_schedule_timer_node o d now) (fun _ => True).
Proof.
  intros Ho. unfold kcpmux_engine_schedule_timer_node.
  eapply calm_bind; [by apply calm_get_node|]. intros nd Hnd.
  case_bool_decide as Hown; [by apply calm_ret|].
  assert (o ∈ sp_registered S) by (apply Hnd; destruct (owner nd); [eauto|done]).
  eapply calm_bind; [by apply calm_timer_schedule|]. intros r _.
  apply (calm_bind _ _ _ (fun _ => True)); [|intros; by apply calm_ret].
  apply calm_when; [intros; apply calm_rearm|done].
Qed.

(** Registering and unregistering change the registered nodes, and nothing
    else of the shape. *)
Lemma retimes_shape o w w' :
  retimes o w w' ->
  shape_of w' = (shape_of w) <| sp_registered := registered (w_timers w') |>.
Proof.
  intros [Hcore Hn Hk Hs _ Hl _ _]. unfold eng_core in Hcore. unfold shape_of. cbn.
  injection Hcore as -> -> -> -> _ _ -> -> _. rewrite Hn, Hk, Hs. f_equal.
  apply set_eq. intros n. by rewrite !elem_of_dom.
Qed.

Lemma retimes_misc o w w' :
  retimes o w w' -> reserved w' ->
  (forall nd own, tm_nodes (w_timers w') !! o = Some nd -> owner nd = Some own ->
     own = o /\ timeout_cb nd = Some (cb_of o)) ->
  (o ∈ tm_due (w_timers w') -> o ∈ registered (w_timers w')) ->
  (forall s, o = OStream s -> s ∈ e_pending_batch_streams (w_engine w) ->
     o ∈ registered (w_timers w')) ->
  misc_ok w -> misc_ok w'.
Proof.
  intros Hrt Hr Ho Hdo Hbo [_ Hown Hdue Hdef Hnd Hm Hp].
  pose proof (fun n => rt_nodes _ _ _ n Hrt) as Hnodes. destruct Hrt as [Hcore Hn Hk Hs Hd Hl _ _].
  assert (Hreg : forall n, n <> o -> n ∈ registered (w_timers w) -> n ∈ registered (w_timers w')).
  { intros n Hne. rewrite !registered_owner. by rewrite Hnodes. }
  unfold eng_core in Hcore. injection Hcore as _ _ _ _ Hb Hc _ _ _.
  constructor; rewrite ?Hc, ?Hb, ?Hs; [done| | |done|done| |done].
  - intros n nd own Hnd' Hw'. destruct (decide (n = o)) as [->|Hne]; [by apply Ho|].
    specialize (Hnodes n Hne). rewrite Hnd' in Hnodes.
    destruct (tm_nodes (w_timers w) !! n) as [nd0|] eqn:E; [|done]. injection Hnodes as H1 H2.
    rewrite H2. apply (Hown n nd0); congruence.
  - intros n Hin. destruct (decide (n = o)) as [->|Hne]; [by apply Hdo|].
    apply (elem_of_sublist _ _ _ Hin) in Hd. auto.
  - intros s Hin. destruct (Hm s Hin) as [? ?]. split; [|done].
    destruct (decide (OStream s = o)) as [<-|]; eauto.
Qed.

Lemma unregistered_parked w o nd :
  misc_ok w -> tm_nodes (w_timers w) !! o = Some nd -> o ∉ registered (w_timers w) -> parked nd.
Proof.
  intros Hw Hnd Ho. pose proof (mo_reserved _ Hw) as [Hok _ _ Hh]. split; intros Hs; apply Ho.
  - by apply Hh, (to_heap _ Hok _ _ Hnd).
  - by apply (mo_due _ Hw), (to_due _ Hok _ _ Hnd).
Qed.

Lemma on_register S o (Q : Z -> shape -> Prop) :
  o ∈ sp_nodes S -> o ∉ sp_registered S ->
  (forall r, r <> KCPMUX_ERR_OK -> Q r S) ->
  Q KCPMUX_ERR_OK (S <| sp_registered ::= union {[o]} |>) ->
  on S (kcpmux_engine_register_timer_node o (cb_of o)) Q.
Proof.
  intros Ho Hr Hfail Hok w Hw <-. cbn in Ho, Hr. apply elem_of_dom in Ho as [nd Hnd].
  eapply wp_mono; [|apply (register_node_ok o (cb_of o) nd);
    [apply Hw|done|by eapply unregistered_parked]].
  intros r w' (Hres & _ & Hcase & Hrt & _ & Hown). pose proof (rt_due _ _ _ Hrt).
  rewrite (retimes_shape _ _ _ Hrt).
  destruct Hcase as [(-> & Hreg)|(-> & Ht)].
  - specialize (Hown eq_refl). split; [by rewrite Hreg|]. split; [|done].
    assert (o ∈ registered (w_timers w')) by set_solver.
    eapply retimes_misc; [done|done| |done|done|done].
    intros nd' own Hnd' Ho'. rewrite Hnd' in Hown. injection Hown as ? ?. by simplify_eq.
  - split; [rewrite Ht; by apply (Hfail KCPMUX_ERR_OOM)|]. split; [|done].
    eapply retimes_misc; [done|done| | | |done]; rewrite Ht; [apply Hw..|].
    intros s -> Hin. by apply (mo_batch _ Hw).
Qed.

Lemma on_unregister S o (Q : unit -> shape -> Prop) :
  o ∈ sp_nodes S ->
  (forall s, o = OStream s -> exists x, sp_streams S !! s = Some x /\ sh_closed x = true) ->
  Q tt (S <| sp_registered ::= fun r => r ∖ {[o]} |>) ->
  on S (kcpmux_engine_unregister_timer_node o) Q.
Proof.
  intros Ho Hcl HQ w Hw <-. cbn in Ho. apply elem_of_dom in Ho as [nd Hnd].
  destruct (owner nd) as [own|] eqn:Hown.
  - eapply wp_mono; [|apply (unregister_node_ok o nd); [apply Hw|done|eauto]].
    intros [] w' (Hres & Hreg & _ & _ & Hrt & Hndue & _). rewrite (retimes_shape _ _ _ Hrt), Hreg.
    split; [done|]. split; [|apply Hrt]. eapply retimes_misc; [done|done| |done| |done].
    + intros nd' own' Hnd' Hown'. exfalso.
      assert (o ∈ registered (w_timers w')) by (apply elem_registered; eauto). set_solver.
    + intros s -> Hin. exfalso. destruct (Hcl s eq_refl) as (x & Hx & Hxc).
      apply shape_stream in Hx as (st & Hst & <-).
      destruct (mo_batch _ Hw s Hin) as (_ & st' & Hst' & Hc' & _). simplify_eq. cbn in Hxc. congruence.
  - unfold kcpmux_engine_unregister_timer_node. apply (wp_timers_get o nd); [done|].
    rewrite bool_decide_eq_true_2, wp_ret by done. split; [|done].
    assert (o ∉ registered (w_timers w)).
    { rewrite elem_registered. intros (? & ? & [? ?]). simplify_eq. }
    match goal with |- Q tt ?x => match type of HQ with Q tt ?y => replace x with y; [done|] end end.
    unfold shape_of. cbn. f_equal. set_solver.
Qed.

Lemma wp_mod_stream s st f (Q : unit -> world K -> Prop) w :
  w_streams w !! s = Some st -> Q tt (w <| w_streams ::= <[s := f st]> |>) ->
  wp (mod_stream s f) Q w.
Proof.
  intros Hst HQ. unfold mod_stream, get_stream. by rewrite wp_bind, (wp_deref _ _ _ st), wp_modify.
Qed.

Lemma wp_get_stream_bind {A} s st (f : stream K -> W A) Q w :
  w_streams w !! s = Some st -> wp (f st) Q w -> wp (get_stream s ≫= f) Q w.
Proof. intros Hst Hf. unfold get_stream. by rewrite wp_bind, (wp_deref _ _ _ st). Qed.

(** ** Batched updates *)

(** [list_del_init] of a stream's batch link together with a store into it. *)
Definition unlinked s (st : stream K) w : world K :=
  w <| w_engine ::= fun e => e <| e_pending_batch_streams ::= filter (fun x => x <> s) |> |>
    <| w_streams ::= <[s := st]> |>.

Lemma misc_ok_unlinked w s st : pend_ok st -> misc_ok w -> misc_ok (unlinked s st w).
Proof.
  intros Hst [Hr Ho Hdue Hdef Hn Hm Hp].
  constructor; cbn; [by apply (reserved_same w)|done..|by apply NoDup_filter| |].
  - intros s' [Hne Hin]%filter_ne_elem. destruct (Hm s' Hin) as (? & st' & ? & ?).
    split; [done|]. exists st'. by rewrite lookup_insert_ne.
  - intros s' st' [[-> <-]|[_ ?]]%lookup_insert_Some; [done|by eapply Hp].
Qed.

Lemma unlinked_shape w s st :
  shape_of (unlinked s st w) = (shape_of w) <| sp_streams ::= <[s := sshape_of st]> |>.
Proof. unfold shape_of. cbn. by rewrite fmap_insert. Qed.

Lemma clear_pending_run s st w :
  w_streams w !! s = Some st ->
  kcpmux_stream_clear_pending s w = Some (tt, unlinked s (st <| s_pending_count := 0 |>) w).
Proof.
  intros Hst. unfold kcpmux_stream_clear_pending, mod_stream, get_stream, batch_linked, batch_unlink,
    mod_engine, deref, gets, modify, mbind, M_bind. rewrite Hst. cbn.
  unfold unlinked. cbn. case_bool_decide; [done|]. cbn. rewrite filter_ne_id by done.
  by destruct (w_engine w).
Qed.

Lemma unlinked_id_shape w s st st' :
  w_streams w !! s = Some st -> sshape_of st' = sshape_of st ->
  shape_of (unlinked s st' w) = shape_of w.
Proof.
  intros Hst He. rewrite unlinked_shape, He. unfold shape_of. cbn. f_equal.
  apply insert_id. by rewrite lookup_fmap, Hst.
Qed.

Lemma calm_clear_pending S s :
  is_Some (sp_streams S !! s) -> calm S (kcpmux_stream_clear_pending s) (fun _ => True).
Proof.
  intros [x Hx] w Hw <-. apply shape_stream in Hx as (st & Hst & _). unfold wp.
  rewrite (clear_pending_run s st) by done. split; [split; [|done]|split; [|done]].
  - by apply (unlinked_id_shape w s st).
  - apply misc_ok_unlinked; [|done]. split; [done|]. by apply (mo_pend _ Hw s st).
Qed.

(** Unlinking a stream first and storing into it then. *)
Lemma calm_unlink_store {A} S s f (m : W A) R :
  is_Some (sp_streams S !! s) ->
  (forall st, pend_ok st -> sshape_of (f st) = sshape_of st /\ pend_ok (f st)) ->
  calm S m R ->
  calm S (linked ← batch_linked s; when linked (batch_unlink s);; mod_stream s f;; m) R.
Proof.
  intros [x Hx] Hf Hm w Hw <-. apply shape_stream in Hx as (st & Hst & _).
  destruct (Hf st (mo_pend _ Hw s st Hst)) as [Hsh Hp].
  unfold batch_linked. rewrite wp_bind, wp_gets, wp_bind.
  apply (wp_mono _ (fun _ w' => w' = w <| w_engine ::= fun e =>
    e <| e_pending_batch_streams ::= filter (fun x => x <> s) |> |>)); cycle 1.
  { case_bool_decide; [done|]. cbn [when]. rewrite wp_ret. destruct w as [e]. cbn in *.
    f_equal. rewrite filter_ne_id by done. by destruct e. }
  intros _ w' ->. rewrite wp_bind. apply (wp_mod_stream s st); [done|].
  apply (Hm (unlinked s (f st) w)).
  - by apply misc_ok_unlinked.
  - by apply (unlinked_id_shape w s st).
Qed.

(** The batch list loses a member. *)
Lemma calm_batch_unlink S s :
  calm S (batch_unlink s) (fun _ => True).
Proof.
  apply on_modify. intros w [Hr Ho Hdue Hdef Hn Hm Hp] HS. split; [|by split].
  constructor; cbn; [by apply (reserved_same w)|done..|by apply NoDup_filter| |done].
  intros s' [_ Hin]%filter_ne_elem. auto.
Qed.

(** Closing begins by marking the stream and unlinking it. *)
Lemma on_mark_closed {A} S s x (m : W A) Q :
  sp_streams S !! s = Some x -> is_Some (sp_conns S !! sh_conn x) ->
  on (S <| sp_streams ::= <[s := x <| sh_closed := true |>]> |>) m Q ->
  on S (mod_stream s (fun st => st <| s_internal_closed := true |>);;
        _ ← get_conn (sh_conn x); kcpmux_stream_clear_pending s;; m) Q.
Proof.
  intros Hx [y Hy] Hm w Hw <-. apply shape_stream in Hx as (st & Hst & <-).
  apply shape_conn in Hy as (k & Hk & _).
  unfold mod_stream, get_stream. rewrite !wp_bind, (wp_deref _ _ _ st), wp_modify by done.
  unfold get_conn. rewrite wp_bind, (wp_deref _ _ _ k) by done.
  rewrite wp_bind. set (w1 := w <| w_streams ::= _ |>). unfold wp at 1.
  set (st1 := st <| s_internal_closed := true |>).
  assert (Hst1 : w_streams w1 !! s = Some st1) by apply lookup_insert_eq.
  rewrite (clear_pending_run s st1) by done.
  assert (He : unlinked s (st1 <| s_pending_count := 0 |>) w1 =
    unlinked s (st1 <| s_pending_count := 0 |>) w).
  { unfold unlinked. cbn. by rewrite insert_insert_eq. }
  rewrite He. apply (Hm (unlinked s (st1 <| s_pending_count := 0 |>) w)).
  - apply misc_ok_unlinked; [|done]. split; [done|]. by apply (mo_pend _ Hw s st).
  - by rewrite unlinked_shape.
Qed.

Lemma calm_accumulate S s now :
  OStream s ∈ sp_nodes S -> OStream s ∈ sp_registered S ->
  (exists x, sp_streams S !! s = Some x /\ sh_closed x = false) ->
  calm S (kcpmux_stream_accumulate_update s now) (fun _ => True).
Proof.
  intros Hn Hreg (x & Hx & Hcl) w Hw HS. subst S.
  apply shape_stream in Hx as Hx'. destruct Hx' as (st & Hst & <-).
  destruct (mo_pend _ Hw s st Hst) as [Hp0 Hthr].
  unfold kcpmux_stream_accumulate_update. apply (wp_get_stream_bind s st); [done|].
  assert (Hsched : calm (shape_of w) (_ ← kcpmux_engine_schedule_timer_node (OStream s) now now; mret tt)
    (fun _ => True)).
  { eapply calm_bind; [by apply calm_schedule|]. intros. by apply calm_ret. }
  destruct (Z.leb_spec (sc_batch_threshold (s_config st)) 1); [by apply Hsched|].
  destruct (Z.leb_spec (sc_batch_threshold (s_config st)) (s_pending_count st)).
  { by apply (calm_ret (shape_of w) tt (fun _ => True)). }
  set (st1 := st <| s_pending_count ::= fun n => u32 (n + 1) |>).
  set (w1 := w <| w_engine ::= fun e => e <| e_pending_batch_streams ::= fun l =>
      if s_pending_count st =? 0 then l ++ [s] else l |> |> <| w_streams ::= <[s := st1]> |>).
  assert (Hcnt : s_pending_count st1 = s_pending_count st + 1)
    by (cbn; apply wrap_small; unfold in_u; lia).
  assert (Hsh : shape_of w1 = shape_of w).
  { unfold shape_of. cbn. rewrite fmap_insert. f_equal. apply insert_id.
    by rewrite lookup_fmap, Hst. }
  assert (Hw1 : misc_ok w1).
  { destruct Hw as [Hr Ho Hdue Hdef Hnd Hm Hp].
    constructor; cbn -[st1]; [by apply (reserved_same w)|done..| | |].
    - destruct (Z.eqb_spec (s_pending_count st) 0) as [Hz|]; [|done]. apply list.NoDup_app.
      split; [done|]. split; [|apply NoDup_singleton].
      intros y Hy ->%list_elem_of_singleton. destruct (Hm s Hy) as (_ & st' & Hst' & _ & Hpos).
      rewrite Hst in Hst'. apply (inj Some) in Hst' as <-. lia.
    - intros s' Hin. destruct (decide (s' = s)) as [->|Hne].
      + split; [done|]. exists st1. rewrite lookup_insert_eq. split; [done|]. split; [done|lia].
      + rewrite lookup_insert_ne by done. apply Hm. destruct (_ =? 0); [|done].
        apply elem_of_app in Hin as [?|?%list_elem_of_singleton]; done.
    - intros s' st' [[-> <-]|[_ ?]]%lookup_insert_Some; [|by eapply Hp].
      split; [lia|done]. }
  assert (Hfin : calm (shape_of w) (st0 ← get_stream s;
        when (s_pending_count st0 =? sc_batch_threshold (s_config st))
          (batch_unlink s;; _ ← kcpmux_engine_schedule_timer_node (OStream s) now now; mret tt)) (fun _ => True)).
  { eapply calm_bind; [apply calm_get_stream; eauto|]. intros st2 _.
    apply calm_when; [intros _|done]. eapply calm_bind; [apply calm_batch_unlink|]. by intros _ _. }
  assert (Hw1' : w1 = w <| w_engine := if s_pending_count st =? 0
      then (w_engine w) <| e_pending_batch_streams ::= fun l => l ++ [s] |> else w_engine w |>
      <| w_streams ::= <[s := st1]> |>).
  { unfold w1. cbn. destruct (_ =? 0); [done|]. by destruct (w_engine w). }
  rewrite wp_bind.
  apply (wp_mono _ (fun _ w' => w' = w <| w_engine := if s_pending_count st =? 0
      then (w_engine w) <| e_pending_batch_streams ::= fun l => l ++ [s] |> else w_engine w |>)); cycle 1.
  { destruct (s_pending_count st =? 0); [done|]. cbn. by destruct w. }
  intros _ w' ->. rewrite wp_bind. apply (wp_mod_stream s st); [done|].
  match goal with |- wp _ _ ?x => replace x with w1 by (by rewrite Hw1') end.
  by apply (Hfin w1).
Qed.

(** ** Memory *)

Lemma timers_ok_insert t o nd :
  timers_ok t -> tm_nodes t !! o = None -> tn_state nd = TIMER_IDLE ->
  timers_ok (t <| tm_nodes ::= <[o := nd]> |>).
Proof.
  intros Hok Ho Hs.
  assert (Hh : o ∉ tm_heap t).
  { intros Hin. destruct (index_ok_live _ _ (hr_index _ _ (to_rep _ Hok)) o Hin) as [? ?]. congruence. }
  assert (Hd : o ∉ tm_due t).
  { intros Hin. destruct (to_due_live _ Hok o Hin) as [? ?]. congruence. }
  constructor; cbn.
  - apply heap_rep_insert; [apply Hok|done].
  - intros n nd' [[<- <-]|[_ ?]]%lookup_insert_Some; [by rewrite Hs|by eapply to_heap].
  - intros n nd' [[<- <-]|[_ ?]]%lookup_insert_Some; [by rewrite Hs|by eapply to_due].
  - apply Hok.
  - intros n Hin. apply lookup_insert_is_Some'. right. by apply (to_due_live _ Hok).
  - apply Hok.
Qed.

Lemma heap_rep_delete m h n : heap_rep m h -> n ∉ h -> heap_rep (delete n m) h.
Proof.
  intros [Hnd Hidx Hord] Hn.
  assert (Hne : forall j y, h !! j = Some y -> n <> y).
  { intros j y Hj ->. apply Hn, list_elem_of_lookup. eauto. }
  split; [done| |].
  - intros j y Hy. rewrite lookup_delete_ne by eauto. by apply Hidx.
  - intros j y p Hj Hy Hp. destruct (Hord j y p Hj Hy Hp) as (a & b & Ha & Hb & Hle).
    exists a, b. by rewrite !lookup_delete_ne by eauto.
Qed.

Lemma timers_ok_delete t o :
  timers_ok t -> o ∉ tm_heap t -> o ∉ tm_due t -> timers_ok (t <| tm_nodes ::= delete o |>).
Proof.
  intros Hok Hh Hd. constructor; cbn.
  - apply heap_rep_delete; [apply Hok|done].
  - intros n nd' [_ ?]%lookup_delete_Some. by eapply to_heap.
  - intros n nd' [_ ?]%lookup_delete_Some. by eapply to_due.
  - apply Hok.
  - intros n Hin. rewrite lookup_delete_ne by (intros ->; done). by apply (to_due_live _ Hok).
  - apply Hok.
Qed.

Lemma registered_insert t o nd :
  o ∉ registered t -> owner nd = None -> registered (t <| tm_nodes ::= <[o := nd]> |>) = registered t.
Proof.
  intros Ho Hn. apply set_eq. intros n. rewrite !registered_owner. cbn.
  destruct (decide (n = o)) as [->|]; [|by rewrite lookup_insert_ne].
  rewrite lookup_insert_eq. cbn. unfold node_owner. rewrite Hn.
  split; [by intros (? & ? & [=])|]. rewrite <- registered_owner. done.
Qed.

Lemma registered_delete t o :
  o ∉ registered t -> registered (t <| tm_nodes ::= delete o |>) = registered t.
Proof.
  intros Ho. apply set_eq. intros n. rewrite !registered_owner. cbn.
  destruct (decide (n = o)) as [->|]; [|by rewrite lookup_delete_ne].
  rewrite lookup_delete_eq. split; [by intros (? & ? & [=])|]. by rewrite <- registered_owner.
Qed.

(** The state with one node more or less. *)
Lemma misc_ok_node w w' o :
  misc_ok w -> timers_ok (w_timers w') ->
  tm_heap (w_timers w') = tm_heap (w_timers w) -> tm_due (w_timers w') = tm_due (w_timers w) ->
  tm_capacity (w_timers w') = tm_capacity (w_timers w) ->
  registered (w_timers w') = registered (w_timers w) -> o ∉ registered (w_timers w) ->
  (forall n, n <> o -> tm_nodes (w_timers w') !! n = tm_nodes (w_timers w) !! n) ->
  w_engine w' = w_engine w ->
  (forall s, OStream s <> o -> w_streams w' !! s = w_streams w !! s) ->
  (forall s st, o = OStream s -> w_streams w' !! s = Some st -> pend_ok st) ->
  misc_ok w'.
Proof.
  intros [[Hok0 Hcnt Hcap Hheap] Ho Hdue Hdef Hnd Hm Hp] Hok Hh Hd Hc Hreg Hni Hn He Hs Hso.
  constructor; rewrite ?He; [|..|done|done| |].
  - constructor; rewrite ?Hreg, ?He, ?Hc, ?Hh; done.
  - intros n nd own Hnd' Hown. destruct (decide (n = o)) as [->|Hne].
    + exfalso. apply Hni. rewrite <- Hreg. apply elem_registered. eauto.
    + rewrite Hn in Hnd' by done. by eapply Ho.
  - intros n. rewrite Hd, Hreg. apply Hdue.
  - intros s Hin. rewrite Hreg. destruct (Hm s Hin) as [Hr Hst]. split; [done|].
    rewrite Hs; [done|]. by intros <-.
  - intros s st Hst. destruct (decide (OStream s = o)) as [<-|Hne]; [by eapply Hso|].
    rewrite Hs in Hst by done. by eapply Hp.
Qed.

Lemma node_fresh w o : o ∉ sp_nodes (shape_of w) -> tm_nodes (w_timers w) !! o = None /\ o ∉ registered (w_timers w).
Proof.
  intros Ho. cbn in Ho. apply not_elem_of_dom in Ho. split; [done|].
  rewrite elem_registered. intros (? & ? & _). congruence.
Qed.

Definition conn_added c (x : cshape) S : shape :=
  S <| sp_next := Pos.succ c |> <| sp_conns ::= <[c := x]> |> <| sp_nodes ::= union {[OConn c]} |>.
Definition stream_added s (x : sshape) S : shape :=
  S <| sp_next := Pos.succ s |> <| sp_streams ::= <[s := x]> |> <| sp_nodes ::= union {[OStream s]} |>.

Definition sshape_zero c : sshape := mk_sshape c 0 false false false 0.

Lemma calm_alloc S : calm S alloc (fun _ => True).
Proof. by apply calm_ask. Qed.

Lemma on_malloc_conn S (Q : option positive -> shape -> Prop) :
  OConn (sp_next S) ∉ sp_nodes S -> Q None S ->
  Q (Some (sp_next S)) (conn_added (sp_next S) (cshape_of conn_zero) S) -> on S malloc_conn Q.
Proof.
  intros Ho HN HQ. unfold malloc_conn. eapply on_calm_bind; [apply calm_alloc|]. intros [] _; cbn.
  2: by apply on_ret.
  eapply on_calm_bind; [apply (calm_gets _ _ (fun c => c = sp_next S)); by intros w _ <-|].
  intros c ->. eapply on_bind with (R := fun _ S' => S' = conn_added (sp_next S) (cshape_of conn_zero) S).
  2: { intros _ S' ->. by apply on_ret. }
  intros w Hw <-. rewrite wp_modify. destruct (node_fresh _ _ Ho) as [Hfr Hreg]. cbn in Hfr, Hreg |- *.
  pose proof (registered_insert (w_timers w) _ timer_node_zero Hreg eq_refl) as Hri.
  split; [|split; [|done]].
  - unfold shape_of, conn_added. cbn. rewrite fmap_insert, dom_insert_L. by f_equal.
  - eapply (misc_ok_node w _ (OConn (w_next_addr w))); try done.
    + apply timers_ok_insert; [apply Hw|done|done].
    + intros n Hne. cbn. by rewrite lookup_insert_ne.
Qed.

Lemma on_malloc_stream S c (Q : option positive -> shape -> Prop) :
  OStream (sp_next S) ∉ sp_nodes S -> Q None S ->
  Q (Some (sp_next S)) (stream_added (sp_next S) (sshape_zero c) S) -> on S (malloc_stream c) Q.
Proof.
  intros Ho HN HQ. unfold malloc_stream. eapply on_calm_bind; [apply calm_alloc|]. intros [] _; cbn.
  2: by apply on_ret.
  eapply on_calm_bind; [apply (calm_gets _ _ (fun c => c = sp_next S)); by intros w _ <-|].
  intros s ->. eapply on_bind with (R := fun _ S' => S' = stream_added (sp_next S) (sshape_zero c) S).
  2: { intros _ S' ->. by apply on_ret. }
  intros w Hw <-. rewrite wp_modify. destruct (node_fresh _ _ Ho) as [Hfr Hreg]. cbn in Hfr, Hreg |- *.
  pose proof (registered_insert (w_timers w) _ timer_node_zero Hreg eq_refl) as Hri.
  split; [|split; [|done]].
  - unfold shape_of, stream_added. cbn. rewrite fmap_insert, dom_insert_L. by f_equal.
  - eapply (misc_ok_node w _ (OStream (w_next_addr w))); try done.
    + apply timers_ok_insert; [apply Hw|done|done].
    + intros n Hne. cbn. by rewrite lookup_insert_ne.
    + intros s Hne. cbn. rewrite lookup_insert_ne; [done|]. congruence.
    + intros s st [= ->]. cbn. rewrite lookup_insert_eq. by intros [= <-].
Qed.

Definition freed o S : shape :=
  match o with
  | OConn c => S <| sp_conns ::= delete c |> <| sp_nodes ::= fun n => n ∖ {[o]} |>
  | OStream s => S <| sp_streams ::= delete s |> <| sp_nodes ::= fun n => n ∖ {[o]} |>
  end.

Lemma on_free_obj S o (Q : unit -> shape -> Prop) :
  o ∉ sp_registered S -> Q tt (freed o S) -> on S (free_obj o) Q.
Proof.
  intros Ho HQ. unfold free_obj.
  eapply on_bind with (R := fun _ S' => S' = freed o S).
  2: { intros _ S' ->. eapply on_calm; [apply calm_emit|]. by intros [] _. }
  clear HQ. intros w Hw <-. rewrite wp_modify. cbn in Ho.
  pose proof (mo_reserved _ Hw) as [Hok _ _ Hheap].
  assert (Hh : o ∉ tm_heap (w_timers w)) by (intros ?; by apply Ho, Hheap).
  assert (Hd : o ∉ tm_due (w_timers w)) by (intros ?; by apply Ho, (mo_due _ Hw)).
  pose proof (timers_ok_delete _ o Hok Hh Hd). pose proof (registered_delete _ o Ho).
  split; [|split; [|by destruct o]].
  - destruct o; unfold shape_of, freed; cbn; rewrite fmap_delete, dom_delete_L; by f_equal.
  - eapply (misc_ok_node w _ o); try (by destruct o).
    + intros n Hne. destruct o; cbn; by rewrite lookup_delete_ne.
    + intros s Hne. destruct o; cbn; [done|]. rewrite lookup_delete_ne; [done|]. congruence.
    + intros s st ->. cbn. by rewrite lookup_delete_eq.
Qed.

(** ** Operation boundaries *)

Lemma on_queue_release S o (Q : unit -> shape -> Prop) :
  Q tt (S <| sp_pending ::= fun l => l ++ [o] |>) -> on S (kcpmux_engine_queue_release o) Q.
Proof. intros HQ. apply on_mod_engine; try done. by intros w <-. Qed.

Lemma on_enter S (Q : unit -> shape -> Prop) :
  Q tt (S <| sp_depth ::= fun d => u32 (d + 1) |>) -> on S kcpmux_engine_operation_enter Q.
Proof. intros HQ. apply on_mod_engine; try done. by intros w <-. Qed.

(** ** Tables *)

Lemma calm_htb_new S n :
  calm S (htb_new n) (fun om => forall m, om = Some m -> 0 < htb_size m /\ entries m = []).
Proof.
  apply calm_in_trace. intros tr. unfold htb_new_tr, ask_tr, mbind, M_bind. cbn -[kcpmux_htb_new].
  assert (Hok : forall a b m, kcpmux_htb_new a b n = Some m -> 0 < htb_size m /\ entries m = @nil positive).
  { intros [] [] m Hm; try done.
    destruct (htb_new_ok (fun x : positive => x) (fun _ => 0) n) as (m' & Hm' & Hok & He & _).
    rewrite Hm in Hm'. injection Hm' as <-. split; [apply Hok|done]. }
  destruct (host_alloc tr); cbn -[kcpmux_htb_new]; eexists _, _; (split; [done|]); intros m; apply Hok.
Qed.

(** The objects of a table can be read. *)
Definition conns_live S (m : htb positive) : Prop :=
  0 < htb_size m /\ forall c, c ∈ entries m -> is_Some (sp_conns S !! c).
Definition streams_live S (m : htb positive) : Prop :=
  0 < htb_size m /\ forall s, s ∈ entries m -> is_Some (sp_streams S !! s).

(** [m'] is [m] with at most [x] added. *)
Definition table_plus (x : positive) (m m' : htb positive) : Prop :=
  htb_size m' = htb_size m /\ forall y, y ∈ entries m' -> y = x \/ y ∈ entries m.

Lemma conn_live_cmp w c (f : conn -> bool) :
  is_Some (sp_conns (shape_of w) !! c) -> is_Some (k ← w_conns w !! c; Some (f k)).
Proof. intros [x (k & Hk & _)%shape_conn]. rewrite Hk. cbn. eauto. Qed.

Lemma calm_get_conn_by_id S a id :
  conns_live S (sp_conn_map S) ->
  calm S (kcpmux_engine_get_conn_by_id a id) (fun oc => forall c, oc = Some c -> c ∈ entries (sp_conn_map S)).
Proof.
  intros [Hs Hl]. unfold kcpmux_engine_get_conn_by_id. destruct a as [a|]; [|by apply calm_ret].
  case_match; [by apply calm_ret|]. apply calm_deref. intros w _ <-. apply htb_find_live; [done|].
  intros c Hc. by apply conn_live_cmp, Hl.
Qed.

Lemma calm_get_passive_conn S a id :
  conns_live S (sp_handshake S) ->
  calm S (kcpmux_engine_get_passive_conn a id) (fun oc => forall c, oc = Some c -> c ∈ entries (sp_handshake S)).
Proof.
  intros [Hs Hl]. unfold kcpmux_engine_get_passive_conn. destruct a as [a|]; [|by apply calm_ret].
  case_match; [by apply calm_ret|]. apply calm_deref. intros w _ <-. apply htb_find_live; [done|].
  intros c Hc. by apply conn_live_cmp, Hl.
Qed.

Lemma calm_add_to {A} S (m : htb positive) x (cmp : world K -> A -> positive -> option bool) a h :
  0 < htb_size m ->
  (forall w y, shape_of w = S -> y ∈ entries m -> is_Some (cmp w a y)) ->
  forall sel : world K -> htb positive, (forall w, shape_of w = S -> sel w = m) ->
  calm S (deref (fun w => kcpmux_htb_add (cmp w a) x h (sel w))) (table_plus x m).
Proof.
  intros Hs Hl sel Hsel. apply calm_deref. intros w _ HS. rewrite (Hsel w HS).
  destruct (htb_add_live (cmp w a) x h m Hs) as (m' & Hm' & ? & ?); [auto|]. exists m'. by split.
Qed.

Lemma on_add_conn S c x (Q : unit -> shape -> Prop) :
  sp_conns S !! c = Some x -> ch_closed x = false -> ch_in_map x = false ->
  conns_live S (sp_conn_map S) -> conns_live S (sp_handshake S) ->
  (forall c0 x0, c0 ∈ entries (sp_conn_map S) -> sp_conns S !! c0 = Some x0 -> ch_id x0 <> ch_id x) ->
  (forall m h, htb_size m = htb_size (sp_conn_map S) -> entries m ≡ₚ c :: entries (sp_conn_map S) ->
     (if ch_init x then h = sp_handshake S else table_plus c (sp_handshake S) h) ->
     Q tt (S <| sp_conn_map := m |> <| sp_handshake := h |> <| sp_count ::= fun n => u32 (n + 1) |>
             <| sp_conns ::= <[c := x <| ch_in_map := true |>]> |>)) ->
  on S (kcpmux_engine_add_conn c) Q.
Proof.
  intros Hx Hcl Him [Hs1 Hl1] [Hs2 Hl2] Hid HQ. unfold kcpmux_engine_add_conn.
  eapply on_calm_bind; [apply calm_get_conn; eauto|]. intros k Hk.
  rewrite Hx in Hk. injection Hk as ->. cbn in Hcl, Him. rewrite Hcl, Him. cbn [orb].
  eapply on_calm_bind with (R := fun m => htb_size m = htb_size (sp_conn_map S) /\
    entries m ≡ₚ c :: entries (sp_conn_map S)).
  { apply calm_deref. intros w _ <-.
    destruct (htb_add_new (conn_cmp (w_conns w) (c_peer_addr k) (c_local_connection_id k)) c
      (kcpmux_conn_key_hash (c_peer_addr k) (c_local_connection_id k)) (sp_conn_map (shape_of w)) Hs1) as (m & ? & ? & ?);
      [|by exists m].
    apply htb_find_none; [done|]. intros c0 Hc0. destruct (Hl1 c0 Hc0) as [x0 Hx0].
    pose proof (Hid c0 x0 Hc0 Hx0) as Hne. apply shape_conn in Hx0 as (k0 & Hk0 & <-).
    unfold conn_cmp, kcpmux_conn_key_matches. rewrite Hk0. cbn in Hne |- *.
    by rewrite (proj2 (Z.eqb_neq _ _)) by congruence. }
  intros m [Hm1 Hm2].
  eapply on_bind with (R := fun _ S' => S' = S <| sp_conn_map := m |>).
  { apply on_mod_engine; try done. by intros w <-. }
  intros _ S' ->. set (S1 := S <| sp_conn_map := m |>).
  eapply on_bind with (R := fun _ S' => exists h, S' = S1 <| sp_handshake := h |> /\
    (if c_is_initiator k then h = sp_handshake S else table_plus c (sp_handshake S) h)).
  { destruct (c_is_initiator k); cbn [negb when].
    - apply on_ret. exists (sp_handshake S). split; [by destruct S|done].
    - eapply on_calm_bind.
      { apply (calm_add_to S1 (sp_handshake S) c
          (fun w a => handshake_cmp (w_conns w) a (c_peer_connection_id k)));
          [done| |by intros w Hw; apply (f_equal sp_handshake) in Hw].
        intros w y Hw Hy. apply conn_live_cmp. apply Hl2 in Hy.
        by apply (f_equal sp_conns) in Hw as ->. }
      intros h Hh. apply on_mod_engine; try done. intros w Hw. exists h. split; [|done].
      by rewrite <- Hw. }
  intros _ S' (h & -> & Hh).
  eapply on_bind with (R := fun _ S' => S' = S1 <| sp_handshake := h |> <| sp_count ::= fun n => u32 (n + 1) |>).
  { apply on_mod_engine; try done. by intros w <-. }
  intros _ S' ->. eapply on_bind.
  { eapply (on_mod_conn _ _ (cshape_of k)) with (Q := fun _ S' => S' = S <| sp_conn_map := m |>
      <| sp_handshake := h |> <| sp_count ::= fun n => u32 (n + 1) |> <| sp_conns ::= <[c := (cshape_of k) <| ch_in_map := true |>]> |>);
      [exact Hx|]. intros k' Hk'. unfold S1. rewrite <- Hk'. done. }
  intros _ S' ->. eapply on_calm; [by apply calm_mod_engine|]. intros [] _. by apply HQ.
Qed.

Lemma on_remove_conn S c x (Q : unit -> shape -> Prop) :
  sp_conns S !! c = Some x ->
  Q tt (if ch_in_map x then
          S <| sp_handshake ::= (if ch_init x then id else kcpmux_htb_del c) |>
            <| sp_conn_map ::= kcpmux_htb_del c |> <| sp_count ::= fun n => u32 (n - 1) |>
            <| sp_conns ::= <[c := x <| ch_in_map := false |>]> |>
        else S) ->
  on S (kcpmux_engine_remove_conn c) Q.
Proof.
  intros Hx HQ. unfold kcpmux_engine_remove_conn.
  eapply on_calm_bind; [apply calm_get_conn; eauto|]. intros k Hk.
  rewrite Hx in Hk. injection Hk as ->. cbn in HQ. destruct (c_in_engine_map k); cbn [negb].
  2: by apply on_ret.
  set (S1 := S <| sp_handshake ::= (if c_is_initiator k then id else kcpmux_htb_del c) |>) in *.
  eapply on_bind with (R := fun _ S' => S' = S1).
  { unfold S1. destruct (c_is_initiator k); cbn [negb when].
    - apply on_ret. by destruct S.
    - apply on_mod_engine; try done. by intros w <-. }
  intros _ S' ->.
  eapply on_bind with (R := fun _ S' => S' = S1 <| sp_conn_map ::= kcpmux_htb_del c |>).
  { apply on_mod_engine; try done. by intros w <-. }
  intros _ S' ->.
  eapply on_bind with (R := fun _ S' => S' = S1 <| sp_conn_map ::= kcpmux_htb_del c |>
    <| sp_count ::= fun n => u32 (n - 1) |>).
  { apply on_mod_engine; try done. by intros w <-. }
  intros _ S' ->. eapply on_bind.
  { eapply (on_mod_conn _ _ (cshape_of k)) with (Q := fun _ S' => S' = S1
      <| sp_conn_map ::= kcpmux_htb_del c |> <| sp_count ::= fun n => u32 (n - 1) |> <| sp_conns ::= <[c := (cshape_of k) <| ch_in_map := false |>]> |>);
      [exact Hx|]. intros k' Hk'. rewrite <- Hk'. done. }
  intros _ S' ->. eapply on_calm; [by apply calm_mod_engine|]. by intros [] _.
Qed.

(** Looking up a stream, on the shape. *)
Definition sfind S (m : htb positive) (id : Z) : option (option positive) :=
  kcpmux_htb_find (fun s => x ← sp_streams S !! s; Some (id =? sh_id x)) (stream_hash id) m.

Lemma sfind_eq w m id :
  kcpmux_htb_find (stream_cmp (w_streams w) id) (stream_hash id) m = sfind (shape_of w) m id.
Proof.
  apply htb_find_ext. intros s _. unfold stream_cmp. cbn. rewrite lookup_fmap.
  by destruct (w_streams w !! s).
Qed.

Lemma calm_get_stream_by_id S c x id :
  sp_conns S !! c = Some x -> streams_live S (ch_map x) ->
  calm S (kcpmux_conn_get_stream_by_id c id) (fun os => sfind S (ch_map x) id = Some os /\
    forall s, os = Some s -> s ∈ entries (ch_map x)).
Proof.
  intros Hx [Hs Hl]. unfold kcpmux_conn_get_stream_by_id.
  eapply calm_bind; [apply calm_get_conn; eauto|]. intros k Hk. rewrite Hx in Hk. injection Hk as ->.
  apply calm_deref. intros w _ <-. rewrite sfind_eq.
  destruct (htb_find_live (fun s => x ← sp_streams (shape_of w) !! s; Some (id =? sh_id x))
    (stream_hash id) (ch_map (cshape_of k)) Hs) as (r & Hr & Hin).
  { intros s Hin. destruct (Hl s Hin) as [y ->]. cbn. eauto. }
  exists r. by split_and!.
Qed.

Lemma on_add_stream S c s x y (Q : unit -> shape -> Prop) :
  sp_conns S !! c = Some x -> sp_streams S !! s = Some y ->
  ch_closed x = false -> sh_closed y = false -> sh_in_map y = false ->
  streams_live S (ch_map x) -> sfind S (ch_map x) (sh_id y) = Some None ->
  (forall m, htb_size m = htb_size (ch_map x) -> entries m ≡ₚ s :: entries (ch_map x) ->
     Q tt (S <| sp_conns ::= <[c := x <| ch_map := m |>]> |>
             <| sp_streams ::= <[s := y <| sh_in_map := true |>]> |>)) ->
  on S (kcpmux_conn_add_stream c s) Q.
Proof.
  intros Hx Hy Hcx Hcy Him [Hs Hl] Hf HQ. unfold kcpmux_conn_add_stream.
  eapply on_calm_bind; [apply calm_get_conn; eauto|]. intros k Hk. rewrite Hx in Hk. injection Hk as ->.
  eapply on_calm_bind; [apply calm_get_stream; eauto|]. intros st Hst. rewrite Hy in Hst. injection Hst as ->.
  cbn in Hcx, Hcy, Him. rewrite Hcx, Hcy, Him. cbn [orb].
  eapply on_calm_bind with (R := fun m => htb_size m = htb_size (c_stream_map k) /\
    entries m ≡ₚ s :: entries (c_stream_map k)).
  { apply calm_deref. intros w _ <-. rewrite <- sfind_eq in Hf.
    destruct (htb_add_new _ s (stream_hash (s_stream_id st)) (c_stream_map k) Hs Hf) as (m & ? & ? & ?). eauto. }
  intros m [Hm1 Hm2].
  eapply on_bind.
  { eapply (on_mod_conn _ _ (cshape_of k)) with (Q := fun _ S' => S' = S
      <| sp_conns ::= <[c := (cshape_of k) <| ch_map := m |>]> |>);
      [exact Hx|]. intros k' Hk'. rewrite <- Hk'. done. }
  intros _ S' ->.
  eapply on_bind.
  { eapply (on_mod_stream _ _ (sshape_of st)) with (Q := fun _ S' => S' = S
      <| sp_conns ::= <[c := (cshape_of k) <| ch_map := m |>]> |>
      <| sp_streams ::= <[s := (sshape_of st) <| sh_in_map := true |>]> |>);
      [exact Hy|]. intros st' Hst' [_ ?]. split_and!; try done. by rewrite <- Hst'. }
  intros _ S' ->. eapply on_calm; [by apply calm_mod_engine|]. intros [] _. by apply HQ.
Qed.

Lemma on_remove_stream S c s x y (Q : unit -> shape -> Prop) :
  sp_conns S !! c = Some x -> sp_streams S !! s = Some y -> sh_in_map y = true ->
  Q tt (S <| sp_conns ::= <[c := x <| ch_map ::= kcpmux_htb_del s |>]> |>
          <| sp_streams ::= <[s := y <| sh_in_map := false |>]> |>) ->
  on S (kcpmux_conn_remove_stream c s) Q.
Proof.
  intros Hx Hy Him HQ. unfold kcpmux_conn_remove_stream.
  eapply on_calm_bind; [apply calm_get_conn; eauto|]. intros _ _.
  eapply on_calm_bind; [apply calm_get_stream; eauto|]. intros st Hst. rewrite Hy in Hst. injection Hst as ->.
  cbn in Him. rewrite Him. cbn [negb].
  eapply on_bind.
  { eapply (on_mod_conn _ _ x) with (Q := fun _ S' => S' = S
      <| sp_conns ::= <[c := x <| ch_map ::= kcpmux_htb_del s |>]> |>);
      [exact Hx|]. intros k' Hk'. rewrite <- Hk'. done. }
  intros _ S' ->.
  eapply on_bind.
  { eapply (on_mod_stream _ _ (sshape_of st)) with (Q := fun _ S' => S' = S
      <| sp_conns ::= <[c := x <| ch_map ::= kcpmux_htb_del s |>]> |>
      <| sp_streams ::= <[s := (sshape_of st) <| sh_in_map := false |>]> |>);
      [exact Hy|]. intros st' Hst' [_ ?]. split_and!; try done. by rewrite <- Hst'. }
  intros _ S' ->. eapply on_calm; [by apply calm_mod_engine|]. by intros [] _.
Qed.
End steps.
