(* ===== verification/Calm.v ===== *)
(** * Functions that keep the shape

    Sending, receiving, timers, batching, configuration and queries: everything
    that neither opens, closes nor releases an object.  Each runs to completion
    when the objects it is given are alive, and leaves the shape of the state
    as it was.  The [calm] tactic follows the structure of the code; what it
    needs to know about objects comes from the hints of the database [shape]. *)

From S2P Require Import Prelude Types Timer TimerProofs TimerSpec ByteOrder Hashtable Vectored World Engine Conn Messages Stream Mux Deadlines Wire Shape Steps.
From stdpp Require Import gmap.
#[local] Open Scope Z_scope.

(** ** Objects one may use *)

Definition conn_ready S c : Prop :=
  exists x, sp_conns S !! c = Some x /\ streams_live S (ch_map x) /\ ext_ok (ch_ext x) /\
    OConn c ∈ sp_nodes S.

Definition stream_ready S s : Prop :=
  exists y, sp_streams S !! s = Some y /\ conn_ready S (sh_conn y) /\ OStream s ∈ sp_nodes S /\
    (sh_closed y = false -> sh_kcp y = true /\ 1 <= sh_mss y /\ OStream s ∈ sp_registered S).

Definition stream_open S s : Prop :=
  stream_ready S s /\ exists y, sp_streams S !! s = Some y /\ sh_closed y = false.

Create HintDb shape discriminated.
#[export] Hint Constants Opaque : shape.
Create HintDb calm discriminated.
#[export] Hint Constants Opaque : calm.

Section ready.
Context {KO : Kcp} {HO : Host}.
Implicit Types (c s : positive) (S : shape).

Lemma conn_ready_some S c : conn_ready S c -> is_Some (sp_conns S !! c).
Proof. intros (x & ? & _). eauto. Qed.
Lemma conn_ready_node S c : conn_ready S c -> OConn c ∈ sp_nodes S.
Proof. by intros (x & _ & _ & _ & ?). Qed.
Lemma stream_ready_some S s : stream_ready S s -> is_Some (sp_streams S !! s).
Proof. intros (x & ? & _). eauto. Qed.
Lemma stream_ready_node S s : stream_ready S s -> OStream s ∈ sp_nodes S.
Proof. by intros (x & _ & _ & ? & _). Qed.
Lemma stream_ready_conn S s st :
  stream_ready S s -> sp_streams S !! s = Some (sshape_of (K := K) st) -> conn_ready S (s_conn st).
Proof. intros (x & Hx & Hc & _) Hst. rewrite Hst in Hx. by injection Hx as <-. Qed.
Lemma stream_open_ready S s : stream_open S s -> stream_ready S s.
Proof. by intros []. Qed.
Lemma stream_open_intro S s st :
  stream_ready S s -> sp_streams S !! s = Some (sshape_of (K := K) st) ->
  s_internal_closed st = false -> stream_open S s.
Proof. intros Hr Hst Hcl. split; [done|]. by exists (sshape_of st). Qed.
Lemma stream_open_facts S s :
  stream_open S s -> exists y, sp_streams S !! s = Some y /\ sh_closed y = false /\
    sh_kcp y = true /\ 1 <= sh_mss y /\ OStream s ∈ sp_registered S.
Proof.
  intros [(y & Hy & _ & _ & Ho) (y' & Hy' & Hcl)]. rewrite Hy in Hy'. injection Hy' as <-.
  destruct (Ho Hcl) as (? & ? & ?). by exists y.
Qed.
Lemma conn_ready_ext S c k :
  conn_ready S c -> sp_conns S !! c = Some (cshape_of k) -> ext_ok (c_self_proto_ext k).
Proof. intros (x & Hx & _ & He & _) Hk. rewrite Hk in Hx. by injection Hx as <-. Qed.
End ready.

#[export] Hint Resolve conn_ready_some conn_ready_node stream_ready_some stream_ready_node
  stream_ready_conn stream_open_ready stream_open_intro conn_ready_ext : shape.

Ltac split_guards :=
  repeat match goal with
  | H : _ || _ = false |- _ => apply orb_false_iff in H as [? ?]
  | H : negb _ = false |- _ => apply negb_false_iff in H
  end.

Ltac shape_side := split_guards; solve [eauto 4 with shape].

Ltac calm_intro :=
  let x := fresh "x" in let H := fresh "Hx" in intros x H; cbv beta in H.

Ltac calm_step :=
  lazymatch goal with
  | |- calm _ (mret _) _ => apply calm_ret; exact I
  | |- calm _ (get_conn _ ≫= _) _ => eapply calm_bind; [apply calm_get_conn; shape_side|calm_intro]
  | |- calm _ (get_stream _ ≫= _) _ => eapply calm_bind; [apply calm_get_stream; shape_side|calm_intro]
  | |- calm _ (_ ≫= _) _ => apply (calm_bind _ _ _ (fun _ => True)); [|intros ? _]
  | |- calm _ (when _ _) _ => apply calm_when; [intros ?|done]
  | |- calm _ (for_each _ _) _ => apply calm_for_each; intros ? ?
  | |- calm _ (mod_engine _) _ => apply calm_mod_engine; [intros; reflexivity..]
  | |- calm _ (mod_stats _) _ => apply calm_mod_engine; [intros; reflexivity..]
  | |- calm _ (mod_conn _ _) _ => apply calm_mod_conn; [shape_side|intros; reflexivity]
  | |- calm _ (mod_stream _ _) _ => apply calm_mod_stream; [shape_side|intros; reflexivity]
  | |- calm _ (gets _) _ => apply calm_gets; done
  | |- calm _ (ask _ _) _ => apply calm_ask; done
  | |- calm _ (emit _) _ => apply calm_emit
  | |- calm _ (match _ with _ => _ end) _ => case_match
  | |- calm _ (let _ := _ in _) _ => cbv zeta
  | |- calm _ _ _ => split_guards; solve [eauto 4 with calm shape]
  end.
Ltac calm := repeat calm_step.

Section calm.
Context {KO : Kcp} {HO : Host}.
Implicit Types (c s : positive) (w : world K) (S : shape).

#[local] Hint Resolve calm_rearm calm_cancel calm_schedule calm_clear_pending calm_batch_unlink
  calm_alloc calm_emit : calm.

(** ** Engine *)

Lemma calm_now S : calm S kcpmux_engine_now (fun _ => True).
Proof. by apply calm_ask. Qed.

Lemma calm_random S cb : calm S (kcpmux_engine_random_u64 cb) (fun _ => True).
Proof.
  apply calm_in_trace. intros tr. unfold random_u64_tr. destruct (ecb_random_u64 cb); eexists _, _; by split.
Qed.

Lemma calm_write_socketv S iov a : calm S (kcpmux_engine_write_socketv iov a) (fun _ => True).
Proof. unfold kcpmux_engine_write_socketv, get_engine. calm. Qed.
#[local] Hint Resolve calm_now calm_random calm_write_socketv : calm.

(** ** Connections *)

Lemma calm_conn_refresh S c now :
  conn_ready S c -> calm S (kcpmux_conn_refresh_timer c now) (fun _ => True).
Proof. intros Hc. unfold kcpmux_conn_refresh_timer. calm. Qed.
#[local] Hint Resolve calm_conn_refresh : calm.

Lemma calm_conn_set_state S c x :
  conn_ready S c -> calm S (kcpmux_conn_set_state c x) (fun _ => True).
Proof. intros Hc. unfold kcpmux_conn_set_state. calm. Qed.

Lemma calm_note_receive S c t p :
  conn_ready S c -> calm S (kcpmux_conn_note_receive c t p) (fun _ => True).
Proof. intros Hc. unfold kcpmux_conn_note_receive. calm. Qed.

Lemma calm_conn_writev S c iov :
  conn_ready S c -> calm S (kcpmux_conn_write_socketv c iov) (fun _ => True).
Proof. intros Hc. unfold kcpmux_conn_write_socketv. calm. Qed.
#[local] Hint Resolve calm_conn_set_state calm_note_receive calm_conn_writev : calm.

Lemma calm_conn_write S c buf :
  conn_ready S c -> calm S (kcpmux_conn_write_socket c buf) (fun _ => True).
Proof. intros Hc. unfold kcpmux_conn_write_socket. calm. Qed.
#[local] Hint Resolve calm_conn_write : calm.

Lemma calm_conn_set_config S c cfg :
  conn_ready S c -> calm S (kcpmux_conn_set_config (Some c) cfg) (fun _ => True).
Proof. intros Hc. unfold kcpmux_conn_set_config. calm. Qed.

Lemma calm_conn_set_callbacks S c cbs ud :
  conn_ready S c -> calm S (kcpmux_conn_set_callbacks (Some c) cbs ud) (fun _ => True).
Proof. intros Hc. unfold kcpmux_conn_set_callbacks. calm. Qed.
#[local] Hint Resolve calm_conn_set_config calm_conn_set_callbacks : calm.

Lemma calm_conn_setter S c a : conn_ready S c -> calm S (conn_setter_run c a) (fun _ => True).
Proof. intros Hc. unfold conn_setter_run. calm. Qed.

Lemma calm_note_rx S c n : conn_ready S c -> calm S (note_rx c n) (fun _ => True).
Proof. intros Hc. unfold note_rx. calm. Qed.

(** ** Messages *)

Lemma calm_p_connect S c : conn_ready S c -> calm S (kcpmux_protocol_send_conn_connect c) (fun _ => True).
Proof.
  intros Hc. unfold kcpmux_protocol_send_conn_connect. calm_step. cbv zeta. case_match; [calm|].
  eapply calm_bind with (R := fun _ => True); [|intros; calm].
  apply calm_deref. intros w _ _. unfold conn_connect_msg.
  rewrite ext_read by by eapply conn_ready_ext. cbn. eauto.
Qed.

Lemma calm_p_connect_ack S c r :
  conn_ready S c -> calm S (kcpmux_protocol_send_conn_connect_ack c r) (fun _ => True).
Proof.
  intros Hc. unfold kcpmux_protocol_send_conn_connect_ack. calm_step. cbv zeta. case_match; [calm|].
  eapply calm_bind with (R := fun _ => True); [|intros; calm].
  apply calm_deref. intros w _ _. unfold conn_connect_ack_msg.
  rewrite ext_read by by eapply conn_ready_ext. cbn. eauto.
Qed.

Lemma calm_p_keepalive S c : conn_ready S c -> calm S (kcpmux_protocol_send_conn_keepalive c) (fun _ => True).
Proof. intros Hc. unfold kcpmux_protocol_send_conn_keepalive. calm. Qed.
Lemma calm_p_close S c r : conn_ready S c -> calm S (kcpmux_protocol_send_conn_close c r) (fun _ => True).
Proof. intros Hc. unfold kcpmux_protocol_send_conn_close. calm. Qed.
Lemma calm_p_close_ack S c r : conn_ready S c -> calm S (kcpmux_protocol_send_conn_close_ack c r) (fun _ => True).
Proof. intros Hc. unfold kcpmux_protocol_send_conn_close_ack. calm. Qed.
Lemma calm_p_stream_close S s r : stream_ready S s -> calm S (kcpmux_protocol_send_stream_close s r) (fun _ => True).
Proof. intros Hs. unfold kcpmux_protocol_send_stream_close. calm. Qed.
Lemma calm_p_stream_close_ack S s r :
  stream_ready S s -> calm S (kcpmux_protocol_send_stream_close_ack s r) (fun _ => True).
Proof. intros Hs. unfold kcpmux_protocol_send_stream_close_ack. calm. Qed.
Lemma calm_p_payload S s b : stream_ready S s -> calm S (kcpmux_protocol_send_stream_payload s b) (fun _ => True).
Proof. intros Hs. unfold kcpmux_protocol_send_stream_payload. calm. Qed.
#[local] Hint Resolve calm_p_connect calm_p_connect_ack calm_p_keepalive calm_p_close calm_p_close_ack
  calm_p_stream_close calm_p_stream_close_ack calm_p_payload : calm.

Lemma calm_send_connect S c : conn_ready S c -> calm S (kcpmux_conn_send_connect c) (fun _ => True).
Proof. intros Hc. unfold kcpmux_conn_send_connect. calm. Qed.
Lemma calm_send_connect_ack S c r : conn_ready S c -> calm S (kcpmux_conn_send_connect_ack c r) (fun _ => True).
Proof. intros Hc. unfold kcpmux_conn_send_connect_ack. calm. Qed.
Lemma calm_send_keepalive S c : conn_ready S c -> calm S (kcpmux_conn_send_keepalive c) (fun _ => True).
Proof. intros Hc. unfold kcpmux_conn_send_keepalive. calm. Qed.
Lemma calm_send_close S c r : conn_ready S c -> calm S (kcpmux_conn_send_close c r) (fun _ => True).
Proof. intros Hc. unfold kcpmux_conn_send_close. calm. Qed.
Lemma calm_send_close_ack S c r : conn_ready S c -> calm S (kcpmux_conn_send_close_ack c r) (fun _ => True).
Proof. intros Hc. unfold kcpmux_conn_send_close_ack. calm. Qed.
#[local] Hint Resolve calm_send_connect calm_send_connect_ack calm_send_keepalive calm_send_close
  calm_send_close_ack : calm.

(** ** Streams *)

Lemma calm_get_conn_any S c : conn_ready S c -> calm S (get_conn c) (fun _ => True).
Proof. intros. eapply calm_any, calm_get_conn. shape_side. Qed.
#[local] Hint Resolve calm_get_conn_any : calm.

Lemma calm_stream_conn S s : stream_ready S s -> calm S (stream_conn s) (fun _ => True).
Proof. intros Hs. unfold stream_conn. calm. Qed.
#[local] Hint Resolve calm_stream_conn : calm.

Lemma calm_mark_read_blocked S s now :
  stream_ready S s -> calm S (kcpmux_stream_mark_read_blocked s now) (fun _ => True).
Proof. intros Hs. unfold kcpmux_stream_mark_read_blocked. calm. Qed.
#[local] Hint Resolve calm_mark_read_blocked : calm.

Lemma calm_schedule_finalize S s r now :
  stream_ready S s -> calm S (kcpmux_stream_schedule_finalize s r now) (fun _ => True).
Proof. intros Hs. unfold kcpmux_stream_schedule_finalize. calm. Qed.
#[local] Hint Resolve calm_schedule_finalize : calm.

Lemma calm_accumulate_update S s now :
  stream_open S s -> calm S (kcpmux_stream_accumulate_update s now) (fun _ => True).
Proof.
  intros Hs. destruct (stream_open_facts _ _ Hs) as (y & ? & ? & _ & _ & ?).
  apply calm_accumulate; [shape_side|done|eauto].
Qed.
#[local] Hint Resolve calm_accumulate_update : calm.

(** *** KCP *)

Lemma calm_get_kcp S s : stream_open S s -> calm S (get_kcp s) (fun _ => True).
Proof.
  intros Hs. destruct (stream_open_facts _ _ Hs) as (y & Hy & _ & Hk & _).
  unfold get_kcp. calm_step. apply calm_deref. intros w _ _.
  match goal with H : sp_streams S !! s = Some (sshape_of ?st) |- _ =>
    rewrite H in Hy; injection Hy as <-; cbn in Hk; apply bool_decide_eq_true in Hk as [k ->] end.
  eauto.
Qed.

Lemma calm_set_kcp S s k :
  stream_open S s -> calm S (mod_stream s (fun st => st <| s_kcp := Some k |>)) (fun _ => True).
Proof.
  intros Hs. destruct (stream_open_facts _ _ Hs) as (y & Hy & _ & Hk & _).
  apply calm_mod_stream; [shape_side|]. intros st Hst. rewrite Hst in Hy. injection Hy as <-.
  unfold skeep, sshape_of. cbn in Hk |- *. by rewrite Hk.
Qed.
#[local] Hint Resolve calm_get_kcp calm_set_kcp : calm.

Lemma calm_kcp_output S s b : stream_ready S s -> calm S (kcp_output s b) (fun _ => True).
Proof. intros Hs. unfold kcp_output. calm. Qed.
#[local] Hint Resolve calm_kcp_output : calm.

Lemma calm_run_kact {R} S s (a : kact K R) : stream_open S s -> calm S (run_kact s a) (fun _ => True).
Proof.
  intros Hs. induction a as [k r|buf cont IH]; cbn [run_kact].
  - apply (calm_bind _ _ _ (fun _ => True)); [by apply calm_set_kcp|]. intros. by apply calm_ret.
  - apply (calm_bind _ _ _ (fun _ => True)); [calm|]. auto.
Qed.
#[local] Hint Resolve @calm_run_kact : calm.

Lemma calm_ops_send S s b : stream_open S s -> calm S (ops_send s b) (fun _ => True).
Proof. intros Hs. unfold ops_send. calm. Qed.
Lemma calm_ops_input S s b : stream_open S s -> calm S (ops_input s b) (fun _ => True).
Proof. intros Hs. unfold ops_input. calm. Qed.
Lemma calm_ops_update S s now : stream_open S s -> calm S (ops_update s now) (fun _ => True).
Proof. intros Hs. unfold ops_update. calm. Qed.
Lemma calm_ops_current_update S s now : stream_open S s -> calm S (ops_current_update s now) (fun _ => True).
Proof. intros Hs. unfold ops_current_update. apply (calm_bind _ _ _ (fun _ => True)); [calm|]. intros. by apply calm_set_kcp. Qed.
Lemma calm_ops_check S s now : stream_open S s -> calm S (ops_check s now) (fun _ => True).
Proof. intros Hs. unfold ops_check. calm. Qed.
Lemma calm_ops_waitsnd S s : stream_open S s -> calm S (ops_waitsnd s) (fun _ => True).
Proof. intros Hs. unfold ops_waitsnd. calm. Qed.
Lemma calm_ops_peeksize S s : stream_open S s -> calm S (ops_peeksize s) (fun _ => True).
Proof. intros Hs. unfold ops_peeksize. calm. Qed.
#[local] Hint Resolve calm_ops_send calm_ops_input calm_ops_update calm_ops_current_update
  calm_ops_check calm_ops_waitsnd calm_ops_peeksize : calm.

(** *** Timer, state and messages *)

Lemma calm_get_stream_node S s : stream_ready S s -> calm S (in_timers (get_node (OStream s))) (fun _ => True).
Proof. intros Hs. eapply calm_any, calm_get_node. shape_side. Qed.
#[local] Hint Resolve calm_get_stream_node : calm.

Lemma calm_stream_refresh S s now : stream_ready S s -> calm S (kcpmux_stream_refresh_timer s now) (fun _ => True).
Proof. intros Hs. unfold kcpmux_stream_refresh_timer. calm. Qed.
#[local] Hint Resolve calm_stream_refresh : calm.

Lemma calm_stream_set_state S s x : stream_ready S s -> calm S (kcpmux_stream_set_state s x) (fun _ => True).
Proof. intros Hs. unfold kcpmux_stream_set_state. calm. Qed.
Lemma calm_stream_send_close S s r : stream_ready S s -> calm S (kcpmux_stream_send_close s r) (fun _ => True).
Proof. intros Hs. unfold kcpmux_stream_send_close. calm. Qed.
Lemma calm_stream_send_close_ack S s r : stream_ready S s -> calm S (kcpmux_stream_send_close_ack s r) (fun _ => True).
Proof. intros Hs. unfold kcpmux_stream_send_close_ack. calm. Qed.
#[local] Hint Resolve calm_stream_set_state calm_stream_send_close calm_stream_send_close_ack : calm.

Definition sconfig_arg (cfg : option stream_config) : Prop := forall x, cfg = Some x -> sconfig_ok x.

Lemma prepare_ok x y : kcpmux_stream_config_prepare x = Some y -> sconfig_ok x -> x = y /\ 1 <= sc_kcp_mss y.
Proof.
  unfold kcpmux_stream_config_prepare. case_match eqn:E; [done|]. intros [= <-] [? _]. split; [done|].
  rewrite !orb_false_iff in E. destruct E as [[[[_ E] _] _] _]. apply Z.eqb_neq in E. lia.
Qed.

Lemma calm_stream_set_config S s cfg :
  stream_ready S s -> sconfig_arg cfg -> calm S (kcpmux_stream_set_config (Some s) cfg) (fun _ => True).
Proof.
  intros Hs Hcfg. unfold kcpmux_stream_set_config. destruct cfg as [x|]; [|calm].
  eapply calm_bind; [apply calm_get_stream; shape_side|]. intros st Hst. cbv beta in Hst.
  case_match; [calm|]. destruct (kcpmux_stream_config_prepare x) as [y|] eqn:Hy; [|calm].
  apply prepare_ok in Hy as [<- _]; [|by apply Hcfg].
  apply (calm_bind _ _ _ (fun _ => True)); [|intros _ _; calm].
  eapply on_mod_stream; [exact Hst|]. intros st' Hst' _.
  split; [done|]. split; [by apply (Hcfg x)|]. split; [done|]. split; [|done].
  enough (Hz : forall z, z = sshape_of st -> S <| sp_streams ::= <[s := z]> |> = S).
  { apply Hz. unfold sshape_of in Hst' |- *. cbn. by injection Hst' as -> -> -> -> -> ->. }
  intros z ->. destruct S; cbn in *. f_equal. by apply insert_id.
Qed.

Lemma calm_stream_set_callbacks S s cbs ud :
  stream_ready S s -> calm S (kcpmux_stream_set_callbacks (Some s) cbs ud) (fun _ => True).
Proof. intros Hs. unfold kcpmux_stream_set_callbacks. calm. Qed.
#[local] Hint Resolve calm_stream_set_config calm_stream_set_callbacks : calm.

Definition stream_setter_ok (a : stream_setter) : Prop :=
  match a with SetStreamConfig cfg => sconfig_arg cfg | SetStreamCallbacks _ _ => True end.

Lemma calm_stream_setter S s a :
  stream_ready S s -> stream_setter_ok a -> calm S (stream_setter_run s a) (fun _ => True).
Proof. intros Hs Ha. unfold stream_setter_run. destruct a; cbn in Ha; calm. Qed.

(** *** Batching and receiving *)

Lemma calm_finish_batch_at S s now :
  stream_ready S s -> calm S (kcpmux_stream_finish_batch_at s now) (fun _ => True).
Proof.
  intros Hs. unfold kcpmux_stream_finish_batch_at. calm_step.
  case_match; [calm|]. calm_step. cbv zeta. case_match; [calm|]. case_match; [calm|].
  apply calm_unlink_store; [shape_side| |calm].
  intros st [? ?]. split; [done|]. split; [|done]. cbn.
  destruct (Z.ltb_spec 1 (sc_batch_threshold (s_config x))); lia.
Qed.
#[local] Hint Resolve calm_finish_batch_at : calm.

Lemma calm_finish_batch S s : stream_ready S s -> calm S (kcpmux_stream_finish_batch (Some s)) (fun _ => True).
Proof. intros Hs. unfold kcpmux_stream_finish_batch. calm. Qed.

Lemma calm_peek_size S s : stream_ready S s -> calm S (kcpmux_stream_peek_size (Some s)) (fun _ => True).
Proof. intros Hs. unfold kcpmux_stream_peek_size. calm. Qed.
#[local] Hint Resolve calm_peek_size : calm.

Lemma calm_recv S s n : stream_open S s -> calm S (kcpmux_stream_recv (Some s) n) (fun _ => True).
Proof.
  intros Hs. unfold kcpmux_stream_recv. calm. by apply calm_set_kcp.
Qed.

Lemma calm_write_unblock S s now : stream_open S s -> calm S (write_unblock s now) (fun _ => True).
Proof. intros Hs. unfold write_unblock. calm. Qed.
Lemma calm_read_unblock S s now : stream_open S s -> calm S (read_unblock s now) (fun _ => True).
Proof. intros Hs. unfold read_unblock. calm. Qed.
#[local] Hint Resolve calm_write_unblock calm_read_unblock : calm.

Lemma calm_handle_payload S s b t : stream_ready S s -> calm S (kcpmux_stream_handle_payload s b t) (fun _ => True).
Proof. intros Hs. unfold kcpmux_stream_handle_payload. calm. Qed.

(** *** Reading packets *)

Lemma byte_in (b : list Z) (o : Z) i :
  0 <= o -> o + Z.of_nat i < Z.of_nat (length b) -> exists x, b !! (Z.to_nat o + i)%nat = Some x.
Proof. intros H0 H1. apply lookup_lt_is_Some_2. lia. Qed.

(** The offsets a parser reads are inside the packet. *)
Lemma calm_byte_at S b o : 0 <= o -> o + 1 <= Z.of_nat (length b) -> calm S (byte_at b o) (fun _ => True).
Proof.
  intros H0 H1. apply calm_deref. intros w _ _.
  destruct (byte_in b o 0 H0) as [x Hx]; [lia|]. rewrite Nat.add_0_r in Hx. eauto.
Qed.

Lemma calm_u16_at S b o : 0 <= o -> o + 2 <= Z.of_nat (length b) -> calm S (u16_at b o) (fun _ => True).
Proof.
  intros H0 H1. apply calm_deref. intros w _ _. unfold read_u16.
  destruct (byte_in b o 0 H0) as [x0 Hx0]; [lia|]. rewrite Nat.add_0_r in Hx0. rewrite Hx0. cbn.
  destruct (byte_in b o 1 H0) as [x1 ->]; [lia|]. cbn. eauto.
Qed.

Lemma calm_u32_at S b o : 0 <= o -> o + 4 <= Z.of_nat (length b) -> calm S (u32_at b o) (fun _ => True).
Proof.
  intros H0 H1. apply calm_deref. intros w _ _. unfold read_u32.
  destruct (byte_in b o 0 H0) as [x0 Hx0]; [lia|]. rewrite Nat.add_0_r in Hx0. rewrite Hx0. cbn.
  destruct (byte_in b o 1 H0) as [x1 ->]; [lia|]. destruct (byte_in b o 2 H0) as [x2 ->]; [lia|].
  destruct (byte_in b o 3 H0) as [x3 ->]; [lia|]. cbn. eauto.
Qed.

Lemma read_u64_loop_some n (b : list Z) i v :
  (i + n <= length b)%nat -> is_Some (read_u64_loop n b i v).
Proof.
  revert i v. induction n as [|n IH]; intros i v Hi; cbn; [eauto|].
  destruct (lookup_lt_is_Some_2 b i) as [x ->]; [lia|]. apply IH. lia.
Qed.

Lemma calm_u64_at S b o : 0 <= o -> o + 8 <= Z.of_nat (length b) -> calm S (u64_at b o) (fun _ => True).
Proof.
  intros H0 H1. apply calm_deref. intros w _ _.
  destruct (read_u64_loop_some 8 b (Z.to_nat o) 0) as [v Hv]; [lia|]. eauto.
Qed.

Lemma calm_store_peer_ext S c b o n :
  conn_ready S c -> 0 <= o -> o + n <= Z.of_nat (length b) ->
  calm S (store_peer_ext c b o n) (fun _ => True).
Proof.
  intros Hc Ho Hn. unfold store_peer_ext. calm_step.
  apply (calm_bind _ _ _ (fun _ => True)); [|intros; calm].
  apply calm_deref. intros w _ _. unfold read_bytes_at. cbn.
  rewrite (proj2 (Z.leb_le _ _) Ho), (proj2 (Z.leb_le _ _) Hn). cbn. eauto.
Qed.

(** *** Stream identifiers *)

Lemma calm_alloc_stream_id S c x :
  conn_ready S c -> sp_conns S !! c = Some x ->
  calm S (kcpmux_conn_alloc_stream_id c) (fun id => id <> 0 -> sfind S (ch_map x) id = Some None).
Proof.
  intros Hc Hx. pose proof Hc as (x' & Hx' & Hl & _). rewrite Hx in Hx'. injection Hx' as <-.
  unfold kcpmux_conn_alloc_stream_id.
  calm_step. generalize (Datatypes.S (Z.to_nat (c_stream_count x0))) as n.
  induction n as [|n IH]; cbn [alloc_stream_id_loop]; [by apply calm_ret|].
  eapply calm_bind; [apply calm_get_conn; shape_side|]. intros k _.
  apply (calm_bind _ _ _ (fun _ => True)); [calm|]. intros _ _.
  eapply calm_bind; [by apply (calm_get_stream_by_id _ _ x)|]. intros [s|] [Hf _]; [apply IH|].
  by apply calm_ret.
Qed.

(** *** Sending *)

Lemma calm_send_loop {C} S s (f : send_chunk_fn C) (I : C -> Z -> Prop) chunk fuel ctx remaining total :
  (forall ctx size rem, I ctx rem -> 0 < size -> size <= rem -> rem <= INT_MAX ->
     calm S (f s ctx size) (fun r => 0 <= r.1 -> I r.2 (rem - size))) ->
  1 <= chunk -> 0 <= remaining <= INT_MAX -> (Z.to_nat remaining <= fuel)%nat -> I ctx remaining ->
  calm S (send_loop fuel f s ctx chunk remaining total) (fun _ => True).
Proof.
  intros Hf Hc. revert ctx remaining total. induction fuel as [|fuel IH]; intros ctx remaining total Hr Hfuel HI;
    cbn [send_loop]; destruct (Z.leb_spec remaining 0); try (by apply calm_ret); [lia|].
  set (size := if remaining <? chunk then remaining else chunk).
  assert (Hs : 0 < size <= remaining) by (unfold size; destruct (Z.ltb_spec remaining chunk); lia).
  eapply calm_bind; [apply (Hf ctx size remaining); [done|lia..]|]. intros [ret ctx'] Hctx. cbn in Hctx.
  destruct (Z.ltb_spec ret 0); [by apply calm_ret|].
  unfold INT_MAX in Hr. rewrite (wrap_small 32 (remaining - size)) by (unfold in_u; lia).
  apply IH; [unfold INT_MAX; lia|lia|auto].
Qed.

(** What a chunk function may rely on: [rem] bytes are left at the context. *)
Definition cctx_ok (ctx : contiguous_send_context) (rem : Z) : Prop :=
  0 <= cc_offset ctx /\ cc_offset ctx + rem = Z.of_nat (length (cc_buf ctx)) /\
  Z.of_nat (length (cc_buf ctx)) <= INT_MAX.
Definition vctx_ok (ctx : vectored_send_context) (rem : Z) : Prop :=
  ctx_ok ctx /\ rem = Z.of_nat (length (rest ctx)).

Lemma calm_contiguous_chunk S s ctx size rem :
  stream_open S s -> cctx_ok ctx rem -> 0 < size -> size <= rem -> rem <= INT_MAX ->
  calm S (kcpmux_stream_send_contiguous_chunk s ctx size) (fun r => 0 <= r.1 -> cctx_ok r.2 (rem - size)).
Proof.
  intros Hs (Ho & Hl & Hm) H0 H1 H2. unfold cctx_ok. unfold kcpmux_stream_send_contiguous_chunk.
  eapply calm_bind with (R := fun _ => True).
  { apply calm_deref. intros w _ _. unfold read_bytes_at. cbn.
    rewrite (proj2 (Z.leb_le _ _) Ho), (proj2 (Z.leb_le _ _)) by lia. cbn. eauto. }
  intros bytes _. eapply calm_bind; [by apply calm_ops_send|]. intros ret _.
  apply calm_ret. cbn. intros Hret. rewrite (proj2 (Z.leb_le _ _) Hret). cbn.
  unfold INT_MAX in *. rewrite wrap_small by (unfold in_u; lia). lia.
Qed.

Lemma calm_vectored_chunk S s ctx size rem :
  stream_open S s -> vctx_ok ctx rem -> 0 < size -> size <= rem -> rem <= INT_MAX ->
  calm S (kcpmux_stream_send_vectored_chunk s ctx size) (fun r => 0 <= r.1 -> vctx_ok r.2 (rem - size)).
Proof.
  intros Hs [Hok Hl] H0 H1 H2. unfold vctx_ok. unfold kcpmux_stream_send_vectored_chunk, INT_MAX in *.
  apply (calm_bind _ _ _ (fun _ => True)).
  { destruct kcp_sendv as [sendv|]; [calm|].
    apply (calm_bind _ _ _ (fun _ => True)); [|intros; by apply calm_ops_send].
    apply calm_deref. intros w _ _. rewrite vectored_copy_ok by (done || lia). eauto. }
  intros ret _. destruct (Z.leb_spec 0 ret).
  - destruct (vectored_advance_ok ctx size Hok) as (ctx' & Ha & Hok' & _ & Hr); [lia..|].
    apply (calm_bind _ _ _ (fun x => x = ctx')).
    { apply calm_deref. intros w _ _. rewrite Ha. eauto. }
    intros ? ->. apply calm_ret. cbn. intros _. split; [done|]. rewrite Hr, length_drop. lia.
  - apply calm_ret. cbn. lia.
Qed.

Lemma calm_send_chunks_body {C} S s now size flush (f : send_chunk_fn C) (I : C -> Z -> Prop) ctx :
  stream_open S s -> 0 <= size <= INT_MAX ->
  (forall ctx size rem, I ctx rem -> 0 < size -> size <= rem -> rem <= INT_MAX ->
     calm S (f s ctx size) (fun r => 0 <= r.1 -> I r.2 (rem - size))) ->
  I ctx size -> calm S (send_chunks_body s now size flush f ctx) (fun _ => True).
Proof.
  intros Hs Hsz Hf HI. unfold send_chunks_body.
  destruct (stream_open_facts _ _ Hs) as (y & Hy & _ & _ & Hmss & _).
  eapply calm_bind; [apply calm_get_stream; shape_side|]. intros st Hst. cbv beta in Hst.
  rewrite Hst in Hy. injection Hy as <-.
  calm_step. case_match; [calm|]. case_match; [calm|]. calm_step; [calm|].
  case_match; [calm|]. calm_step; [calm|].
  apply (calm_bind _ _ _ (fun _ => True)); [apply (calm_send_loop _ _ _ I); [done|done|done|lia|done]|].
  intros r _. calm.
Qed.
End calm.

#[export] Hint Resolve calm_rearm calm_cancel calm_schedule calm_clear_pending calm_alloc calm_emit
  calm_now calm_random calm_write_socketv calm_conn_refresh calm_conn_set_state calm_note_receive
  calm_conn_writev calm_conn_write calm_conn_set_config calm_conn_set_callbacks calm_conn_setter
  calm_note_rx calm_send_connect calm_send_connect_ack calm_send_keepalive calm_send_close
  calm_send_close_ack calm_get_conn_any calm_stream_conn calm_mark_read_blocked
  calm_schedule_finalize calm_accumulate_update calm_get_kcp calm_ops_send calm_ops_input
  calm_ops_update calm_ops_current_update calm_ops_check calm_ops_waitsnd calm_ops_peeksize
  calm_stream_refresh calm_stream_set_state calm_stream_send_close calm_stream_send_close_ack
  calm_stream_set_config calm_stream_set_callbacks calm_finish_batch_at calm_finish_batch
  calm_peek_size calm_recv calm_write_unblock calm_read_unblock calm_handle_payload : calm.
