(* ===== verification/Wf.v ===== *)
(** * The invariant of the object graph

    How connections, streams, their tables, the scheduler's registrations and
    the list of objects waiting for release fit together in every state between
    two steps of the library: what is linked is alive and open, what is closed
    waits for release, streams before their connection.  Proved here, on the
    [shape] alone, for every way the library changes it. *)

From S2P Require Import Prelude Types Hashtable World Wire Shape Steps Calm.
From stdpp Require Import gmap.
#[local] Open Scope Z_scope.

Implicit Types (c s : positive) (S : shape) (o : obj) (U : option positive).

(** [Some true] for a closed object, [Some false] for an open one, [None] for
    one that does not exist. *)
Definition status S o : option bool :=
  match o with
  | OConn c => ch_closed <$> sp_conns S !! c
  | OStream s => sh_closed <$> sp_streams S !! s
  end.

Definition addr_of o : positive := match o with OConn c => c | OStream s => s end.

(** [U] is a connection that is being closed: its streams are closed one after
    the other and it is queued for release last. *)
Record wf U S : Prop := {
  wf_addr o : is_Some (status S o) -> (addr_of o < sp_next S)%positive;
  wf_nodes o : o ∈ sp_nodes S <-> is_Some (status S o);
  wf_registered o : o ∈ sp_registered S <-> status S o = Some false;
  wf_conn_size : 0 < htb_size (sp_conn_map S);
  wf_hs_size : 0 < htb_size (sp_handshake S);
  wf_conn_map c : c ∈ entries (sp_conn_map S) ->
    exists x, sp_conns S !! c = Some x /\ ch_in_map x = true;
  wf_handshake c : c ∈ entries (sp_handshake S) ->
    exists x, sp_conns S !! c = Some x /\ ch_in_map x = true /\ ch_init x = false;
  wf_conn c x : sp_conns S !! c = Some x ->
    0 < htb_size (ch_map x) /\ ext_ok (ch_ext x) /\ (ch_closed x = true -> ch_in_map x = false);
  wf_table c x s : sp_conns S !! c = Some x -> s ∈ entries (ch_map x) ->
    exists y, sp_streams S !! s = Some y /\ sh_conn y = c /\ sh_closed y = false;
  wf_stream s y : sp_streams S !! s = Some y ->
    exists x, sp_conns S !! sh_conn y = Some x /\
      (sh_closed y = false -> sh_kcp y = true /\ 1 <= sh_mss y /\ sh_in_map y = true /\
         s ∈ entries (ch_map x));
  wf_closed o : status S o = Some true -> o ∈ sp_pending S \/ exists c, U = Some c /\ o = OConn c;
  wf_pending o : o ∈ sp_pending S -> status S o = Some true;
  wf_pending_map c x : OConn c ∈ sp_pending S -> sp_conns S !! c = Some x -> entries (ch_map x) = [];
  wf_flux c : U = Some c -> status S (OConn c) = Some true /\ OConn c ∉ sp_pending S;
  wf_nodup : NoDup (sp_pending S);
  wf_order l1 c l2 s y : sp_pending S = l1 ++ (OConn c :: l2) ->
    sp_streams S !! s = Some y -> sh_conn y = c -> OStream s ∈ l1
}.

(** ** What the invariant gives *)

Section uses.
Context {U : option positive} {S : shape} (Hwf : wf U S).

Lemma status_conn c x : sp_conns S !! c = Some x -> status S (OConn c) = Some (ch_closed x).
Proof. intros Hx. cbn. by rewrite Hx. Qed.

Lemma status_stream s y : sp_streams S !! s = Some y -> status S (OStream s) = Some (sh_closed y).
Proof. intros Hy. cbn. by rewrite Hy. Qed.

Lemma wf_conn_ready c x : sp_conns S !! c = Some x -> conn_ready S c.
Proof.
  intros Hx. exists x. destruct (wf_conn _ _ Hwf c x Hx) as (? & ? & _). split_and!; [done| |done|].
  - split; [done|]. intros s Hs. destruct (wf_table _ _ Hwf c x s Hx Hs) as (y & -> & _). eauto.
  - apply (wf_nodes _ _ Hwf). rewrite (status_conn c x Hx). eauto.
Qed.

Lemma wf_stream_ready s y : sp_streams S !! s = Some y -> stream_ready S s.
Proof.
  intros Hy. exists y. destruct (wf_stream _ _ Hwf s y Hy) as (x & Hx & Ho). split_and!; [done| | |].
  - by eapply wf_conn_ready.
  - apply (wf_nodes _ _ Hwf). rewrite (status_stream s y Hy). eauto.
  - intros Hcl. destruct (Ho Hcl) as (? & ? & _). split_and!; [done|done|].
    apply (wf_registered _ _ Hwf). by rewrite (status_stream s y Hy), Hcl.
Qed.

Lemma wf_stream_open s y : sp_streams S !! s = Some y -> sh_closed y = false -> stream_open S s.
Proof. intros Hy Hcl. split; [by eapply wf_stream_ready|eauto]. Qed.

Lemma wf_conns_live : conns_live S (sp_conn_map S).
Proof.
  split; [apply Hwf|]. intros c Hc. destruct (wf_conn_map _ _ Hwf c Hc) as (x & -> & _). eauto.
Qed.

Lemma wf_handshake_live : conns_live S (sp_handshake S).
Proof.
  split; [apply Hwf|]. intros c Hc. destruct (wf_handshake _ _ Hwf c Hc) as (x & -> & _). eauto.
Qed.

Lemma wf_fresh : status S (OConn (sp_next S)) = None /\ status S (OStream (sp_next S)) = None.
Proof.
  split; (destruct (status S _) eqn:E; [|done]);
    match type of E with status _ ?o = _ => pose proof (wf_addr _ _ Hwf o) as H end;
    rewrite E in H; specialize (H ltac:(eauto)); cbn in H; lia.
Qed.

Lemma wf_fresh_nodes : (OConn (sp_next S) ∉ sp_nodes S) /\ (OStream (sp_next S) ∉ sp_nodes S).
Proof.
  destruct wf_fresh as [H1 H2]. split; rewrite (wf_nodes _ _ Hwf); [rewrite H1|rewrite H2]; by intros [].
Qed.

(** An open connection is in no way on its way out. *)
Lemma wf_open_conn c x : sp_conns S !! c = Some x -> ch_closed x = false -> OConn c ∉ sp_pending S.
Proof. intros Hx Hcl Hin. apply (wf_pending _ _ Hwf) in Hin. rewrite (status_conn c x Hx) in Hin. congruence. Qed.

(** The connection of an open stream is open or being closed. *)
Lemma wf_open_stream_conn s y :
  U = None -> sp_streams S !! s = Some y -> sh_closed y = false ->
  exists x, sp_conns S !! sh_conn y = Some x /\ ch_closed x = false.
Proof.
  intros HU Hy Hcl. destruct (wf_stream _ _ Hwf s y Hy) as (x & Hx & Ho). exists x. split; [done|].
  destruct (ch_closed x) eqn:Hc; [|done]. exfalso.
  destruct (wf_closed _ _ Hwf (OConn (sh_conn y))) as [Hp|(c & ? & _)].
  - by rewrite (status_conn _ x Hx), Hc.
  - pose proof (wf_pending_map _ _ Hwf _ x Hp Hx) as He. destruct (Ho Hcl) as (_ & _ & _ & Hin).
    rewrite He in Hin. by apply elem_of_nil in Hin.
  - congruence.
Qed.
End uses.

(** ** Closing a stream *)

Definition sclose s y x S : shape :=
  S <| sp_streams ::= <[s := y <| sh_closed := true |> <| sh_in_map := false |> <| sh_kcp := false |>]> |>
    <| sp_conns ::= <[sh_conn y := x <| ch_map ::= kcpmux_htb_del s |>]> |>
    <| sp_registered ::= fun r => r ∖ {[OStream s]} |>
    <| sp_pending ::= fun l => l ++ [OStream s] |>.

Lemma snoc_cons_inv {A} (l l1 l2 : list A) x y :
  l ++ [x] = l1 ++ (y :: l2) -> (l2 = [] /\ x = y /\ l = l1) \/ exists l2', l2 = l2' ++ [x] /\ l = l1 ++ (y :: l2').
Proof.
  destruct l2 as [|z l2 _] using rev_ind; intros H.
  - apply app_inj_tail in H as [? ?]. auto.
  - right. rewrite app_comm_cons, app_assoc in H. apply app_inj_tail in H as [? ->]. eauto.
Qed.

Lemma wf_sclose U S s y x :
  wf U S -> sp_streams S !! s = Some y -> sh_closed y = false -> sp_conns S !! sh_conn y = Some x ->
  wf U (sclose s y x S).
Proof.
  intros Hwf Hy Hcl Hx. set (S' := sclose s y x S).
  destruct (htb_del_entries (ch_map x) s) as (Hsz & _ & Hent).
  assert (Hst : forall o, status S' o = if decide (o = OStream s) then Some true else status S o).
  { intros [c|s']; cbn.
    - destruct (decide (c = sh_conn y)) as [->|Hne]; [by rewrite lookup_insert_eq, Hx|].
      by rewrite lookup_insert_ne.
    - destruct (decide (s' = s)) as [->|Hne]; [by rewrite lookup_insert_eq, decide_True|].
      rewrite lookup_insert_ne, decide_False by congruence. done. }
  assert (Hso : status S (OStream s) = Some false) by (cbn; by rewrite Hy, <- Hcl).
  assert (Hc : forall c x', sp_conns S' !! c = Some x' -> exists x0, sp_conns S !! c = Some x0 /\
    ch_closed x' = ch_closed x0 /\ ch_in_map x' = ch_in_map x0 /\ ch_init x' = ch_init x0 /\
    ch_ext x' = ch_ext x0 /\ htb_size (ch_map x') = htb_size (ch_map x0) /\
    forall z, z ∈ entries (ch_map x') <-> z <> s /\ z ∈ entries (ch_map x0)).
  { intros c x' Hx'. cbn in Hx'. apply lookup_insert_Some in Hx' as [[<- <-]|[Hne Hx']].
    - exists x. split_and!; try done. cbn. intros z. rewrite Hent. apply filter_ne_elem.
    - exists x'. split_and!; try done. intros z. split; [|by intros []]. intros Hz. split; [|done].
      intros ->. destruct (wf_table _ _ Hwf c x' s Hx' Hz) as (y' & Hy' & <- & _). congruence. }
  assert (Hc' : forall c x0, sp_conns S !! c = Some x0 -> exists x', sp_conns S' !! c = Some x' /\
    ch_in_map x' = ch_in_map x0 /\ ch_init x' = ch_init x0 /\
    forall z, z ∈ entries (ch_map x') <-> z <> s /\ z ∈ entries (ch_map x0)).
  { intros c x0 Hx0. destruct (decide (c = sh_conn y)) as [->|Hne].
    - eexists. cbn. rewrite lookup_insert_eq. split; [done|]. simplify_eq. split_and!; [done..|].
      intros z. cbn. rewrite Hent. apply filter_ne_elem.
    - exists x0. cbn. rewrite lookup_insert_ne by done. split_and!; try done. intros z.
      split; [|by intros []]. intros Hz. split; [|done].
      intros ->. destruct (wf_table _ _ Hwf c x0 s Hx0 Hz) as (y' & Hy' & <- & _). congruence. }
  constructor.
  - intros o. rewrite Hst. case_decide; [subst|apply Hwf]. intros _. apply (wf_addr _ _ Hwf). rewrite Hso. eauto.
  - intros o. rewrite Hst. cbn. rewrite (wf_nodes _ _ Hwf). case_decide; [subst|done]. rewrite Hso. naive_solver.
  - intros o. rewrite Hst. cbn. rewrite elem_of_difference, elem_of_singleton, (wf_registered _ _ Hwf).
    case_decide; naive_solver.
  - apply Hwf.
  - apply Hwf.
  - intros c Hin. destruct (wf_conn_map _ _ Hwf c Hin) as (x0 & Hx0 & ?).
    destruct (Hc' c x0 Hx0) as (x' & ? & ? & _). exists x'. split; congruence.
  - intros c Hin. destruct (wf_handshake _ _ Hwf c Hin) as (x0 & Hx0 & ? & ?).
    destruct (Hc' c x0 Hx0) as (x' & ? & ? & ? & _). exists x'. split_and!; congruence.
  - intros c x' Hx'. destruct (Hc c x' Hx') as (x0 & Hx0 & -> & -> & _ & -> & -> & _). by eapply (wf_conn _ _ Hwf).
  - intros c x' z Hx' Hz. destruct (Hc c x' Hx') as (x0 & Hx0 & _ & _ & _ & _ & _ & Hin).
    pose proof (proj1 (Hin z) Hz) as [Hne Hz0]. destruct (wf_table _ _ Hwf c x0 z Hx0 Hz0) as (y' & ? & ? & ?).
    exists y'. cbn. by rewrite lookup_insert_ne.
  - intros z y' Hy'. cbn in Hy'. apply lookup_insert_Some in Hy' as [[<- <-]|[Hne Hy']].
    + destruct (Hc' _ x Hx) as (x' & ? & _). exists x'. by cbn.
    + destruct (wf_stream _ _ Hwf z y' Hy') as (x0 & Hx0 & Ho). destruct (Hc' _ x0 Hx0) as (x' & ? & _ & _ & Hin).
      exists x'. split; [done|]. intros Hcl'. rewrite Hin. naive_solver.
  - intros o. rewrite Hst. cbn. rewrite elem_of_app, list_elem_of_singleton. case_decide; [auto|].
    intros Ho. destruct (wf_closed _ _ Hwf o Ho); auto.
  - intros o. rewrite Hst. cbn. rewrite elem_of_app, list_elem_of_singleton. case_decide; [done|].
    intros [Ho|?]; [by apply (wf_pending _ _ Hwf)|done].
  - intros c x' Hin Hx'. destruct (Hc c x' Hx') as (x0 & Hx0 & _ & _ & _ & _ & _ & Hz).
    cbn in Hin. apply elem_of_app in Hin as [Hin|?%list_elem_of_singleton]; [|done].
    pose proof (wf_pending_map _ _ Hwf c x0 Hin Hx0) as He.
    destruct (entries (ch_map x')) as [|z l]; [done|]. exfalso. apply (elem_of_nil z).
    rewrite <- He. apply Hz. by left.
  - intros c ->. rewrite Hst, decide_False by done. destruct (wf_flux _ _ Hwf c eq_refl) as [? Hni].
    split; [done|]. cbn. rewrite elem_of_app, list_elem_of_singleton. by intros [|].
  - cbn. apply list.NoDup_app. split; [apply Hwf|]. split; [|apply NoDup_singleton].
    intros o Ho ->%list_elem_of_singleton. apply (wf_pending _ _ Hwf) in Ho. congruence.
  - intros l1 c l2 z y' Hl Hy' Hcc. cbn in Hl. apply snoc_cons_inv in Hl as [(_ & ? & _)|(l2' & -> & Hl)]; [done|].
    cbn in Hy'. apply lookup_insert_Some in Hy' as [[<- <-]|[Hne Hy']]; [by apply (wf_order _ _ Hwf l1 c l2' s y)|].
    by eapply (wf_order _ _ Hwf).
Qed.

(** ** Changing a connection or the tables *)

Definition upd_conn c x S : shape := S <| sp_conns ::= <[c := x]> |>.

Lemma upd_conn_lookup c x S c0 x0 :
  sp_conns (upd_conn c x S) !! c0 = Some x0 -> (c0 = c /\ x0 = x) \/ (c0 <> c /\ sp_conns S !! c0 = Some x0).
Proof. unfold upd_conn. cbn. rewrite lookup_insert_Some. naive_solver. Qed.

Lemma upd_conn_status c x x' S o :
  sp_conns S !! c = Some x -> ch_closed x' = ch_closed x -> status (upd_conn c x' S) o = status S o.
Proof.
  intros Hx Hcl. destruct o as [c'|s]; [|done]. cbn. destruct (decide (c' = c)) as [->|Hne].
  - by rewrite lookup_insert_eq, Hx; cbn; rewrite Hcl.
  - by rewrite lookup_insert_ne.
Qed.

(** A connection keeps its streams; it may enter the tables and change its
    extension. *)
Lemma wf_upd_conn U S c x x' :
  wf U S -> sp_conns S !! c = Some x -> ch_closed x' = ch_closed x -> ch_map x' = ch_map x ->
  ch_init x' = ch_init x -> (ch_in_map x = true -> ch_in_map x' = true) ->
  (ch_closed x = true -> ch_in_map x' = false) -> ext_ok (ch_ext x') ->
  wf U (upd_conn c x' S).
Proof.
  intros Hwf Hx Hcl Hm Hi Him Hcm Hext. pose proof (upd_conn_status c x x' S) as Hst.
  destruct (wf_conn _ _ Hwf c x Hx) as (Hsz & _ & _).
  assert (Hc : forall c0 x0, sp_conns (upd_conn c x' S) !! c0 = Some x0 ->
    exists x1, sp_conns S !! c0 = Some x1 /\ ch_map x0 = ch_map x1).
  { intros c0 x0 [[-> ->]|[_ H]]%upd_conn_lookup; eauto. }
  assert (Hc' : forall c0 x1, sp_conns S !! c0 = Some x1 -> ch_in_map x1 = true ->
    exists x0, sp_conns (upd_conn c x' S) !! c0 = Some x0 /\ ch_in_map x0 = true /\ ch_init x0 = ch_init x1).
  { intros c0 x1 Hx1 Hin1. unfold upd_conn. cbn. destruct (decide (c0 = c)) as [->|Hne].
    - rewrite lookup_insert_eq. simplify_eq. eauto.
    - rewrite lookup_insert_ne by done. eauto. }
  constructor; try by apply Hwf.
  - intros o. rewrite Hst by done. apply Hwf.
  - intros o. rewrite Hst by done. apply Hwf.
  - intros o. rewrite Hst by done. apply Hwf.
  - intros c0 Hin. destruct (wf_conn_map _ _ Hwf c0 Hin) as (x1 & Hx1 & Hm1).
    destruct (Hc' c0 x1 Hx1 Hm1) as (x0 & ? & ? & _). eauto.
  - intros c0 Hin. destruct (wf_handshake _ _ Hwf c0 Hin) as (x1 & Hx1 & Hm1 & ?).
    destruct (Hc' c0 x1 Hx1 Hm1) as (x0 & ? & ? & ?). exists x0. split_and!; congruence.
  - intros c0 x0 [[-> ->]|[_ H]]%upd_conn_lookup; [|by eapply (wf_conn _ _ Hwf)].
    rewrite Hm, Hcl. auto.
  - intros c0 x0 s Hx0 Hs. destruct (Hc c0 x0 Hx0) as (x1 & Hx1 & He). rewrite He in Hs. by eapply (wf_table _ _ Hwf).
  - intros s y Hy. destruct (wf_stream _ _ Hwf s y Hy) as (x1 & Hx1 & Ho). unfold upd_conn. cbn.
    destruct (decide (sh_conn y = c)) as [He|Hne].
    + exists x'. rewrite He, lookup_insert_eq. split; [done|]. rewrite He, Hx in Hx1.
      injection Hx1 as <-. by rewrite Hm.
    + exists x1. by rewrite lookup_insert_ne.
  - intros o. rewrite Hst by done. apply Hwf.
  - intros o. rewrite Hst by done. apply Hwf.
  - intros c0 x0 Hin Hx0. destruct (Hc c0 x0 Hx0) as (x1 & Hx1 & ->). by eapply (wf_pending_map _ _ Hwf).
  - intros c0 Hc0. rewrite Hst by done. by apply Hwf.
Qed.

(** The numbers the engine counts are not part of the graph. *)
Lemma wf_count U S f : wf U S -> wf U (S <| sp_count ::= f |>).
Proof. intros []. by constructor. Qed.

Lemma wf_next_id U S f : wf U S -> wf U (S <| sp_next_id ::= f |>).
Proof. intros []. by constructor. Qed.

Lemma wf_upd_tables U S m h :
  wf U S -> 0 < htb_size m -> 0 < htb_size h ->
  (forall c, c ∈ entries m -> exists x, sp_conns S !! c = Some x /\ ch_in_map x = true) ->
  (forall c, c ∈ entries h -> exists x, sp_conns S !! c = Some x /\ ch_in_map x = true /\ ch_init x = false) ->
  wf U (S <| sp_conn_map := m |> <| sp_handshake := h |>).
Proof. intros Hwf Hm Hh Hme Hhe. destruct Hwf. by constructor. Qed.

(** Entering the tables. *)
Lemma wf_add_conn U S c x m h :
  wf U S -> sp_conns S !! c = Some x -> ch_closed x = false ->
  table_plus c (sp_conn_map S) m ->
  (if ch_init x then h = sp_handshake S else table_plus c (sp_handshake S) h) ->
  wf U (S <| sp_conn_map := m |> <| sp_handshake := h |> <| sp_conns ::= <[c := x <| ch_in_map := true |>]> |>).
Proof.
  intros Hwf Hx Hcl [Hms Hm] Hh.
  assert (Hwf1 : wf U (upd_conn c (x <| ch_in_map := true |>) S)).
  { eapply wf_upd_conn; [done|done|done|done|done|done|congruence|]. by destruct (wf_conn _ _ Hwf c x Hx) as (_ & ? & _). }
  assert (Hold : forall c0 x0, sp_conns S !! c0 = Some x0 -> ch_in_map x0 = true ->
    exists x1, sp_conns (upd_conn c (x <| ch_in_map := true |>) S) !! c0 = Some x1 /\
      ch_in_map x1 = true /\ ch_init x1 = ch_init x0).
  { intros c0 x0 Hx0 Hi0. unfold upd_conn. cbn. destruct (decide (c0 = c)) as [->|Hne].
    - rewrite lookup_insert_eq. eexists. split; [done|]. by simplify_eq.
    - rewrite lookup_insert_ne by done. eauto. }
  change (wf U ((upd_conn c (x <| ch_in_map := true |>) S) <| sp_conn_map := m |> <| sp_handshake := h |>)).
  apply wf_upd_tables; [done|rewrite Hms; apply Hwf| | |].
  - destruct (ch_init x); [subst; apply Hwf|]. destruct Hh as [-> _]. apply Hwf.
  - intros c0 [->|Hin]%Hm.
    + eexists. cbn. by rewrite lookup_insert_eq.
    + destruct (wf_conn_map _ _ Hwf c0 Hin) as (x0 & Hx0 & Hi0).
      destruct (Hold c0 x0 Hx0 Hi0) as (x1 & ? & ? & _). eauto.
  - intros c0 Hin.
    assert (c0 = c /\ ch_init x = false \/ c0 ∈ entries (sp_handshake S)) as [[-> Hi]|Hin0].
    { destruct (ch_init x); [subst; auto|]. destruct Hh as [_ Hh]. apply Hh in Hin as [->|]; auto. }
    + eexists. cbn. by rewrite lookup_insert_eq.
    + destruct (wf_handshake _ _ Hwf c0 Hin0) as (x0 & Hx0 & Hi0 & Hn0).
      destruct (Hold c0 x0 Hx0 Hi0) as (x1 & ? & ? & ?). exists x1. split_and!; congruence.
Qed.

(** ** Closing a connection *)

(** Marked closed, out of the tables, not yet queued. *)
Definition cmark c x S : shape :=
  (if ch_in_map x then
     S <| sp_handshake ::= (if ch_init x then id else kcpmux_htb_del c) |>
       <| sp_conn_map ::= kcpmux_htb_del c |> <| sp_count ::= fun n => u32 (n - 1) |>
   else S) <| sp_registered ::= fun r => r ∖ {[OConn c]} |>
    <| sp_conns ::= <[c := x <| ch_closed := true |> <| ch_in_map := false |>]> |>.

Lemma del_elem c c0 (m : htb positive) : c0 ∈ entries (kcpmux_htb_del c m) <-> c0 <> c /\ c0 ∈ entries m.
Proof. destruct (htb_del_entries m c) as (_ & _ & ->). apply filter_ne_elem. Qed.

Lemma cmark_tables c x S :
  wf None S -> sp_conns S !! c = Some x ->
  htb_size (sp_conn_map (cmark c x S)) = htb_size (sp_conn_map S) /\
  htb_size (sp_handshake (cmark c x S)) = htb_size (sp_handshake S) /\
  (forall c0, c0 ∈ entries (sp_conn_map (cmark c x S)) -> c0 <> c /\ c0 ∈ entries (sp_conn_map S)) /\
  (forall c0, c0 ∈ entries (sp_handshake (cmark c x S)) -> c0 <> c /\ c0 ∈ entries (sp_handshake S)).
Proof.
  intros Hwf Hx. unfold cmark. destruct (ch_in_map x) eqn:Him.
  - split_and!; [apply htb_del_entries| | |].
    + cbn. destruct (ch_init x); [done|apply htb_del_entries].
    + intros c0. apply del_elem.
    + intros c0. cbn. destruct (ch_init x) eqn:Hi; [|apply del_elem]. cbn. intros Hin. split; [|done].
      intros ->. destruct (wf_handshake _ _ Hwf c Hin) as (x' & ? & _ & ?). congruence.
  - split_and!; [done|done| |]; intros c0 Hin; (split; [|done]); intros ->.
    + destruct (wf_conn_map _ _ Hwf c Hin) as (x' & ? & ?). congruence.
    + destruct (wf_handshake _ _ Hwf c Hin) as (x' & ? & ? & _). congruence.
Qed.

Lemma cmark_rest c x S :
  sp_conns (cmark c x S) = <[c := x <| ch_closed := true |> <| ch_in_map := false |>]> (sp_conns S) /\
  sp_streams (cmark c x S) = sp_streams S /\ sp_nodes (cmark c x S) = sp_nodes S /\
  sp_next (cmark c x S) = sp_next S /\ sp_pending (cmark c x S) = sp_pending S /\
  sp_registered (cmark c x S) = sp_registered S ∖ {[OConn c]}.
Proof. unfold cmark. by destruct (ch_in_map x). Qed.

Lemma wf_cmark S c x :
  wf None S -> sp_conns S !! c = Some x -> ch_closed x = false -> wf (Some c) (cmark c x S).
Proof.
  intros Hwf Hx Hcl. destruct (cmark_tables c x S Hwf Hx) as (Hs1 & Hs2 & Hm & Hh).
  destruct (cmark_rest c x S) as (Ec & Es & En & Ex & Ep & Er).
  set (S' := cmark c x S) in *. clearbody S'.
  assert (Hst : forall o, status S' o = if decide (o = OConn c) then Some true else status S o).
  { intros [c0|s]; cbn; rewrite ?Es, ?Ec; [|done]. destruct (decide (c0 = c)) as [->|Hne].
    - by rewrite lookup_insert_eq, decide_True.
    - rewrite lookup_insert_ne, decide_False by congruence. done. }
  pose proof (status_conn c x Hx) as Hsc. rewrite Hcl in Hsc.
  assert (Hni : OConn c ∉ sp_pending S) by (intros Hin; apply (wf_pending _ _ Hwf) in Hin; congruence).
  assert (Hc : forall c0 x0, sp_conns S' !! c0 = Some x0 ->
    exists x1, sp_conns S !! c0 = Some x1 /\ ch_map x0 = ch_map x1).
  { rewrite Ec. intros c0 x0 [[<- <-]|[_ H]]%lookup_insert_Some; eauto. }
  constructor; rewrite ?Es, ?En, ?Ex, ?Ep, ?Er; try by apply Hwf.
  - intros o. rewrite Hst. case_decide; [subst|apply Hwf]. intros _. apply (wf_addr _ _ Hwf). rewrite Hsc. eauto.
  - intros o. rewrite Hst, (wf_nodes _ _ Hwf). case_decide; [subst; rewrite Hsc|done]. split; eauto.
  - intros o. rewrite Hst, elem_of_difference, elem_of_singleton, (wf_registered _ _ Hwf).
    case_decide; naive_solver.
  - rewrite Hs1. apply Hwf.
  - rewrite Hs2. apply Hwf.
  - intros c0 [Hne Hin]%Hm. rewrite Ec, lookup_insert_ne by done. by apply Hwf.
  - intros c0 [Hne Hin]%Hh. rewrite Ec, lookup_insert_ne by done. by apply Hwf.
  - rewrite Ec. intros c0 x0 [[<- <-]|[_ H]]%lookup_insert_Some; [|by eapply (wf_conn _ _ Hwf)].
    destruct (wf_conn _ _ Hwf c x Hx) as (? & ? & _). done.
  - intros c0 x0 s Hx0 Hs. destruct (Hc c0 x0 Hx0) as (x1 & Hx1 & He). rewrite He in Hs. by eapply (wf_table _ _ Hwf).
  - intros s y Hy. destruct (wf_stream _ _ Hwf s y Hy) as (x1 & Hx1 & Ho). rewrite Ec.
    destruct (decide (sh_conn y = c)) as [He|Hne].
    + eexists. rewrite He, lookup_insert_eq. split; [done|]. rewrite He, Hx in Hx1. by injection Hx1 as <-.
    + exists x1. by rewrite lookup_insert_ne.
  - intros o. rewrite Hst. case_decide as Hd; [subst; eauto|]. intros Ho.
    destruct (wf_closed _ _ Hwf o Ho) as [|(? & ? & _)]; [auto|done].
  - intros o Ho. rewrite Hst. case_decide; [done|]. by apply Hwf.
  - intros c0 x0 Hin Hx0. destruct (Hc c0 x0 Hx0) as (x1 & Hx1 & ->). by eapply (wf_pending_map _ _ Hwf).
  - intros c0 [= <-]. rewrite Hst, decide_True by done. done.
Qed.

Definition cqueue c S : shape := S <| sp_pending ::= fun l => l ++ [OConn c] |>.

Lemma wf_cqueue S c x :
  wf (Some c) S -> sp_conns S !! c = Some x -> entries (ch_map x) = [] -> wf None (cqueue c S).
Proof.
  intros Hwf Hx He. destruct (wf_flux _ _ Hwf c eq_refl) as [Hcl Hni].
  constructor; try by apply Hwf.
  - intros o Ho. cbn. rewrite elem_of_app, list_elem_of_singleton.
    destruct (wf_closed _ _ Hwf o Ho) as [|(c0 & [= <-] & ->)]; auto.
  - intros o. cbn. rewrite elem_of_app, list_elem_of_singleton. intros [?| ->]; [by apply (wf_pending _ _ Hwf)|done].
  - intros c0 x0. cbn. rewrite elem_of_app, list_elem_of_singleton. intros [Hin|[= ->]] Hx0.
    + by eapply (wf_pending_map _ _ Hwf).
    + congruence.
  - done.
  - cbn. apply list.NoDup_app. split; [apply Hwf|]. split; [|apply NoDup_singleton].
    by intros o Ho ->%list_elem_of_singleton.
  - intros l1 c0 l2 s y Hl Hy Hc0. cbn in Hl, Hy.
    apply snoc_cons_inv in Hl as [(_ & [= <-] & <-)|(l2' & -> & Hl)]; [|by eapply (wf_order _ _ Hwf)].
    destruct (wf_stream _ _ Hwf s y Hy) as (x0 & Hx0 & Ho). rewrite Hc0, Hx in Hx0. injection Hx0 as <-.
    destruct (wf_closed _ _ Hwf (OStream s)) as [|(? & _ & ?)]; [|done..].
    rewrite (status_stream s y Hy). destruct (sh_closed y); [done|].
    destruct (Ho eq_refl) as (_ & _ & _ & Hin). rewrite He in Hin. by apply elem_of_nil in Hin.
Qed.

(** ** New objects *)

Definition conn_linked c x S : shape :=
  conn_added c x S <| sp_registered ::= union {[OConn c]} |>.

Definition bump S : shape := S <| sp_next ::= Pos.succ |>.

Lemma wf_bump U S : wf U S -> wf U (bump S).
Proof.
  intros Hwf. constructor; try by apply Hwf. intros o Ho. cbn. apply (wf_addr _ _ Hwf) in Ho. lia.
Qed.

Lemma wf_conn_linked S x :
  wf None S -> ch_closed x = false -> 0 < htb_size (ch_map x) -> entries (ch_map x) = [] ->
  ext_ok (ch_ext x) -> wf None (conn_linked (sp_next S) x S).
Proof.
  intros Hwf Hcl Hsz He Hext. set (c := sp_next S). destruct (wf_fresh Hwf) as [Hfc _]. fold c in Hfc.
  assert (Hfc' : sp_conns S !! c = None) by (cbn in Hfc; by destruct (sp_conns S !! c)).
  set (S' := conn_linked c x S).
  assert (Hst : forall o, status S' o = if decide (o = OConn c) then Some false else status S o).
  { intros [c0|s]; [|done]. cbn. destruct (decide (c0 = c)) as [->|Hne].
    - by rewrite lookup_insert_eq, decide_True by done; cbn; rewrite Hcl.
    - rewrite lookup_insert_ne, decide_False by congruence. done. }
  assert (Hc : forall c0 x0, sp_conns S' !! c0 = Some x0 -> (c0 = c /\ x0 = x) \/ sp_conns S !! c0 = Some x0).
  { unfold S', conn_linked, conn_added. cbn. intros c0 x0. rewrite lookup_insert_Some. naive_solver. }
  assert (Hc' : forall c0 x0, sp_conns S !! c0 = Some x0 -> sp_conns S' !! c0 = Some x0).
  { intros c0 x0 Hx0. unfold S', conn_linked, conn_added. cbn. rewrite lookup_insert_ne; [done|].
    intros ->. congruence. }
  assert (Hpend : OConn c ∉ sp_pending S) by (intros Hin; apply (wf_pending _ _ Hwf) in Hin; congruence).
  constructor; try by apply Hwf.
  - intros o. rewrite Hst. unfold S'. cbn. case_decide; [subst; cbn; lia|].
    intros Ho. apply (wf_addr _ _ Hwf) in Ho. unfold c. lia.
  - intros o. rewrite Hst. unfold S'. cbn. rewrite elem_of_union, elem_of_singleton, (wf_nodes _ _ Hwf).
    case_decide; naive_solver.
  - intros o. rewrite Hst. unfold S'. cbn. rewrite elem_of_union, elem_of_singleton, (wf_registered _ _ Hwf).
    case_decide; naive_solver.
  - intros c0 Hin. destruct (wf_conn_map _ _ Hwf c0 Hin) as (x0 & ? & ?). eauto.
  - intros c0 Hin. destruct (wf_handshake _ _ Hwf c0 Hin) as (x0 & ? & ?). eauto.
  - intros c0 x0 [[-> ->]|H]%Hc; [split_and!; [done|done|congruence]|by eapply (wf_conn _ _ Hwf)].
  - intros c0 x0 s [[-> ->]|H]%Hc Hs; [rewrite He in Hs; by apply elem_of_nil in Hs|].
    by eapply (wf_table _ _ Hwf).
  - intros s y Hy. destruct (wf_stream _ _ Hwf s y Hy) as (x0 & ? & ?). eauto.
  - intros o. rewrite Hst. case_decide; [done|apply Hwf].
  - intros o Ho. rewrite Hst, decide_False; [by apply Hwf|]. intros ->. done.
  - intros c0 x0 Hin [[-> ->]|H]%Hc; [done|]. by eapply (wf_pending_map _ _ Hwf).
  - done.
Qed.

(** A stream and its entry in the table of its connection. *)
Definition stream_linked s y c x S : shape :=
  stream_added s y S <| sp_registered ::= union {[OStream s]} |> <| sp_conns ::= <[c := x]> |>.

Lemma wf_stream_linked S c x m y :
  wf None S -> sp_conns S !! c = Some x -> ch_closed x = false ->
  sh_conn y = c -> sh_closed y = false -> sh_kcp y = true -> 1 <= sh_mss y -> sh_in_map y = true ->
  htb_size m = htb_size (ch_map x) -> entries m ≡ₚ sp_next S :: entries (ch_map x) ->
  wf None (stream_linked (sp_next S) y c (x <| ch_map := m |>) S).
Proof.
  intros Hwf Hx Hcx Hyc Hcl Hk Hmss Him Hsz He. set (s := sp_next S) in *.
  destruct (wf_fresh Hwf) as [_ Hfs]. fold s in Hfs.
  assert (Hfs' : sp_streams S !! s = None) by (cbn in Hfs; by destruct (sp_streams S !! s)).
  set (S' := stream_linked s y c (x <| ch_map := m |>) S).
  assert (Hst : forall o, status S' o = if decide (o = OStream s) then Some false else status S o).
  { intros [c0|s0]; cbn.
    - destruct (decide (c0 = c)) as [->|Hne]; [by rewrite lookup_insert_eq, Hx|by rewrite lookup_insert_ne].
    - destruct (decide (s0 = s)) as [->|Hne].
      + by rewrite lookup_insert_eq, decide_True by done; cbn; rewrite Hcl.
      + rewrite lookup_insert_ne, decide_False by congruence. done. }
  assert (Hc : forall c0 x0, sp_conns S' !! c0 = Some x0 -> exists x1, sp_conns S !! c0 = Some x1 /\
    ch_closed x0 = ch_closed x1 /\ ch_in_map x0 = ch_in_map x1 /\ ch_ext x0 = ch_ext x1 /\
    htb_size (ch_map x0) = htb_size (ch_map x1) /\
    forall z, z ∈ entries (ch_map x0) <-> (c0 = c /\ z = s) \/ z ∈ entries (ch_map x1)).
  { unfold S', stream_linked, stream_added. cbn. intros c0 x0 [[<- <-]|[Hne H]]%lookup_insert_Some.
    - exists x. split_and!; try done. cbn. intros z. rewrite He, elem_of_cons. naive_solver.
    - exists x0. split_and!; try done. naive_solver. }
  assert (Hc' : forall c0 x1, sp_conns S !! c0 = Some x1 -> exists x0, sp_conns S' !! c0 = Some x0 /\
    ch_in_map x0 = ch_in_map x1 /\ ch_init x0 = ch_init x1 /\
    forall z, z ∈ entries (ch_map x0) <-> (c0 = c /\ z = s) \/ z ∈ entries (ch_map x1)).
  { unfold S', stream_linked, stream_added. cbn. intros c0 x1 Hx1. destruct (decide (c0 = c)) as [->|Hne].
    - rewrite lookup_insert_eq. eexists. split; [done|]. simplify_eq. split_and!; try done. cbn.
      intros z. rewrite He, elem_of_cons. naive_solver.
    - rewrite lookup_insert_ne by done. exists x1. split_and!; try done. naive_solver. }
  assert (Hs : forall z y', sp_streams S' !! z = Some y' -> (z = s /\ y' = y) \/ (z <> s /\ sp_streams S !! z = Some y')).
  { unfold S', stream_linked, stream_added. cbn. intros z y'. rewrite lookup_insert_Some. naive_solver. }
  assert (Hpend : OStream s ∉ sp_pending S) by (intros Hin; apply (wf_pending _ _ Hwf) in Hin; congruence).
  assert (Hpc : OConn c ∉ sp_pending S).
  { intros Hin. apply (wf_pending _ _ Hwf) in Hin. rewrite (status_conn c x Hx) in Hin. congruence. }
  constructor; try by apply Hwf.
  - intros o. rewrite Hst. unfold S'. cbn. case_decide; [subst; cbn; lia|].
    intros Ho. apply (wf_addr _ _ Hwf) in Ho. unfold s. lia.
  - intros o. rewrite Hst. unfold S'. cbn. rewrite elem_of_union, elem_of_singleton, (wf_nodes _ _ Hwf).
    case_decide; naive_solver.
  - intros o. rewrite Hst. unfold S'. cbn. rewrite elem_of_union, elem_of_singleton, (wf_registered _ _ Hwf).
    case_decide; naive_solver.
  - intros c0 Hin. destruct (wf_conn_map _ _ Hwf c0 Hin) as (x1 & Hx1 & ?).
    destruct (Hc' c0 x1 Hx1) as (x0 & ? & ? & _). exists x0. split; congruence.
  - intros c0 Hin. destruct (wf_handshake _ _ Hwf c0 Hin) as (x1 & Hx1 & ? & ?).
    destruct (Hc' c0 x1 Hx1) as (x0 & ? & ? & ? & _). exists x0. split_and!; congruence.
  - intros c0 x0 Hx0. destruct (Hc c0 x0 Hx0) as (x1 & Hx1 & -> & -> & -> & -> & _). by eapply (wf_conn _ _ Hwf).
  - intros c0 x0 z Hx0 Hz. destruct (Hc c0 x0 Hx0) as (x1 & Hx1 & _ & _ & _ & _ & Hin).
    destruct (proj1 (Hin z) Hz) as [[-> ->]|Hz1].
    + exists y. unfold S', stream_linked, stream_added. cbn. by rewrite lookup_insert_eq.
    + destruct (wf_table _ _ Hwf c0 x1 z Hx1 Hz1) as (y' & Hy' & ? & ?). exists y'.
      unfold S', stream_linked, stream_added. cbn. rewrite lookup_insert_ne by (intros <-; congruence). done.
  - intros z y' [[-> ->]|[Hne Hy']]%Hs.
    + destruct (Hc' c x Hx) as (x0 & Hx0 & _ & _ & Hin). exists x0. rewrite Hyc. split; [done|].
      intros _. split_and!; try done. apply Hin. auto.
    + destruct (wf_stream _ _ Hwf z y' Hy') as (x1 & Hx1 & Ho). destruct (Hc' _ x1 Hx1) as (x0 & Hx0 & _ & _ & Hin).
      exists x0. split; [done|]. intros Hcl'. rewrite Hin. naive_solver.
  - intros o. rewrite Hst. case_decide; [done|apply Hwf].
  - intros o Ho. rewrite Hst, decide_False; [by apply Hwf|]. intros ->. done.
  - intros c0 x0 Hin Hx0. destruct (Hc c0 x0 Hx0) as (x1 & Hx1 & _ & _ & _ & _ & Hz).
    pose proof (wf_pending_map _ _ Hwf c0 x1 Hin Hx1) as Hemp.
    destruct (entries (ch_map x0)) as [|z l]; [done|]. exfalso.
    destruct (proj1 (Hz z) ltac:(by left)) as [[-> _]|Hz1]; [done|].
    rewrite Hemp in Hz1. by apply elem_of_nil in Hz1.
  - done.
  - intros l1 c0 l2 z y' Hl [[-> ->]|[_ Hy']]%Hs Hcc; [|by eapply (wf_order _ _ Hwf)].
    exfalso. apply Hpc. rewrite <- Hyc, Hcc. change (sp_pending S') with (sp_pending S) in Hl.
    rewrite Hl. set_solver.
Qed.

(** ** Release *)

Definition released o l S : shape := freed o (S <| sp_pending := l |>).

Lemma wf_released S o l :
  wf None S -> sp_pending S = o :: l -> wf None (released o l S).
Proof.
  intros Hwf Hp. set (S' := released o l S).
  assert (Hso : status S o = Some true) by (apply (wf_pending _ _ Hwf); rewrite Hp; by left).
  pose proof (wf_nodup _ _ Hwf) as Hnd. rewrite Hp in Hnd. apply list.NoDup_cons in Hnd as [Hol Hnd].
  assert (Hst : forall o', status S' o' = if decide (o' = o) then None else status S o').
  { intros o'. unfold S', released, freed. destruct o as [c|s], o' as [c'|s']; cbn; try done;
      (case_decide as Hd; [injection Hd as ->; by rewrite lookup_delete_eq|]);
      rewrite lookup_delete_ne by congruence; done. }
  assert (Hc : forall c x, sp_conns S' !! c = Some x -> sp_conns S !! c = Some x).
  { intros c x. unfold S', released. destruct o; [|done]. cbn. by intros [_ ?]%lookup_delete_Some. }
  assert (Hc' : forall c x, sp_conns S !! c = Some x -> OConn c <> o -> sp_conns S' !! c = Some x).
  { intros c x Hx Hne. unfold S', released. destruct o; [|done]. cbn. rewrite lookup_delete_ne by congruence. done. }
  assert (Hs : forall s y, sp_streams S' !! s = Some y -> sp_streams S !! s = Some y /\ OStream s <> o).
  { intros s y. unfold S', released. destruct o; [by split|]. cbn. intros [? ?]%lookup_delete_Some. split; congruence. }
  assert (Hs' : forall s y, sp_streams S !! s = Some y -> OStream s <> o -> sp_streams S' !! s = Some y).
  { intros s y Hy Hne. unfold S', released. destruct o; [done|]. cbn. rewrite lookup_delete_ne by congruence. done. }
  assert (Hrest : sp_next S' = sp_next S /\ sp_nodes S' = sp_nodes S ∖ {[o]} /\
    sp_registered S' = sp_registered S /\ sp_conn_map S' = sp_conn_map S /\
    sp_handshake S' = sp_handshake S /\ sp_pending S' = l) by by unfold S', released; destruct o.
  destruct Hrest as (En & Ed & Er & Em & Eh & Ep). clearbody S'.
  assert (Hopen : forall c x, sp_conns S !! c = Some x -> ch_in_map x = true -> OConn c <> o).
  { intros c x Hx Him <-. rewrite (status_conn c x Hx) in Hso. injection Hso as Hcl.
    destruct (wf_conn _ _ Hwf c x Hx) as (_ & _ & H). rewrite H in Him; done. }
  constructor; rewrite ?En, ?Ed, ?Er, ?Em, ?Eh, ?Ep; try by apply Hwf.
  - intros o'. rewrite Hst. case_decide; [by intros []|apply Hwf].
  - intros o'. rewrite Hst, elem_of_difference, elem_of_singleton, (wf_nodes _ _ Hwf).
    case_decide; [|tauto]. split; [tauto|by intros []].
  - intros o'. rewrite Hst, (wf_registered _ _ Hwf). case_decide; [subst|done]. by rewrite Hso.
  - intros c Hin. destruct (wf_conn_map _ _ Hwf c Hin) as (x & Hx & Him).
    exists x. split; [by apply Hc'; eauto|done].
  - intros c Hin. destruct (wf_handshake _ _ Hwf c Hin) as (x & Hx & Him & Hi).
    exists x. split_and!; [by apply Hc'; eauto|done|done].
  - intros c x Hx%Hc. by eapply (wf_conn _ _ Hwf).
  - intros c x s Hx%Hc Hin. destruct (wf_table _ _ Hwf c x s Hx Hin) as (y & Hy & ? & Hcl).
    exists y. split; [|done]. apply Hs'; [done|]. intros <-. rewrite (status_stream s y Hy) in Hso. congruence.
  - intros s y [Hy Hne]%Hs. destruct (wf_stream _ _ Hwf s y Hy) as (x & Hx & Ho). exists x. split; [|done].
    apply Hc'; [done|]. intros <-. pose proof (wf_order _ _ Hwf [] _ l s y Hp Hy eq_refl) as Hin.
    by apply elem_of_nil in Hin.
  - intros o'. rewrite Hst. case_decide; [done|]. intros Ho'. destruct (wf_closed _ _ Hwf o' Ho') as [Hin|(? & ? & _)]; [|done].
    rewrite Hp in Hin. apply elem_of_cons in Hin as [?|?]; [done|by left].
  - intros o' Hin. rewrite Hst, decide_False; [|by intros ->]. apply (wf_pending _ _ Hwf). rewrite Hp. by right.
  - intros c x Hin Hx%Hc. eapply (wf_pending_map _ _ Hwf); [|done]. rewrite Hp. by right.
  - done.
  - done.
  - intros l1 c l2 s y Hl [Hy Hne]%Hs Hcc.
    pose proof (wf_order _ _ Hwf (o :: l1) c l2 s y) as Hin. rewrite Hp, Hl in Hin.
    specialize (Hin eq_refl Hy Hcc). apply elem_of_cons in Hin as [|]; done.
Qed.
