(* ===== verification/Listed.v ===== *)
(** * The table of connections is complete

    Every open connection is in [conn_map], once, under an identifier no other
    connection has, and [conn_count] is the number of entries (modulo 2^32).
    [listed (Some c)] allows for a connection [c] between its creation and
    [kcpmux_engine_add_conn].  It depends on a few fields of the shape only,
    its [tview]. *)

From S2P Require Import Prelude Types Hashtable World Wire Shape Steps Calm Wf.
From stdpp Require Import gmap.
#[local] Open Scope Z_scope.

Implicit Types (c s : positive) (S : shape) (o : obj) (N : option positive).

Definition cview (x : cshape) := (ch_closed x, ch_in_map x, ch_id x).
Definition tview S := (cview <$> sp_conns S, sp_conn_map S, sp_count S, sp_next_id S).

Record listed N S : Prop := {
  li_open c x : sp_conns S !! c = Some x -> ch_closed x = false ->
    c ∈ entries (sp_conn_map S) \/ N = Some c;
  li_nodup : NoDup (entries (sp_conn_map S));
  li_count : sp_count S = u32 (Z.of_nat (length (entries (sp_conn_map S))));
  li_next : 0 <= sp_next_id S < 2 ^ 64;
  li_id c x : sp_conns S !! c = Some x -> sp_next_id S = 0 \/ ch_id x < sp_next_id S;
  li_new c x : N = Some c -> sp_conns S !! c = Some x ->
    forall c0 x0, sp_conns S !! c0 = Some x0 -> c0 <> c -> ch_id x0 < ch_id x
}.

Lemma tview_lookup S S' c x :
  tview S' = tview S -> sp_conns S' !! c = Some x ->
  exists x0, sp_conns S !! c = Some x0 /\ cview x = cview x0.
Proof.
  intros Ht Hx. injection Ht as Hc _ _ _. apply (f_equal (lookup c)) in Hc.
  rewrite !lookup_fmap, Hx in Hc. destruct (sp_conns S !! c) as [x0|]; [|done].
  apply (inj Some) in Hc. eauto.
Qed.

Lemma listed_view N S S' : tview S' = tview S -> listed N S -> listed N S'.
Proof.
  intros Ht [Ho Hn Hc Hx Hi Hw].
  assert (Hl := fun c x => tview_lookup S S' c x Ht).
  assert (Hid : forall x y, cview x = cview y -> ch_id x = ch_id y) by by intros x y [= _ _ ?].
  pose proof Ht as [= _ Hm Hcn Hni]. constructor; rewrite ?Hm, ?Hcn, ?Hni; try done.
  - intros c x Hcx Hcl. destruct (Hl c x Hcx) as (x0 & Hx0 & He).
    apply (Ho c x0 Hx0). unfold cview in He. congruence.
  - intros c x Hcx. destruct (Hl c x Hcx) as (x0 & Hx0 & He). rewrite (Hid _ _ He). by eapply Hi.
  - intros c x HN Hcx c0 y Hcy Hne. destruct (Hl c x Hcx) as (x0 & Hx0 & He).
    destruct (Hl c0 y Hcy) as (y0 & Hy0 & He'). rewrite (Hid _ _ He), (Hid _ _ He'). by eapply Hw.
Qed.

(** ** Frames *)

Lemma tview_upd_conn c x x' S :
  sp_conns S !! c = Some x -> cview x' = cview x -> tview (upd_conn c x' S) = tview S.
Proof.
  intros Hx He. unfold tview, upd_conn. cbn. rewrite fmap_insert, He, insert_id; [done|].
  by rewrite lookup_fmap, Hx.
Qed.

Lemma tview_sclose s y x S : sp_conns S !! sh_conn y = Some x -> tview (sclose s y x S) = tview S.
Proof.
  intros Hx. unfold tview, sclose. cbn. rewrite fmap_insert. change (cview (x <| ch_map ::= _ |>)) with (cview x).
  rewrite insert_id; [done|]. by rewrite lookup_fmap, Hx.
Qed.

Lemma tview_stream_linked s y c x m S :
  sp_conns S !! c = Some x -> tview (stream_linked s y c (x <| ch_map := m |>) S) = tview S.
Proof.
  intros Hx. unfold tview, stream_linked, stream_added. cbn. rewrite fmap_insert.
  change (cview (x <| ch_map := m |>)) with (cview x).
  rewrite insert_id; [done|]. by rewrite lookup_fmap, Hx.
Qed.

(** ** Changes *)

Lemma listed_count_down n : 0 <= n -> u32 (u32 (n + 1) - 1) = u32 n.
Proof. intros Hn. unfold wrap. rewrite Zminus_mod_idemp_l. f_equal. lia. Qed.

Lemma listed_count_up n : u32 (u32 n + 1) = u32 (n + 1).
Proof. apply wrap_add_l. Qed.

Lemma filter_ne_length {A} `{EqDecision A} (x : A) l :
  NoDup l -> x ∈ l -> Z.of_nat (length l) = Z.of_nat (length (filter (fun y => y <> x) l)) + 1.
Proof.
  intros Hn Hx. apply list_elem_of_split in Hx as (l1 & l2 & ->).
  apply list.NoDup_app in Hn as (_ & H1 & [Hx _]%list.NoDup_cons).
  assert (x ∉ l1) by (intros ?; eapply H1; [done|by left]).
  rewrite list.filter_app, filter_cons_False by tauto. rewrite !filter_ne_id by done.
  rewrite !length_app. cbn. lia.
Qed.

(** Closing takes a connection off the table. *)
Lemma listed_cmark S c x :
  wf None S -> listed None S -> sp_conns S !! c = Some x -> ch_closed x = false ->
  listed None (cmark c x S) /\ c ∈ entries (sp_conn_map S) /\
  entries (sp_conn_map (cmark c x S)) = filter (fun y => y <> c) (entries (sp_conn_map S)).
Proof.
  intros Hwf [Ho Hn Hc Hx Hi Hw] Hcx Hcl. destruct (Ho c x Hcx Hcl) as [Hin|]; [|done].
  destruct (wf_conn_map _ _ Hwf c Hin) as (x' & Hx' & Him). rewrite Hcx in Hx'. injection Hx' as <-.
  destruct (htb_del_entries (sp_conn_map S) c) as (_ & _ & He).
  assert (Hm : sp_conn_map (cmark c x S) = kcpmux_htb_del c (sp_conn_map S)) by (unfold cmark; by rewrite Him).
  assert (Hk : sp_count (cmark c x S) = u32 (sp_count S - 1)) by (unfold cmark; by rewrite Him).
  assert (Hni : sp_next_id (cmark c x S) = sp_next_id S) by (unfold cmark; by rewrite Him).
  destruct (cmark_rest c x S) as (Ec & _). set (S' := cmark c x S) in *. clearbody S'.
  split; [|split; [done|by rewrite Hm]].
  assert (Hold : forall c0 x0, sp_conns S' !! c0 = Some x0 ->
    (c0 = c /\ ch_closed x0 = true /\ ch_id x0 = ch_id x) \/ (c0 <> c /\ sp_conns S !! c0 = Some x0)).
  { rewrite Ec. intros c0 x0. rewrite lookup_insert_Some. naive_solver. }
  constructor; rewrite ?Hm, ?Hk, ?Hni, ?He; try done.
  - intros c0 x0 [(-> & ? & _)|[Hne H]]%Hold Hcl0; [congruence|]. left. apply filter_ne_elem.
    split; [done|]. by destruct (Ho c0 x0 H Hcl0).
  - by apply NoDup_filter.
  - rewrite Hc, (filter_ne_length c (entries (sp_conn_map S))) by done. apply listed_count_down. lia.
  - intros c0 x0 [(-> & _ & ->)|[_ H]]%Hold; [by apply (Hi c)|by apply (Hi c0)].
Qed.

Lemma listed_released S o l :
  listed None S -> status S o = Some true -> listed None (released o l S).
Proof.
  intros [Ho Hn Hc Hx Hi Hw] Hst.
  assert (Hold : forall c0 x0, sp_conns (released o l S) !! c0 = Some x0 -> sp_conns S !! c0 = Some x0).
  { intros c0 x0. unfold released, freed. destruct o; cbn; [|done]. by intros [_ ?]%lookup_delete_Some. }
  constructor; unfold released, freed; destruct o; cbn in *; eauto.
Qed.

(** An identifier is handed out; 0 marks the end of them. *)
Definition took_id S : shape := S <| sp_next_id ::= fun n => u64 (n + 1) |>.

Lemma took_id_next S : listed None S -> sp_next_id S <> 0 ->
  sp_next_id (took_id S) = 0 \/ sp_next_id (took_id S) = sp_next_id S + 1.
Proof.
  intros HL Hne. pose proof (li_next _ _ HL) as Hr. unfold took_id. cbn.
  destruct (decide (sp_next_id S + 1 = 2 ^ 64)) as [->|]; [by left|right].
  apply wrap_small. unfold in_u. lia.
Qed.

Lemma listed_took_id S : listed None S -> sp_next_id S <> 0 -> listed None (took_id S).
Proof.
  intros HL Hne. pose proof (took_id_next S HL Hne) as Hn. destruct HL as [Ho Hnd Hc Hx Hi Hw].
  assert (Hr : 0 <= sp_next_id (took_id S) < 2 ^ 64) by (apply wrap_range; lia).
  constructor; try done. intros c x Hcx. destruct Hn as [->| ->]; [by left|].
  right. destruct (Hi c x Hcx); [done|lia].
Qed.

Lemma wf_took_id U S : wf U S -> wf U (took_id S).
Proof. apply wf_next_id. Qed.

(** A new connection has the identifier taken. *)
Lemma listed_conn_linked S x :
  wf None S -> listed None S -> sp_next_id S <> 0 -> ch_id x = sp_next_id S ->
  listed (Some (sp_next S)) (conn_linked (sp_next S) x (took_id S)).
Proof.
  intros Hwf HL Hne Hid. pose proof (listed_took_id S HL Hne) as HL1.
  pose proof (took_id_next S HL Hne) as Hn.
  assert (Hold : forall c0 x0, sp_conns (conn_linked (sp_next S) x (took_id S)) !! c0 = Some x0 ->
    (c0 = sp_next S /\ x0 = x) \/ (c0 <> sp_next S /\ sp_conns S !! c0 = Some x0)).
  { unfold conn_linked, conn_added. cbn. intros c0 x0. rewrite lookup_insert_Some. naive_solver. }
  constructor; try by apply HL1.
  - intros c0 x0 [[-> ->]|[_ H]]%Hold Hcl; [by right|]. left. by destruct (li_open _ _ HL c0 x0 H Hcl).
  - intros c0 x0 [[-> ->]|[_ H]]%Hold; [|by apply (li_id _ _ HL1 c0)].
    rewrite Hid. change (sp_next_id (conn_linked _ _ _)) with (sp_next_id (took_id S)).
    destruct Hn as [->| ->]; [by left|right; lia].
  - intros c0 x0 [= <-] [[_ ->]|[? _]]%Hold; [|done]. intros c1 x1 [[-> _]|[_ H]]%Hold Hne1; [done|].
    rewrite Hid. by destruct (li_id _ _ HL c1 x1 H).
Qed.

Lemma listed_add_conn S c x m h :
  listed (Some c) S -> sp_conns S !! c = Some x -> c ∉ entries (sp_conn_map S) ->
  entries m ≡ₚ c :: entries (sp_conn_map S) ->
  listed None (S <| sp_conn_map := m |> <| sp_handshake := h |> <| sp_count ::= fun n => u32 (n + 1) |>
                 <| sp_conns ::= <[c := x <| ch_in_map := true |>]> |>).
Proof.
  intros [Ho Hn Hc Hx Hi Hw] Hcx Hni Hm.
  constructor; cbn.
  - intros c0 x0 [[<- <-]|[Hne H]]%lookup_insert_Some Hcl; left; rewrite Hm; [by left|right].
    destruct (Ho c0 x0 H Hcl) as [|[= <-]]; done.
  - rewrite Hm. by apply list.NoDup_cons.
  - rewrite Hm, Hc, listed_count_up. cbn. f_equal. lia.
  - done.
  - intros c0 x0 [[<- <-]|[Hne H]]%lookup_insert_Some; [by apply (Hi c x)|by eapply Hi].
  - done.
Qed.

(** The table has no entry under the identifier of the new connection. *)
Lemma listed_new_id S c x :
  listed (Some c) S -> sp_conns S !! c = Some x -> c ∉ entries (sp_conn_map S) ->
  forall c0 x0, c0 ∈ entries (sp_conn_map S) -> sp_conns S !! c0 = Some x0 -> ch_id x0 <> ch_id x.
Proof.
  intros HL Hx Hni c0 x0 Hin Hx0. assert (Hne : c0 <> c) by by intros ->.
  pose proof (li_new _ _ HL c x eq_refl Hx c0 x0 Hx0 Hne). lia.
Qed.
