(* ===== verification/Closing.v ===== *)
(** * Closing and releasing objects

    What [kcpmux_stream_close_internal], [kcpmux_conn_close_internal] with its
    cascade over the streams, and the release at the end of an operation do to
    the shape: they run to completion and keep the object graph well formed. *)

From S2P Require Import Prelude Types Timer TimerProofs TimerSpec Hashtable Vectored World Engine Conn Messages Stream Mux Deadlines Wire Shape Steps Calm Wf Listed.
From stdpp Require Import gmap.
#[local] Open Scope Z_scope.

Section safe.
Context {KO : Kcp} {HO : Host}.
Implicit Types (c s : positive) (w : world K) (S : shape) (U : option positive).

(** ** Streams *)

Lemma on_stream_close S s y x r U (Q : unit -> shape -> Prop) :
  wf U S -> sp_streams S !! s = Some y -> sh_closed y = false -> sp_conns S !! sh_conn y = Some x ->
  Q tt (sclose s y x S) -> on S (kcpmux_stream_close_internal s r) Q.
Proof.
  intros Hwf Hy Hcl Hx HQ. destruct (wf_stream _ _ Hwf s y Hy) as (x' & Hx' & Ho).
  rewrite Hx in Hx'. injection Hx' as <-. destruct (Ho Hcl) as (Hk & _ & Him & _).
  pose proof (wf_stream_ready Hwf s y Hy) as Hrd.
  unfold kcpmux_stream_close_internal.
  eapply on_calm_bind; [apply calm_get_stream; eauto|]. intros st Hst. cbv beta in Hst.
  rewrite Hst in Hy. injection Hy as <-. cbn in Hcl. rewrite Hcl.
  apply (on_mark_closed S s (sshape_of st)); [done|eauto|].
  set (y1 := (sshape_of st) <| sh_closed := true |>).
  set (S1 := S <| sp_streams ::= <[s := y1]> |>).
  eapply on_bind with (R := fun _ S' => S' = S1 <| sp_registered ::= fun r => r ∖ {[OStream s]} |>).
  { apply on_unregister; [exact (stream_ready_node _ _ Hrd)| |done].
    intros s' [= <-]. exists y1. split; [apply lookup_insert_eq|done]. }
  intros _ S' ->. set (S2 := S1 <| sp_registered ::= _ |>).
  eapply on_bind with (R := fun _ S' => S' = S2 <| sp_conns ::= <[s_conn st := x <| ch_map ::= kcpmux_htb_del s |>]> |>
    <| sp_streams ::= <[s := y1 <| sh_in_map := false |>]> |>).
  { apply (on_remove_stream S2 (s_conn st) s x y1); [done|apply lookup_insert_eq|done|done]. }
  intros _ S' ->. set (S3 := S2 <| sp_conns ::= _ |> <| sp_streams ::= _ |>).
  eapply on_calm_bind; [by apply calm_mod_engine|]. intros _ _.
  cbn in Hk. rewrite Hk. cbn [when].
  eapply on_bind with (R := fun _ S' => S' = S3 <| sp_streams ::= <[s := y1 <| sh_in_map := false |> <| sh_kcp := false |>]> |>).
  { eapply on_calm_bind; [apply calm_emit|]. intros _ _.
    eapply on_mod_stream; [apply lookup_insert_eq|]. intros st' Hst' [? ?]. split_and!; try done.
    f_equal. f_equal. unfold sshape_of in Hst' |- *. cbn in Hst' |- *. by injection Hst' as -> -> -> -> _ ->. }
  intros _ S' ->. set (S4 := S3 <| sp_streams ::= _ |>).
  eapply on_calm_bind with (R := fun _ => True).
  { apply calm_when; [intros _|done]. apply calm_mod_stream; [|intros; reflexivity].
    eexists. apply lookup_insert_eq. }
  intros _ _. eapply on_calm_bind with (R := fun _ => True); [case_match; [apply calm_emit|by apply calm_ret]|].
  intros _ _. apply on_queue_release.
  match goal with |- Q tt ?z => replace z with (sclose s (sshape_of st) x S); [done|] end.
  unfold sclose, S4, S3, S2, S1, y1. destruct S. cbn. by rewrite !insert_insert_eq.
Qed.

(** Closing again does nothing. *)
Lemma on_stream_close_again S s y r (Q : unit -> shape -> Prop) :
  sp_streams S !! s = Some y -> sh_closed y = true -> Q tt S ->
  on S (kcpmux_stream_close_internal s r) Q.
Proof.
  intros Hy Hcl HQ. unfold kcpmux_stream_close_internal.
  eapply on_calm_bind; [apply calm_get_stream; eauto|]. intros st Hst. cbv beta in Hst.
  rewrite Hst in Hy. injection Hy as <-. cbn in Hcl. rewrite Hcl. by apply on_ret.
Qed.

(** ** Connections *)

(** What the cascade leaves alone. *)
Definition same_frame S S' : Prop :=
  sp_nodes S' = sp_nodes S /\ sp_depth S' = sp_depth S /\ tview S' = tview S.

(** In the middle of the cascade over [n] buckets: those before [i] are
    empty. *)
Record cascading c (n i : nat) S : Prop := {
  cs_wf : wf (Some c) S;
  cs_conn : exists x, sp_conns S !! c = Some x /\ length (hashtable (ch_map x)) = n /\
    forall j b, (j < i)%nat -> hashtable (ch_map x) !! j = Some b -> b = []
}.

(** In the middle of bucket [i]: what is left of it is in [l]. *)
Definition bucket_in c (i : nat) (l : list positive) S : Prop :=
  (forall x b, sp_conns S !! c = Some x -> hashtable (ch_map x) !! i = Some b -> forall z, z ∈ b -> z ∈ l) /\
  (forall s, s ∈ l -> exists y, sp_streams S !! s = Some y /\ sh_conn y = c).

Lemma cascading_sclose c n i s y x l S :
  cascading c n i S -> sp_streams S !! s = Some y -> sh_conn y = c -> sh_closed y = false ->
  sp_conns S !! c = Some x -> bucket_in c i (s :: l) S ->
  cascading c n i (sclose s y x S) /\ bucket_in c i l (sclose s y x S) /\ same_frame S (sclose s y x S).
Proof.
  intros [Hwf (x' & Hx' & Hn & Hb)] Hy Hc Hcl Hx [Hin Hl]. rewrite Hx in Hx'. injection Hx' as <-.
  destruct (htb_del_entries (ch_map x) s) as (_ & Hh & _).
  assert (Hxn : sp_conns (sclose s y x S) !! c = Some (x <| ch_map ::= kcpmux_htb_del s |>))
    by (subst c; apply lookup_insert_eq).
  split; [|split; [|split_and!; [done|done|apply tview_sclose; by rewrite Hc]]].
  - constructor; [apply wf_sclose; [done|done|done|by subst c]|]. eexists. split; [exact Hxn|].
    cbn. rewrite Hh, length_fmap. split; [done|]. intros j b Hj Hjb.
    rewrite list_lookup_fmap in Hjb. destruct (hashtable (ch_map x) !! j) as [b0|] eqn:E; [|done].
    injection Hjb as <-. by rewrite (Hb j b0 Hj E).
  - split.
    + intros x0 b Hx0 Hb0 z Hz. rewrite Hxn in Hx0. injection Hx0 as <-. cbn in Hb0.
      rewrite Hh, list_lookup_fmap in Hb0. destruct (hashtable (ch_map x) !! i) as [b1|] eqn:E; [|done].
      injection Hb0 as <-. apply filter_ne_elem in Hz as [Hne Hz].
      pose proof (Hin x b1 Hx E z Hz) as Hzl. by apply elem_of_cons in Hzl as [|].
    + intros s' Hs'. destruct (Hl s' ltac:(by right)) as (y' & Hy' & Hc'). unfold sclose. cbn.
      destruct (decide (s' = s)) as [->|Hne].
      * eexists. rewrite lookup_insert_eq. split; [done|]. cbn. congruence.
      * exists y'. by rewrite lookup_insert_ne.
Qed.

Lemma on_close_streams c n i r l S :
  cascading c n i S -> bucket_in c i l S ->
  on S (for_each (fun s => kcpmux_stream_close_internal s r) l)
    (fun _ S' => cascading c n i S' /\ bucket_in c i [] S' /\ same_frame S S').
Proof.
  revert S. induction l as [|s l IH]; intros S Hcs Hbk; cbn [for_each].
  { by apply on_ret. }
  pose proof (proj2 Hbk s ltac:(by left)) as (y & Hy & Hc).
  pose proof (cs_conn _ _ _ _ Hcs) as (x & Hx & _).
  eapply on_bind with (R := fun _ S' => cascading c n i S' /\ bucket_in c i l S' /\ same_frame S S').
  - destruct (sh_closed y) eqn:Hcl.
    + eapply on_stream_close_again; [done|done|]. split; [done|]. split; [|done].
      destruct Hbk as [Hin Hl]. split; [|intros; apply Hl; by right].
      intros x' b Hx' Hb z Hz. pose proof (Hin x' b Hx' Hb z Hz) as Hzl.
      apply elem_of_cons in Hzl as [->|]; [|done]. exfalso.
      destruct (wf_table _ _ (cs_wf _ _ _ _ Hcs) c x' s Hx') as (y' & ? & _ & ?); [|congruence].
      apply elem_of_concat. eauto.
    + eapply on_stream_close; [apply Hcs|done|done|by rewrite Hc|]. by apply cascading_sclose.
  - intros _ S1 (Hcs1 & Hbk1 & Hf1). eapply on_mono; [by apply IH|].
    intros _ S2 (? & ? & Hf2). split; [done|]. split; [done|].
    destruct Hf1 as (? & ? & ?), Hf2 as (? & ? & ?). split_and!; congruence.
Qed.

Lemma on_close_bucket c n i r S :
  cascading c n i S -> (i < n)%nat ->
  on S (close_bucket c i r) (fun _ S' => cascading c n (Datatypes.S i) S' /\ same_frame S S').
Proof.
  intros Hcs Hi. pose proof (cs_conn _ _ _ _ Hcs) as (x & Hx & Hn & Hb).
  unfold close_bucket. eapply on_calm_bind; [apply calm_get_conn; eauto|]. intros k Hk. cbv beta in Hk.
  rewrite Hx in Hk. injection Hk as ->. cbn in Hn, Hb.
  destruct (lookup_lt_is_Some_2 (hashtable (c_stream_map k)) i) as [b Hbi]; [lia|].
  eapply on_calm_bind with (R := fun b' => b' = b).
  { apply calm_deref. intros w _ _. eauto. }
  intros ? ->. eapply on_mono; [apply (on_close_streams c n i r b); [done|]|].
  - split.
    + intros x' b' Hx' Hb' z Hz. rewrite Hx in Hx'. injection Hx' as <-. cbn in Hb'. congruence.
    + intros s Hs. destruct (wf_table _ _ (cs_wf _ _ _ _ Hcs) c _ s Hx) as (y & ? & ? & _); [|eauto].
      apply elem_of_concat. cbn. eauto.
  - intros _ S' ([Hwf' (x' & Hx' & Hn' & Hb')] & [Hin _] & Hf). split; [|done].
    constructor; [done|]. exists x'. split; [done|]. split; [done|]. intros j b' Hj Hjb.
    destruct (decide (j = i)) as [->|]; [|apply (Hb' j b'); [lia|done]].
    destruct b' as [|z b']; [done|]. exfalso. apply (elem_of_nil z). eapply Hin; [done|done|by left].
Qed.

Lemma on_cascade c n r m : forall i S,
  cascading c n i S -> (i + m = n)%nat ->
  on S (for_each (fun i => close_bucket c i r) (seq i m))
    (fun _ S' => cascading c n n S' /\ same_frame S S').
Proof.
  induction m as [|m IH]; intros i S Hcs Hn; cbn [for_each seq].
  - assert (i = n) as -> by lia. by apply on_ret.
  - eapply on_bind; [apply on_close_bucket; [done|lia]|]. intros _ S1 [Hcs1 Hf1].
    eapply on_mono; [apply IH; [done|lia]|]. intros _ S2 [? Hf2]. split; [done|].
    destruct Hf1 as (? & ? & ?), Hf2 as (? & ? & ?). split_and!; congruence.
Qed.

Lemma on_conn_close S c x r :
  wf None S -> sp_conns S !! c = Some x -> ch_closed x = false ->
  on S (kcpmux_conn_close_internal c r) (fun _ S' => wf None S' /\ sp_nodes S' = sp_nodes S /\
    sp_depth S' = sp_depth S /\ tview S' = tview (cmark c x S) /\ OConn c ∈ sp_pending S').
Proof.
  intros Hwf Hx Hcl. pose proof (wf_conn_ready Hwf c x Hx) as Hrd.
  unfold kcpmux_conn_close_internal.
  eapply on_calm_bind; [apply calm_get_conn; eauto|]. intros k Hk. cbv beta in Hk.
  rewrite Hx in Hk. injection Hk as ->. cbn in Hcl. rewrite Hcl.
  set (x1 := (cshape_of k) <| ch_closed := true |>).
  eapply on_bind with (R := fun _ S' => S' = S <| sp_conns ::= <[c := x1]> |>).
  { eapply on_mod_conn; [done|]. intros k' Hk'. unfold x1. by rewrite <- Hk'. }
  intros _ S' ->. set (S1 := S <| sp_conns ::= <[c := x1]> |>).
  eapply on_bind with (R := fun _ S' => S' = S1 <| sp_registered ::= fun r => r ∖ {[OConn c]} |>).
  { apply on_unregister; [exact (conn_ready_node _ _ Hrd)|done|done]. }
  intros _ S' ->. set (S2 := S1 <| sp_registered ::= _ |>).
  eapply on_bind with (R := fun _ S' => S' = cmark c (cshape_of k) S).
  { apply (on_remove_conn S2 c x1); [apply lookup_insert_eq|].
    unfold S2, S1, cmark, x1. cbn. destruct S, (c_in_engine_map k) eqn:Em; cbn; [by rewrite insert_insert_eq|done]. }
  intros _ S' ->. pose proof (wf_cmark S c (cshape_of k) Hwf Hx Hcl) as Hwf1.
  destruct (cmark_rest c (cshape_of k) S) as (Ec & _ & En & Ex & _ & _).
  eapply on_calm_bind; [by apply calm_mod_engine|]. intros _ _.
  eapply on_bind.
  { apply (on_cascade c (length (hashtable (c_stream_map k))) r _ 0); [|done].
    constructor; [done|]. eexists. rewrite Ec, lookup_insert_eq. split; [done|].
    split; [done|]. intros j b Hj. lia. }
  intros _ S3 ([Hwf3 (x3 & Hx3 & Hn3 & Hb3)] & Hf). set (S0 := cmark c (cshape_of k) S) in *.
  pose proof (wf_conn_ready Hwf3 c x3 Hx3) as Hrd3.
  eapply on_calm_bind with (R := fun _ => True).
  { apply calm_when; [intros _|done]. apply calm_mod_conn; [eauto|intros; reflexivity]. }
  intros _ _. eapply on_calm_bind; [apply calm_get_conn; eauto|]. intros k3 _.
  eapply on_calm_bind with (R := fun _ => True); [case_match; [apply calm_emit|by apply calm_ret]|].
  intros _ _. apply on_queue_release. destruct Hf as (Hf1 & Hf2 & Hf3).
  assert (He : entries (ch_map x3) = []).
  { unfold entries. destruct (concat (hashtable (ch_map x3))) as [|z l] eqn:E; [done|]. exfalso.
    assert (Hz : z ∈ concat (hashtable (ch_map x3))) by (rewrite E; by left).
    apply elem_of_concat in Hz as (i & b & Hi & Hz). rewrite (Hb3 i b) in Hz; [by apply elem_of_nil in Hz| |done].
    rewrite <- Hn3. by eapply lookup_lt_Some. }
  split; [by apply (wf_cqueue S3 c x3)|]. split; [exact (eq_trans Hf1 En)|].
  split; [|split; [exact Hf3|cbn; set_solver]].
  cbn. rewrite Hf2. unfold S0, cmark. by destruct (ch_in_map (cshape_of k)).
Qed.

(** Closing again does nothing. *)
Lemma on_conn_close_again S c x r (Q : unit -> shape -> Prop) :
  sp_conns S !! c = Some x -> ch_closed x = true -> Q tt S -> on S (kcpmux_conn_close_internal c r) Q.
Proof.
  intros Hx Hcl HQ. unfold kcpmux_conn_close_internal.
  eapply on_calm_bind; [apply calm_get_conn; eauto|]. intros k Hk. cbv beta in Hk.
  rewrite Hk in Hx. injection Hx as <-. cbn in Hcl. rewrite Hcl. by apply on_ret.
Qed.

(** ** Release at the end of an operation *)

Lemma calm_get_engine S (R : engine -> Prop) :
  (forall w, misc_ok w -> shape_of w = S -> R (w_engine w)) -> calm S get_engine R.
Proof. apply calm_gets. Qed.

Lemma on_release_cb S o l (Q : unit -> shape -> Prop) :
  wf None S -> sp_pending S = o :: l -> Q tt (released o l S) ->
  on (S <| sp_pending := l |>) (release_cb o) Q.
Proof.
  intros Hwf Hp HQ.
  assert (Hin : o ∈ sp_pending S) by (rewrite Hp; by left).
  pose proof (wf_pending _ _ Hwf o Hin) as Hst.
  assert (Hreg : o ∉ sp_registered S) by (rewrite (wf_registered _ _ Hwf); congruence).
  destruct o as [c|s]; cbn [release_cb]; cbn in Hst.
  - destruct (sp_conns S !! c) as [x|] eqn:Hx; [|done]. unfold kcpmux_conn_release.
    eapply on_calm_bind; [apply calm_get_conn; eauto|]. intros k Hk. cbv beta in Hk. cbn in Hk.
    rewrite Hx in Hk. injection Hk as ->.
    pose proof (wf_pending_map _ _ Hwf c _ Hin Hx) as He.
    eapply on_calm_bind with (R := fun _ => True); [|intros _ _; by apply on_free_obj].
    apply calm_deref. intros w _ _. unfold kcpmux_htb_destroy, kcpmux_htb_flush.
    change (concat (hashtable (c_stream_map k))) with (entries (ch_map (cshape_of k))). rewrite He. cbn. eauto.
  - destruct (sp_streams S !! s) as [y|] eqn:Hy; [|done]. unfold kcpmux_stream_free.
    eapply on_calm_bind; [apply calm_get_stream; eauto|]. intros st _. by apply on_free_obj.
Qed.

Lemma on_drain_loop fuel S :
  wf None S -> listed None S -> (length (sp_pending S) <= fuel)%nat ->
  on S (drain_loop fuel) (fun _ S' => wf None S' /\ listed None S' /\ sp_pending S' = [] /\
    sp_depth S' = sp_depth S /\ sp_conn_map S' = sp_conn_map S).
Proof.
  revert S. induction fuel as [|fuel IH]; intros S Hwf HL Hf; cbn [drain_loop];
    (eapply on_calm_bind;
      [apply (calm_get_engine S (fun e => e_pending_release_list e = sp_pending S)); by intros w _ <-|]);
    intros e He; cbv beta in He; rewrite He; destruct (sp_pending S) as [|o l] eqn:Hp;
    try (by apply on_ret); [cbn in Hf; lia|].
  eapply on_bind with (R := fun _ S' => S' = S <| sp_pending := l |>).
  { apply on_mod_engine; try done. intros w HS. rewrite <- HS. unfold shape_of. cbn.
    apply (f_equal sp_pending) in HS. cbn in HS. by rewrite HS, Hp. }
  intros _ S' ->. eapply on_bind; [apply (on_release_cb S o l (fun _ S' => S' = released o l S)); done|].
  intros _ S' ->. eapply on_mono; [apply IH; [by apply wf_released| |]|].
  - apply listed_released; [done|]. apply (wf_pending _ _ Hwf). rewrite Hp. by left.
  - unfold released, freed. destruct o; cbn in Hf |- *; lia.
  - intros _ S' (? & ? & ? & Hd & Hm). split_and!; [done|done|done| |]; rewrite ?Hd, ?Hm; by destruct o.
Qed.

(** What is true between two calls. *)
Record at_rest S : Prop := {
  ar_wf : wf None S;
  ar_listed : listed None S;
  ar_pending : sp_pending S = [];
  ar_depth : sp_depth S = 0
}.

(** What is true inside an operation. *)
Record in_operation S : Prop := {
  io_wf : wf None S;
  io_listed : listed None S;
  io_depth : sp_depth S = 1
}.

Lemma wf_depth U S d : wf U S -> wf U (S <| sp_depth := d |>).
Proof. intros []. by constructor. Qed.

Lemma on_operation_leave S :
  in_operation S -> on S kcpmux_engine_operation_leave (fun _ S' => at_rest S' /\
    sp_conn_map S' = sp_conn_map S).
Proof.
  intros [Hwf HL Hd]. unfold kcpmux_engine_operation_leave.
  eapply on_calm_bind; [apply (calm_gets _ _ (fun d => d = 1)); intros w _ <-; exact Hd|].
  intros d Hd1. cbv beta in Hd1. subst d. cbn.
  assert (Hset : forall S d, on S (mod_engine (fun e => e <| e_operation_depth := d |>))
    (fun _ S' => S' = S <| sp_depth := d |>)).
  { intros S0 d. apply on_mod_engine; try done. by intros w <-. }
  eapply on_bind; [apply Hset|]. intros _ S' ->.
  eapply on_bind; [apply Hset|]. intros _ S' ->.
  eapply on_bind with (R := fun _ S' => wf None S' /\ listed None S' /\ sp_pending S' = [] /\ sp_depth S' = 1 /\
    sp_conn_map S' = sp_conn_map S).
  { unfold kcpmux_engine_drain_pending_release.
    eapply on_calm_bind; [apply (calm_gets _ _ (fun n => n = length (sp_pending S)))|].
    - intros w _ HS. apply (f_equal sp_pending) in HS. cbn in HS. by rewrite HS.
    - intros n Hn. cbv beta in Hn. subst n. 
      eapply on_mono; [apply on_drain_loop; [by do 2 apply wf_depth|by apply (listed_view _ S)|done]|].
      intros _ S' (? & ? & ? & ? & ?). by split_and!. }
  intros _ S1 (Hwf1 & HL1 & Hp1 & Hd1 & Hm1). eapply on_bind; [apply Hset|]. intros _ S' ->.
  eapply on_calm_bind; [apply calm_now|]. intros now _.
  eapply on_calm; [apply calm_rearm|]. intros [] _. split; [|done].
  constructor; [by apply wf_depth|by apply (listed_view _ S1)|done|done].
Qed.

(** What one knows just after [kcpmux_engine_operation_enter]. *)
Definition entered S S' : Prop :=
  in_operation S' /\ sp_conns S' = sp_conns S /\ sp_streams S' = sp_streams S /\
  sp_conn_map S' = sp_conn_map S.

Lemma on_entered S : at_rest S -> on S kcpmux_engine_operation_enter (fun _ S' => entered S S').
Proof.
  intros [Hwf HL Hp Hd]. apply on_enter. split; [|done].
  constructor; [by apply wf_depth|by apply (listed_view _ S)|]. cbn. by rewrite Hd.
Qed.

Lemma on_enter_op {A} S (m : W A) Q :
  at_rest S -> (forall S', entered S S' -> on S' m Q) -> on S (kcpmux_engine_operation_enter;; m) Q.
Proof. intros HS Hm. eapply on_bind; [by apply on_entered|]. intros []. apply Hm. Qed.
End safe.
