(* ===== verification/Safe.v ===== *)
(** * Handlers and entry points run to completion

    [tame] computations run inside an operation: they may open and close
    objects, keep the object graph well formed and free nothing.  Every handler
    of the library is tame; an entry point runs a tame computation between
    operation boundaries. *)

From S2P Require Import Prelude Types Timer TimerProofs TimerSpec ByteOrder Hashtable Vectored World Engine Conn Messages Stream Mux Deadlines Wire Shape Steps Calm Wf Listed Closing.
From stdpp Require Import gmap.
#[local] Open Scope Z_scope.

Section tame_rules.
Context {KO : Kcp} {HO : Host}.
Implicit Types (c s : positive) (w : world K) (S : shape).

Definition tame {A} S (m : W A) : Prop :=
  on S m (fun _ S' => in_operation S' /\ sp_nodes S ⊆ sp_nodes S').

Lemma tame_calm {A} S (m : W A) R : in_operation S -> calm S m R -> tame S m.
Proof. intros HS Hm. eapply on_calm; [exact Hm|]. intros _ _. by split. Qed.

Lemma tame_ret {A} S (a : A) : in_operation S -> tame S (mret a).
Proof. intros HS. by apply on_ret. Qed.

Lemma tame_calm_bind {A B} S (m : W A) (f : A -> W B) R :
  calm S m R -> (forall a, R a -> tame S (f a)) -> tame S (m ≫= f).
Proof. apply on_calm_bind. Qed.

Lemma tame_seq {A B} S (m : W A) (f : A -> W B) :
  tame S m -> (forall a S', in_operation S' -> sp_nodes S ⊆ sp_nodes S' -> tame S' (f a)) ->
  tame S (m ≫= f).
Proof.
  intros Hm Hf. eapply on_bind; [exact Hm|]. intros a S' [HS' Hn].
  eapply on_mono; [by apply Hf|]. intros b S'' [? ?]. split; [done|]. by etrans.
Qed.

Lemma tame_when S b (m : W unit) :
  in_operation S -> (b = true -> tame S m) -> tame S (when b m).
Proof. intros HS Hm. destruct b; [by apply Hm|by apply tame_ret]. Qed.

(** Objects stay usable until the end of the operation. *)
Lemma in_operation_conn S c : in_operation S -> OConn c ∈ sp_nodes S -> conn_ready S c.
Proof.
  intros [Hwf _ _] Hc. apply (wf_nodes _ _ Hwf) in Hc as [b Hb]. cbn in Hb.
  destruct (sp_conns S !! c) as [x|] eqn:Hx; [|done]. by eapply wf_conn_ready.
Qed.

Lemma in_operation_stream S s : in_operation S -> OStream s ∈ sp_nodes S -> stream_ready S s.
Proof.
  intros [Hwf _ _] Hs. apply (wf_nodes _ _ Hwf) in Hs as [b Hb]. cbn in Hb.
  destruct (sp_streams S !! s) as [y|] eqn:Hy; [|done]. by eapply wf_stream_ready.
Qed.

Lemma conn_ready_later S S' c :
  in_operation S' -> sp_nodes S ⊆ sp_nodes S' -> conn_ready S c -> conn_ready S' c.
Proof. intros HS' Hn Hc. apply in_operation_conn; [done|]. apply Hn. by apply conn_ready_node. Qed.

Lemma stream_ready_later S S' s :
  in_operation S' -> sp_nodes S ⊆ sp_nodes S' -> stream_ready S s -> stream_ready S' s.
Proof. intros HS' Hn Hs. apply in_operation_stream; [done|]. apply Hn. by apply stream_ready_node. Qed.

Lemma tame_stream_close S s r :
  in_operation S -> stream_ready S s -> tame S (kcpmux_stream_close_internal s r).
Proof.
  intros HS (y & Hy & (x & Hx & _) & _). destruct HS as [Hwf HL Hd].
  destruct (sh_closed y) eqn:Hcl.
  - eapply on_stream_close_again; [done|done|]. split; [|done]. by split.
  - eapply on_stream_close; [done|done|done|done|]. split; [|done].
    split; [by apply wf_sclose|by apply (listed_view _ S); [apply tview_sclose|]|done].
Qed.

Lemma tame_conn_close S c r :
  in_operation S -> conn_ready S c -> tame S (kcpmux_conn_close_internal c r).
Proof.
  intros HS (x & Hx & _). destruct HS as [Hwf HL Hd]. destruct (ch_closed x) eqn:Hcl.
  - eapply on_conn_close_again; [done|done|]. split; [|done]. by split.
  - eapply on_mono; [by eapply on_conn_close|]. intros _ S' (Hwf' & Hn & Hd' & Ht & _).
    rewrite Hn. split; [|done]. split; [done| |congruence].
    by apply (listed_view _ (cmark c x S)), listed_cmark.
Qed.
End tame_rules.

Create HintDb tame discriminated.
#[export] Hint Constants Opaque : tame.
#[export] Hint Resolve tame_stream_close tame_conn_close : tame.
#[export] Hint Resolve in_operation_conn in_operation_stream conn_ready_later stream_ready_later : shape.

Ltac tame_step :=
  lazymatch goal with
  | |- tame _ (mret _) => apply tame_ret; assumption
  | |- tame _ (get_conn _ ≫= _) => eapply tame_calm_bind; [apply calm_get_conn; shape_side|calm_intro]
  | |- tame _ (get_stream _ ≫= _) => eapply tame_calm_bind; [apply calm_get_stream; shape_side|calm_intro]
  | |- tame _ (_ ≫= _) =>
      first [ apply (tame_calm_bind _ _ _ (fun _ => True)); [solve [calm]|intros ? _]
            | apply tame_seq; [|let S := fresh "S" in intros ? S ? ?] ]
  | |- tame _ (when _ _) => apply tame_when; [assumption|intros ?]
  | |- tame _ (match _ with _ => _ end) => case_match
  | |- tame _ (let _ := _ in _) => cbv zeta
  | |- tame _ _ =>
      split_guards;
      first [ solve [eauto 4 with tame shape] | apply (tame_calm _ _ (fun _ => True)); [assumption|solve [calm]] ]
  end.
Ltac tame := repeat tame_step.

Section handlers.
Context {KO : Kcp} {HO : Host}.
Implicit Types (c s : positive) (w : world K) (S : shape).

Lemma tame_advance S s now :
  in_operation S -> stream_ready S s -> tame S (kcpmux_stream_advance_local_close s now).
Proof. intros HS Hs. unfold kcpmux_stream_advance_local_close. tame. Qed.
#[local] Hint Resolve tame_advance : tame.

Lemma tame_stream_close_body S s : in_operation S -> stream_ready S s -> tame S (stream_close_body s).
Proof. intros HS Hs. unfold stream_close_body. tame. Qed.

Lemma tame_stream_update_body S s now :
  in_operation S -> stream_open S s -> tame S (stream_update_body s now).
Proof. intros HS Hs. unfold stream_update_body. tame. Qed.
#[local] Hint Resolve tame_stream_update_body : tame.

Lemma tame_stream_update S s now :
  in_operation S -> stream_ready S s -> tame S (kcpmux_stream_update s now).
Proof. intros HS Hs. unfold kcpmux_stream_update. tame. Qed.

Lemma tame_stream_handle_close S s r :
  in_operation S -> stream_ready S s -> tame S (kcpmux_stream_handle_close s r).
Proof. intros HS Hs. unfold kcpmux_stream_handle_close. tame. Qed.

Lemma tame_conn_update_body S c now :
  in_operation S -> conn_ready S c -> tame S (conn_update_body c now).
Proof. intros HS Hc. unfold conn_update_body. tame. Qed.
#[local] Hint Resolve tame_conn_update_body : tame.

Lemma tame_conn_update S c now :
  in_operation S -> conn_ready S c -> tame S (kcpmux_conn_update c now).
Proof. intros HS Hc. unfold kcpmux_conn_update. tame. Qed.

Lemma tame_conn_close_body S c : in_operation S -> conn_ready S c -> tame S (conn_close_body c).
Proof. intros HS Hc. unfold conn_close_body. tame. Qed.
End handlers.

(** ** New objects *)

(** What the host must respect in its answers: C types of configurations, and
    an extension buffer of 512 bytes with an unsigned length. *)
Record host_ok {HO : Host} : Prop := {
  ho_connect tr f c :
    let ext := cr_ext (host_conn_connect_notify tr f c) in
    0 <= pe_len ext /\ KCPMUX_PROTO_EXT_MAX_LEN <= Z.of_nat (length (pe_data ext));
  ho_create tr f s a : a ∈ sr_setters (host_stream_create_notify tr f s) -> stream_setter_ok a
}.

Section creation.
Context {KO : Kcp} {HO : Host}.
Implicit Types (c s : positive) (w : world K) (S : shape).

Lemma conn_added_again c x x' S :
  (conn_added c x S) <| sp_conns ::= <[c := x']> |> = conn_added c x' S.
Proof. unfold conn_added. cbn. by rewrite insert_insert_eq. Qed.

Lemma stream_added_again s y y' S :
  (stream_added s y S) <| sp_streams ::= <[s := y']> |> = stream_added s y' S.
Proof. unfold stream_added. cbn. by rewrite insert_insert_eq. Qed.

Lemma conn_added_lookup c x S : sp_conns (conn_added c x S) !! c = Some x.
Proof. apply lookup_insert_eq. Qed.
Lemma stream_added_lookup s y S : sp_streams (stream_added s y S) !! s = Some y.
Proof. apply lookup_insert_eq. Qed.

Lemma freed_conn_added S x :
  wf None S -> freed (OConn (sp_next S)) (conn_added (sp_next S) x S) = bump S.
Proof.
  intros Hwf. destruct (wf_fresh Hwf) as [Hc _]. destruct (wf_fresh_nodes Hwf) as [Hn _].
  unfold freed, conn_added, bump. cbn in Hc |- *. rewrite delete_insert_id; [|by destruct (sp_conns S !! _)].
  replace (({[OConn (sp_next S)]} ∪ sp_nodes S) ∖ {[OConn (sp_next S)]}) with (sp_nodes S) by set_solver.
  by destruct S.
Qed.

Lemma freed_stream_added S y :
  wf None S -> freed (OStream (sp_next S)) (stream_added (sp_next S) y S) = bump S.
Proof.
  intros Hwf. destruct (wf_fresh Hwf) as [_ Hs]. destruct (wf_fresh_nodes Hwf) as [_ Hn].
  unfold freed, stream_added, bump. cbn in Hs |- *. rewrite delete_insert_id; [|by destruct (sp_streams S !! _)].
  replace (({[OStream (sp_next S)]} ∪ sp_nodes S) ∖ {[OStream (sp_next S)]}) with (sp_nodes S) by set_solver.
  by destruct S.
Qed.

Lemma fresh_unregistered S :
  wf None S -> (OConn (sp_next S) ∉ sp_registered S) /\ (OStream (sp_next S) ∉ sp_registered S).
Proof.
  intros Hwf. destruct (wf_fresh Hwf) as [Hc Hs].
  rewrite !(wf_registered _ _ Hwf), Hc, Hs. by split.
Qed.

Lemma in_operation_bump S : in_operation S -> in_operation (bump S).
Proof. intros [Hwf HL Hd]. split; [by apply wf_bump|by apply (listed_view _ S)|done]. Qed.

(** A connection fresh from [kcpmux_conn_new]. *)
Record conn_fresh (init : bool) (x : cshape) : Prop := {
  cf_closed : ch_closed x = false;
  cf_in_map : ch_in_map x = false;
  cf_init : ch_init x = init;
  cf_size : 0 < htb_size (ch_map x);
  cf_entries : entries (ch_map x) = [];
  cf_ext : ext_ok (ch_ext x)
}.

Definition conn_new_post (init : bool) S (oc : option positive) S' : Prop :=
  match oc with
  | None => S' = S \/ S' = bump S \/ (sp_next_id S <> 0 /\ S' = bump (took_id S))
  | Some c => c = sp_next S /\ sp_next_id S <> 0 /\
      exists x, conn_fresh init x /\ ch_id x = sp_next_id S /\ S' = conn_linked c x (took_id S)
  end.

Lemma on_abandon_conn S x (Q : option positive -> shape -> Prop) :
  wf None S -> Q None (bump S) ->
  on (conn_added (sp_next S) x S) (free_obj (OConn (sp_next S));; mret None) Q.
Proof.
  intros Hwf HQ. eapply on_bind with (R := fun _ S' => S' = bump S).
  - apply on_free_obj; [exact (proj1 (fresh_unregistered S Hwf))|by apply freed_conn_added].
  - intros _ S' ->. by apply on_ret.
Qed.

Lemma on_mod_new_conn {A} S c x f g (m : W A) Q :
  (forall k, cshape_of k = x -> cshape_of (f k) = g x) ->
  on (conn_added c (g x) S) m Q -> on (conn_added c x S) (mod_conn c f;; m) Q.
Proof.
  intros Hf Hm. eapply on_bind with (R := fun _ S' => S' = conn_added c (g x) S).
  - eapply on_mod_conn; [apply conn_added_lookup|]. intros k Hk. rewrite (Hf k Hk). apply conn_added_again.
  - by intros _ S' ->.
Qed.

(** From the moment the identifier is taken. *)
Lemma on_conn_new_rest S c x cfg init e :
  wf None S -> sp_next_id S <> 0 -> c = sp_next S -> ch_closed x = false -> ch_in_map x = false ->
  ch_init x = init -> ext_ok (ch_ext x) -> ch_id x = sp_next_id S ->
  on (conn_added c x (took_id S))
    (match kcpmux_conn_config_prepare (default (e_default_conn_config e) cfg) with
     | None => free_obj (OConn c);; mret None
     | Some cfg =>
         mod_conn c (fun k => k <| c_config := cfg |>);;
         r ← kcpmux_engine_random_u64 (e_callbacks e);
         mod_conn c (fun k => k <| c_next_stream_id := first_stream_id init r |>);;
         om ← htb_new 32;
         match om with
         | None => free_obj (OConn c);; mret None
         | Some m =>
             mod_conn c (fun k => k <| c_stream_map := m |>);;
             ret ← kcpmux_engine_register_timer_node (OConn c) conn_timer_callback;
             if negb (ret =? KCPMUX_ERR_OK) then free_obj (OConn c);; mret None
             else
               now ← kcpmux_engine_now;
               mod_conn c (fun k => k <| c_created_ts := now |>
                                      <| c_last_recv_ts := now |>
                                      <| c_last_keepalive_ts := now |>
                                      <| c_last_payload_ts := now |>);;
               mod_stats (fun st => st <| es_conn_created_total ::= inc64 |>);;
               mret (Some c)
         end
     end) (conn_new_post init S).
Proof.
  intros Hwf Hne -> Hcl Him Hi He Hid. set (c := sp_next S). pose proof (wf_took_id _ _ Hwf) as Hwf1.
  assert (Habandon : forall x, on (conn_added c x (took_id S)) (free_obj (OConn c);; mret None) (conn_new_post init S)).
  { intros y. apply (on_abandon_conn (took_id S)); [done|]. right. by right. }
  case_match; [|done].
  apply (on_mod_new_conn _ c _ _ id); [by intros k <-|].
  eapply on_calm_bind; [apply calm_random|]. intros r _.
  apply (on_mod_new_conn _ c _ _ id); [by intros k <-|].
  eapply on_calm_bind; [apply calm_htb_new|]. intros [m|] Hm; [|done].
  destruct (Hm m eq_refl) as [Hms Hme].
  apply (on_mod_new_conn _ c _ _ (fun x => x <| ch_map := m |>)); [by intros k <-|].
  set (x2 := (id (id x)) <| ch_map := m |>). assert (Hx2 : conn_fresh init x2) by by constructor.
  eapply on_bind with (R := fun r S' => r <> KCPMUX_ERR_OK /\ S' = conn_added c x2 (took_id S) \/
    r = KCPMUX_ERR_OK /\ S' = conn_linked c x2 (took_id S)).
  { apply (on_register _ (OConn c)); [cbn; set_solver|exact (proj1 (fresh_unregistered _ Hwf1))|by left|by right]. }
  intros ret S' [[Hr ->]|[-> ->]]; [by rewrite (proj2 (Z.eqb_neq _ _) Hr)|].
  rewrite Z.eqb_refl. cbn [negb].
  eapply on_calm_bind; [apply calm_now|]. intros now _.
  eapply on_calm_bind.
  { apply calm_mod_conn; [exists x2; apply lookup_insert_eq|intros; reflexivity]. }
  intros _ _. eapply on_calm_bind; [by apply calm_mod_engine|]. intros _ _.
  apply on_ret. split; [done|]. split; [done|]. by exists x2.
Qed.

Lemma on_conn_new S a cfg init :
  wf None S -> on S (kcpmux_conn_new a cfg init) (conn_new_post init S).
Proof.
  intros Hwf. unfold kcpmux_conn_new. destruct a as [a|]; [|apply on_ret; by left].
  case_match; [apply on_ret; by left|]. case_match; [apply on_ret; by left|].
  set (c := sp_next S).
  eapply on_bind with (R := fun oc S' => oc = None /\ S' = S \/
    oc = Some c /\ S' = conn_added c (cshape_of conn_zero) S).
  { apply on_malloc_conn; [exact (proj1 (wf_fresh_nodes Hwf))|by left|by right]. }
  intros oc S' [[-> ->]|[-> ->]]; [apply on_ret; by left|].
  apply (on_mod_new_conn S c _ _ (fun x => x <| ch_init := init |>)); [by intros k <-|].
  set (x1 := (cshape_of conn_zero) <| ch_init := init |>).
  eapply on_calm_bind.
  { apply (calm_get_engine _ (fun e => e_next_connection_id e = sp_next_id S)).
    intros w _ Hw. by apply (f_equal sp_next_id) in Hw. }
  intros e He. cbv beta in He. destruct (Z.eqb_spec (e_next_connection_id e) 0) as [|Hne].
  { apply on_abandon_conn; [done|]. right. by left. }
  apply (on_mod_new_conn S c _ _ (fun x => x <| ch_id := e_next_connection_id e |>)); [by intros k <-|].
  set (x2 := x1 <| ch_id := e_next_connection_id e |>).
  eapply on_bind with (R := fun _ S' => S' = conn_added c x2 (took_id S)).
  { apply on_mod_engine; try done. intros w Hw.
    change (conn_added c x2 (took_id S)) with ((conn_added c x2 S) <| sp_next_id ::= inc64 |>). by rewrite <- Hw. }
  intros _ S' ->. rewrite He in Hne. by apply on_conn_new_rest.
Qed.

(** A connection between [kcpmux_conn_new] and [kcpmux_engine_add_conn]. *)
Record opening_conn S c : Prop := {
  oc_wf : wf None S;
  oc_listed : listed (Some c) S;
  oc_depth : sp_depth S = 1;
  oc_conn : exists x, sp_conns S !! c = Some x /\ ch_closed x = false /\ ch_in_map x = false
}.

Lemma opening_ready S c : opening_conn S c -> conn_ready S c.
Proof. intros [Hwf _ _ (x & Hx & _)]. by apply (wf_conn_ready Hwf c x). Qed.

Lemma opening_conn_new S c x init :
  in_operation S -> sp_next_id S <> 0 -> c = sp_next S -> conn_fresh init x -> ch_id x = sp_next_id S ->
  opening_conn (conn_linked c x (took_id S)) c /\ sp_nodes S ⊆ sp_nodes (conn_linked c x (took_id S)).
Proof.
  intros [Hwf HL Hd] Hne -> Hx Hid. split; [|cbn; set_solver].
  split; [|by apply listed_conn_linked|done|].
  - destruct Hx. apply (wf_conn_linked (took_id S)); [by apply wf_took_id|done..].
  - exists x. destruct Hx. split_and!; [apply lookup_insert_eq|done|done].
Qed.

Lemma in_operation_took S : in_operation S -> sp_next_id S <> 0 -> in_operation (took_id S).
Proof. intros [Hwf HL Hd] Hne. split; [by apply wf_took_id|by apply listed_took_id|done]. Qed.

Lemma in_operation_no_conn S init S' :
  in_operation S -> conn_new_post init S None S' -> in_operation S' /\ sp_nodes S ⊆ sp_nodes S'.
Proof.
  intros HS [->|[->|[Hne ->]]]; (split; [|done]); [done|by apply in_operation_bump|].
  by apply in_operation_bump, in_operation_took.
Qed.

(** A stream fresh from [kcpmux_stream_new]. *)
Record stream_fresh c (id : Z) (y : sshape) : Prop := {
  sf_conn : sh_conn y = c;
  sf_id : sh_id y = id;
  sf_closed : sh_closed y = false;
  sf_in_map : sh_in_map y = false;
  sf_kcp : sh_kcp y = true;
  sf_mss : 1 <= sh_mss y
}.

Definition stream_registered s y S : shape := stream_added s y S <| sp_registered ::= union {[OStream s]} |>.

Definition stream_new_post c (id : Z) S (os : option positive) S' : Prop :=
  match os with
  | None => S' = S \/ S' = bump S
  | Some s => s = sp_next S /\ exists y, stream_fresh c id y /\ S' = stream_registered s y S
  end.

Lemma on_abandon_stream S y c id :
  wf None S ->
  on (stream_added (sp_next S) y S) (free_obj (OStream (sp_next S));; mret None) (stream_new_post c id S).
Proof.
  intros Hwf. eapply on_bind with (R := fun _ S' => S' = bump S).
  - apply on_free_obj; [exact (proj2 (fresh_unregistered S Hwf))|by apply freed_stream_added].
  - intros _ S' ->. apply on_ret. by right.
Qed.

Lemma on_mod_new_stream {A} S s y f g (m : W A) Q :
  (forall st, sshape_of st = y -> pend_ok st ->
     s_pending_count (f st) = s_pending_count st /\
     sc_batch_threshold (s_config (f st)) < 2 ^ 32 /\
     s_internal_closed (f st) = s_internal_closed st /\ sshape_of (f st) = g y) ->
  on (stream_added s (g y) S) m Q -> on (stream_added s y S) (mod_stream s f;; m) Q.
Proof.
  intros Hf Hm. eapply on_bind with (R := fun _ S' => S' = stream_added s (g y) S).
  - eapply on_mod_stream; [apply stream_added_lookup|]. intros st Hst Hp.
    destruct (Hf st Hst Hp) as (? & ? & ? & ->). split_and!; try done. apply stream_added_again.
  - by intros _ S' ->.
Qed.

Lemma stream_registered_ready S s y c :
  conn_ready S c -> OStream s ∉ sp_nodes S -> stream_fresh c (sh_id y) y ->
  stream_ready (stream_registered s y S) s.
Proof.
  intros (x & Hx & [Hsz Hl] & He & Hn) Hs []. exists y. split; [apply lookup_insert_eq|].
  split; [|split; [cbn; set_solver|intros _; split_and!; [done|done|cbn; set_solver]]].
  exists x. rewrite sf_conn0. split; [done|]. split; [|split; [done|cbn; set_solver]].
  split; [done|]. intros z Hz. cbn. apply lookup_insert_is_Some'. right. by apply Hl.
Qed.

Lemma on_stream_new S c id cfg init :
  wf None S -> conn_ready S c -> sconfig_arg cfg ->
  on S (kcpmux_stream_new c id cfg init) (stream_new_post c id S).
Proof.
  intros Hwf Hc Hcfg. unfold kcpmux_stream_new. case_match; [apply on_ret; by left|].
  set (s := sp_next S). destruct (wf_fresh_nodes Hwf) as [_ Hfn]. fold s in Hfn.
  eapply on_bind with (R := fun os S' => os = None /\ S' = S \/
    os = Some s /\ S' = stream_added s (sshape_zero c) S).
  { apply on_malloc_stream; [done|by left|by right]. }
  intros os S' [[-> ->]|[-> ->]]; [apply on_ret; by left|].
  apply (on_mod_new_stream S s _ _ (fun y => y <| sh_id := id |>)).
  { intros st Hst [? ?]. split_and!; try done. by rewrite <- Hst. }
  set (y1 := (sshape_zero c) <| sh_id := id |>).
  eapply on_calm_bind; [apply calm_get_conn; by apply (conn_ready_some S)|]. intros _ _.
  eapply on_calm_bind.
  { apply (calm_get_engine _ (fun e => sconfig_ok (e_default_stream_config e))). intros w Hw _. apply Hw. }
  intros e He. cbv beta in He.
  destruct (kcpmux_stream_config_prepare _) as [y|] eqn:Hy; [|by apply on_abandon_stream].
  assert (Hok : sconfig_ok (default (e_default_stream_config e) cfg))
    by (destruct cfg as [z|]; [by apply (Hcfg z)|done]).
  apply prepare_ok in Hy as [Hy Hmss]; [|done]. rewrite Hy in Hok.
  apply (on_mod_new_stream S s _ _ (fun z => z <| sh_mss := sc_kcp_mss y |>)).
  { intros st Hst [? ?]. split_and!; try done; [by apply Hok|]. by rewrite <- Hst. }
  set (y2 := y1 <| sh_mss := sc_kcp_mss y |>).
  eapply on_calm_bind; [by apply (calm_ask _ _ _ (fun _ => True))|]. intros [kcp|] _; [|by apply on_abandon_stream].
  apply (on_mod_new_stream S s _ _ (fun z => z <| sh_kcp := true |>)).
  { intros st Hst [? ?]. split_and!; try done. by rewrite <- Hst. }
  set (y3 := y2 <| sh_kcp := true |>).
  assert (Hy3 : stream_fresh c id y3) by (constructor; cbn; done).
  eapply on_bind with (R := fun r S' => r <> KCPMUX_ERR_OK /\ S' = stream_added s y3 S \/
    r = KCPMUX_ERR_OK /\ S' = stream_registered s y3 S).
  { apply (on_register _ (OStream s)); [cbn; set_solver|exact (proj2 (fresh_unregistered S Hwf))|by left|by right]. }
  intros ret S' [[Hr ->]|[-> ->]].
  { rewrite (proj2 (Z.eqb_neq _ _) Hr). eapply on_calm_bind; [apply calm_emit|]. intros _ _.
    by apply on_abandon_stream. }
  rewrite Z.eqb_refl. cbn [negb].
  assert (Hrd : stream_ready (stream_registered s y3 S) s).
  { apply (stream_registered_ready S s y3 c); [done|done|]. by destruct Hy3; constructor. }
  eapply on_calm with (R := fun os => os = Some s).
  - do 4 (apply (calm_bind _ _ _ (fun _ => True)); [calm|intros ? _]).
    eapply calm_bind; [apply calm_get_stream; shape_side|]. intros st _.
    eapply calm_bind; [by apply calm_stream_refresh|]. intros _ _. by apply calm_ret.
  - intros os ->. split; [done|]. by exists y3.
Qed.
End creation.

Section opening.
Context {KO : Kcp} {HO : Host} (Hhost : host_ok).
Implicit Types (c s : positive) (w : world K) (S : shape).

#[local] Hint Resolve tame_advance tame_stream_close_body tame_stream_update tame_stream_handle_close
  tame_conn_update tame_conn_close_body : tame.

(** A new stream enters the table of its connection. *)
Lemma on_link_stream S c x id y :
  in_operation S -> sp_conns S !! c = Some x -> ch_closed x = false -> stream_fresh c id y ->
  sfind S (ch_map x) id = Some None ->
  on (stream_registered (sp_next S) y S) (kcpmux_conn_add_stream c (sp_next S))
    (fun _ S' => in_operation S' /\ sp_nodes S ⊆ sp_nodes S' /\ OStream (sp_next S) ∈ sp_nodes S').
Proof.
  intros [Hwf HL Hd] Hx Hcl [Hyc Hyi Hycl Him Hk Hmss] Hf. set (s := sp_next S).
  destruct (wf_fresh Hwf) as [_ Hfs]. fold s in Hfs.
  pose proof (wf_conn_ready Hwf c x Hx) as (x' & Hx' & [Hsz Hl] & _).
  rewrite Hx in Hx'. injection Hx' as <-.
  apply (on_add_stream _ c s x y); try done.
  - apply lookup_insert_eq.
  - split; [done|]. intros z Hz. cbn. apply lookup_insert_is_Some'. right. by apply Hl.
  - rewrite <- Hf, Hyi. apply htb_find_ext. intros z Hz. cbn. rewrite lookup_insert_ne; [done|].
    intros <-. destruct (Hl s Hz) as [y' Hy']. cbn in Hfs. by rewrite Hy' in Hfs.
  - intros m Hms Hme.
    set (S2 := stream_linked s (y <| sh_in_map := true |>) c (x <| ch_map := m |>) S).
    match goal with |- in_operation ?z /\ _ => assert (z = S2) as -> end.
    { unfold S2, stream_linked, stream_registered, stream_added. destruct S. cbn.
      by rewrite insert_insert_eq. }
    split; [split; [by apply wf_stream_linked|by apply (listed_view _ S); [apply tview_stream_linked|]|done]|].
    split; cbn; set_solver.
Qed.

Lemma tame_stream_create_body S c cfg cbs ud x :
  in_operation S -> sp_conns S !! c = Some x -> ch_closed x = false -> sconfig_arg cfg ->
  tame S (stream_create_body c cfg cbs ud).
Proof.
  intros HS Hx Hcl Hcfg. assert (Hc : conn_ready S c) by by apply (wf_conn_ready (io_wf _ HS) c x).
  unfold stream_create_body. do 2 tame_step; [].
  case_match; [by apply tame_ret|].
  eapply tame_calm_bind; [by apply (calm_alloc_stream_id _ _ x)|]. intros id Hid. cbv beta in Hid.
  destruct (Z.eqb_spec id 0) as [|Hne]; [by apply tame_ret|]. specialize (Hid Hne).
  eapply on_bind; [apply on_stream_new; [apply HS|done|done]|].
  intros [s|] S' Hpost; cbn in Hpost; cycle 1.
  { apply on_ret. destruct Hpost as [-> | ->]; [by split|].
    split; [by apply in_operation_bump|done]. }
  destruct Hpost as (-> & y & Hy & ->).
  assert (Hrd : stream_ready (stream_registered (sp_next S) y S) (sp_next S)).
  { apply (stream_registered_ready S _ y c); [done|apply (proj2 (wf_fresh_nodes (io_wf _ HS)))|].
    by destruct Hy; constructor. }
  eapply on_calm_bind with (R := fun _ => True); [calm|]. intros _ _.
  eapply on_calm_bind with (R := fun _ => True); [calm|]. intros _ _.
  eapply on_bind; [by apply (on_link_stream S c x id)|]. intros _ S' (? & ? & _).
  by apply on_ret.
Qed.

Lemma tame_accept_stream S b c id t f x :
  in_operation S -> sp_conns S !! c = Some x -> ch_closed x = false -> sfind S (ch_map x) id = Some None ->
  tame S (accept_stream b c id t f).
Proof.
  intros HS Hx Hcl Hf. assert (Hc : conn_ready S c) by by apply (wf_conn_ready (io_wf _ HS) c x).
  unfold accept_stream.
  eapply on_bind; [apply on_stream_new; [apply HS|done|by intros ?]|].
  intros [s|] S' Hpost; cbn in Hpost; cycle 1.
  { apply on_ret. destruct Hpost as [-> | ->]; [by split|].
    split; [by apply in_operation_bump|done]. }
  destruct Hpost as (-> & y & Hy & ->).
  eapply on_bind; [by apply (on_link_stream S c x id)|]. intros _ S' (HS' & Hn & Hs).
  eapply on_mono with (R := fun _ S'' => in_operation S'' /\ sp_nodes S' ⊆ sp_nodes S'');
    [|intros ? ? [? ?]; split; [done|by etrans]].
  set (s := sp_next S) in *. assert (Hrd : stream_ready S' s) by by apply in_operation_stream.
  assert (Hc' : conn_ready S' c) by by eapply conn_ready_later.
  match goal with |- on ?T ?m _ => change (tame T m) end.
  do 2 tame_step; [].
  eapply tame_calm_bind.
  { apply (calm_ask _ _ _ (fun r => forall a, a ∈ sr_setters r -> stream_setter_ok a)).
    intros tr a'. apply (ho_create Hhost). }
  intros resp Hresp.
  eapply tame_calm_bind with (R := fun _ => True).
  { apply calm_for_each. intros q Hq. apply calm_stream_setter; auto. }
  intros _ _. tame.
Qed.
(** ** Connections that open *)

Lemma on_leave_ret S (r : option positive) :
  in_operation S -> on S (kcpmux_engine_operation_leave;; mret r) (fun _ S' => at_rest S').
Proof.
  intros HS. eapply on_bind; [by apply on_operation_leave|]. intros [] S' [HS' _]. by apply on_ret.
Qed.

(** A store into an open connection that keeps its links. *)
Record same_links (x x' : cshape) : Prop := {
  sl_view : cview x' = cview x;
  sl_map : ch_map x' = ch_map x;
  sl_init : ch_init x' = ch_init x
}.

Lemma wf_same_links U S c x x' :
  wf U S -> sp_conns S !! c = Some x -> ch_closed x = false -> same_links x x' -> ext_ok (ch_ext x') ->
  wf U (upd_conn c x' S).
Proof. intros Hwf Hx Hcl [[= H1 H2 H3] Hm Hi] He. apply (wf_upd_conn _ _ _ x); congruence. Qed.

Lemma in_operation_upd_conn S c x x' :
  in_operation S -> sp_conns S !! c = Some x -> ch_closed x = false -> same_links x x' ->
  ext_ok (ch_ext x') -> in_operation (upd_conn c x' S).
Proof.
  intros [Hwf HL Hd] Hx Hcl Hl He. split; [by apply (wf_same_links _ _ _ x)| |done].
  apply (listed_view _ S); [|done]. apply (tview_upd_conn _ x); [done|apply Hl].
Qed.

Lemma opening_upd_conn S c x x' :
  opening_conn S c -> sp_conns S !! c = Some x -> same_links x x' -> ext_ok (ch_ext x') ->
  opening_conn (upd_conn c x' S) c.
Proof.
  intros [Hwf HL Hd (x0 & Hx0 & Hcl & Him)] Hx Hl He. rewrite Hx in Hx0. injection Hx0 as <-.
  split; [by apply (wf_same_links _ _ _ x)| |done|].
  - apply (listed_view _ S); [|done]. apply (tview_upd_conn _ x); [done|apply Hl].
  - exists x'. destruct Hl as [[= H1 H2 _] _ _]. split; [apply lookup_insert_eq|]. split; congruence.
Qed.

Lemma on_enter_tables S c :
  opening_conn S c ->
  on S (kcpmux_engine_add_conn c) (fun _ S' => in_operation S' /\ sp_nodes S' = sp_nodes S /\
    exists x, sp_conns S' !! c = Some x /\ ch_closed x = false).
Proof.
  intros [Hwf HL Hd (x & Hx & Hcl & Him)].
  assert (Hni : c ∉ entries (sp_conn_map S)) by (intros (x' & ? & ?)%(wf_conn_map _ _ Hwf); congruence).
  apply (on_add_conn _ _ x); try done.
  - by apply (wf_conns_live Hwf).
  - by apply (wf_handshake_live Hwf).
  - by apply (listed_new_id S c).
  - intros m h Hms Hm Hh. split; [|split; [done|eexists; split; [apply lookup_insert_eq|done]]].
    split; [|by apply listed_add_conn|done].
    change (wf None (S <| sp_conn_map := m |> <| sp_handshake := h |>
      <| sp_conns ::= <[c := x <| ch_in_map := true |>]> |> <| sp_count ::= fun n => u32 (n + 1) |>)).
    apply wf_count, wf_add_conn; try done. split; [done|]. intros y. rewrite Hm. by apply elem_of_cons.
Qed.

(** An extension the caller passes: an unsigned length and its buffer. *)
Definition ext_arg (ext : option proto_ext) : Prop := forall x, ext = Some x ->
  0 <= pe_len x /\ KCPMUX_PROTO_EXT_MAX_LEN <= Z.of_nat (length (pe_data x)).

Lemma ext_store_ok bytes x :
  Z.of_nat (length bytes) <= KCPMUX_PROTO_EXT_MAX_LEN -> ext_ok (proto_ext_store bytes x).
Proof.
  intros Hl. unfold proto_ext_store. split; cbn; [lia|]. rewrite length_app. lia.
Qed.

Lemma on_set_self_ext S c len ext :
  opening_conn S c -> 0 < len <= KCPMUX_PROTO_EXT_MAX_LEN -> len <= Z.of_nat (length (pe_data ext)) ->
  on S (bytes ← deref (fun _ => read_bytes_at (Some (pe_data ext)) 0 len);
        mod_conn c (fun k => k <| c_self_proto_ext ::= proto_ext_store bytes |>))
    (fun _ S' => opening_conn S' c).
Proof.
  intros HS Hlen Hd. pose proof (oc_conn _ _ HS) as (x & Hx & _).
  eapply on_calm_bind with (R := fun bytes => Z.of_nat (length bytes) <= KCPMUX_PROTO_EXT_MAX_LEN).
  { apply calm_deref. intros w _ _. unfold read_bytes_at. cbn [mbind option_bind].
    rewrite (proj2 (Z.leb_le 0 0)), (proj2 (Z.leb_le (0 + len) _)) by lia. cbn [andb]. eexists. split; [done|]. rewrite length_take. lia. }
  intros bytes Hb. cbv beta in Hb. eapply on_mod_conn; [done|]. intros k Hk.
  apply (opening_upd_conn S c x); [done|done| |by apply ext_store_ok]. by rewrite <- Hk.
Qed.

Lemma on_connect S a cfg ext cbs ud :
  at_rest S -> ext_arg ext -> on S (kcpmux_conn_connect a cfg ext cbs ud) (fun _ S' => at_rest S').
Proof.
  intros HS Hext. unfold kcpmux_conn_connect. destruct a as [a|]; [|by apply on_ret].
  apply on_enter_op; [done|]. intros S1 [HS1 _].
  eapply on_calm_bind; [by apply calm_mod_engine|]. intros _ _.
  eapply on_bind; [apply on_conn_new, HS1|]. intros [c|] S2 Hpost; cycle 1.
  { apply on_leave_ret. by apply (in_operation_no_conn S1 true). }
  destruct Hpost as (Hc & Hne & x & Hx & Hid & ->).
  destruct (opening_conn_new S1 c x true HS1 Hne Hc Hx Hid) as [Ho _].
  set (S2 := conn_linked c x (took_id S1)) in *. clearbody S2.
  pose proof (opening_ready _ _ Ho) as Hrd.
  eapply on_calm_bind with (R := fun _ => True); [calm|]. intros _ _.
  eapply on_calm_bind with (R := fun _ => True); [calm|]. intros _ _.
  eapply on_bind with (R := fun _ S' => opening_conn S' c).
  { destruct ext as [e|]; [|by apply on_ret]. destruct (Hext e eq_refl) as [H0 H1].
    destruct (Z.ltb_spec 0 (pe_len e)); cbn [when]; [|by apply on_ret].
    apply on_set_self_ext; [done|destruct (Z.ltb_spec KCPMUX_PROTO_EXT_MAX_LEN (pe_len e))..];
      unfold KCPMUX_PROTO_EXT_MAX_LEN in *; lia. }
  intros _ S3 HS3. eapply on_bind; [by apply on_enter_tables|]. intros _ S4 (HS4 & _ & x4 & Hx4 & _).
  assert (Hrd4 : conn_ready S4 c) by by apply (wf_conn_ready (io_wf _ HS4) _ _ Hx4).
  do 4 (eapply on_calm_bind with (R := fun _ => True); [calm|]; intros ? _).
  by apply on_leave_ret.
Qed.

(** The answer of [conn_connect_notify]: a length that fits is in the buffer. *)
Definition ext_typed (e : proto_ext) : Prop :=
  0 <= pe_len e /\ (pe_len e <= KCPMUX_PROTO_EXT_MAX_LEN -> pe_len e <= Z.of_nat (length (pe_data e))).

Lemma ext_cleared_ok e : ext_ok (e <| pe_len := 0 |>).
Proof. split; cbn; unfold KCPMUX_PROTO_EXT_MAX_LEN; lia. Qed.

Lemma upd_conn_again c x x' S : upd_conn c x' (upd_conn c x S) = upd_conn c x' S.
Proof. unfold upd_conn. cbn. by rewrite insert_insert_eq. Qed.

Lemma upd_conn_id c x S : sp_conns S !! c = Some x -> upd_conn c x S = S.
Proof. intros Hx. unfold upd_conn. destruct S; cbn in *. f_equal. by apply insert_id. Qed.

(** What the callback may leave behind, before the length is checked. *)
Definition answered c x S S' : Prop :=
  exists e, ext_typed e /\ S' = upd_conn c (x <| ch_ext := e |>) S.

Lemma on_accept_ask S c x e :
  conn_ready S c -> sp_conns S !! c = Some x -> pe_len (ch_ext x) = 0 ->
  on S (accept_ask c e) (fun _ S' => answered c x S S').
Proof.
  intros Hrd Hx He. unfold accept_ask. destruct (ecb_conn_connect_notify (e_callbacks e)) as [f|]; cycle 1.
  { apply on_ret. exists (ch_ext x). unfold ext_typed. split; [lia|].
    replace (x <| ch_ext := ch_ext x |>) with x by by destruct x. by rewrite upd_conn_id. }
  eapply on_calm_bind; [apply calm_get_conn; eauto|]. intros k _.
  eapply on_calm_bind.
  { apply (calm_ask _ _ _ (fun r => ext_typed (cr_ext r))). intros tr.
    destruct (ho_connect Hhost tr f c) as [? ?]. split; [done|lia]. }
  intros resp Hresp. cbv beta in Hresp.
  eapply on_calm_bind with (R := fun _ => True).
  { apply calm_for_each. intros q _. by apply calm_conn_setter. }
  intros _ _. eapply on_bind with (R := fun _ S' => answered c x S S').
  - eapply on_mod_conn; [done|]. intros k' Hk'. exists (cr_ext resp). split; [done|]. by rewrite <- Hk'.
  - intros _ S' HS'. by apply on_ret.
Qed.

Lemma tame_accept_reply S c r : in_operation S -> conn_ready S c -> tame S (accept_reply c r).
Proof. intros HS Hc. unfold accept_reply. tame. Qed.

Lemma tame_accept_answer S c x r S' :
  in_operation S -> sp_conns S !! c = Some x -> ch_closed x = false -> answered c x S S' ->
  on S' (accept_answer c r) (fun _ S'' => in_operation S'' /\ sp_nodes S ⊆ sp_nodes S'').
Proof.
  intros HS Hx Hcl (ext & Htyped & ->). set (x1 := x <| ch_ext := ext |>). unfold accept_answer.
  assert (Hx1 : sp_conns (upd_conn c x1 S) !! c = Some x1) by apply lookup_insert_eq.
  eapply on_calm_bind; [apply calm_get_conn; eauto|]. intros k Hk. cbv beta in Hk.
  rewrite Hx1 in Hk. apply (inj Some) in Hk. cbv zeta.
  assert (He : c_self_proto_ext k = ext) by (by apply (f_equal ch_ext) in Hk; cbn in Hk).
  rewrite He. set (result' := if _ && _ then _ else _).
  eapply on_bind with (R := fun _ S' => in_operation S' /\ sp_nodes S' = sp_nodes S).
  { destruct (Z.eqb_spec result' KCPMUX_ACK_RESULT_OK) as [Hok|Hne]; cbn [negb when].
    - apply on_ret. split; [|done]. apply (in_operation_upd_conn S c x); [done..|]. cbn.
      destruct Htyped as [Ht0 Ht1]. revert Hok. unfold result'.
      destruct (Z.ltb_spec KCPMUX_PROTO_EXT_MAX_LEN (pe_len ext)); [|intros _; by split; [lia|apply Ht1]].
      by destruct (Z.eqb_spec r KCPMUX_ACK_RESULT_OK).
    - eapply on_mod_conn; [exact Hx1|]. intros k' Hk'. split; [|done].
      match goal with |- in_operation (_ <| sp_conns ::= <[c := ?z]> |>) =>
        change (in_operation (upd_conn c z (upd_conn c x1 S))); rewrite upd_conn_again;
        assert (Hz : z = x1 <| ch_ext ::= fun e => e <| pe_len := 0 |> |>) by (by rewrite <- Hk') end.
      rewrite Hz. apply (in_operation_upd_conn S c x); [done..|]. apply ext_cleared_ok. }
  intros _ S2 [HS2 Hn2]. rewrite <- Hn2. apply tame_accept_reply; [done|].
  apply in_operation_conn; [done|]. rewrite Hn2. apply (wf_nodes _ _ (io_wf _ HS)).
  rewrite (status_conn c x Hx). eauto.
Qed.

Lemma tame_accept_connect S b a id n t :
  in_operation S -> KCPMUX_PROTO_CONNECT_LEN + n <= Z.of_nat (length b) ->
  tame S (accept_connect b a id n t).
Proof.
  intros HS Hn. unfold accept_connect.
  eapply on_bind; [apply on_conn_new, HS|]. intros [c|] S1 Hpost; cycle 1.
  { apply on_ret. by apply (in_operation_no_conn S false). }
  destruct Hpost as (Hc & Hne & x & Hx & Hid & ->).
  destruct (opening_conn_new S c x false HS Hne Hc Hx Hid) as [Ho Hsub].
  set (S1 := conn_linked c x (took_id S)) in *. clearbody S1. clear HS Hc Hne Hx Hid x.
  eapply on_mono with (R := fun _ S'' => in_operation S'' /\ sp_nodes S1 ⊆ sp_nodes S'');
    [|intros ? ? [? ?]; split; [done|by etrans]].
  pose proof (opening_ready _ _ Ho) as Hrd.
  eapply on_calm_bind with (R := fun _ => True); [calm|]. intros _ _.
  eapply on_calm_bind.
  { apply calm_store_peer_ext; [done|unfold KCPMUX_PROTO_CONNECT_LEN, KCPMUX_PROTO_COMMON_LEN; lia|done]. }
  intros _ _. eapply on_calm_bind; [by apply calm_note_receive|]. intros _ _.
  eapply on_bind; [by apply on_enter_tables|]. intros _ S2 (HS2 & Hn2 & x2 & Hx2 & Hcl2). rewrite <- Hn2.
  set (x3 := x2 <| ch_ext ::= fun e => e <| pe_len := 0 |> |>).
  eapply on_bind with (R := fun _ S' => S' = upd_conn c x3 S2).
  { eapply on_mod_conn; [done|]. intros k Hk. unfold x3. by rewrite <- Hk. }
  intros _ S3 ->. assert (HS3 : in_operation (upd_conn c x3 S2)).
  { apply (in_operation_upd_conn S2 c x2); [done..|]. apply ext_cleared_ok. }
  change (sp_nodes S2) with (sp_nodes (upd_conn c x3 S2)).
  assert (Hx3 : sp_conns (upd_conn c x3 S2) !! c = Some x3) by apply lookup_insert_eq.
  eapply on_calm_bind; [apply (calm_get_engine _ (fun _ => True)); done|]. intros e _.
  eapply on_bind; [apply (on_accept_ask _ c x3); [by apply (wf_conn_ready (io_wf _ HS3) c x3)|done|done]|].
  intros r S4 HS4. by apply (tame_accept_answer _ c x3).
Qed.

(** ** Received packets *)

#[local] Hint Resolve tame_accept_connect : tame.

Ltac in_packet :=
  repeat match goal with
  | H : (_ <? _) = false |- _ => apply Z.ltb_ge in H
  | H : (_ <? _) || _ = false |- _ => apply orb_false_iff in H as [? ?]
  end;
  unfold KCPMUX_PROTO_CONNECT_LEN, KCPMUX_PROTO_CONNECT_ACK_LEN, KCPMUX_PROTO_CONN_CLOSE_LEN,
    KCPMUX_PROTO_STREAM_CLOSE_LEN, KCPMUX_PROTO_STREAM_HEADER_LEN, KCPMUX_PROTO_COMMON_LEN in *; lia.

Ltac tame_read :=
  apply (tame_calm_bind _ _ _ (fun _ => True));
    [first [apply calm_byte_at|apply calm_u16_at|apply calm_u32_at|apply calm_u64_at]; in_packet|intros ? _].

Ltac tame_guard := case_match; [by apply tame_ret|].

Lemma entries_conn_ready S c :
  in_operation S -> c ∈ entries (sp_conn_map S) -> conn_ready S c.
Proof.
  intros [Hwf _] Hc. destruct (wf_conn_map _ _ Hwf c Hc) as (x & Hx & _). by apply (wf_conn_ready Hwf c x).
Qed.

Lemma handshake_conn_ready S c :
  in_operation S -> c ∈ entries (sp_handshake S) -> conn_ready S c.
Proof.
  intros [Hwf _] Hc. destruct (wf_handshake _ _ Hwf c Hc) as (x & Hx & _). by apply (wf_conn_ready Hwf c x).
Qed.

(** The search of a connection's table finds streams one may use. *)
Lemma tame_get_stream_by_id {A} S c id (f : option positive -> W A) :
  in_operation S -> conn_ready S c ->
  (forall x, sp_conns S !! c = Some x -> sfind S (ch_map x) id = Some None -> tame S (f None)) ->
  (forall s, stream_ready S s -> tame S (f (Some s))) ->
  tame S (kcpmux_conn_get_stream_by_id c id ≫= f).
Proof.
  intros HS (x & Hx & Hl & _) HN Hf.
  eapply tame_calm_bind; [by apply (calm_get_stream_by_id _ _ x)|].
  intros [s|] [Hfind Hin]; [|by eapply HN]. apply Hf.
  destruct (wf_table _ _ (io_wf _ HS) c x s Hx) as (y & Hy & _); [by apply Hin|].
  by apply (wf_stream_ready (io_wf _ HS) s y).
Qed.

Lemma tame_input_connect S b a d t : in_operation S -> tame S (input_connect b a d t).
Proof.
  intros HS. unfold input_connect. cbv zeta. tame_guard. tame_read. tame_guard. do 2 tame_read.
  tame_guard. tame_guard.
  eapply tame_calm_bind; [by apply calm_get_passive_conn, (wf_handshake_live (io_wf _ HS))|].
  intros oc Hoc. cbv beta in Hoc.
  assert (Hrd : forall c, oc = Some c -> conn_ready S c) by (intros; by apply handshake_conn_ready, Hoc).
  destruct oc as [c|].
  - specialize (Hrd c eq_refl). tame.
  - case_match; [tame|]. apply tame_accept_connect; [done|in_packet].
Qed.

Lemma tame_input_connect_ack S b c t :
  in_operation S -> conn_ready S c -> tame S (input_connect_ack b c t).
Proof.
  intros HS Hc. unfold input_connect_ack. tame_step. tame_guard. tame_guard. tame_read. tame_guard.
  do 3 tame_read. tame_guard. tame_guard. tame_step.
  apply tame_seq; [|intros; by apply tame_ret]. case_match; [|tame].
  tame_step. apply (tame_calm_bind _ _ _ (fun _ => True)); [apply calm_store_peer_ext; [done|in_packet..]|].
  intros _ _. tame.
Qed.

Lemma tame_input_keepalive S b c t :
  in_operation S -> conn_ready S c -> tame S (input_keepalive b c t).
Proof. intros HS Hc. unfold input_keepalive. tame. Qed.

Lemma tame_input_conn_close S b c t :
  in_operation S -> conn_ready S c -> tame S (input_conn_close b c t).
Proof. intros HS Hc. unfold input_conn_close. tame_guard. tame_read. tame. Qed.

Lemma tame_input_conn_close_ack S b c t :
  in_operation S -> conn_ready S c -> tame S (input_conn_close_ack b c t).
Proof. intros HS Hc. unfold input_conn_close_ack. tame. Qed.

Lemma tame_input_stream_close S b c t :
  in_operation S -> conn_ready S c -> tame S (input_stream_close b c t).
Proof.
  intros HS Hc. unfold input_stream_close. tame_guard. tame_read. tame_guard. tame_read.
  apply tame_get_stream_by_id; [done|done|intros; by apply tame_ret|]. intros s Hs. tame.
Qed.

Lemma tame_input_stream_close_ack S b c t :
  in_operation S -> conn_ready S c -> tame S (input_stream_close_ack b c t).
Proof.
  intros HS Hc. unfold input_stream_close_ack. tame_guard. tame_read. tame_guard.
  apply tame_get_stream_by_id; [done|done|intros; by apply tame_ret|]. intros s Hs. tame.
Qed.

Lemma tame_input_stream_payload S b c t :
  in_operation S -> c ∈ entries (sp_conn_map S) -> tame S (input_stream_payload b c t).
Proof.
  intros HS Hin. pose proof (entries_conn_ready S c HS Hin) as Hc.
  destruct (wf_conn_map _ _ (io_wf _ HS) c Hin) as (x & Hx & Him).
  assert (Hcl : ch_closed x = false).
  { destruct (wf_conn _ _ (io_wf _ HS) c x Hx) as (_ & _ & H). destruct (ch_closed x); [|done].
    specialize (H eq_refl). congruence. }
  unfold input_stream_payload. tame_step. tame_guard. tame_guard. tame_read. tame_guard. cbv zeta.
  apply tame_get_stream_by_id; [done|done| |].
  - intros x' Hx' Hf. rewrite Hx in Hx'. injection Hx' as <-.
    do 2 tame_guard. case_match; [|by apply tame_ret]. by apply (tame_accept_stream _ _ _ _ _ _ x).
  - intros s Hs. tame.
Qed.
#[local] Hint Resolve tame_input_connect_ack tame_input_keepalive tame_input_conn_close
  tame_input_conn_close_ack tame_input_stream_close tame_input_stream_close_ack
  tame_input_stream_payload : tame.

Lemma tame_protocol_input S b a t : in_operation S -> tame S (kcpmux_protocol_input b a t).
Proof.
  intros HS. unfold kcpmux_protocol_input. cbv zeta. do 3 tame_guard. do 2 tame_read.
  case_match; [by apply tame_input_connect|]. tame_guard.
  eapply tame_calm_bind; [by apply calm_get_conn_by_id, (wf_conns_live (io_wf _ HS))|].
  intros [c|] Hoc; [|by apply tame_ret]. specialize (Hoc c eq_refl).
  pose proof (entries_conn_ready S c HS Hoc) as Hc. tame_step. tame.
Qed.
End opening.
