(* ===== verification/SafeCalls.v ===== *)
(** * Every public call is safe

    A world is quiescent when the shape is at rest and nothing is due.  Each
    entry point of include/kcpmux/kcpmux.h, called on a quiescent world with
    handles that are alive, returns and leaves a quiescent world: no dangling
    handle is followed, no buffer is left, every loop ends, and nothing that
    was closed stays allocated. *)

From S2P Require Import Prelude Types Timer TimerProofs TimerSpec ByteOrder Hashtable Vectored World Engine Conn Messages Stream Mux Sample LifeSpec Deadlines Wire Shape Steps Calm Wf Listed Closing Safe.
From stdpp Require Import gmap.
#[local] Open Scope Z_scope.

(** ** Calls whose loops are inside the operation *)

Section calls.
Context {KO : Kcp} {HO : Host} (Hhost : host_ok).
Implicit Types (c s : positive) (w : world K) (S : shape).

#[local] Hint Resolve tame_advance tame_stream_close_body tame_stream_update tame_stream_handle_close
  tame_conn_update tame_conn_close_body tame_protocol_input : tame.

Lemma at_rest_conn S c x : at_rest S -> sp_conns S !! c = Some x -> ch_closed x = false.
Proof.
  intros [Hwf _ Hp _] Hx. destruct (ch_closed x) eqn:Hc; [|done]. exfalso.
  destruct (wf_closed _ _ Hwf (OConn c)) as [Hin|(? & ? & _)]; [by rewrite (status_conn c x Hx), Hc| |done].
  rewrite Hp in Hin. by apply elem_of_nil in Hin.
Qed.

Lemma at_rest_stream S s : at_rest S -> is_Some (sp_streams S !! s) -> stream_open S s.
Proof.
  intros [Hwf _ Hp _] [y Hy]. destruct (sh_closed y) eqn:Hc; [|by apply (wf_stream_open Hwf s y)]. exfalso.
  destruct (wf_closed _ _ Hwf (OStream s)) as [Hin|(? & _ & ?)]; [by rewrite (status_stream s y Hy), Hc| |done].
  rewrite Hp in Hin. by apply elem_of_nil in Hin.
Qed.

Lemma on_leave_op {A B} S (m : W A) (g : A -> B) :
  tame S m -> on S (r ← m; kcpmux_engine_operation_leave;; mret (g r)) (fun _ S' => at_rest S').
Proof.
  intros Hm. eapply on_bind; [exact Hm|]. intros a S' [HS' _].
  eapply on_bind; [by apply on_operation_leave|]. intros [] S'' [HS'' _]. by apply on_ret.
Qed.

Lemma on_rest_ret {A} S (a : A) : at_rest S -> on S (mret a) (fun _ S' => at_rest S').
Proof. intros. by apply on_ret. Qed.

Lemma on_rest_calm {A} S (m : W A) R : at_rest S -> calm S m R -> on S m (fun _ S' => at_rest S').
Proof. intros HS Hm. eapply on_calm; [exact Hm|]. auto. Qed.

Lemma on_skip {A B} S (m : W A) (f : A -> W B) Q :
  calm S m (fun _ => True) -> (forall a, on S (f a) Q) -> on S (m ≫= f) Q.
Proof. intros Hm Hf. eapply on_calm_bind; [exact Hm|]. auto. Qed.

Definition conn_arg S (oc : option positive) : Prop := forall c, oc = Some c -> is_Some (sp_conns S !! c).
Definition stream_arg S (os : option positive) : Prop := forall s, os = Some s -> is_Some (sp_streams S !! s).

Lemma conn_arg_ready S c : at_rest S -> conn_arg S (Some c) -> conn_ready S c.
Proof. intros [Hwf _ _ _] Hc. destruct (Hc c eq_refl) as [x Hx]. by apply (wf_conn_ready Hwf c x). Qed.

Lemma stream_arg_open S s : at_rest S -> stream_arg S (Some s) -> stream_open S s.
Proof. intros HS Hs. apply at_rest_stream; [done|]. by apply Hs. Qed.

Lemma entered_conn S S' c : entered S S' -> is_Some (sp_conns S !! c) -> conn_ready S' c.
Proof.
  intros ([Hwf _ _] & Hc & _) [x Hx]. rewrite <- Hc in Hx. by apply (wf_conn_ready Hwf c x).
Qed.

Lemma entered_stream S S' s : entered S S' -> stream_open S s -> stream_open S' s.
Proof.
  intros ([Hwf _ _] & _ & Hs & _) [_ (y & Hy & Hcl)]. rewrite <- Hs in Hy. by apply (wf_stream_open Hwf s y).
Qed.

Lemma on_conn_close_call S oc :
  at_rest S -> conn_arg S oc -> on S (kcpmux_conn_close oc) (fun _ S' => at_rest S').
Proof.
  intros HS Hc. destruct oc as [c|]; [|by apply on_rest_ret]. cbn.
  pose proof (conn_arg_ready S c HS Hc). apply on_skip; [apply (calm_any _ _ _ (calm_get_conn _ _ ltac:(shape_side)))|]. intros _.
  apply on_enter_op; [done|]. intros S' HS'. apply on_leave_op. apply tame_conn_close_body; [apply HS'|].
  apply (entered_conn S); [done|]. by apply Hc.
Qed.

Lemma on_stream_close_call S os :
  at_rest S -> stream_arg S os -> on S (kcpmux_stream_close os) (fun _ S' => at_rest S').
Proof.
  intros HS Hs. destruct os as [s|]; [|by apply on_rest_ret]. cbn.
  pose proof (stream_arg_open S s HS Hs) as Ho. apply on_skip; [calm|]. intros _.
  apply on_enter_op; [done|]. intros S' HS'. apply on_leave_op. apply tame_stream_close_body; [apply HS'|].
  apply stream_open_ready. by apply (entered_stream S).
Qed.

Lemma on_stream_create_call S oc cfg cbs ud :
  at_rest S -> conn_arg S oc -> sconfig_arg cfg ->
  on S (kcpmux_stream_create oc cfg cbs ud) (fun _ S' => at_rest S').
Proof.
  intros HS Hc Hcfg. destruct oc as [c|]; [|by apply on_rest_ret]. cbn.
  destruct (Hc c eq_refl) as [x Hx]. eapply on_calm_bind; [apply calm_get_conn; eauto|]. intros k _.
  case_match; [by apply on_rest_ret|].
  apply on_enter_op; [done|]. intros S' (HS' & Hcn & _). apply (on_leave_op _ _ id).
  apply (tame_stream_create_body Hhost _ _ _ _ _ x); [done|by rewrite Hcn|by eapply at_rest_conn|done].
Qed.

Lemma on_engine_input_call S buf a :
  at_rest S -> on S (kcpmux_engine_input buf a) (fun _ S' => at_rest S').
Proof.
  intros HS. destruct buf as [buf|], a as [a|]; try by apply on_rest_ret. cbn.
  case_match; [by apply on_rest_ret|]. apply on_enter_op; [done|]. intros S' HS'.
  apply on_skip; [calm|]. intros _. apply on_skip; [calm|]. intros now.
  apply (on_leave_op _ _ id). apply tame_protocol_input; [done|apply HS'].
Qed.

(** *** Sending *)

Lemma on_send_chunks {C} S s size flush v (f : send_chunk_fn C) (I : C -> Z -> Prop) ctx :
  at_rest S -> stream_open S s -> 0 <= size <= INT_MAX ->
  (forall S' ctx size rem, stream_open S' s -> I ctx rem -> 0 < size -> size <= rem -> rem <= INT_MAX ->
     calm S' (f s ctx size) (fun r => 0 <= r.1 -> I r.2 (rem - size))) ->
  I ctx size ->
  on S (kcpmux_stream_send_chunks s size flush v f ctx) (fun _ S' => at_rest S').
Proof.
  intros HS Ho Hsz Hf HI. unfold kcpmux_stream_send_chunks.
  apply on_skip; [calm|]. intros _. apply on_skip; [calm|]. intros now.
  apply on_enter_op; [done|]. intros S' HS'. pose proof (entered_stream S S' s HS' Ho) as Ho'.
  apply on_skip; [calm|]. intros _. apply (on_leave_op _ _ id).
  eapply tame_calm; [apply HS'|]. apply (calm_send_chunks_body _ _ _ _ _ _ I); auto.
Qed.

Lemma on_send_call S os buf flush :
  at_rest S -> stream_arg S os -> on S (kcpmux_stream_send os buf flush) (fun _ S' => at_rest S').
Proof.
  intros HS Hs. destruct os as [s|], buf as [buf|]; try by apply on_rest_ret. cbn.
  pose proof (stream_arg_open S s HS Hs) as Ho.
  destruct (Z.ltb_spec INT_MAX (Z.of_nat (length buf))); [by apply on_rest_ret|].
  case_match; [by apply on_rest_ret|].
  apply (on_send_chunks _ _ _ _ _ _ cctx_ok); [done|done|lia| |].
  - intros S' ctx n rem. apply calm_contiguous_chunk.
  - unfold cctx_ok. cbn. lia.
Qed.

(** The validated total is the number of bytes the fragments hold. *)
Lemma sendv_total_length iov total t :
  Forall iovec_ok iov -> 0 <= total <= INT_MAX -> sendv_total iov total = Some t ->
  t = total + Z.of_nat (length (flatten iov)) /\ 0 <= t <= INT_MAX.
Proof.
  revert total. induction iov as [|v iov IH]; intros total Hok Ht; cbn [sendv_total].
  { intros [= <-]. cbn. lia. }
  apply list.Forall_cons in Hok as [Hv Hok]. pose proof (iov_bytes_length v Hv) as Hl.
  destruct Hv as [Hu _]. unfold in_u in Hu. case_match; [done|].
  rewrite wrap_small by (unfold in_u; unfold INT_MAX in *; lia).
  destruct (Z.ltb_spec INT_MAX (total + iov_len v)); [done|]. intros Hrun.
  apply IH in Hrun as [-> ?]; [|done|lia]. rewrite flatten_cons, length_app. lia.
Qed.

Definition iov_arg (iov : option (list iovec)) : Prop := forall l, iov = Some l -> Forall iovec_ok l.

Lemma on_sendv_call S os iov flush :
  at_rest S -> stream_arg S os -> iov_arg iov ->
  on S (kcpmux_stream_sendv os iov flush) (fun _ S' => at_rest S').
Proof.
  intros HS Hs Hiov. destruct os as [s|], iov as [iov|]; try by apply on_rest_ret. cbn.
  pose proof (stream_arg_open S s HS Hs) as Ho. specialize (Hiov iov eq_refl).
  destruct (sendv_total iov 0) as [total|] eqn:Ht; [|by apply on_rest_ret].
  apply sendv_total_length in Ht as [Hlen ?]; [|done|unfold INT_MAX; lia].
  case_match; [by apply on_rest_ret|].
  apply on_skip; [apply (calm_any _ _ _ (calm_get_stream _ _ ltac:(shape_side)))|]. intros _.
  apply (on_send_chunks _ _ _ _ _ _ vctx_ok); [done|done|done| |].
  - intros S' ctx n rem. apply calm_vectored_chunk.
  - split; [constructor; [done|by left]|]. pose proof (skip_empty_rest iov 0 Hiov) as Hr.
    rewrite drop_0 in Hr. rewrite Hr.
    change (rest (mk_vctx iov 0 0)) with (flatten iov). lia.
Qed.
End calls.
