(* ===== verification/SafeLoops.v ===== *)
(** * The loops of the engine

    [kcpmux_engine_update] over the nodes that are due,
    [kcpmux_engine_finish_batch] over the streams with batched updates, and
    [kcpmux_engine_destroy] over the connections left: each ends within the
    number of rounds its list has at the start, and what it leaves is again
    quiescent. *)

From S2P Require Import Prelude Types Timer TimerProofs TimerSpec ByteOrder Hashtable Vectored World Engine Conn Messages Stream Mux Deadlines Wire Shape Steps Calm Wf Listed Closing Safe SafeCalls.
From stdpp Require Import gmap.
#[local] Open Scope Z_scope.

(** What holds between two calls. *)
Record quiescent {KO : Kcp} (w : world K) : Prop := {
  qu_misc : misc_ok w;
  qu_rest : at_rest (shape_of w);
  qu_due : tm_due (w_timers w) = []
}.

Section loops.
Context {KO : Kcp} {HO : Host} (Hhost : host_ok).
Implicit Types (c s : positive) (w : world K) (S : shape) (n : obj).

Lemma on_rests {A} (m : W A) w :
  quiescent w -> on (shape_of w) m (fun _ S' => at_rest S') -> wp m (fun _ => quiescent) w.
Proof.
  intros [Hm Hr Hd] Hon. eapply wp_mono; [|by apply Hon]. intros a w' (? & ? & Hs).
  constructor; [done|done|]. rewrite Hd in Hs. by apply sublist_nil_r in Hs.
Qed.

(** ** Dispatch of due timers *)

(** A change of the scheduler the shape does not see. *)
Lemma wp_keep {A} w t (m : W A) Q :
  misc_ok w -> timers_keep (w_timers w) t ->
  (forall w', misc_ok w' -> shape_of w' = shape_of w -> w_timers w' = t -> wp m Q w') ->
  wp m Q (w <| w_timers := t |>).
Proof.
  intros Hw Hk Hm. destruct (owner_registered _ _ (tk_nodes _ _ Hk)) as (Hreg & Hdom & _).
  apply Hm; [by apply misc_ok_timers| |done]. unfold shape_of. cbn. by rewrite Hreg, Hdom.
Qed.

Lemma wp_pop_due {A} w n l (m : W A) Q :
  misc_ok w -> tm_due (w_timers w) = n :: l ->
  (forall w' nd, misc_ok w' -> shape_of w' = shape_of w -> tm_due (w_timers w') = l ->
     n ∈ sp_nodes (shape_of w') -> tm_nodes (w_timers w') !! n = Some nd ->
     owner nd = Some n -> timeout_cb nd = Some (cb_of n) -> wp m Q w') ->
  wp (in_timers (modify (fun t => t <| tm_due ::= list.tail |>));;
      in_timers (mod_node n (fun nd => nd <| tn_state := TIMER_RUNNING |>));; m) Q w.
Proof.
  intros Hw Hd Hm. pose proof (mo_due _ Hw n ltac:(rewrite Hd; by left)) as Hreg.
  pose proof Hreg as (nd & Hnd & own & Hown)%elem_registered.
  destruct (mo_owner _ Hw n nd own Hnd Hown) as [-> Hcb].
  rewrite wp_bind. apply wp_timers. rewrite wp_modify, wp_bind. apply wp_timers.
  rewrite (wp_mod_node _ nd) by done.
  pose proof (pop_due_ok (w_timers w) n l nd (rs_timers _ (mo_reserved _ Hw)) Hd Hnd) as Hk. cbv zeta in Hk.
  match goal with |- wp _ _ ?x => replace x with
    (w <| w_timers := (w_timers w) <| tm_due := l |>
       <| tm_nodes ::= <[n := nd <| tn_state := TIMER_RUNNING |>]> |> |>) end.
  2: { destruct w. cbn in *. by rewrite Hd. }
  apply wp_keep; [done|done|]. intros w' Hw' HS Ht.
  apply (Hm w' (nd <| tn_state := TIMER_RUNNING |>)); rewrite ?Ht, ?HS; try done; cbn.
  - apply elem_of_dom. eauto.
  - apply lookup_insert_eq.
Qed.

(** What is left of a handler's node is parked again. *)
Lemma wp_park {A} w n (m : W A) Q :
  misc_ok w -> n ∈ sp_nodes (shape_of w) ->
  (forall w', misc_ok w' -> shape_of w' = shape_of w ->
     tm_due (w_timers w') = tm_due (w_timers w) -> wp m Q w') ->
  wp (nd ← in_timers (get_node n);
      when (bool_decide (tn_state nd = TIMER_RUNNING))
        (in_timers (mod_node n (fun nd => nd <| tn_state := TIMER_IDLE |>)));;
      m) Q w.
Proof.
  intros Hw Hn Hm. cbn in Hn. apply elem_of_dom in Hn as [nd Hnd].
  apply (wp_timers_get n nd); [done|]. case_bool_decide as Hs; cbn [when]; rewrite wp_bind.
  2: { rewrite wp_ret. by apply Hm. }
  apply wp_timers. rewrite (wp_mod_node _ nd) by done.
  assert (Hp : parked nd) by (unfold parked; rewrite Hs; by split).
  destruct (parked_update_ok (w_timers w) n nd (nd <| tn_state := TIMER_IDLE |>)) as [Hok Hb];
    [apply Hw|done|done|by apply idle_parked|].
  apply wp_keep; [done| |].
  - constructor; [exact Hok| |done|by left|done]. intros k. etrans; [exact (become_owner _ _ _ _ k Hb)|].
    case_decide as E; [by rewrite E, Hnd|done].
  - intros w' Hw' HS Ht. apply Hm; [done|done|by rewrite Ht].
Qed.

Lemma tame_run_timeout S n now :
  in_operation S -> n ∈ sp_nodes S -> tame S (run_timeout (cb_of n) (Some n) now).
Proof.
  intros HS Hn. destruct n as [c|s]; cbn.
  - apply tame_conn_update; [done|by apply in_operation_conn].
  - apply tame_stream_update; [done|by apply in_operation_stream].
Qed.

Lemma dispatch_loop_ok now fuel w :
  misc_ok w -> in_operation (shape_of w) -> (length (tm_due (w_timers w)) <= fuel)%nat ->
  wp (dispatch_loop fuel now) (fun _ w' => misc_ok w' /\ in_operation (shape_of w') /\
    tm_due (w_timers w') = []) w.
Proof.
  revert w. induction fuel as [|fuel IH]; intros w Hw HS Hf; cbn [dispatch_loop];
    rewrite wp_bind, wp_gets; destruct (tm_due (w_timers w)) as [|n l] eqn:Hd;
    try (by rewrite wp_ret); [cbn in Hf; lia|].
  apply (wp_pop_due w n l); [done|done|]. intros w1 nd1 Hw1 HS1 Hd1 Hn1 Hnd1 Ho1 Hc1.
  rewrite <- HS1 in HS. clear HS1. unfold mod_engine at 1. rewrite wp_bind, wp_modify.
  set (w2 := w1 <| w_engine ::= _ |>).
  assert (Hw2 : misc_ok w2) by (revert Hw1; by apply misc_ok_same).
  change (shape_of w1) with (shape_of w2) in HS, Hn1.
  apply (wp_timers_get n nd1); [done|]. rewrite Hc1, Ho1, wp_bind.
  eapply wp_mono; [|apply (tame_run_timeout (shape_of w2) n now); done].
  intros [] w3 ([HS3 Hn3] & Hw3 & Hd3). change (w_timers w2) with (w_timers w1) in Hd3. rewrite Hd1 in Hd3.
  apply wp_park; [done|by apply Hn3|]. intros w4 Hw4 HS4 Hd4. apply IH; [done|by rewrite HS4|].
  rewrite Hd4. apply sublist_length in Hd3. cbn in Hf. lia.
Qed.

(** Collecting the due nodes of a world without any. *)
Lemma misc_ok_collected now w t D :
  misc_ok w -> collected now (w_timers w) t D ->
  misc_ok (w <| w_timers := t |>) /\ shape_of (w <| w_timers := t |>) = shape_of w.
Proof.
  intros [[Hok0 Hcnt Hcap Hheap] Ho Hdue Hdef Hnd Hm Hp] Hc.
  destruct (owner_registered _ _ (collected_owner _ _ _ _ Hc)) as (Hreg & Hdom & Howners).
  pose proof (cl_perm _ _ _ _ Hc) as Hperm.
  split; [|unfold shape_of; cbn; by rewrite Hreg, Hdom].
  constructor; cbn; [|by apply Howners| |done|done|by rewrite Hreg|done].
  - constructor; cbn; [apply Hc|by rewrite Hreg|by rewrite (cl_capacity _ _ _ _ Hc)|].
    intros n Hin. rewrite Hreg. apply Hheap. rewrite Hperm, elem_of_app. auto.
  - intros n. rewrite Hreg, (cl_due _ _ _ _ Hc), elem_of_app. intros [|Hn]; [by apply Hdue|].
    apply Hheap. rewrite Hperm, elem_of_app. auto.
Qed.

Lemma engine_update_ok w :
  quiescent w -> wp kcpmux_engine_update (fun _ => quiescent) w.
Proof.
  intros [Hw HS Hd]. unfold kcpmux_engine_update. rewrite wp_bind.
  eapply wp_mono; [|apply (calm_now (shape_of w)); done]. intros now w1 ([HS1 _] & Hw1 & Hd1).
  rewrite Hd in Hd1. apply sublist_nil_r in Hd1. rewrite <- HS1 in HS. clear HS1 Hd.
  rewrite wp_bind. unfold mod_engine at 1. rewrite wp_modify. set (w2 := w1 <| w_engine ::= _ |>).
  assert (Hw2 : misc_ok w2) by (revert Hw1; by apply misc_ok_same).
  change (shape_of w1) with (shape_of w2) in HS. change (w_timers w1) with (w_timers w2) in Hd1.
  rewrite wp_bind. apply wp_timers. rewrite wp_modify.
  replace (w2 <| w_timers := _ |>) with w2 by (destruct w2 as [e ks ss [h cap sq nds du] nx tr]; cbn in *; by subst).
  rewrite wp_bind. apply wp_timers. eapply wp_mono; [|apply collect_due_ok, Hw2].
  intros [] t [D Hc]. destruct (misc_ok_collected now w2 t D Hw2 Hc) as [Hw3 HS3]. rewrite <- HS3 in HS.
  set (w3 := w2 <| w_timers := t |>) in *. clearbody w3. destruct HS as [Hwf HL Hp Hdp].
  rewrite wp_bind. eapply wp_mono; [|apply (on_enter (shape_of w3) (fun _ S' => in_operation S')); [|done|done]].
  2: { split; [by apply wf_depth|by apply (listed_view _ (shape_of w3))|]. cbn. cbn in Hdp. by rewrite Hdp. }
  intros [] w4 (HS4 & Hw4 & _). rewrite wp_bind, wp_gets, wp_bind.
  eapply wp_mono; [|by apply dispatch_loop_ok]. intros [] w5 (Hw5 & HS5 & Hd5).
  eapply wp_mono; [|by apply (on_operation_leave (shape_of w5))]. intros [] w6 ([HS6 _] & Hw6 & Hd6).
  constructor; [done|done|]. rewrite Hd5 in Hd6. by apply sublist_nil_r in Hd6.
Qed.

(** ** Batched updates *)

Notation batched w := (e_pending_batch_streams (w_engine w)).

(** The list of streams with batched updates does not grow. *)
Definition no_growth {A} (m : W A) : Prop := forall w a w',
  m w = Some (a, w') -> (length (batched w') <= length (batched w))%nat.

Lemma ng_bind {A B} (m : W A) (f : A -> W B) :
  no_growth m -> (forall a, no_growth (f a)) -> no_growth (m ≫= f).
Proof.
  intros Hm Hf w b w'. unfold mbind, M_bind. destruct (m w) as [[a w1]|] eqn:E; [|done].
  intros Hb. apply Hm in E. apply Hf in Hb. lia.
Qed.

Lemma ng_ret {A} (a : A) : no_growth (mret a).
Proof. by intros w b w' [= _ <-]. Qed.

Lemma ng_when b (m : W unit) : no_growth m -> no_growth (when b m).
Proof. destruct b; [done|]. intros _. apply ng_ret. Qed.

Lemma ng_modify (f : world K -> world K) :
  (forall w, (length (batched (f w)) <= length (batched w))%nat) -> no_growth (modify f).
Proof. by intros Hf w b w' [= _ <-]. Qed.

Lemma ng_gets {A} (f : world K -> A) : no_growth (gets f).
Proof. by intros w b w' [= _ <-]. Qed.

Lemma ng_deref {A} (f : world K -> option A) : no_growth (deref f).
Proof. intros w b w'. unfold deref. case_match; [|done]. by intros [= _ <-]. Qed.

Lemma ng_in_timers {A} (m : M timers A) : no_growth (in_timers m).
Proof. intros w b w'. unfold in_timers, zoom. case_match; [|done]. case_match. by intros [= _ <-]. Qed.

Lemma ng_in_trace {A} (m : M trace A) : no_growth (in_trace m).
Proof. intros w b w'. unfold in_trace, zoom. case_match; [|done]. case_match. by intros [= _ <-]. Qed.

Ltac ng :=
  repeat lazymatch goal with
  | |- no_growth (_ ≫= _) => apply ng_bind; [|intros ?]
  | |- no_growth (mret _) => apply ng_ret
  | |- no_growth (when _ _) => apply ng_when
  | |- no_growth (get_stream _) => apply ng_deref
  | |- no_growth (get_conn _) => apply ng_deref
  | |- no_growth get_engine => apply ng_gets
  | |- no_growth (gets _) => apply ng_gets
  | |- no_growth (in_timers _) => apply ng_in_timers
  | |- no_growth (ask _ _) => apply ng_in_trace
  | |- no_growth (emit _) => apply ng_modify; done
  | |- no_growth (mod_engine _) => apply ng_modify; done
  | |- no_growth (modify _) => apply ng_modify; done
  | |- no_growth (match _ with _ => _ end) => case_match
  | |- no_growth (let _ := _ in _) => cbv zeta
  end.

Lemma ng_schedule n d now : no_growth (kcpmux_engine_schedule_timer_node n d now).
Proof.
  unfold kcpmux_engine_schedule_timer_node, timer_schedule, kcpmux_engine_rearm_timer, reserve_alloc, alloc. ng.
Qed.

Lemma ng_batch_unlink s : no_growth (batch_unlink s).
Proof. apply ng_modify. intros w. cbn. apply length_filter. Qed.

Lemma ng_finish_batch_at s now : no_growth (kcpmux_stream_finish_batch_at s now).
Proof.
  unfold kcpmux_stream_finish_batch_at, batch_linked, mod_stream. ng; (apply ng_batch_unlink || apply ng_schedule).
Qed.

Lemma wp_no_growth {A} (m : W A) (Q : A -> world K -> Prop) w :
  no_growth m -> wp m Q w ->
  wp m (fun a w' => Q a w' /\ (length (batched w') <= length (batched w))%nat) w.
Proof.
  intros Hm. unfold wp. destruct (m w) as [[a w']|] eqn:E; [|done]. intros HQ. split; [done|]. by eapply Hm.
Qed.

Lemma finish_batch_loop_ok now S fuel w :
  misc_ok w -> shape_of w = S -> in_operation S -> (length (batched w) <= fuel)%nat ->
  wp (finish_batch_loop fuel now) (fun _ w' => misc_ok w' /\ shape_of w' = S /\
    tm_due (w_timers w') `sublist_of` tm_due (w_timers w)) w.
Proof.
  revert w. induction fuel as [|fuel IH]; intros w Hw HS Hop Hf; cbn [finish_batch_loop];
    unfold get_engine; rewrite wp_bind, wp_gets; destruct (batched w) as [|s l] eqn:Hb;
    try (by rewrite wp_ret); [cbn in Hf; lia|].
  destruct (mo_batch _ Hw s) as (_ & st & Hst & _); [rewrite Hb; by left|].
  assert (Hrd : stream_ready S s).
  { apply (wf_stream_ready (io_wf _ Hop) s (sshape_of st)). rewrite <- HS. apply shape_stream. eauto. }
  rewrite wp_bind. pose proof (calm_batch_unlink S s w Hw HS) as Hu. revert Hu.
  unfold batch_unlink, mod_engine. rewrite !wp_modify. set (w1 := w <| w_engine ::= _ |>).
  intros ([HS1 _] & Hw1 & _).
  assert (Hf1 : (length (batched w1) <= fuel)%nat).
  { cbn in Hf |- *. rewrite Hb, filter_cons_False by tauto. etrans; [apply length_filter|]. lia. }
  assert (Hd1 : tm_due (w_timers w1) = tm_due (w_timers w)) by done. clearbody w1.
  rewrite wp_bind. eapply wp_mono; [|apply wp_no_growth;
    [apply ng_finish_batch_at|by apply (calm_finish_batch_at S s now)]].
  intros [] w2 (([HS2 _] & Hw2 & Hd2) & Hl2).
  eapply wp_mono; [|apply IH; [done|done|done|lia]].
  intros [] w3 (? & ? & Hd3). split; [done|]. split; [done|]. rewrite <- Hd1. by etrans.
Qed.

Lemma on_finish_batch S : at_rest S -> on S kcpmux_engine_finish_batch (fun _ S' => at_rest S').
Proof.
  intros HS. unfold kcpmux_engine_finish_batch. apply on_skip; [calm|]. intros now.
  apply on_enter_op; [done|]. intros S' [HS' _] w Hw Hs.
  rewrite wp_bind, wp_gets, wp_bind. eapply wp_mono; [|by apply (finish_batch_loop_ok now S')].
  intros [] w1 (Hw1 & HS1 & Hd1). eapply wp_mono; [|by apply (on_operation_leave S')].
  intros [] w2 ([? _] & ? & ?). split; [done|]. split; [done|]. by etrans.
Qed.
End loops.
