(* ===== verification/SafeSpec.v ===== *)
(** * Safety of whole sessions

    The public interface [call] of LifeSpec, from engine creation on: which
    arguments are legal, that every legal call returns and leaves the engine
    quiescent, and what quiescent means for connections, streams and timers. *)

From S2P Require Import Prelude Types Timer TimerProofs TimerSpec ByteOrder Hashtable Vectored World Engine Conn Messages Stream Mux Sample LifeSpec Deadlines Wire Shape Steps Calm Wf Listed Closing Safe SafeCalls SafeLoops.
From stdpp Require Import gmap.
#[local] Open Scope Z_scope.

(** ** Legal calls *)

(** NULL, or an object that exists. *)
Definition live_handle {V} (m : gmap positive V) (h : option positive) : Prop :=
  match h with Some a => is_Some (m !! a) | None => True end.

(** Handles are alive, fragments and extensions point to the memory they
    describe, configurations are values of their C types.  Nothing is asked of
    packets, addresses, sizes and states. *)
Definition call_ok {K} (w : world K) (x : call) : Prop :=
  match x with
  | CallConnect _ _ ext _ _ => ext_arg ext
  | CallConnClose c | CallConnSetConfig c _ | CallConnSetCallbacks c _ _ => live_handle (w_conns w) c
  | CallStreamCreate c cfg _ _ => live_handle (w_conns w) c /\ sconfig_arg cfg
  | CallStreamClose s | CallStreamSetCallbacks s _ _ | CallStreamSend s _ _ | CallStreamFinishBatch s
  | CallStreamPeekSize s | CallStreamRecv s _ => live_handle (w_streams w) s
  | CallStreamSetConfig s cfg => live_handle (w_streams w) s /\ sconfig_arg cfg
  | CallStreamSendv s iov _ => live_handle (w_streams w) s /\ iov_arg iov
  | CallEngineSetConfig _ | CallEngineUpdate | CallEngineInput _ _ | CallEngineFinishBatch => True
  end.

Section spec.
Context {KO : Kcp} {HO : Host} (Hhost : host_ok).
Implicit Types (c s : positive) (w : world K) (S : shape).

(** Along a session every call is legal in the world it is made in. *)
Fixpoint session_ok (l : list call) w : Prop :=
  match l with
  | [] => True
  | x :: l => call_ok w x /\ forall w', exec x w = Some (tt, w') -> session_ok l w'
  end.

Lemma handle_conn w oc : live_handle (w_conns w) oc -> conn_arg (shape_of w) oc.
Proof. intros Hc c ->. cbn. rewrite lookup_fmap. by destruct Hc as [k ->]; eauto. Qed.

Lemma handle_stream w os : live_handle (w_streams w) os -> stream_arg (shape_of w) os.
Proof. intros Hs s ->. cbn. rewrite lookup_fmap. by destruct Hs as [k ->]; eauto. Qed.

Lemma on_forget {A} S (m : W A) :
  on S m (fun _ S' => at_rest S') -> on S (forget_result m) (fun _ S' => at_rest S').
Proof. intros Hm. eapply on_bind; [exact Hm|]. intros a S' HS'. by apply on_ret. Qed.

Lemma on_conn_setter S oc (f : option positive -> W unit) :
  at_rest S -> conn_arg S oc -> f None = mret tt ->
  (forall c, conn_ready S c -> calm S (f (Some c)) (fun _ => True)) ->
  on S (f oc) (fun _ S' => at_rest S').
Proof.
  intros HS Hc Hn Hf. destruct oc as [c|]; [|rewrite Hn; by apply on_rest_ret].
  eapply on_rest_calm; [done|]. by apply Hf, conn_arg_ready.
Qed.

Lemma on_stream_op {A} S os (f : option positive -> W A) (a : A) :
  at_rest S -> stream_arg S os -> f None = mret a ->
  (forall s, stream_open S s -> calm S (f (Some s)) (fun _ => True)) ->
  on S (f os) (fun _ S' => at_rest S').
Proof.
  intros HS Hs Hn Hf. destruct os as [s|]; [|rewrite Hn; by apply on_rest_ret].
  eapply on_rest_calm; [done|]. by apply Hf, stream_arg_open.
Qed.

Lemma on_exec x w :
  at_rest (shape_of w) -> call_ok w x -> x <> CallEngineUpdate ->
  on (shape_of w) (exec x) (fun _ S' => at_rest S').
Proof.
  intros HS Hx Hne. destruct x; cbn [exec]; cbn [call_ok] in Hx; try apply on_forget.
  - by apply on_connect.
  - by apply on_conn_close_call, handle_conn.
  - apply (on_conn_setter _ c (fun h => kcpmux_conn_set_config h config)); [done|by apply handle_conn|done|].
    intros. by apply calm_conn_set_config.
  - apply (on_conn_setter _ c (fun h => kcpmux_conn_set_callbacks h cbs user_data)); [done|by apply handle_conn|done|].
    intros. by apply calm_conn_set_callbacks.
  - destruct Hx. apply on_stream_create_call; [done|done|by apply handle_conn|done].
  - by apply on_stream_close_call, handle_stream.
  - destruct Hx. apply (on_stream_op _ s (fun h => kcpmux_stream_set_config h config) tt); [done|by apply handle_stream|done|].
    intros. apply calm_stream_set_config; [by apply stream_open_ready|done].
  - apply (on_stream_op _ s (fun h => kcpmux_stream_set_callbacks h cbs user_data) tt); [done|by apply handle_stream|done|].
    intros. by apply calm_stream_set_callbacks, stream_open_ready.
  - by apply on_send_call, handle_stream.
  - destruct Hx. apply on_sendv_call; [done|by apply handle_stream|done].
  - eapply (on_stream_op _ s kcpmux_stream_finish_batch tt); [done|by apply handle_stream|done|].
    intros. by apply calm_finish_batch, stream_open_ready.
  - eapply (on_stream_op _ s kcpmux_stream_peek_size); [done|by apply handle_stream|done|].
    intros. by apply calm_peek_size, stream_open_ready.
  - eapply (on_stream_op _ s (fun h => kcpmux_stream_recv h size)); [done|by apply handle_stream|done|].
    intros. by apply calm_recv.
  - destruct config as [cfg|]; [|by apply on_rest_ret]. eapply on_rest_calm; [done|]. by apply calm_mod_engine.
  - done.
  - by apply on_engine_input_call.
  - by apply on_finish_batch.
Qed.

Lemma exec_quiescent x w : quiescent w -> call_ok w x -> wp (exec x) (fun _ => quiescent) w.
Proof.
  intros Hw Hx. assert (x = CallEngineUpdate \/ x <> CallEngineUpdate) as [->|Hne] by (destruct x; first [by left|by right]);
    [by apply engine_update_ok|].
  apply on_rests; [done|]. apply on_exec; [by apply qu_rest|done|done].
Qed.

Lemma exec_all_quiescent l w : quiescent w -> session_ok l w -> wp (exec_all l) (fun _ => quiescent) w.
Proof.
  revert w. induction l as [|x l IH]; intros w Hw Hl; [by apply wp_ret|].
  destruct Hl as [Hx Hl]. unfold exec_all. cbn [for_each]. rewrite wp_bind.
  pose proof (exec_quiescent x w Hw Hx) as Hwp. apply wp_some in Hwp as ([] & w1 & Hrun & Hw1).
  unfold wp at 1. rewrite Hrun. apply IH; auto.
Qed.

(** A new engine is quiescent. *)
Lemma create_engine ec dc ds cb ud tr e tr' :
  sconfig_arg ds -> kcpmux_engine_create ec dc ds cb ud tr = Some (Some e, tr') ->
  sconfig_ok (e_default_stream_config e) /\ e_timer_node_count e = 0 /\
  0 < htb_size (e_conn_map e) /\ entries (e_conn_map e) = [] /\
  0 < htb_size (e_handshake_map e) /\ entries (e_handshake_map e) = [] /\
  e_pending_batch_streams e = [] /\ e_pending_release_list e = [] /\ e_operation_depth e = 0 /\
  e_conn_count e = 0.
Proof.
  intros Hds. unfold kcpmux_engine_create. destruct cb as [cb|]; [|done].
  case_match; [done|]. destruct (from_option _ _ dc) as [cc|]; [|done].
  destruct (from_option _ _ ds) as [sc|] eqn:Hsc; [|done].
  assert (Hok : sconfig_ok sc).
  { destruct ds as [d|]; cbn in Hsc; [|injection Hsc as <-; by vm_compute].
    apply prepare_ok in Hsc as [<- _]; by apply (Hds d). }
  unfold mbind, M_bind.
  destruct (ask_tr _ _ tr) as [[ok tr1]|]; [|done]. destruct ok; cbn -[htb_new_tr]; [|done].
  destruct (htb_new_tr 64 tr1) as [[[m|] tr2]|] eqn:E1; [|done..]. cbn -[htb_new_tr].
  destruct (htb_new_tr 64 tr2) as [[[h|] tr3]|] eqn:E2; [|done..]. cbn.
  destruct (random_u64_tr cb tr3) as [[r tr4]|]; [|done]. intros [= <- _].
  assert (Hnew : forall t m t', htb_new_tr 64 t = Some (Some m, t') -> 0 < htb_size m /\ entries m = []).
  { clear. intros t m t'. unfold htb_new_tr, ask_tr, mbind, M_bind. cbn.
    destruct (host_alloc t); cbn; [|done]. destruct (host_alloc _); cbn; [|done].
    intros [= <- _]. by vm_compute. }
  destruct (Hnew _ _ _ E1), (Hnew _ _ _ E2). by split_and!.
Qed.

Lemma init_timers_ok : timers_ok kcpmux_timer_manager_init.
Proof.
  constructor; cbn; try done; [|constructor|by intros n Hn%elem_of_nil].
  constructor; cbn. all: try done. all: try constructor.
Qed.

Lemma boot_quiescent ec dc ds cb ud tr e tr' :
  sconfig_arg ds -> kcpmux_engine_create ec dc ds cb ud tr = Some (Some e, tr') -> quiescent (boot e tr').
Proof.
  intros Hds Hc. pose proof (create_next_id _ _ _ _ _ _ _ _ Hc) as (Hid & _ & _).
  pose proof (create_engine _ _ _ _ _ _ _ _ Hds Hc) as Hc'.
  destruct Hc' as (Hsc & Hn & Hs1 & He1 & Hs2 & He2 & Hb & Hp & Hd & Hcn).
  constructor; [| |done].
  - assert (Hreg : registered kcpmux_timer_manager_init = ∅) by done.
    constructor; cbn; rewrite ?Hb; try done; [|by intros n Hin%elem_of_nil|constructor|by intros s Hin%elem_of_nil].
    constructor; cbn; rewrite ?Hreg, ?Hn; [apply init_timers_ok|done|done|by intros n Hin%elem_of_nil].
  - assert (HL : listed None (shape_of (boot e tr'))).
    { constructor; cbn; rewrite ?fmap_empty, ?He1, ?Hcn; try done; [constructor|lia]. }
    constructor; [|done..]. clear HL.
    assert (Hst : forall o, status (shape_of (boot e tr')) o = None) by (by intros []).
    constructor; try (intros o; rewrite Hst); cbn -[status]; rewrite ?fmap_empty, ?Hp, ?He1, ?He2; try done.
    all: try (intros c x; rewrite lookup_empty; done).
    all: try (by intros c Hin%elem_of_nil).
    all: try (by intros ?%elem_of_nil).
    all: try (by intros [? ?]).
    all: try constructor.
Qed.

(** ** What quiescent means *)

(** An object with its timer node, its registration and its links. *)
Record tidy w : Prop := {
  ty_released : e_pending_release_list (w_engine w) = [] /\ e_operation_depth (w_engine w) = 0;
  ty_node n : is_Some (tm_nodes (w_timers w) !! n) <->
    match n with OConn c => is_Some (w_conns w !! c) | OStream s => is_Some (w_streams w !! s) end;
  ty_registered n : is_Some (tm_nodes (w_timers w) !! n) <-> n ∈ registered (w_timers w);
  ty_conn c k : w_conns w !! c = Some k -> c_internal_closed k = false;
  ty_conn_map c : c ∈ entries (e_conn_map (w_engine w)) <-> is_Some (w_conns w !! c);
  ty_conn_once : NoDup (entries (e_conn_map (w_engine w)));
  ty_count : e_conn_count (w_engine w) = u32 (Z.of_nat (length (entries (e_conn_map (w_engine w)))));
  ty_table c k s : w_conns w !! c = Some k -> s ∈ entries (c_stream_map k) ->
    exists st, w_streams w !! s = Some st /\ s_conn st = c;
  ty_stream s st : w_streams w !! s = Some st -> s_internal_closed st = false /\ is_Some (s_kcp st) /\
    exists k, w_conns w !! s_conn st = Some k /\ s ∈ entries (c_stream_map k)
}.

Lemma status_live w n : is_Some (status (shape_of w) n) <->
  match n with OConn c => is_Some (w_conns w !! c) | OStream s => is_Some (w_streams w !! s) end.
Proof. destruct n; cbn; by rewrite !lookup_fmap, !fmap_is_Some. Qed.

Lemma at_rest_status S n : at_rest S -> is_Some (status S n) -> status S n = Some false.
Proof.
  intros HS [b Hb]. rewrite Hb. f_equal. destruct b; [|done]. exfalso.
  destruct (wf_closed _ _ (ar_wf _ HS) n Hb) as [Hin|(? & ? & _)]; [|done].
  rewrite (ar_pending _ HS) in Hin. by apply elem_of_nil in Hin.
Qed.

Lemma quiescent_tidy w : quiescent w -> tidy w.
Proof.
  intros [_ HS _]. pose proof HS as [Hwf HL Hp Hd].
  assert (Hnode : forall n, is_Some (tm_nodes (w_timers w) !! n) <-> is_Some (status (shape_of w) n)).
  { intros n. rewrite <- (wf_nodes _ _ Hwf n). cbn. by rewrite elem_of_dom. }
  constructor.
  - by split.
  - intros n. by rewrite Hnode, status_live.
  - intros n. rewrite Hnode. change (registered (w_timers w)) with (sp_registered (shape_of w)).
    rewrite (wf_registered _ _ Hwf n). split; [by apply at_rest_status|intros ->; eauto].
  - intros c k Hk. apply (at_rest_conn (shape_of w) c (cshape_of k) HS). apply shape_conn. eauto.
  - intros c. split.
    + intros Hc. destruct (wf_conn_map _ _ Hwf c Hc) as (x & (k & ? & _)%shape_conn & _). eauto.
    + intros [k Hk]. assert (Hx : sp_conns (shape_of w) !! c = Some (cshape_of k)) by (apply shape_conn; eauto).
      destruct (li_open _ _ HL c _ Hx) as [|]; [by apply (at_rest_conn (shape_of w) c _ HS)|done..].
  - apply HL.
  - apply HL.
  - intros c k s Hk Hs. destruct (wf_table _ _ Hwf c (cshape_of k) s) as (y & (st & ? & <-)%shape_stream & ? & _);
      [apply shape_conn; eauto|done|eauto].
  - intros s st Hst. assert (Hy : sp_streams (shape_of w) !! s = Some (sshape_of st)) by (apply shape_stream; eauto).
    destruct (wf_stream _ _ Hwf s _ Hy) as (x & (k & Hk & <-)%shape_conn & Ho).
    assert (Hcl : s_internal_closed st = false).
    { pose proof (at_rest_status _ (OStream s) HS) as H. rewrite (status_stream s _ Hy) in H.
      specialize (H ltac:(eauto)). by injection H. }
    destruct (Ho Hcl) as (Hkcp & _ & _ & ?). cbn in Hkcp. apply bool_decide_eq_true in Hkcp. eauto.
Qed.

Lemma session_quiescent ec dc ds cb ud tr e tr' l :
  sconfig_arg ds -> kcpmux_engine_create ec dc ds cb ud tr = Some (Some e, tr') ->
  session_ok l (boot e tr') -> wp (exec_all l) (fun _ => quiescent) (boot e tr').
Proof. intros Hds Hc. apply exec_all_quiescent. by eapply boot_quiescent. Qed.

(** ** The guarantees *)

(** C1. No call crashes, hangs or leaks. On a quiescent engine every call of
    the public interface with live handles, whatever the packet, the state of
    the objects, the answers of host and allocator and the behaviour of KCP,
    returns -- it follows no NULL or dangling pointer, reads outside no buffer,
    and ends every loop -- and leaves the engine quiescent again. *)
Theorem calls_are_safe x w :
  quiescent w -> call_ok w x -> exists w', exec x w = Some (tt, w') /\ quiescent w'.
Proof.
  intros Hw Hx. pose proof (exec_quiescent x w Hw Hx) as Hwp.
  apply wp_some in Hwp as ([] & w' & ? & ?). eauto.
Qed.


(** C7. From engine creation on, every session of legal calls runs to its end,
    and between any two calls the objects are tidy: each connection and stream
    alive is open, has exactly one timer node, registered with the scheduler,
    streams have a KCP and are linked in the table of a live connection, tables
    hold live objects only, and everything that was closed has been freed. *)
Theorem sessions_are_safe ec dc ds cb ud tr e tr' l :
  sconfig_arg ds -> kcpmux_engine_create ec dc ds cb ud tr = Some (Some e, tr') ->
  session_ok l (boot e tr') ->
  exists w, exec_all l (boot e tr') = Some (tt, w) /\ tidy w.
Proof.
  intros Hds Hc Hl. pose proof (session_quiescent _ _ _ _ _ _ _ _ l Hds Hc Hl) as Hwp.
  apply wp_some in Hwp as ([] & w & ? & ?). eauto using quiescent_tidy.
Qed.

End spec.

Section cascade.
Context {KO : Kcp} {HO : Host}.
Implicit Types (c s : positive) (w : world K).

(** C8. Closing a connection closes everything it owns and frees nothing yet.
    In every well-formed state inside an operation,
    [kcpmux_conn_close_internal] of an open connection returns; afterwards the
    connection and each of its streams is closed, in no table and without a
    timer, the streams wait for release before their connection, and no object
    has been freed, so that callers still holding a pointer may use it until
    the operation ends. *)
Theorem conn_close_cascades c k reason w :
  misc_ok w -> wf None (shape_of w) -> w_conns w !! c = Some k -> c_internal_closed k = false ->
  exists w', kcpmux_conn_close_internal c reason w = Some (tt, w') /\
    misc_ok w' /\ wf None (shape_of w') /\
    (forall n, is_Some (status (shape_of w') n) <-> is_Some (status (shape_of w) n)) /\
    (exists k', w_conns w' !! c = Some k' /\ c_internal_closed k' = true /\
       c_in_engine_map k' = false /\ entries (c_stream_map k') = []) /\
    (c ∉ entries (e_conn_map (w_engine w'))) /\ (c ∉ entries (e_handshake_map (w_engine w'))) /\
    (OConn c ∉ registered (w_timers w')) /\
    exists l1 l2, e_pending_release_list (w_engine w') = l1 ++ (OConn c :: l2) /\
      forall s st, w_streams w' !! s = Some st -> s_conn st = c ->
        s_internal_closed st = true /\ OStream s ∈ l1 /\ OStream s ∉ registered (w_timers w').
Proof.
  intros Hm Hwf Hk Hcl.
  assert (Hx : sp_conns (shape_of w) !! c = Some (cshape_of k)) by (apply shape_conn; eauto).
  pose proof (on_conn_close _ c _ reason Hwf Hx Hcl w Hm eq_refl) as Hwp.
  apply wp_some in Hwp as ([] & w' & Hrun & (Hwf' & Hn & _ & _ & Hp) & Hm' & _).
  exists w'. split; [done|]. split; [done|]. split; [done|].
  split; [intros n; by rewrite <- (wf_nodes _ _ Hwf'), <- (wf_nodes _ _ Hwf), Hn|].
  pose proof (wf_pending _ _ Hwf' _ Hp) as Hst. cbn in Hst. rewrite lookup_fmap in Hst.
  destruct (w_conns w' !! c) as [k'|] eqn:Hk'; [|done]. injection Hst as Hcl'.
  assert (Hx' : sp_conns (shape_of w') !! c = Some (cshape_of k')) by (apply shape_conn; eauto).
  destruct (wf_conn _ _ Hwf' c _ Hx') as (_ & _ & Him). specialize (Him Hcl').
  pose proof (wf_pending_map _ _ Hwf' c _ Hp Hx') as He.
  assert (Hreg : forall n, status (shape_of w') n = Some true -> n ∉ registered (w_timers w')).
  { intros n H1 H2. apply (wf_registered _ _ Hwf') in H2. congruence. }
  split; [by exists k'|].
  split; [intros (x & H1 & H2)%(wf_conn_map _ _ Hwf'); congruence|].
  split; [intros (x & H1 & H2 & _)%(wf_handshake _ _ Hwf'); congruence|].
  split; [by apply Hreg, (wf_pending _ _ Hwf')|].
  apply list_elem_of_split in Hp as (l1 & l2 & Hl). exists l1, l2. split; [done|].
  intros s st Hs Hc. assert (Hy : sp_streams (shape_of w') !! s = Some (sshape_of st)) by (apply shape_stream; eauto).
  pose proof (wf_order _ _ Hwf' l1 c l2 s _ Hl Hy Hc) as Hin.
  assert (Ht : status (shape_of w') (OStream s) = Some true).
  { apply (wf_pending _ _ Hwf'). rewrite Hl. set_solver. }
  split; [|split; [done|by apply Hreg]]. rewrite (status_stream s _ Hy) in Ht. by injection Ht.
Qed.
End cascade.

(** ** The sample host and session *)

Lemma steady_host_ok : host_ok.
Proof.
  constructor.
  - intros tr f c. vm_compute. by split.
  - intros tr f s a. cbn. by intros ->%list_elem_of_singleton.
Qed.

Lemma session_ok_cons x l w w' :
  call_ok w x -> exec x w = Some (tt, w') -> session_ok l w' -> session_ok (x :: l) w.
Proof. intros Hx Hrun Hl. split; [done|]. intros w1 Hrun1. rewrite Hrun in Hrun1. by injection Hrun1 as <-. Qed.

Ltac session_step :=
  lazymatch goal with |- session_ok (?x :: ?l) ?w =>
    let o := eval vm_compute in (outcome (run (exec x) (Some w))) in
    apply (session_ok_cons x l w o); [|vm_compute; reflexivity|] end.

Lemma sample_session_ok : session_ok session sample_boot.
Proof.
  unfold session, sample_boot. session_step; [by intros ?|]. session_step; [done|].
  session_step; [split; [by vm_compute; eauto|by intros ?]|].
  session_step; [by vm_compute; eauto|]. session_step; [by vm_compute; eauto|]. done.
Qed.

Lemma session_ok_take n l w : session_ok l w -> session_ok (take n l) w.
Proof.
  revert n w. induction l as [|x l IH]; intros [|n] w; cbn; try done.
  intros [? Hl]. split; [done|]. auto.
Qed.

Lemma sample_opened_runs : exec_all (take 3 session) sample_boot = Some (tt, sample_opened).
Proof. vm_compute. reflexivity. Qed.

Lemma sample_opened_quiescent : quiescent sample_opened.
Proof.
  assert (Hd : sconfig_arg None) by by intros ?.
  pose proof (session_quiescent steady_host_ok _ _ _ _ _ _ _ _ (take 3 session) Hd sample_create_eq
    (session_ok_take 3 _ _ sample_session_ok)) as Hwp.
  fold sample_boot in Hwp. unfold wp in Hwp. by rewrite sample_opened_runs in Hwp.
Qed.


Lemma calls_are_safe_witness :
  exists w', exec (CallStreamClose (Some 2%positive)) sample_opened = Some (tt, w') /\ quiescent w'.
Proof.
  apply (calls_are_safe steady_host_ok (CallStreamClose (Some 2%positive)) sample_opened sample_opened_quiescent).
  vm_compute. eauto.
Defined.

Lemma sessions_are_safe_witness :
  exists w, exec_all session sample_boot = Some (tt, w) /\ tidy w.
Proof.
  apply (sessions_are_safe steady_host_ok None None None (Some all_callbacks) 0 [] sample_create.1 sample_create.2 session).
  - intros x Hx. discriminate Hx.
  - exact sample_create_eq.
  - exact sample_session_ok.
Defined.

Definition sample_opened_conn := Eval vm_compute in outcome (w_conns sample_opened !! 1%positive).

Lemma conn_close_cascades_witness :
  exists w' l1 l2, kcpmux_conn_close_internal 1 0 sample_opened = Some (tt, w') /\
    e_pending_release_list (w_engine w') = l1 ++ (OConn 1 :: l2).
Proof.
  destruct (conn_close_cascades 1 sample_opened_conn 0 sample_opened)
    as (w' & Hrun & _ & _ & _ & _ & _ & _ & _ & l1 & l2 & Hl & _).
  - exact (qu_misc _ sample_opened_quiescent).
  - exact (ar_wf _ (qu_rest _ sample_opened_quiescent)).
  - vm_compute. reflexivity.
  - vm_compute. reflexivity.
  - exists w', l1, l2. split; [exact Hrun|exact Hl].
Defined.
