(* ===== verification/Destroy.v ===== *)
(** * Destroying an engine

    [kcpmux_engine_destroy] closes the connections one after the other, each
    with its streams, and frees everything at the end of the operation. *)

From S2P Require Import Prelude Types Timer TimerProofs TimerSpec Hashtable Vectored World Engine Conn Messages Stream Mux Sample LifeSpec Deadlines Wire Shape Steps Calm Wf Listed Closing Safe SafeCalls SafeLoops SafeSpec.
From stdpp Require Import gmap.
#[local] Open Scope Z_scope.

Section destroy.
Context {KO : Kcp} {HO : Host}.
Implicit Types (c s : positive) (w : world K) (S : shape).

(** A linked connection is open. *)
Lemma entries_open S c :
  wf None S -> c ∈ entries (sp_conn_map S) -> exists x, sp_conns S !! c = Some x /\ ch_closed x = false.
Proof.
  intros Hwf Hc. destruct (wf_conn_map _ _ Hwf c Hc) as (x & Hx & Him). exists x. split; [done|].
  destruct (wf_conn _ _ Hwf c x Hx) as (_ & _ & Hcl). destruct (ch_closed x); [|done].
  rewrite Hcl in Him; done.
Qed.

Lemma on_destroy_loop fuel S :
  in_operation S -> Z.of_nat (length (entries (sp_conn_map S))) < 2 ^ 32 ->
  (length (entries (sp_conn_map S)) <= fuel)%nat ->
  on S (destroy_loop fuel) (fun _ S' => in_operation S' /\ entries (sp_conn_map S') = []).
Proof.
  revert S. induction fuel as [|fuel IH]; intros S HS Hmax Hf; cbn [destroy_loop];
    (eapply on_calm_bind;
      [apply (calm_get_engine S (fun e => e_conn_map e = sp_conn_map S /\ e_conn_count e = sp_count S)); by intros w _ <-|]);
    intros e [Hm Hn]; rewrite Hm, Hn, (li_count _ _ (io_listed _ HS)), wrap_small by (unfold in_u; lia);
    change (concat (hashtable (sp_conn_map S))) with (entries (sp_conn_map S));
    destruct (entries (sp_conn_map S)) as [|c l] eqn:He; try (by apply on_ret); [cbn in Hf; lia|].
  rewrite (proj2 (Z.leb_gt _ _)) by (cbn; lia). destruct HS as [Hwf HL Hd].
  destruct (entries_open S c Hwf) as (x & Hx & Hcl); [rewrite He; by left|].
  destruct (listed_cmark S c x Hwf HL Hx Hcl) as (HL1 & _ & He1). rewrite He in He1.
  eapply on_bind; [by apply (on_conn_close S c x)|]. intros _ S1 (Hwf1 & _ & Hd1 & Ht & _).
  assert (Hm1 : entries (sp_conn_map S1) = filter (fun y => y <> c) (c :: l))
    by (injection Ht as _ -> _ _; exact He1).
  rewrite filter_cons_False in Hm1 by tauto. pose proof (length_filter (fun y => y <> c) l) as Hlen.
  cbn in Hmax, Hf. apply IH; [|rewrite Hm1; lia|rewrite Hm1; lia].
  split; [done|by apply (listed_view _ (cmark c x S))|by rewrite Hd1].
Qed.

(** Nothing is left when no connection is linked. *)
Lemma at_rest_empty S :
  at_rest S -> entries (sp_conn_map S) = [] -> sp_conns S = ∅ /\ sp_streams S = ∅ /\ sp_nodes S = ∅.
Proof.
  intros HS He. pose proof HS as [Hwf HL _ _].
  assert (Hc : sp_conns S = ∅).
  { apply map_eq. intros c. rewrite lookup_empty. destruct (sp_conns S !! c) as [x|] eqn:Hx; [|done].
    exfalso. destruct (li_open _ _ HL c x Hx) as [Hin|]; [by apply (at_rest_conn S c)| |done].
    rewrite He in Hin. by apply elem_of_nil in Hin. }
  assert (Hs : sp_streams S = ∅).
  { apply map_eq. intros s. rewrite lookup_empty. destruct (sp_streams S !! s) as [y|] eqn:Hy; [|done].
    exfalso. destruct (wf_stream _ _ Hwf s y Hy) as (x & Hx & _). by rewrite Hc, lookup_empty in Hx. }
  split; [done|]. split; [done|]. apply set_eq. intros o. rewrite (wf_nodes _ _ Hwf), elem_of_empty.
  split; [|done]. destruct o; cbn; rewrite ?Hc, ?Hs, lookup_empty; by intros [].
Qed.

(** Everything up to the release of the tables. *)
Lemma wp_close_all {A} w (m : W A) Q :
  quiescent w -> Z.of_nat (length (entries (e_conn_map (w_engine w)))) < 2 ^ 32 ->
  (forall w', quiescent w' -> entries (e_conn_map (w_engine w')) = [] -> wp m Q w') ->
  wp (kcpmux_engine_operation_enter;;
      n ← gets (fun w => length (concat (hashtable (e_conn_map (w_engine w)))));
      destroy_loop n;; kcpmux_engine_operation_leave;; m) Q w.
Proof.
  intros [Hw HS Hd] Hmax Hm. rewrite wp_bind.
  eapply wp_mono; [|by apply (on_entered (shape_of w))]. intros _ w1 ((HS1 & _ & _ & Hm1) & Hw1 & Hd1).
  change (e_conn_map (w_engine w)) with (sp_conn_map (shape_of w)) in Hmax. rewrite <- Hm1 in Hmax.
  rewrite wp_bind, wp_gets, wp_bind. eapply wp_mono; [|by apply (on_destroy_loop _ (shape_of w1))].
  intros _ w2 ([HS2 He2] & Hw2 & Hd2). rewrite wp_bind.
  eapply wp_mono; [|by apply (on_operation_leave (shape_of w2))]. intros _ w3 ([HS3 Hm3] & Hw3 & Hd3).
  apply Hm; [|change (entries (sp_conn_map (shape_of w3)) = []); by rewrite Hm3].
  constructor; [done|done|]. rewrite Hd in Hd1. apply sublist_nil_r in Hd1. rewrite Hd1 in Hd2.
  apply sublist_nil_r in Hd2. rewrite Hd2 in Hd3. by apply sublist_nil_r in Hd3.
Qed.

(** What [kcpmux_engine_destroy] leaves. *)
Record gone w : Prop := {
  gone_conns : w_conns w = ∅;
  gone_streams : w_streams w = ∅;
  gone_nodes : tm_nodes (w_timers w) = ∅;
  gone_heap : tm_heap (w_timers w) = [] /\ tm_due (w_timers w) = [] /\ tm_capacity (w_timers w) = 0;
  gone_pending : e_pending_release_list (w_engine w) = []
}.

Lemma destroy_gone w :
  quiescent w -> Z.of_nat (length (entries (e_conn_map (w_engine w)))) < 2 ^ 32 ->
  wp kcpmux_engine_destroy (fun _ => gone) w.
Proof.
  intros Hq Hmax. unfold kcpmux_engine_destroy, mod_engine. rewrite wp_bind, wp_modify.
  apply wp_close_all; [|done|].
  { destruct Hq as [Hw HS Hd]. constructor; [|done|done]. revert Hw. by apply misc_ok_same. }
  clear. intros w [Hw HS Hd] He. destruct (at_rest_empty _ HS He) as (Hc & Hs & Hn).
  assert (Hlive : forall m, (forall c, c ∈ entries m -> is_Some (sp_conns (shape_of w) !! c)) ->
    kcpmux_htb_destroy (fun c => bool_decide (is_Some (w_conns w !! c))) m = Some tt).
  { intros m Hl. unfold kcpmux_htb_destroy, kcpmux_htb_flush. rewrite (proj2 (forallb_forall _ _)); [done|].
    intros c Hin%list_elem_of_In. apply bool_decide_eq_true. specialize (Hl c Hin). revert Hl. cbn.
    by rewrite lookup_fmap, fmap_is_Some. }
  rewrite wp_bind, (wp_deref _ _ _ tt), wp_bind, (wp_deref _ _ _ tt).
  - rewrite wp_bind. apply wp_timers. unfold kcpmux_timer_manager_destroy, emit. rewrite !wp_modify.
    constructor; cbn; try done.
    + cbn in Hc. by apply fmap_empty_inv in Hc.
    + cbn in Hs. by apply fmap_empty_inv in Hs.
    + cbn in Hn. by apply dom_empty_inv_L in Hn.
    + exact (ar_pending _ HS).
  - apply Hlive. apply (wf_conns_live (ar_wf _ HS)).
  - apply Hlive. apply (wf_handshake_live (ar_wf _ HS)).
Qed.
End destroy.

(** C9. Destroying the engine releases everything. Whatever legal calls were
    made since it was created, as long as it has fewer than 2^32 connections,
    [kcpmux_engine_destroy] ends, follows no dangling pointer while it closes
    them and their streams, and leaves no connection, no stream, no timer node
    and nothing waiting for release. *)
Theorem destroy_releases_all {KO : Kcp} {HO : Host} ec dc ds cb ud tr e tr' l w :
  host_ok -> sconfig_arg ds -> kcpmux_engine_create ec dc ds cb ud tr = Some (Some e, tr') ->
  session_ok l (boot e tr') -> exec_all l (boot e tr') = Some (tt, w) ->
  Z.of_nat (length (entries (e_conn_map (w_engine w)))) < 2 ^ 32 ->
  exists w', kcpmux_engine_destroy w = Some (tt, w') /\ gone w'.
Proof.
  intros Hhost Hds Hc Hl Hrun Hmax.
  pose proof (session_quiescent Hhost _ _ _ _ _ _ _ _ l Hds Hc Hl) as Hwp.
  unfold wp in Hwp. rewrite Hrun in Hwp. pose proof (destroy_gone w Hwp Hmax) as Hd.
  apply wp_some in Hd as ([] & w' & ? & ?). eauto.
Qed.

Lemma destroy_releases_all_witness :
  exists w', kcpmux_engine_destroy sample_closing = Some (tt, w') /\ gone w'.
Proof.
  apply (destroy_releases_all None None None (Some all_callbacks) 0 [] sample_create.1 sample_create.2 session).
  - exact steady_host_ok.
  - intros x Hx. discriminate Hx.
  - exact sample_create_eq.
  - exact sample_session_ok.
  - exact session_runs.
  - vm_compute. reflexivity.
Defined.
