(* ===== verification/Alarm.v ===== *)
(** * Every pending timeout has a timer

    What a connection or stream waits for is a [demand] on its timer node, read
    off its fields: a handshake or close to be retried, a peer to be given up,
    data to be drained, an open stream to be driven.  [watch d] says that in a
    world every demand is met by a node that is armed, except those of the
    objects in [d_late d], which a function has just changed and not yet
    rescheduled.  [under d m R] says that [m] leads from [watch d] to
    [watch (R a)]; the next two files prove it of every function, so that at
    the end of a call no object is late. *)

From S2P Require Import Prelude Types Timer TimerProofs TimerSpec Hashtable Vectored World Engine Conn Messages Stream Mux Life LifeSim Deadlines Shape Steps.
From stdpp Require Import gmap.
#[local] Open Scope Z_scope.

(** ** Demands *)

(** No timer, a timer for any time, one that is due, one that fires at the
    latest at [d] (or at once, if that has passed), one that moreover does not
    fire before [d]. *)
Inductive demand := NoAlarm | Any | Soon | By (d : Z) | At (d : Z).

(** [r] is the time the node is armed for, [told] the times the host has
    reported. *)
Definition meets (told : Z -> Prop) (dm : demand) (r : option Z) : Prop :=
  match dm with
  | NoAlarm => True
  | Any => is_Some r
  | Soon => exists d t, r = Some d /\ told t /\ d <= t
  | By D => exists d t, r = Some d /\ told t /\ d <= Z.max D t
  | At D => exists d t, r = Some d /\ told t /\ D <= d <= Z.max D t
  end.

(** Scheduling for [D] at the time [now] meets the demand. *)
Definition suits (dm : demand) (D now : Z) : Prop :=
  match dm with
  | NoAlarm | Any => True
  | Soon => D <= now
  | By X => D <= Z.max X now
  | At X => D = X
  end.

Lemma suits_meets (told : Z -> Prop) dm D now :
  suits dm D now -> told now -> meets told dm (Some (Z.max D now)).
Proof.
  destruct dm; cbn; [done|eauto|intros; eexists _, now..]; (split; [done|]); (split; [done|]); lia.
Qed.

Lemma meets_told (told told' : Z -> Prop) dm r :
  (forall t, told t -> told' t) -> meets told dm r -> meets told' dm r.
Proof. destruct dm; cbn; naive_solver. Qed.

Definition conn_demand (k : conn) : demand :=
  match kcpmux_conn_calculate_deadline k with Some d => By d | None => NoAlarm end.

(** A connection whose streams are driven. *)
Definition conn_up (k : conn) : bool :=
  negb (c_internal_closed k) && bool_decide (c_state k = CONN_CONNECTED).

Definition stream_demand {K} (up : bool) (st : stream K) : demand :=
  if s_internal_closed st || negb up then NoAlarm
  else
    let drain_deadline :=
      kcpmux_timer_deadline_after (s_drain_started_ts st) (sc_drain_timeout_ms (s_config st)) in
    match s_state st, s_close_phase st with
    | STREAM_OPEN, _ => Any
    | STREAM_CLOSING, CLOSE_LOCAL_DRAIN => By drain_deadline
    | STREAM_CLOSING, CLOSE_WAIT_ACK =>
        At (kcpmux_timer_deadline_after (s_last_ctrl_ts st) (sc_ctrl_timeout_ms (s_config st)))
    | STREAM_CLOSING, CLOSE_REMOTE_DRAIN => At drain_deadline
    | STREAM_CLOSING, CLOSE_FINALIZE => Soon
    | _, _ => NoAlarm
    end.

(** The time a node is armed for; a node collected by the update that runs
    still counts. *)
Definition ring (nd : timer_node) : option Z :=
  match tn_state nd with
  | TIMER_HEAP | TIMER_DUE => Some (deadline_ms nd)
  | _ => None
  end.

Definition rings (t : timers) (o : obj) : option Z := tm_nodes t !! o ≫= ring.

Section world.
Context {KO : Kcp}.
Implicit Types (c s : positive) (w : world K) (o : obj).

Definition up w c : bool := from_option conn_up false (w_conns w !! c).

Definition demand_of w o : demand :=
  match o with
  | OConn c => from_option conn_demand NoAlarm (w_conns w !! c)
  | OStream s => from_option (fun st => stream_demand (up w (s_conn st)) st) NoAlarm (w_streams w !! s)
  end.

(** Whether an object is closed, if it exists. *)
Definition closed_of w o : option bool :=
  match o with
  | OConn c => c_internal_closed <$> w_conns w !! c
  | OStream s => s_internal_closed <$> w_streams w !! s
  end.

Definition told_by w (t : Z) : Prop := EvTime t ∈ w_trace w.

Lemma closed_no_demand w o : closed_of w o <> Some false -> demand_of w o = NoAlarm.
Proof.
  destruct o as [c|s]; cbn.
  - destruct (w_conns w !! c) as [k|]; [|done]. cbn. intros Hc.
    unfold conn_demand, kcpmux_conn_calculate_deadline. by destruct (c_internal_closed k).
  - destruct (w_streams w !! s) as [st|]; [|done]. cbn. intros Hc.
    unfold stream_demand. by destruct (s_internal_closed st).
Qed.
End world.

(** ** What holds between two statements *)

(** [d_late]: objects not rescheduled since they changed; [d_new]: objects not
    yet registered with the scheduler; [d_shut]: objects marked closed and not
    yet unregistered; [d_told]: times the host has reported; [d_due]: the time
    of the update whose due nodes are being dispatched; [d_busy]: inside an
    operation. *)
Record desc := mk_desc {
  d_late : gset obj;
  d_new : gset obj;
  d_shut : gset obj;
  d_told : list Z;
  d_due : option Z;
  d_busy : bool
}.
#[export] Instance eta_desc : Eta desc := fun r =>
  mk_desc (d_late r) (d_new r) (d_shut r) (d_told r) (d_due r) (d_busy r).

Definition addr_of (o : obj) : positive := match o with OConn c => c | OStream s => s end.

Definition due_ok (due : option Z) (t : timers) : Prop :=
  match due with
  | None => tm_due t = []
  | Some now => forall n nd, n ∈ tm_due t -> tm_nodes t !! n = Some nd -> deadline_ms nd <= now
  end.

Record watch {KO : Kcp} (d : desc) (w : world K) : Prop := {
  wt_reserved : reserved w;
  wt_owners : owners_ok (w_timers w);
  wt_due_registered n : n ∈ tm_due (w_timers w) -> n ∈ registered (w_timers w);
  wt_due : due_ok (d_due d) (w_timers w);
  wt_told t : t ∈ d_told d -> told_by w t;
  wt_node_addr o : is_Some (tm_nodes (w_timers w) !! o) -> (addr_of o < w_next_addr w)%positive;
  wt_addr o : is_Some (closed_of w o) -> (addr_of o < w_next_addr w)%positive;
  wt_new o : o ∈ d_new d ->
    o ∉ registered (w_timers w) /\ is_Some (tm_nodes (w_timers w) !! o) /\ closed_of w o = Some false;
  wt_open o : closed_of w o = Some false -> o ∈ d_new d \/ o ∈ registered (w_timers w);
  wt_closed o : closed_of w o = Some true -> o ∈ d_shut d \/ o ∉ registered (w_timers w);
  wt_alarm o : o ∉ d_late d -> meets (told_by w) (demand_of w o) (rings (w_timers w) o);
  wt_depth : e_operation_depth (w_engine w) = if d_busy d then 1 else 0;
  wt_host : d_busy d = false -> host_armed w;
  wt_wired : is_Some (ecb_set_timer (e_callbacks (w_engine w)))
}.

(** A description that promises less. *)
Record below (d d' : desc) : Prop := {
  bl_late : d_late d ⊆ d_late d';
  bl_new : d_new d = d_new d';
  bl_shut : d_shut d ⊆ d_shut d';
  bl_told : d_told d' ⊆ d_told d;
  bl_due : d_due d = d_due d';
  bl_busy : d_busy d = d_busy d'
}.
Infix "⊑d" := below (at level 70).

Notation late_with o d := (d <| d_late ::= union {[o]} |>).
Notation late_without o d := (d <| d_late ::= fun l => l ∖ {[o]} |>).
Notation having_told t d := (d <| d_told ::= cons t |>).

Section under.
Context {KO : Kcp} {HO : Host}.
Implicit Types (c s : positive) (w : world K) (o : obj) (d : desc).

Lemma watch_below d d' w : d ⊑d d' -> watch d w -> watch d' w.
Proof.
  intros [Hl Hn Hs Ht Hd Hb] []. constructor; rewrite <- ?Hn, <- ?Hd, <- ?Hb; try done.
  - intros t Hin. auto.
  - intros o Ho. destruct (wt_closed0 o Ho); auto.
  - intros o Ho. apply wt_alarm0. set_solver.
Qed.

Definition under {A} d (m : W A) (R : A -> desc) : Prop :=
  forall w, watch d w -> wlp m (fun a w' => watch (R a) w') w.

(** Computations that make no object late, and none less so. *)
Definition firm {A} (m : W A) : Prop := forall d, under d m (fun _ => d).

Lemma under_weaken {A} d (m : W A) R R' :
  under d m R -> (forall a, R a ⊑d R' a) -> under d m R'.
Proof.
  intros Hm HR w Hw. eapply wlp_mono; [by apply Hm|]. intros a w'. apply watch_below, HR.
Qed.

Lemma under_bind {A B} d (m : W A) (f : A -> W B) R Q :
  under d m R -> (forall a, under (R a) (f a) Q) -> under d (m ≫= f) Q.
Proof.
  intros Hm Hf w Hw. apply wlp_bind. eapply wlp_mono; [by apply Hm|]. intros a w' Hw'. by apply Hf.
Qed.

Lemma under_ret {A} d (a : A) (R : A -> desc) : d ⊑d R a -> under d (mret a) R.
Proof. intros Hd w Hw. apply wlp_ret. by eapply watch_below. Qed.

Lemma below_refl d : d ⊑d d.
Proof. by constructor. Qed.

Lemma firm_bind {A B} (m : W A) (f : A -> W B) : firm m -> (forall a, firm (f a)) -> firm (m ≫= f).
Proof. intros Hm Hf d. eapply under_bind; [apply Hm|]. intros a. apply Hf. Qed.

Lemma firm_ret {A} (a : A) : firm (mret a).
Proof. intros d. apply under_ret, below_refl. Qed.

Lemma firm_ub {A} : firm (ub : W A).
Proof. intros d w _. apply wlp_ub. Qed.

Lemma firm_gets {A} (f : world K -> A) : firm (gets f).
Proof. intros d w Hw. by apply wlp_gets. Qed.

Lemma firm_deref {A} (f : world K -> option A) : firm (deref f).
Proof. intros d w Hw. by apply wlp_deref. Qed.

Lemma firm_when b (m : W unit) : firm m -> firm (when b m).
Proof. destruct b; [done|]. intros _. apply firm_ret. Qed.

Lemma firm_for_each {A} (f : A -> W unit) l : (forall x, firm (f x)) -> firm (for_each f l).
Proof. intros Hf. induction l; cbn; [apply firm_ret|by apply firm_bind]. Qed.


(** ** Stores *)

(** A store that leaves the scheduler alone and changes the demands of [L]
    only. *)
Lemma watch_change d (L : gset obj) w w' :
  w_timers w' = w_timers w -> e_timer_node_count (w_engine w') = e_timer_node_count (w_engine w) ->
  w_next_addr w' = w_next_addr w -> w_trace w ⊆ w_trace w' ->
  e_operation_depth (w_engine w') = e_operation_depth (w_engine w) ->
  e_callbacks (w_engine w') = e_callbacks (w_engine w) ->
  (host_armed w -> host_armed w') ->
  (forall o, closed_of w' o = closed_of w o) ->
  (forall o, o ∉ L -> demand_of w' o = demand_of w o \/ demand_of w' o = NoAlarm) ->
  watch d w -> watch (d <| d_late ::= union L |>) w'.
Proof.
  intros Ht Hc Hn Htr Hdep Hcb Hh Hcl Hdm []. constructor; cbn; rewrite ?Ht, ?Hn, ?Hdep, ?Hcb; try done; auto.
  - by eapply reserved_same.
  - intros t Hin. apply Htr, wt_told0, Hin.
  - intros o. rewrite Hcl. auto.
  - intros o. rewrite Hcl. auto.
  - intros o. rewrite Hcl. auto.
  - intros o. rewrite Hcl. auto.
  - intros o Ho. destruct (Hdm o) as [->| ->]; [set_solver| |done].
    eapply (meets_told (told_by w)); [intros t; apply Htr|]. apply wt_alarm0. set_solver.
Qed.

Lemma watch_still d w w' :
  w_timers w' = w_timers w -> e_timer_node_count (w_engine w') = e_timer_node_count (w_engine w) ->
  w_next_addr w' = w_next_addr w -> w_trace w ⊆ w_trace w' ->
  e_operation_depth (w_engine w') = e_operation_depth (w_engine w) ->
  e_callbacks (w_engine w') = e_callbacks (w_engine w) ->
  (host_armed w -> host_armed w') ->
  (forall o, closed_of w' o = closed_of w o) -> (forall o, demand_of w' o = demand_of w o) ->
  watch d w -> watch d w'.
Proof.
  intros. eapply watch_below, (watch_change d ∅ w); try done; [constructor; cbn; set_solver|auto].
Qed.

(** What [watch] sees of the engine besides the scheduler. *)
Definition eng_alarm (e : engine) :=
  (e_timer_node_count e, e_callbacks e, e_operation_depth e, e_external_timer_armed e,
   e_external_timer_deadline_ms e).

Lemma host_armed_eng w w' :
  w_timers w' = w_timers w -> eng_alarm (w_engine w') = eng_alarm (w_engine w) ->
  host_armed w -> host_armed w'.
Proof. intros Ht He. injection He as _ ? ? ? ?. apply host_armed_same; congruence. Qed.

Lemma firm_mod_engine f : (forall e, eng_alarm (f e) = eng_alarm e) -> firm (mod_engine f).
Proof.
  intros Hf d w Hw. apply wlp_modify. pose proof (Hf (w_engine w)) as He. injection He as ? ? ? _ _.
  revert Hw. apply watch_still; try done. by apply host_armed_eng, Hf.
Qed.

Lemma firm_in_trace {A} (m : M trace A) :
  (forall tr a tr', m tr = Some (a, tr') -> tr ⊆ tr') -> firm (in_trace m).
Proof.
  intros Hm d w Hw a w'. unfold in_trace, zoom. destruct (m (w_trace w)) as [[b tr]|] eqn:E; [|done].
  intros [= <- <-]. apply Hm in E. revert Hw. by apply watch_still.
Qed.

Lemma firm_ask {A} (f : trace -> A) rec : firm (ask f rec).
Proof. apply firm_in_trace. intros tr a tr' [= _ <-]. set_solver. Qed.

Lemma firm_emit ev : firm (emit ev).
Proof. intros d w Hw. apply wlp_modify. revert Hw. apply watch_still; try done. cbn. set_solver. Qed.

(** The fields demands are read off. *)
Definition conn_view (k : conn) :=
  (c_internal_closed k, c_state k, c_config k, c_last_ctrl_ts k, c_last_recv_ts k,
   c_last_keepalive_ts k, c_last_payload_ts k).

Definition stream_view (st : stream K) :=
  (s_internal_closed st, s_state st, s_close_phase st, s_conn st,
   sc_ctrl_timeout_ms (s_config st), sc_drain_timeout_ms (s_config st), s_last_ctrl_ts st,
   s_drain_started_ts st).

Lemma conn_demand_view k k' : conn_view k' = conn_view k -> conn_demand k' = conn_demand k.
Proof.
  intros H. injection H as H1 H2 H3 H4 H5 H6 H7.
  unfold conn_demand, kcpmux_conn_calculate_deadline. by rewrite H1, H2, H3, H4, H5, H6, H7.
Qed.

Lemma stream_demand_view b st st' :
  stream_view st' = stream_view st -> stream_demand b st' = stream_demand b st.
Proof.
  intros H. injection H as H1 H2 H3 H4 H5 H6 H7 H8. unfold stream_demand.
  by rewrite H1, H2, H3, H5, H6, H7, H8.
Qed.

Lemma up_insert w c k k' c' :
  w_conns w !! c = Some k -> conn_up k' = conn_up k ->
  up (w <| w_conns ::= <[c := k']> |>) c' = up w c'.
Proof.
  intros Hk Hu. unfold up. cbn. destruct (decide (c' = c)) as [->|Hne];
    [by rewrite lookup_insert_eq, Hk|by rewrite lookup_insert_ne].
Qed.

Lemma closed_mod_conn w c k k' o :
  w_conns w !! c = Some k -> c_internal_closed k' = c_internal_closed k ->
  closed_of (w <| w_conns ::= <[c := k']> |>) o = closed_of w o.
Proof.
  intros Hk Hc. destruct o as [c'|s]; [|done]. cbn.
  destruct (decide (c' = c)) as [->|Hne]; [rewrite lookup_insert_eq, Hk; cbn; by rewrite Hc|by rewrite lookup_insert_ne].
Qed.

Lemma closed_mod_stream w s st st' o :
  w_streams w !! s = Some st -> s_internal_closed st' = s_internal_closed st ->
  closed_of (w <| w_streams ::= <[s := st']> |>) o = closed_of w o.
Proof.
  intros Hst Hc. destruct o as [c|s']; [done|]. cbn.
  destruct (decide (s' = s)) as [->|Hne]; [rewrite lookup_insert_eq, Hst; cbn; by rewrite Hc|by rewrite lookup_insert_ne].
Qed.

Lemma firm_mod_conn c f : (forall k, conn_view (f k) = conn_view k) -> firm (mod_conn c f).
Proof.
  intros Hf d w Hw. apply wlp_bind, wlp_deref. intros k Hk. apply wlp_modify.
  pose proof (Hf k) as Hv. assert (Hu : conn_up (f k) = conn_up k) by (unfold conn_up; by injection Hv as -> ->).
  revert Hw. apply watch_still; try done.
  - intros o. eapply closed_mod_conn; [done|]. by injection Hv.
  - intros [c'|s]; cbn.
    + destruct (decide (c' = c)) as [->|Hne]; [|by rewrite lookup_insert_ne].
      rewrite lookup_insert_eq, Hk. cbn. by apply conn_demand_view.
    + destruct (w_streams w !! s); cbn; [|done]. f_equal. by eapply up_insert.
Qed.

Lemma firm_mod_stream s f : (forall st, stream_view (f st) = stream_view st) -> firm (mod_stream s f).
Proof.
  intros Hf d w Hw. apply wlp_bind, wlp_deref. intros st Hst. apply wlp_modify.
  pose proof (Hf st) as Hv. revert Hw. apply watch_still; try done.
  - intros o. eapply closed_mod_stream; [done|]. by injection Hv.
  - intros [c|s']; cbn; [done|].
    destruct (decide (s' = s)) as [->|Hne]; [|by rewrite lookup_insert_ne].
    rewrite lookup_insert_eq, Hst. cbn. rewrite (stream_demand_view _ _ _ Hv).
    by injection Hv as _ _ _ -> _.
Qed.

(** A store into a field that matters makes the object late. *)
Lemma watch_mod_conn d c k k' w :
  watch d w -> w_conns w !! c = Some k -> c_internal_closed k' = c_internal_closed k ->
  (conn_up k' = true -> conn_up k = true \/
     forall s st, w_streams w !! s = Some st -> s_conn st = c -> s_internal_closed st = true) ->
  watch (late_with (OConn c) d) (w <| w_conns ::= <[c := k']> |>).
Proof.
  intros Hw Hk Hc Hu. revert Hw. apply watch_change; try done.
  - intros o. by eapply closed_mod_conn.
  - intros [c'|s] Ho; cbn.
    + rewrite lookup_insert_ne by set_solver. by left.
    + destruct (w_streams w !! s) as [st|] eqn:Hst; cbn; [|by left]. unfold up. cbn.
      destruct (decide (s_conn st = c)) as [Ec|Hne]; [|rewrite lookup_insert_ne by done; by left].
      rewrite Ec, lookup_insert_eq, Hk. cbn. unfold stream_demand.
      destruct (s_internal_closed st) eqn:Hcl; [by left|]. cbn.
      destruct (conn_up k') eqn:Hu'; [|by right]. cbn.
      destruct (Hu eq_refl) as [-> | Hno]; [by left|]. specialize (Hno s st Hst Ec). congruence.
Qed.

Lemma under_mod_conn d c f :
  (forall k, c_internal_closed (f k) = c_internal_closed k) ->
  (forall k, conn_up (f k) = true -> conn_up k = true) ->
  under d (mod_conn c f) (fun _ => late_with (OConn c) d).
Proof.
  intros Hc Hu w Hw. apply wlp_bind, wlp_deref. intros k Hk. apply wlp_modify.
  eapply watch_mod_conn; eauto.
Qed.

Lemma under_mod_stream d s f :
  (forall st, s_internal_closed (f st) = s_internal_closed st) -> (forall st, s_conn (f st) = s_conn st) ->
  under d (mod_stream s f) (fun _ => late_with (OStream s) d).
Proof.
  intros Hc Hs w Hw. apply wlp_bind, wlp_deref. intros st Hst. apply wlp_modify.
  revert Hw. apply watch_change; try done.
  - intros o. by eapply closed_mod_stream.
  - intros [c|s'] Ho; cbn; [by left|]. rewrite lookup_insert_ne by set_solver. by left.
Qed.

(** ** The scheduler *)

Lemma rings_erase t t' n :
  erase <$> tm_nodes t' !! n = erase <$> tm_nodes t !! n -> rings t' n = rings t n.
Proof.
  unfold rings. destruct (tm_nodes t' !! n) as [a|], (tm_nodes t !! n) as [b|]; try done.
  intros H. apply (inj Some) in H. cbn. unfold ring. rewrite (erase_state _ _ H).
  apply (f_equal deadline_ms) in H. cbn in H. by rewrite H.
Qed.

Lemma registered_erase t t' n :
  erase <$> tm_nodes t' !! n = erase <$> tm_nodes t !! n -> n ∈ registered t' <-> n ∈ registered t.
Proof.
  intros H. assert (Ho : node_owner <$> tm_nodes t' !! n = node_owner <$> tm_nodes t !! n)
    by (rewrite owner_erase, H; by rewrite <- owner_erase).
  by rewrite !registered_owner, Ho.
Qed.

(** Changing the node of [o] concerns nobody else. *)
Lemma watch_retimed d d' o w w' :
  watch d w -> retimes o w w' -> reserved w' -> (d_busy d = false -> host_armed w') ->
  (forall nd own, tm_nodes (w_timers w') !! o = Some nd -> owner nd = Some own ->
     own = o /\ timeout_cb nd = Some (cb_of o)) ->
  o ∉ tm_due (w_timers w') ->
  d_due d' = d_due d -> d_busy d' = d_busy d -> d_told d' ⊆ d_told d ->
  (forall n, n <> o -> (n ∉ d_late d' -> n ∉ d_late d) /\ (n ∈ d_new d' <-> n ∈ d_new d) /\
     (n ∈ d_shut d -> n ∈ d_shut d')) ->
  (o ∈ d_new d' -> o ∈ d_new d /\ o ∉ registered (w_timers w')) ->
  (closed_of w o = Some false -> o ∈ d_new d' \/ o ∈ registered (w_timers w')) ->
  (closed_of w o = Some true -> o ∈ d_shut d' \/ o ∉ registered (w_timers w')) ->
  (o ∉ d_late d' -> meets (told_by w) (demand_of w o) (rings (w_timers w') o)) ->
  watch d' w'.
Proof.
  intros [Hr Hown Hdr Hdue Htold Hna Ha Hnew Hop Hcl Hal Hdep Hho Hwi] Hrt Hr' Hhost Ho Hndue
    Ed Eb Et Hoth Hnew' Hop' Hcl' Hal'.
  pose proof Hrt as [Hcore Hnx Hk Hs Hsub Hlive Hsame Hev].
  assert (Hreg : forall n, n <> o -> n ∈ registered (w_timers w') <-> n ∈ registered (w_timers w))
    by (intros n Hn; by apply registered_erase, Hsame).
  assert (Hcl2 : forall n, closed_of w' n = closed_of w n) by (intros []; cbn; by rewrite ?Hk, ?Hs).
  assert (Hdm : forall n, demand_of w' n = demand_of w n)
    by (intros []; cbn; unfold up; by rewrite ?Hk, ?Hs).
  constructor; rewrite ?Hnx, ?Ed, ?Eb; try done.
  - intros n nd own Hnd Hw'. destruct (decide (n = o)) as [->|Hne]; [by apply Ho|].
    pose proof (Hsame n Hne) as He. rewrite Hnd in He.
    destruct (tm_nodes (w_timers w) !! n) as [nd0|] eqn:E; [|done]. apply (inj Some) in He.
    pose proof (f_equal owner He) as H1. pose proof (f_equal timeout_cb He) as H2. cbn in H1, H2.
    rewrite H2. apply (Hown n nd0); congruence.
  - intros n Hn. assert (n <> o) by (by intros ->). apply Hreg; [done|]. apply Hdr.
    by eapply elem_of_sublist.
  - unfold due_ok in *. destruct (d_due d) as [now|]; [|rewrite Hdue in Hsub; by apply sublist_nil_r in Hsub].
    intros n nd Hn Hnd. assert (Hne : n <> o) by (by intros ->). pose proof (Hsame n Hne) as He.
    rewrite Hnd in He. destruct (tm_nodes (w_timers w) !! n) as [nd0|] eqn:E; [|done].
    apply (inj Some), (f_equal deadline_ms) in He. cbn in He. rewrite He. apply (Hdue n); [|done].
    by eapply elem_of_sublist.
  - intros t Hin. apply Hev, Htold. set_solver.
  - intros n Hn. apply Hna, Hlive, Hn.
  - intros n. rewrite Hcl2. auto.
  - intros n Hn. rewrite Hlive, Hcl2. destruct (decide (n = o)) as [->|Hne].
    + destruct (Hnew' Hn) as [Hn2 ?]. split; [done|]. by apply Hnew.
    + destruct (Hoth n Hne) as (_ & Hn2 & _). rewrite Hreg by done. by apply Hnew, Hn2.
  - intros n. rewrite Hcl2. destruct (decide (n = o)) as [->|Hne]; [by auto|].
    destruct (Hoth n Hne) as (_ & Hn2 & _). rewrite Hreg, Hn2 by done. auto.
  - intros n. rewrite Hcl2. destruct (decide (n = o)) as [->|Hne]; [by auto|].
    destruct (Hoth n Hne) as (_ & _ & Hn3). rewrite Hreg by done. intros Hc. destruct (Hcl n Hc); auto.
  - intros n Hn. rewrite Hdm. eapply (meets_told (told_by w)); [intros t; apply Hev|].
    destruct (decide (n = o)) as [->|Hne]; [by auto|]. destruct (Hoth n Hne) as (Hn1 & _ & _).
    rewrite (rings_erase _ _ _ (Hsame n Hne)). auto.
  - unfold eng_core in Hcore. by injection Hcore as _ _ _ -> _ _ _ _ _.
  - unfold eng_core in Hcore. by injection Hcore as _ _ _ _ _ _ _ _ ->.
Qed.

Lemma owner_kept d w w' o :
  watch d w -> node_owner <$> tm_nodes (w_timers w') !! o = node_owner <$> tm_nodes (w_timers w) !! o ->
  forall nd own, tm_nodes (w_timers w') !! o = Some nd -> owner nd = Some own ->
    own = o /\ timeout_cb nd = Some (cb_of o).
Proof.
  intros Hw He nd own Hnd Ho. rewrite Hnd in He.
  destruct (tm_nodes (w_timers w) !! o) as [nd0|] eqn:E; [|done]. injection He as H1 H2.
  rewrite H2. apply (wt_owners _ _ Hw o nd0); congruence.
Qed.

Lemma registered_kept w w' o :
  node_owner <$> tm_nodes (w_timers w') !! o = node_owner <$> tm_nodes (w_timers w) !! o ->
  o ∈ registered (w_timers w') <-> o ∈ registered (w_timers w).
Proof. intros He. by rewrite !registered_owner, He. Qed.

Lemma wlp_timers_get {B} o (f : timer_node -> W B) (Q : B -> world K -> Prop) w :
  (forall nd, tm_nodes (w_timers w) !! o = Some nd -> wlp (f nd) Q w) ->
  wlp (in_timers (get_node o) ≫= f) Q w.
Proof.
  intros Hf. apply wlp_bind. intros nd w1. unfold in_timers, zoom, get_node, deref.
  destruct (tm_nodes (w_timers w) !! o) as [nd0|] eqn:E; [|done]. intros H.
  pose proof (f_equal (fun x => fst <$> x) H) as H1. pose proof (f_equal (fun x => snd <$> x) H) as H2.
  cbn in H1, H2. apply (inj Some) in H1 as <-. apply (inj Some) in H2 as <-. destruct w. by apply Hf.
Qed.

(** Scheduling meets the demand of a registered object. *)
Lemma watch_schedule_meets d o D now w :
  watch d w -> o ∉ d_new d -> meets (told_by w) (demand_of w o) (Some (Z.max D now)) ->
  wlp (kcpmux_engine_schedule_timer_node o D now) (fun _ w' => watch (late_without o d) w') w.
Proof.
  intros Hw Hnew Hmeets. destruct (decide (o ∈ registered (w_timers w))) as [Ho|Ho].
  - apply wlp_wp. eapply wp_mono; [|apply schedule_node_ok; [apply Hw|done]].
    intros r w' (_ & Hr & Hreg & Hd & Hrt & Hh & Hown & _).
    assert (Hring : rings (w_timers w') o = Some (Z.max D now)).
    { pose proof (f_equal (lookup o) Hd) as Hl. rewrite lookup_insert_eq, deadlines_lookup in Hl.
      unfold rings. destruct (tm_nodes (w_timers w') !! o) as [nd|]; [|done]. cbn in Hl |- *.
      unfold armed_at in Hl. unfold ring. case_decide as E; [by rewrite E|done]. }
    eapply watch_retimed; [done|done|done|done|by eapply owner_kept| |done..| | | | |].
    + intros Hin. pose proof (rs_timers _ Hr) as Hok. pose proof (to_due_live _ Hok o Hin) as [nd Hnd].
      apply (to_due _ Hok _ _ Hnd) in Hin. unfold rings in Hring. pose proof (f_equal (lookup o) Hd) as Hl.
      rewrite lookup_insert_eq, deadlines_lookup, Hnd in Hl. cbn in Hl. unfold armed_at in Hl. by rewrite Hin in Hl.
    + intros n Hne. cbn. set_solver.
    + intros Hin. by destruct Hnew.
    + intros _. right. by rewrite Hreg.
    + intros Hc. destruct (wt_closed _ _ Hw o Hc) as [?|?]; [by left|done].
    + intros _. by rewrite Hring.
  - unfold kcpmux_engine_schedule_timer_node. apply wlp_timers_get. intros nd E. case_bool_decide as Hn.
    + apply wlp_ret. destruct Hw. constructor; try done. cbn. intros n Hn'.
      destruct (decide (n = o)) as [->|Hne]; [|apply wt_alarm0; set_solver].
      rewrite closed_no_demand; [done|]. intros Hc. by destruct (wt_open0 o Hc).
    + exfalso. apply Ho, elem_registered. exists nd. split; [done|]. by destruct (owner nd).
Qed.

Lemma watch_schedule d o D now w :
  watch d w -> now ∈ d_told d -> o ∉ d_new d -> suits (demand_of w o) D now ->
  wlp (kcpmux_engine_schedule_timer_node o D now) (fun _ w' => watch (late_without o d) w') w.
Proof.
  intros Hw Hnow Hnew Hsuit. apply watch_schedule_meets; [done..|]. apply suits_meets; [done|].
  by apply (wt_told _ _ Hw).
Qed.
End under.
