(* ===== verification/AlarmStep.v ===== *)
(** * Timers through registration, allocation and release

    The remaining operations of src/kcpmux_engine.c under the description of
    [Alarm], and the functions that leave it as it is. *)

From S2P Require Import Prelude Types Timer TimerProofs TimerSpec Hashtable Vectored World Engine Conn Messages Stream Mux Life LifeSim Deadlines Shape Steps Alarm.
From stdpp Require Import gmap.
#[local] Open Scope Z_scope.

Notation no_longer_new o d := (d <| d_new ::= fun l => l ∖ {[o]} |>).
Notation forgotten o d :=
  (d <| d_late ::= fun l => l ∖ {[o]} |> <| d_new ::= fun l => l ∖ {[o]} |> <| d_shut ::= fun l => l ∖ {[o]} |>).
Notation fresh_in o d := (d <| d_late ::= union {[o]} |> <| d_new ::= union {[o]} |>).

Section alarm_step.
Context {KO : Kcp} {HO : Host}.
Implicit Types (c s : positive) (w : world K) (o : obj) (d : desc).

Lemma watch_unregistered d w o :
  watch d w -> o ∉ registered (w_timers w) -> o ∉ tm_heap (w_timers w) /\ o ∉ tm_due (w_timers w).
Proof.
  intros Hw Ho. split; intros Hin; apply Ho; [by apply (rs_heap _ (wt_reserved _ _ Hw))|by apply (wt_due_registered _ _ Hw)].
Qed.

Lemma wlp_no_node {A} (m : M timers A) o (Q : A -> world K -> Prop) w (f : timer_node -> M timers A) :
  (forall t, m t = (get_node o ≫= f) t) -> tm_nodes (w_timers w) !! o = None -> wlp (in_timers m) Q w.
Proof.
  intros Hm Ho a w'. unfold in_timers, zoom. rewrite Hm. unfold get_node, deref, mbind, M_bind. by rewrite Ho.
Qed.

Lemma watch_cancel d o now w :
  watch d w -> demand_of w o = NoAlarm ->
  wlp (kcpmux_engine_cancel_timer_node o now) (fun _ w' => watch (late_without o d) w') w.
Proof.
  intros Hw Hdm. destruct (tm_nodes (w_timers w) !! o) as [nd|] eqn:E; cycle 1.
  { unfold kcpmux_engine_cancel_timer_node. apply wlp_bind. by eapply wlp_no_node. }
  apply wlp_wp. eapply wp_mono; [|apply (cancel_node_ok o nd); [apply Hw|done]].
  intros [] w' (Hr & Hrt & Hh & Hndue & Hown).
  eapply watch_retimed; [done|done|done|done|by eapply owner_kept|done..| | | | |].
  - intros n Hne. cbn. set_solver.
  - cbn. intros Hin. rewrite (registered_kept _ _ _ Hown). split; [done|]. by apply (wt_new _ _ Hw o Hin).
  - intros Hc. rewrite (registered_kept _ _ _ Hown). by apply (wt_open _ _ Hw).
  - intros Hc. rewrite (registered_kept _ _ _ Hown). by apply (wt_closed _ _ Hw).
  - by rewrite Hdm.
Qed.

Lemma watch_register d o w :
  watch d w -> o ∈ d_new d -> o ∈ d_late d ->
  wlp (kcpmux_engine_register_timer_node o (cb_of o)) (fun r w' =>
    watch (if r =? KCPMUX_ERR_OK then no_longer_new o d else d) w') w.
Proof.
  intros Hw Hnew Hlate. destruct (wt_new _ _ Hw o Hnew) as (Hreg & [nd Hnd] & Hopen).
  destruct (watch_unregistered _ _ _ Hw Hreg) as [Hh Hd]. pose proof (wt_reserved _ _ Hw) as Hres.
  apply wlp_wp. eapply wp_mono; [|apply (register_node_ok o (cb_of o) nd); [done|done|]].
  2: { split; intros Hs; [apply Hh|apply Hd]; revert Hs; apply (rs_timers _ Hres), Hnd. }
  intros r w' (Hr & _ & Hcase & Hrt & Harm & Hown).
  assert (Hnd' : o ∉ tm_due (w_timers w')) by (intros Hin; by apply Hd, (elem_of_sublist _ _ _ Hin), Hrt).
  destruct Hcase as [(-> & Hreg')|(-> & Ht)]; cbn.
  - specialize (Hown eq_refl). refine (watch_retimed d _ o w w' Hw Hrt Hr _ _ Hnd' _ _ _ _ _ _ _ _); try done.
    + intros Hb. apply Harm, Hw, Hb.
    + intros nd' own Hnd2 Ho. rewrite Hnd2 in Hown. injection Hown as H1 H2. by simplify_eq.
    + intros n Hne. cbn. set_solver.
    + cbn. set_solver.
    + intros _. right. set_solver.
    + congruence.
  - refine (watch_retimed d _ o w w' Hw Hrt Hr _ _ Hnd' _ _ _ _ _ _ _ _); rewrite ?Ht; try done.
    + intros Hb. apply Harm, Hw, Hb.
    + apply (wt_owners _ _ Hw).
    + eauto.
    + congruence.
Qed.

(** Unregistering a closed object ends its claim on a timer. *)
Lemma watch_unregister d o w :
  watch d w -> closed_of w o = Some true ->
  wlp (kcpmux_engine_unregister_timer_node o) (fun _ w' =>
    watch (d <| d_late ::= fun l => l ∖ {[o]} |> <| d_shut ::= fun l => l ∖ {[o]} |>) w') w.
Proof.
  intros Hw Hc. assert (Hdm : demand_of w o = NoAlarm) by (apply closed_no_demand; by rewrite Hc).
  destruct (decide (o ∈ registered (w_timers w))) as [Hreg|Hreg].
  - pose proof Hreg as (nd & Hnd & Hown)%elem_registered.
    apply wlp_wp. eapply wp_mono; [|apply (unregister_node_ok o nd); [apply Hw|done|done]].
    intros [] w' (Hr & Hreg' & _ & _ & Hrt & Hndue & Hh).
    eapply watch_retimed; [done|done|done|done| |done|done..| | | | |].
    + intros nd' own Hnd' Ho. exfalso. assert (o ∈ registered (w_timers w')) by (apply elem_registered; eauto).
      set_solver.
    + intros n Hne. cbn. set_solver.
    + cbn. intros Hin. by destruct (wt_new _ _ Hw o Hin).
    + by rewrite Hc.
    + intros _. right. set_solver.
    + by rewrite Hdm.
  - unfold kcpmux_engine_unregister_timer_node. apply wlp_timers_get. intros nd E.
    case_bool_decide as Hn; [|exfalso; apply Hreg, elem_registered; exists nd; split; [done|by destruct (owner nd)]].
    apply wlp_ret. destruct Hw. constructor; try done; cbn.
    + intros n Hcl. destruct (decide (n = o)) as [->|]; [by right|]. destruct (wt_closed n Hcl); [left; set_solver|by right].
    + intros n Hn'. destruct (decide (n = o)) as [->|]; [by rewrite Hdm|]. apply wt_alarm. set_solver.
Qed.

(** ** Memory *)

(** The node and object [o] appear or disappear. *)
Lemma watch_object d d' o w w' :
  watch d w -> timers_ok (w_timers w') ->
  tm_heap (w_timers w') = tm_heap (w_timers w) -> tm_due (w_timers w') = tm_due (w_timers w) ->
  tm_capacity (w_timers w') = tm_capacity (w_timers w) ->
  registered (w_timers w') = registered (w_timers w) -> o ∉ registered (w_timers w) ->
  (forall n, n <> o -> tm_nodes (w_timers w') !! n = tm_nodes (w_timers w) !! n) ->
  w_engine w' = w_engine w -> w_trace w ⊆ w_trace w' -> (w_next_addr w <= w_next_addr w')%positive ->
  (forall n, n <> o -> closed_of w' n = closed_of w n) ->
  (forall n, n <> o -> demand_of w' n = demand_of w n \/ demand_of w' n = NoAlarm) ->
  (is_Some (tm_nodes (w_timers w') !! o) \/ is_Some (closed_of w' o) -> (addr_of o < w_next_addr w')%positive) ->
  d_due d' = d_due d -> d_busy d' = d_busy d -> d_told d' = d_told d ->
  (forall n, n <> o -> (n ∉ d_late d' -> n ∉ d_late d) /\ (n ∈ d_new d' <-> n ∈ d_new d) /\
     (n ∈ d_shut d -> n ∈ d_shut d')) ->
  (o ∈ d_new d' -> is_Some (tm_nodes (w_timers w') !! o) /\ closed_of w' o = Some false) ->
  (closed_of w' o = Some false -> o ∈ d_new d' /\ o ∈ d_late d') ->
  watch d' w'.
Proof.
  intros Hw Hok Hh Hd Hc Hreg Ho Hn He Htr Hnx Hcl Hdm Haddr Ed Eb Et Hoth Hnew Hop.
  destruct (watch_unregistered _ _ _ Hw Ho) as [Hoh Hod].
  assert (Hdl : deadlines (w_timers w') = deadlines (w_timers w)).
  { apply map_eq. intros n. destruct (decide (n = o)) as [->|Hne]; [|by rewrite !deadlines_lookup, Hn].
    transitivity (None (A := Z)); [|symmetry]; apply eq_None_not_Some; rewrite deadlines_mem; rewrite ?Hh; try done.
    apply (wt_reserved _ _ Hw). }
  destruct Hw. constructor; rewrite ?He, ?Hreg, ?Ed, ?Eb, ?Et; try done.
  - destruct wt_reserved. constructor; rewrite ?Hreg, ?He, ?Hc, ?Hh; done.
  - intros n nd own Hnd Hown. destruct (decide (n = o)) as [->|Hne].
    + exfalso. apply Ho. rewrite <- Hreg. apply elem_registered. eauto.
    + rewrite Hn in Hnd by done. by eapply wt_owners.
  - intros n. rewrite Hd. auto.
  - unfold due_ok in *. destruct (d_due d); rewrite Hd; [|done]. intros n nd Hin.
    rewrite Hn by (by intros ->). by apply wt_due.
  - intros t Hin. apply Htr, wt_told, Hin.
  - intros n Hs. destruct (decide (n = o)) as [->|Hne]; [auto|]. rewrite Hn in Hs by done.
    specialize (wt_node_addr n Hs). lia.
  - intros n Hs. destruct (decide (n = o)) as [->|Hne]; [auto|]. rewrite Hcl in Hs by done.
    specialize (wt_addr n Hs). lia.
  - intros n Hin. destruct (decide (n = o)) as [->|Hne]; [auto|]. rewrite Hn, Hcl by done.
    apply wt_new. by apply (Hoth n Hne).
  - intros n Hs. destruct (decide (n = o)) as [->|Hne]; [left; by apply Hop|]. rewrite Hcl in Hs by done.
    destruct (Hoth n Hne) as (_ & -> & _). auto.
  - intros n Hs. destruct (decide (n = o)) as [->|Hne]; [by right|]. rewrite Hcl in Hs by done.
    destruct (Hoth n Hne) as (_ & _ & ?). destruct (wt_closed n Hs); auto.
  - intros n Hl. destruct (decide (n = o)) as [->|Hne].
    + rewrite closed_no_demand; [done|]. intros Hs. by destruct (Hop Hs).
    + destruct (Hdm n Hne) as [->| ->]; [|done]. eapply (meets_told (told_by w)); [intros t; apply Htr|].
      unfold rings. rewrite Hn by done. apply wt_alarm. by apply (Hoth n Hne).
  - intros Hb. eapply host_armed_same; [..|by apply wt_host]; rewrite ?He; done.
Qed.

Lemma fresh_nothing d w o :
  watch d w -> addr_of o = w_next_addr w ->
  tm_nodes (w_timers w) !! o = None /\ closed_of w o = None /\ o ∉ registered (w_timers w).
Proof.
  intros Hw Ha. assert (Hn : tm_nodes (w_timers w) !! o = None).
  { apply eq_None_not_Some. intros Hs%(wt_node_addr _ _ Hw). lia. }
  split; [done|]. split; [apply eq_None_not_Some; intros Hs%(wt_addr _ _ Hw); lia|].
  rewrite elem_registered. intros (nd & ? & _). congruence.
Qed.

Lemma under_malloc_conn d :
  under d malloc_conn (fun oc => match oc with Some c => fresh_in (OConn c) d | None => d end).
Proof.
  unfold malloc_conn. eapply under_bind; [apply (firm_ask host_alloc EvAlloc)|]. intros [] w Hw; [|by apply wlp_ret].
  apply wlp_bind, wlp_gets, wlp_bind, wlp_modify, wlp_ret.
  destruct (fresh_nothing d w (OConn (w_next_addr w)) Hw eq_refl) as (Hn & Hc & Hr).
  pose proof (registered_insert (w_timers w) _ timer_node_zero Hr eq_refl) as Hri.
  eapply (watch_object d _ (OConn (w_next_addr w))); try done; cbn.
  - apply timers_ok_insert; [apply Hw|done|done].
  - intros n Hne. by rewrite lookup_insert_ne.
  - lia.
  - intros [c|s] Hne; [|done]. cbn. rewrite lookup_insert_ne by congruence. done.
  - intros [c|s] Hne; left; cbn; [by rewrite lookup_insert_ne by congruence|].
    destruct (w_streams w !! s) as [st|]; [|done]. cbn. f_equal. unfold up. cbn in Hc |- *.
    destruct (decide (s_conn st = w_next_addr w)) as [->|]; [|by rewrite lookup_insert_ne].
    rewrite lookup_insert_eq. by destruct (w_conns w !! w_next_addr w).
  - lia.
  - set_solver.
  - intros _. rewrite !lookup_insert_eq. eauto.
  - set_solver.
Qed.

Lemma under_malloc_stream d c :
  under d (malloc_stream c) (fun os => match os with Some s => fresh_in (OStream s) d | None => d end).
Proof.
  unfold malloc_stream. eapply under_bind; [apply (firm_ask host_alloc EvAlloc)|]. intros [] w Hw; [|by apply wlp_ret].
  apply wlp_bind, wlp_gets, wlp_bind, wlp_modify, wlp_ret.
  destruct (fresh_nothing d w (OStream (w_next_addr w)) Hw eq_refl) as (Hn & Hc & Hr).
  pose proof (registered_insert (w_timers w) _ timer_node_zero Hr eq_refl) as Hri.
  eapply (watch_object d _ (OStream (w_next_addr w))); try done; cbn.
  - apply timers_ok_insert; [apply Hw|done|done].
  - intros n Hne. by rewrite lookup_insert_ne.
  - lia.
  - intros [c'|s] Hne; [done|]. cbn. rewrite lookup_insert_ne by congruence. done.
  - intros [c'|s] Hne; left; cbn; [done|by rewrite lookup_insert_ne by congruence].
  - lia.
  - set_solver.
  - intros _. rewrite !lookup_insert_eq. eauto.
  - set_solver.
Qed.

(** What [free_obj] leaves of the objects. *)
Definition without o w : world K :=
  match o with
  | OConn c => w <| w_timers ::= fun t => t <| tm_nodes ::= delete o |> |> <| w_conns ::= delete c |>
  | OStream s => w <| w_timers ::= fun t => t <| tm_nodes ::= delete o |> |> <| w_streams ::= delete s |>
  end.

Lemma closed_without o w n : closed_of (without o w) n = if decide (n = o) then None else closed_of w n.
Proof.
  destruct n as [c|s], o as [c'|s']; cbn; destruct decide as [E|E]; try done; try injection E as ->;
    first [by rewrite lookup_delete_eq|by rewrite lookup_delete_ne by congruence].
Qed.

Lemma demand_without o w n : demand_of (without o w) n = demand_of w n \/ demand_of (without o w) n = NoAlarm.
Proof.
  destruct o as [c|s], n as [c'|s']; cbn.
  - destruct (decide (c' = c)) as [->|]; [rewrite lookup_delete_eq; by right|rewrite lookup_delete_ne by done; by left].
  - destruct (w_streams w !! s') as [st|]; [|by left]. cbn. unfold up. cbn.
    destruct (decide (s_conn st = c)) as [->|]; [|left; by rewrite lookup_delete_ne].
    right. rewrite lookup_delete_eq. unfold stream_demand. by rewrite orb_true_r.
  - by left.
  - destruct (decide (s' = s)) as [->|]; [rewrite lookup_delete_eq; by right|rewrite lookup_delete_ne by done; by left].
Qed.

Lemma timers_without o w :
  w_timers (without o w) = (w_timers w) <| tm_nodes ::= delete o |> /\ w_engine (without o w) = w_engine w /\
  w_trace (without o w) = w_trace w /\ w_next_addr (without o w) = w_next_addr w.
Proof. by destruct o. Qed.

Lemma watch_without d o w :
  watch d w -> o ∉ registered (w_timers w) -> watch (forgotten o d) (without o w).
Proof.
  intros Hw Ho. destruct (watch_unregistered _ _ _ Hw Ho) as [Hh Hd].
  destruct (timers_without o w) as (Et & Ee & Er & En).
  assert (Hn : forall n, n <> o -> closed_of (without o w) n = closed_of w n).
  { intros n Hne. rewrite closed_without. by destruct decide. }
  assert (Hno : closed_of (without o w) o = None) by (rewrite closed_without; by destruct decide).
  eapply (watch_object d (forgotten o d) o w); rewrite ?Et, ?Ee, ?Er, ?En, ?Hno; try done; cbn.
  - by apply timers_ok_delete; [apply Hw|..].
  - by apply registered_delete.
  - intros n Hne. by rewrite lookup_delete_ne.
  - intros n _. apply demand_without.
  - rewrite lookup_delete_eq. by intros [[]|[]].
  - intros n Hne. rewrite !elem_of_difference, !not_elem_of_singleton. tauto.
  - rewrite elem_of_difference, not_elem_of_singleton. tauto.
Qed.

Lemma watch_free d o w :
  watch d w -> o ∉ registered (w_timers w) -> wlp (free_obj o) (fun _ w' => watch (forgotten o d) w') w.
Proof.
  intros Hw Ho. unfold free_obj. apply wlp_bind, wlp_modify. eapply (firm_emit _), (watch_without d); done.
Qed.
End alarm_step.
