(* ===== verification/AlarmFrame.v ===== *)
(** * Functions that touch no timer and no field timers depend on

    Queries, tables, socket output, batching, KCP operations: [firm], one after
    the other, by the structure of their code. *)

From S2P Require Import Prelude Types Timer Hashtable Vectored World Engine Conn Messages Stream Mux Life LifeSim Deadlines Shape Steps Alarm AlarmStep.
From stdpp Require Import gmap.
#[local] Open Scope Z_scope.

Create HintDb firm discriminated.
#[export] Hint Constants Opaque : firm.

Section told.
Context {KO : Kcp} {HO : Host}.
Implicit Types (c s : positive) (w : world K) (o : obj) (d : desc).

Lemma below_told t d : having_told t d ⊑d d.
Proof. constructor; cbn; set_solver. Qed.

Lemma watch_told t d w : told_by w t -> watch d w -> watch (having_told t d) w.
Proof. intros Ht []. constructor; try done. cbn. intros t' [->|?]%elem_of_cons; auto. Qed.

(** The time the host reports. *)
Lemma under_now d : under d kcpmux_engine_now (fun now => having_told now d).
Proof.
  intros w Hw. apply (wlp_mono _ (fun now w' => told_by w' now /\ watch d w')).
  - apply wlp_and; [|by apply firm_ask]. intros a w' H. unfold kcpmux_engine_now, ask, in_trace, zoom, ask_tr in H.
    injection H as <- <-. unfold told_by. cbn. by left.
  - intros now w' [? ?]. by apply watch_told.
Qed.

Lemma firm_now : firm kcpmux_engine_now.
Proof. intros d. eapply under_weaken; [apply under_now|]. intros now. apply below_told. Qed.
End told.

#[export] Hint Resolve firm_ret firm_ub firm_gets firm_deref firm_emit firm_now : firm.

Ltac firm_step :=
  lazymatch goal with
  | |- firm (mbind _ _) => apply firm_bind; [|intros ?]
  | |- firm (when _ _) => apply firm_when
  | |- firm (for_each _ _) => apply firm_for_each; intros ?
  | |- firm (mod_engine _) => apply firm_mod_engine; intros; reflexivity
  | |- firm (mod_stats _) => apply firm_mod_engine; intros; reflexivity
  | |- firm (mod_conn _ _) => apply firm_mod_conn; intros; reflexivity
  | |- firm (mod_stream _ _) => apply firm_mod_stream; intros; reflexivity
  | |- firm (match _ with _ => _ end) => case_match
  | |- firm (let _ := _ in _) => cbv zeta
  | |- firm _ => solve [eauto with firm]
  end.
Ltac firm := repeat firm_step.

Section frame.
Context {KO : Kcp} {HO : Host}.
Implicit Types (c s : positive) (w : world K).

Lemma firm_get_engine : firm get_engine.
Proof. apply firm_gets. Qed.
Lemma firm_get_conn c : firm (get_conn c).
Proof. apply firm_deref. Qed.
Lemma firm_get_stream s : firm (get_stream s).
Proof. apply firm_deref. Qed.
Lemma firm_alloc : firm alloc.
Proof. apply firm_ask. Qed.
#[local] Hint Resolve firm_get_engine firm_get_conn firm_get_stream firm_ask firm_alloc : firm.
Lemma firm_stream_conn s : firm (stream_conn s).
Proof. unfold stream_conn. firm. Qed.
Lemma firm_get_kcp s : firm (get_kcp s).
Proof. unfold get_kcp. firm. Qed.

(** Questions to the host only lengthen the trace. *)
Definition lengthens {A} (m : M trace A) : Prop := forall tr a tr', m tr = Some (a, tr') -> tr ⊆ tr'.
Lemma lengthens_ask {A} (f : trace -> A) rec : lengthens (ask_tr f rec).
Proof. intros tr a tr' [= _ <-]. set_solver. Qed.
Lemma lengthens_ret {A} (a : A) : lengthens (mret a).
Proof. by intros tr a' tr' [= _ <-]. Qed.
Lemma lengthens_bind {A B} (m : M trace A) (f : A -> M trace B) :
  lengthens m -> (forall a, lengthens (f a)) -> lengthens (m ≫= f).
Proof.
  intros Hm Hf tr b tr' H. unfold mbind, M_bind in H. destruct (m tr) as [[a tr1]|] eqn:E; [|done].
  etrans; [by eapply Hm|by eapply Hf].
Qed.
#[local] Hint Resolve lengthens_ask lengthens_ret : firm.

Lemma firm_random cb : firm (kcpmux_engine_random_u64 cb).
Proof.
  apply firm_in_trace. change (lengthens (random_u64_tr cb)). unfold random_u64_tr.
  case_match; [apply lengthens_ask|]. apply lengthens_bind; [apply lengthens_ask|intros hi].
  apply lengthens_bind; [apply lengthens_ask|intros lo]. apply lengthens_ret.
Qed.
Lemma firm_htb_new n : firm (htb_new n).
Proof.
  apply firm_in_trace. change (lengthens (htb_new_tr n)). apply lengthens_bind; [apply lengthens_ask|intros a].
  apply lengthens_bind; [destruct a; [apply lengthens_ask|apply lengthens_ret]|intros b]. apply lengthens_ret.
Qed.
#[local] Hint Resolve firm_stream_conn firm_get_kcp firm_random firm_htb_new : firm.

Lemma firm_write_socketv iov a : firm (kcpmux_engine_write_socketv iov a).
Proof. unfold kcpmux_engine_write_socketv. firm. Qed.
Lemma firm_add_conn c : firm (kcpmux_engine_add_conn c).
Proof. unfold kcpmux_engine_add_conn. firm. Qed.
Lemma firm_remove_conn c : firm (kcpmux_engine_remove_conn c).
Proof. unfold kcpmux_engine_remove_conn. firm. Qed.
Lemma firm_get_conn_by_id a i : firm (kcpmux_engine_get_conn_by_id a i).
Proof. unfold kcpmux_engine_get_conn_by_id. firm. Qed.
Lemma firm_get_passive_conn a i : firm (kcpmux_engine_get_passive_conn a i).
Proof. unfold kcpmux_engine_get_passive_conn. firm. Qed.
Lemma firm_queue_release o : firm (kcpmux_engine_queue_release o).
Proof. unfold kcpmux_engine_queue_release. firm. Qed.
Lemma firm_add_stream c s : firm (kcpmux_conn_add_stream c s).
Proof. unfold kcpmux_conn_add_stream. firm. Qed.
Lemma firm_remove_stream c s : firm (kcpmux_conn_remove_stream c s).
Proof. unfold kcpmux_conn_remove_stream. firm. Qed.
Lemma firm_get_stream_by_id c i : firm (kcpmux_conn_get_stream_by_id c i).
Proof. unfold kcpmux_conn_get_stream_by_id. firm. Qed.
#[local] Hint Resolve firm_write_socketv firm_add_conn firm_remove_conn firm_get_conn_by_id
  firm_get_passive_conn firm_queue_release firm_add_stream firm_remove_stream firm_get_stream_by_id : firm.
Lemma firm_alloc_stream_id_loop n c : firm (alloc_stream_id_loop n c).
Proof. induction n; cbn [alloc_stream_id_loop]; firm. Qed.
#[local] Hint Resolve firm_alloc_stream_id_loop : firm.
Lemma firm_alloc_stream_id c : firm (kcpmux_conn_alloc_stream_id c).
Proof. unfold kcpmux_conn_alloc_stream_id. firm. Qed.
Lemma firm_conn_writev c iov : firm (kcpmux_conn_write_socketv c iov).
Proof. unfold kcpmux_conn_write_socketv. firm. Qed.
#[local] Hint Resolve firm_conn_writev : firm.
Lemma firm_conn_write c b : firm (kcpmux_conn_write_socket c b).
Proof. apply firm_conn_writev. Qed.
Lemma firm_engine_set_config cfg : firm (kcpmux_engine_set_config cfg).
Proof. unfold kcpmux_engine_set_config. firm. Qed.
Lemma firm_conn_set_callbacks oc cbs ud : firm (kcpmux_conn_set_callbacks oc cbs ud).
Proof. unfold kcpmux_conn_set_callbacks. firm. Qed.
Lemma firm_stream_set_callbacks os cbs ud : firm (kcpmux_stream_set_callbacks os cbs ud).
Proof. unfold kcpmux_stream_set_callbacks. firm. Qed.
#[local] Hint Resolve firm_conn_write firm_stream_set_callbacks firm_conn_set_callbacks : firm.

Lemma firm_p_connect c : firm (kcpmux_protocol_send_conn_connect c).
Proof. unfold kcpmux_protocol_send_conn_connect. firm. Qed.
Lemma firm_p_connect_ack c r : firm (kcpmux_protocol_send_conn_connect_ack c r).
Proof. unfold kcpmux_protocol_send_conn_connect_ack. firm. Qed.
Lemma firm_p_keepalive c : firm (kcpmux_protocol_send_conn_keepalive c).
Proof. unfold kcpmux_protocol_send_conn_keepalive. firm. Qed.
Lemma firm_p_close c r : firm (kcpmux_protocol_send_conn_close c r).
Proof. unfold kcpmux_protocol_send_conn_close. firm. Qed.
Lemma firm_p_close_ack c r : firm (kcpmux_protocol_send_conn_close_ack c r).
Proof. unfold kcpmux_protocol_send_conn_close_ack. firm. Qed.
Lemma firm_p_stream_close s r : firm (kcpmux_protocol_send_stream_close s r).
Proof. unfold kcpmux_protocol_send_stream_close. firm. Qed.
Lemma firm_p_stream_close_ack s r : firm (kcpmux_protocol_send_stream_close_ack s r).
Proof. unfold kcpmux_protocol_send_stream_close_ack. firm. Qed.
Lemma firm_p_payload s b : firm (kcpmux_protocol_send_stream_payload s b).
Proof. unfold kcpmux_protocol_send_stream_payload. firm. Qed.
Lemma firm_send_connect_ack c r : firm (kcpmux_conn_send_connect_ack c r).
Proof. apply firm_p_connect_ack. Qed.
Lemma firm_send_close_ack c r : firm (kcpmux_conn_send_close_ack c r).
Proof. apply firm_p_close_ack. Qed.
Lemma firm_stream_send_close_ack s r : firm (kcpmux_stream_send_close_ack s r).
Proof. apply firm_p_stream_close_ack. Qed.
#[local] Hint Resolve firm_p_payload : firm.

Lemma firm_mark_read_blocked s now : firm (kcpmux_stream_mark_read_blocked s now).
Proof. unfold kcpmux_stream_mark_read_blocked. firm. Qed.
Lemma firm_batch_linked s : firm (batch_linked s).
Proof. apply firm_gets. Qed.
Lemma firm_batch_unlink s : firm (batch_unlink s).
Proof. unfold batch_unlink. firm. Qed.
#[local] Hint Resolve firm_batch_linked firm_batch_unlink : firm.
Lemma firm_clear_pending s : firm (kcpmux_stream_clear_pending s).
Proof. unfold kcpmux_stream_clear_pending. firm. Qed.
Lemma firm_kcp_output s b : firm (kcp_output s b).
Proof. unfold kcp_output. firm. Qed.
#[local] Hint Resolve firm_kcp_output : firm.
Lemma firm_run_kact {R} s (a : kact K R) : firm (run_kact s a).
Proof. induction a; cbn [run_kact]; firm. Qed.
#[local] Hint Resolve firm_run_kact : firm.
Lemma firm_ops_send s b : firm (ops_send s b).
Proof. unfold ops_send. firm. Qed.
Lemma firm_ops_input s b : firm (ops_input s b).
Proof. unfold ops_input. firm. Qed.
Lemma firm_ops_update s now : firm (ops_update s now).
Proof. unfold ops_update. firm. Qed.
Lemma firm_ops_current_update s now : firm (ops_current_update s now).
Proof. unfold ops_current_update. firm. Qed.
Lemma firm_ops_check s now : firm (ops_check s now).
Proof. unfold ops_check. firm. Qed.
Lemma firm_ops_waitsnd s : firm (ops_waitsnd s).
Proof. unfold ops_waitsnd. firm. Qed.
Lemma firm_ops_peeksize s : firm (ops_peeksize s).
Proof. unfold ops_peeksize. firm. Qed.
#[local] Hint Resolve firm_ops_send firm_ops_waitsnd firm_ops_peeksize : firm.
Lemma firm_contiguous_chunk s x n : firm (kcpmux_stream_send_contiguous_chunk s x n).
Proof. unfold kcpmux_stream_send_contiguous_chunk. firm. Qed.
Lemma firm_vectored_chunk s x n : firm (kcpmux_stream_send_vectored_chunk s x n).
Proof. unfold kcpmux_stream_send_vectored_chunk. firm. Qed.
Lemma firm_send_loop {C} (f : send_chunk_fn C) s :
  (forall x n, firm (f s x n)) -> forall fuel x cs rem tot, firm (send_loop fuel f s x cs rem tot).
Proof. intros Hf fuel. induction fuel; intros; cbn [send_loop]; firm. Qed.
Lemma firm_peek_size os : firm (kcpmux_stream_peek_size os).
Proof. unfold kcpmux_stream_peek_size. firm. Qed.
Lemma firm_write_unblock s now : firm (write_unblock s now).
Proof. unfold write_unblock. firm. Qed.
Lemma firm_read_unblock s now : firm (read_unblock s now).
Proof. unfold read_unblock. firm. Qed.
Lemma firm_note_rx c n : firm (note_rx c n).
Proof. unfold note_rx. firm. Qed.
Lemma firm_store_peer_ext c b o n : firm (store_peer_ext c b o n).
Proof. unfold store_peer_ext. firm. Qed.
Lemma firm_byte_at b o : firm (byte_at b o).
Proof. apply firm_deref. Qed.
Lemma firm_u16_at b o : firm (u16_at b o).
Proof. apply firm_deref. Qed.
Lemma firm_u32_at b o : firm (u32_at b o).
Proof. apply firm_deref. Qed.
Lemma firm_u64_at b o : firm (u64_at b o).
Proof. apply firm_deref. Qed.
End frame.

#[export] Hint Resolve firm_get_engine firm_get_conn firm_get_stream firm_ask firm_alloc
  firm_stream_conn firm_get_kcp firm_random firm_htb_new firm_write_socketv firm_add_conn
  firm_remove_conn firm_get_conn_by_id firm_get_passive_conn firm_queue_release firm_add_stream
  firm_remove_stream firm_get_stream_by_id firm_alloc_stream_id firm_conn_writev firm_conn_write
  firm_engine_set_config firm_conn_set_callbacks firm_stream_set_callbacks firm_p_connect
  firm_p_connect_ack firm_p_keepalive firm_p_close firm_p_close_ack firm_p_stream_close
  firm_p_stream_close_ack firm_p_payload firm_send_connect_ack firm_send_close_ack
  firm_stream_send_close_ack firm_mark_read_blocked firm_batch_linked firm_batch_unlink
  firm_clear_pending firm_kcp_output firm_run_kact firm_ops_send firm_ops_input firm_ops_update
  firm_ops_current_update firm_ops_check firm_ops_waitsnd firm_ops_peeksize firm_contiguous_chunk
  firm_vectored_chunk firm_send_loop firm_peek_size firm_write_unblock firm_read_unblock firm_note_rx
  firm_store_peer_ext firm_byte_at firm_u16_at firm_u32_at firm_u64_at : firm.
