(* ===== verification/AlarmMend.v ===== *)
(** * Functions that reschedule what they change

    Refreshing a timer meets the demand of its object; state changes, control
    messages, received packets and new configurations move demands and refresh
    the timer before they return; closing ends the demand. *)

From S2P Require Import Prelude Types Timer Hashtable Vectored World Engine Conn Messages Stream Mux Life LifeSim Deadlines Shape Steps Alarm AlarmStep AlarmFrame.
From stdpp Require Import gmap.
#[local] Open Scope Z_scope.

(** [d ⊑d d'] for descriptions written out. *)
Ltac below := constructor; cbn; first [done | set_solver].

Section mend.
Context {KO : Kcp} {HO : Host}.
Implicit Types (c s : positive) (w : world K) (o : obj) (d : desc).

Lemma watch_unlate d o w : watch d w -> demand_of w o = NoAlarm -> watch (late_without o d) w.
Proof.
  intros [] Hdm. constructor; try done. cbn. intros n Hn.
  destruct (decide (n = o)) as [->|]; [by rewrite Hdm|]. apply wt_alarm. set_solver.
Qed.

Lemma watch_unlate_closed d o w : watch d w -> closed_of w o <> Some false -> watch (late_without o d) w.
Proof. intros Hw Hc. apply watch_unlate; [done|]. by apply closed_no_demand. Qed.

Lemma late_without_below o d : late_without o d ⊑d d.
Proof. below. Qed.

Lemma under_when {R} d b (m : W unit) :
  (b = true -> under d m (fun _ => R)) -> (b = false -> d ⊑d R) -> under d (when b m) (fun _ => R).
Proof. destruct b; intros H1 H2; [by apply H1|]. apply under_ret; auto. Qed.

Lemma under_firm {A} d (m : W A) R : firm m -> (forall a, d ⊑d R a) -> under d m R.
Proof. intros Hm HR. eapply under_weaken; [apply Hm|done]. Qed.

Lemma under_firm_bind {A B} d (m : W A) (f : A -> W B) Q :
  firm m -> (forall a, under d (f a) Q) -> under d (m ≫= f) Q.
Proof. intros Hm Hf. by eapply under_bind; [apply Hm|]. Qed.

Lemma under_now_bind {B} d (f : Z -> W B) Q :
  (forall now, under (having_told now d) (f now) Q) -> under d (kcpmux_engine_now ≫= f) Q.
Proof. intros Hf. by eapply under_bind; [apply under_now|]. Qed.

(** ** Connections *)

Lemma under_conn_refresh d c now :
  now ∈ d_told d -> OConn c ∉ d_new d ->
  under d (kcpmux_conn_refresh_timer c now) (fun _ => late_without (OConn c) d).
Proof.
  intros Hnow Hnew w Hw. unfold kcpmux_conn_refresh_timer. apply wlp_bind, wlp_deref. intros k Hk.
  assert (Hdm : demand_of w (OConn c) = conn_demand k) by (cbn; by rewrite Hk).
  destruct (c_internal_closed k) eqn:Hcl.
  { apply wlp_ret, watch_unlate_closed; [done|]. cbn. rewrite Hk. cbn. by rewrite Hcl. }
  unfold conn_demand in Hdm. destruct (kcpmux_conn_calculate_deadline k) as [D|] eqn:E.
  - apply wlp_bind. eapply wlp_mono; [apply (watch_schedule d); try done; rewrite Hdm; cbn; lia|].
    intros r w' Hw'. by apply wlp_ret.
  - by apply watch_cancel.
Qed.

(** ** State of a connection *)

Lemma watch_conn_set_state d c new w :
  watch d w -> OConn c ∉ d_new d ->
  (new = CONN_CONNECTED -> forall s st, w_streams w !! s = Some st -> s_conn st = c -> s_internal_closed st = true) ->
  wlp (kcpmux_conn_set_state c new) (fun _ w' => watch d w') w.
Proof.
  intros Hw Hnew Hup. unfold kcpmux_conn_set_state. apply wlp_bind, wlp_deref. intros k Hk.
  destruct (_ || _); [by apply wlp_ret|].
  apply wlp_bind, wlp_bind, wlp_deref. intros k' Hk'. rewrite Hk in Hk'. injection Hk' as <-. apply wlp_modify.
  eapply (watch_mod_conn d c k (k <| c_state := new |>)) in Hw as Hw1; [|done|done|]; cycle 1.
  { unfold conn_up. cbn. intros [_ Hn%bool_decide_eq_true]%andb_prop. right. by apply Hup. }
  match goal with |- wlp ?m _ _ => assert (Hm : under (late_with (OConn c) d) m (fun _ => d)) end.
  { apply under_firm_bind; [firm|intros _]. apply under_now_bind. intros now.
    eapply under_bind; [apply under_conn_refresh; [cbn; by left|done]|]. intros [].
    apply under_firm; [firm|]. intros ?. below. }
  by apply Hm.
Qed.

Lemma under_conn_set_state d c new :
  new <> CONN_CONNECTED -> OConn c ∉ d_new d -> under d (kcpmux_conn_set_state c new) (fun _ => d).
Proof. intros Hne Hnew w Hw. by apply watch_conn_set_state. Qed.

Lemma under_note_receive d c t p :
  t ∈ d_told d -> OConn c ∉ d_new d ->
  under d (kcpmux_conn_note_receive c t p) (fun _ => late_without (OConn c) d).
Proof.
  intros Ht Hnew w Hw. unfold kcpmux_conn_note_receive. apply wlp_bind, wlp_deref. intros k Hk.
  destruct (c_internal_closed k) eqn:Hcl.
  { apply wlp_ret, watch_unlate_closed; [done|]. cbn. rewrite Hk. cbn. by rewrite Hcl. }
  clear Hk. revert w Hw. eapply (under_bind d _ _ (fun _ => late_with (OConn c) d)).
  { apply under_when; [intros _; by apply under_mod_conn|intros _; below]. }
  intros []. eapply (under_bind _ _ _ (fun _ => late_with (OConn c) d)).
  { apply under_when; [intros _|intros _; apply below_refl].
    eapply under_weaken; [by apply under_mod_conn|]. intros ?. below. }
  intros []. eapply under_weaken; [by apply under_conn_refresh|]. intros ?. below.
Qed.

(** ** Control messages of a connection *)

(** Writing leaves what demands are read off. *)
Definition still {A} (m : W A) : Prop := forall w, wlp m (fun _ w' => forall c,
  conn_view <$> w_conns w' !! c = conn_view <$> w_conns w !! c) w.

Lemma still_ret {A} (a : A) : still (mret a).
Proof. intros w. by apply wlp_ret. Qed.
Lemma still_bind {A B} (m : W A) (f : A -> W B) : still m -> (forall a, still (f a)) -> still (m ≫= f).
Proof.
  intros Hm Hf w. apply wlp_bind. eapply wlp_mono; [apply Hm|]. intros a w1 H1. cbv beta in H1.
  eapply wlp_mono; [apply Hf|]. intros b w2 H2 c. by rewrite H2, H1.
Qed.
Lemma still_get_conn c : still (get_conn c).
Proof. intros w. by apply wlp_deref. Qed.
Lemma still_deref {A} (f : world K -> option A) : still (deref f).
Proof. intros w. by apply wlp_deref. Qed.
Lemma still_get_engine : still get_engine.
Proof. intros w. by apply wlp_gets. Qed.
Lemma still_ask {A} (f : trace -> A) rec : still (ask f rec).
Proof. intros w a w' [= <- <-]. done. Qed.
Lemma still_mod_engine f : still (mod_engine f).
Proof. intros w. by apply wlp_modify. Qed.
Lemma still_mod_conn c f : (forall k, conn_view (f k) = conn_view k) -> still (mod_conn c f).
Proof.
  intros Hf w. apply wlp_bind, wlp_deref. intros k Hk. apply wlp_modify. cbn. intros c'.
  destruct (decide (c' = c)) as [->|]; [|by rewrite lookup_insert_ne]. rewrite lookup_insert_eq, Hk. cbn. by rewrite Hf.
Qed.

Ltac still_step :=
  lazymatch goal with
  | |- still (mret _) => apply still_ret
  | |- still (mod_conn _ _) => apply still_mod_conn; intros; reflexivity
  | |- still (mod_engine _) => apply still_mod_engine
  | |- still (get_conn _) => apply still_get_conn
  | |- still get_engine => apply still_get_engine
  | |- still (ask _ _) => apply still_ask
  | |- still (deref _) => apply still_deref
  | |- still (mbind _ _) => apply still_bind; [|intros ?]
  | |- still (match _ with _ => _ end) => case_match
  | |- still _ => solve [eauto]
  end.
Ltac still := repeat still_step.

Lemma still_write c b : still (kcpmux_conn_write_socket c b).
Proof.
  unfold kcpmux_conn_write_socket, kcpmux_conn_write_socketv, kcpmux_engine_write_socketv, mod_stats, when. still.
Qed.

(** A sender stamps the connection, writes, and refreshes the timer with the
    stamp. *)
Lemma under_stamped d c (f : Z -> conn -> conn) (ts : conn -> Z) (m : W Z) :
  (forall t k, c_internal_closed (f t k) = c_internal_closed k) ->
  (forall t k, conn_up (f t k) = true -> conn_up k = true) ->
  (forall t k, ts (f t k) = t) -> (forall k k', conn_view k' = conn_view k -> ts k' = ts k) ->
  firm m -> still m -> OConn c ∉ d_new d ->
  under d (now ← kcpmux_engine_now; mod_conn c (f now);; ret ← m; k ← get_conn c;
           kcpmux_conn_refresh_timer c (ts k);; mret ret) (fun _ => late_without (OConn c) d).
Proof.
  intros Hc Hu Hts Hview Hm Hst Hnew. apply under_now_bind. intros now w Hw.
  apply wlp_bind, (wlp_mono _ (fun _ w1 => watch (late_with (OConn c) (having_told now d)) w1 /\
    exists k, w_conns w1 !! c = Some k /\ ts k = now)).
  { apply wlp_and; [by apply under_mod_conn; [apply Hc|apply Hu|]|]. unfold mod_conn. apply wlp_bind, wlp_deref. intros k Hk.
    apply wlp_modify. cbn. rewrite lookup_insert_eq. eauto. }
  intros _ w1 (Hw1 & k1 & Hk1 & Hk1ts). apply wlp_bind.
  eapply wlp_mono; [apply wlp_and; [apply (Hm _ _ Hw1)|apply Hst]|]. intros ret w2 [Hw2 Hv]. cbv beta in Hw2, Hv.
  apply wlp_bind, wlp_deref. intros k2 Hk2. specialize (Hv c). rewrite Hk1, Hk2 in Hv. apply (inj Some) in Hv.
  assert (ts k2 = now) as -> by (rewrite <- Hk1ts; by apply Hview). revert w2 Hw2 Hk2. intros w2 Hw2 _.
  revert w2 Hw2. eapply under_bind; [apply under_conn_refresh; [cbn; by left|done]|]. intros [].
  apply under_ret. below.
Qed.

Ltac if_closed c := 
  apply wlp_bind, wlp_deref; intros k Hk; destruct (c_internal_closed k) eqn:Hcl;
  [apply wlp_ret, watch_unlate_closed; [done|]; cbn; rewrite Hk; cbn; by rewrite Hcl|].

Lemma under_send_connect d c :
  OConn c ∉ d_new d -> under d (kcpmux_conn_send_connect c) (fun _ => late_without (OConn c) d).
Proof.
  intros Hnew w Hw. unfold kcpmux_conn_send_connect. if_closed c. revert w Hw Hk. intros w Hw _. revert w Hw.
  apply (under_stamped d c (fun t k => k <| c_last_ctrl_ts := t |>) c_last_ctrl_ts); try done; [|firm|].
  - intros k' k''. by injection 1.
  - unfold kcpmux_protocol_send_conn_connect. pose proof still_write; still.
Qed.

Lemma under_send_close d c r :
  OConn c ∉ d_new d -> under d (kcpmux_conn_send_close c r) (fun _ => late_without (OConn c) d).
Proof.
  intros Hnew w Hw. unfold kcpmux_conn_send_close. if_closed c. revert w Hw Hk. intros w Hw _. revert w Hw.
  apply (under_stamped d c (fun t k => k <| c_last_ctrl_ts := t |>) c_last_ctrl_ts); try done; [|firm|].
  - intros k' k''. by injection 1.
  - unfold kcpmux_protocol_send_conn_close. pose proof still_write; still.
Qed.

Lemma under_send_keepalive d c :
  OConn c ∉ d_new d -> under d (kcpmux_conn_send_keepalive c) (fun _ => late_without (OConn c) d).
Proof.
  intros Hnew w Hw. unfold kcpmux_conn_send_keepalive. if_closed c. revert w Hw Hk. intros w Hw _. revert w Hw.
  apply (under_stamped d c (fun t k => k <| c_last_keepalive_ts := t |> <| c_keepalive_seq ::= fun n => u32 (n + 1) |>)
    c_last_keepalive_ts); try done; [|firm|].
  - intros k' k''. by injection 1.
  - unfold kcpmux_protocol_send_conn_keepalive, kcpmux_engine_now. pose proof still_write; still.
Qed.

Lemma under_conn_set_config d oc cfg : d_new d = ∅ -> under d (kcpmux_conn_set_config oc cfg) (fun _ => d).
Proof.
  intros Hnew. unfold kcpmux_conn_set_config. destruct oc as [c|], cfg as [cfg|]; try (apply under_ret, below_refl).
  apply under_firm_bind; [firm|intros k]. destruct (c_internal_closed k); [apply under_ret, below_refl|].
  destruct (kcpmux_conn_config_prepare cfg); [|apply under_ret, below_refl].
  eapply under_bind; [by apply under_mod_conn|]. intros []. apply under_now_bind. intros now.
  eapply under_weaken; [apply under_conn_refresh; cbn; [by left|set_solver]|]. intros ?. below.
Qed.
End mend.
