(* ===== verification/AlarmStream.v ===== *)
(** * Streams and closing

    The stream's side of [AlarmMend], and the two functions that close objects.
    What a stream demands depends on times and on its life cycle; the [kind] of
    demand depends on its life cycle alone, so computations that are [quiet]
    keep it. *)

From S2P Require Import Prelude Types Timer Hashtable Vectored World Engine Conn Messages Stream Mux Life LifeSim Deadlines Shape Steps Alarm AlarmStep AlarmFrame AlarmMend.
From stdpp Require Import gmap.
#[local] Open Scope Z_scope.

Inductive demand_kind := KNone | KAny | KSoon | KBy | KAt.

Definition kind (dm : demand) : demand_kind :=
  match dm with NoAlarm => KNone | Any => KAny | Soon => KSoon | By _ => KBy | At _ => KAt end.

Lemma suits_now dm now : kind dm <> KAt -> suits dm now now.
Proof. destruct dm; cbn; try done; lia. Qed.

Lemma suits_any dm D now : kind dm = KNone \/ kind dm = KAny -> suits dm D now.
Proof. destruct dm; cbn; try done; intros [|]; done. Qed.

Definition stream_kind (up : bool) (x : stream_life) : demand_kind :=
  if sl_closed x || negb up then KNone
  else
    match sl_state x, sl_phase x with
    | STREAM_OPEN, _ => KAny
    | STREAM_CLOSING, CLOSE_LOCAL_DRAIN => KBy
    | STREAM_CLOSING, CLOSE_WAIT_ACK | STREAM_CLOSING, CLOSE_REMOTE_DRAIN => KAt
    | STREAM_CLOSING, CLOSE_FINALIZE => KSoon
    | _, _ => KNone
    end.

Definition life_up (L : life) c : bool :=
  from_option (fun k => negb (cl_closed k) && bool_decide (cl_state k = CONN_CONNECTED)) false (lf_conns L !! c).

Section streams.
Context {KO : Kcp} {HO : Host}.
Implicit Types (c s : positive) (w : world K) (o : obj) (d : desc) (L : life).

Lemma stream_demand_kind b (st : stream K) : kind (stream_demand b st) = stream_kind b (slife st).
Proof. unfold stream_demand, stream_kind. cbn. case_match; [done|]. by destruct (s_state st), (s_close_phase st). Qed.

Lemma up_life w c : up w c = life_up (life_of w) c.
Proof. unfold up, life_up. cbn. rewrite lookup_fmap. by destruct (w_conns w !! c). Qed.

Lemma demand_stream w s st :
  w_streams w !! s = Some st -> demand_of w (OStream s) = stream_demand (up w (s_conn st)) st.
Proof. intros Hs. cbn. by rewrite Hs. Qed.

Lemma kind_life w s x :
  lf_streams (life_of w) !! s = Some x ->
  kind (demand_of w (OStream s)) = stream_kind (life_up (life_of w) (sl_conn x)) x.
Proof.
  cbn. rewrite lookup_fmap. destruct (w_streams w !! s) as [st|] eqn:E; [|done]. cbn. intros [= <-].
  by rewrite stream_demand_kind, up_life.
Qed.

Lemma kind_quiet w w' s :
  life_of w' = life_of w -> kind (demand_of w' (OStream s)) = kind (demand_of w (OStream s)).
Proof.
  intros HL. destruct (lf_streams (life_of w) !! s) as [x|] eqn:E.
  - rewrite (kind_life w s x E), (kind_life w' s x); by rewrite HL.
  - assert (E' : lf_streams (life_of w') !! s = None) by by rewrite HL. cbn in E, E' |- *.
    rewrite lookup_fmap in E, E'. by destruct (w_streams w !! s), (w_streams w' !! s).
Qed.

(** A quiet and firm step. *)
Lemma wlp_frame {A B} d (m : W A) (f : A -> W B) Q w :
  watch d w -> quiet m -> firm m ->
  (forall a w', life_of w' = life_of w -> watch d w' -> wlp (f a) Q w') -> wlp (m ≫= f) Q w.
Proof.
  intros Hw Hq Hf H. apply wlp_bind.
  eapply wlp_mono; [apply wlp_and; [apply (Hq w)|apply (Hf d w Hw)]|]. intros a w' [? ?]. by apply H.
Qed.

(** Followed by the rest, when a function's last action is a description of
    its own. *)
Lemma wlp_under {A} d (m : W A) R (Q : A -> world K -> Prop) w :
  watch d w -> under d m R -> (forall a w', watch (R a) w' -> Q a w') -> wlp m Q w.
Proof. intros Hw Hm HQ. eapply wlp_mono; [by apply Hm|done]. Qed.

Lemma wlp_ops_check s now (Q : Z -> world K -> Prop) w : (forall z, Q z w) -> wlp (ops_check s now) Q w.
Proof.
  intros HQ. unfold ops_check, get_kcp. apply wlp_bind, wlp_bind, wlp_deref. intros st Hst.
  apply wlp_deref. intros k Hk. by apply wlp_ret.
Qed.

Lemma wlp_ops_waitsnd s (Q : Z -> world K -> Prop) w :
  (forall st k, w_streams w !! s = Some st -> s_kcp st = Some k -> Q (kcp_waitsnd k) w) ->
  wlp (ops_waitsnd s) Q w.
Proof.
  intros HQ. unfold ops_waitsnd, get_kcp. apply wlp_bind, wlp_bind, wlp_deref. intros st Hst.
  apply wlp_deref. intros k Hk. apply wlp_ret. eauto.
Qed.

(** ** Scheduling a stream *)

Lemma watch_schedule_unit d o D now w :
  watch d w -> now ∈ d_told d -> o ∉ d_new d -> suits (demand_of w o) D now ->
  wlp (_ ← kcpmux_engine_schedule_timer_node o D now; mret tt) (fun _ w' => watch (late_without o d) w') w.
Proof.
  intros. apply wlp_bind. eapply wlp_mono; [by apply watch_schedule|]. intros r w' Hw'. by apply wlp_ret.
Qed.

Lemma watch_stream_refresh d s now w :
  watch d w -> OStream s ∉ d_new d ->
  (forall st, w_streams w !! s = Some st -> s_state st = STREAM_OPEN \/ now ∈ d_told d) ->
  wlp (kcpmux_stream_refresh_timer s now) (fun _ w' => watch (late_without (OStream s) d) w') w.
Proof.
  intros Hw Hnew Hnow. unfold kcpmux_stream_refresh_timer. apply wlp_bind, wlp_deref. intros st Hst.
  specialize (Hnow st Hst). apply wlp_timers_get. intros nd Hnd. case_bool_decide as Ho.
  { apply wlp_ret, watch_unlate_closed; [done|]. intros Hc.
    destruct (wt_open _ _ Hw _ Hc) as [|(nd' & Hnd' & [? ?])%elem_registered]; congruence. }
  apply wlp_bind, wlp_deref. intros k Hk. cbv zeta.
  assert (Hdm : demand_of w (OStream s) = stream_demand (conn_up k) st)
    by (rewrite (demand_stream _ _ _ Hst); unfold up; by rewrite Hk).
  unfold stream_demand in Hdm. destruct (s_internal_closed st); [by apply watch_cancel|].
  unfold conn_up in Hdm. cbn [orb] in Hdm. rewrite negb_andb, negb_involutive in Hdm.
  destruct (_ || _); [by apply watch_cancel|].
  destruct (s_state st) eqn:Hs; [| |by apply watch_cancel..].
  - apply wlp_bind, wlp_ops_check. intros z. apply wlp_bind.
    eapply wlp_mono; [apply (watch_schedule_meets d); [done|done|rewrite Hdm; cbn; eauto]|].
    intros r w' Hw'. by apply wlp_ret.
  - destruct Hnow as [|Hnow]; [done|]. destruct (s_close_phase st); [by apply watch_cancel| | | |].
    + apply wlp_bind, wlp_ops_check. intros z. apply (watch_schedule_unit d); try done. rewrite Hdm. cbn.
      unfold kcpmux_stream_earlier_deadline. case_match; lia.
    + apply (watch_schedule_unit d); try done. by rewrite Hdm.
    + apply (watch_schedule_unit d); try done. by rewrite Hdm.
    + apply (watch_schedule_unit d); try done. rewrite Hdm. cbn. lia.
Qed.

Lemma under_stream_refresh d s now :
  now ∈ d_told d -> OStream s ∉ d_new d ->
  under d (kcpmux_stream_refresh_timer s now) (fun _ => late_without (OStream s) d).
Proof. intros Hnow Hnew w Hw. apply watch_stream_refresh; auto. Qed.

Lemma watch_schedule_now d s now w :
  watch d w -> now ∈ d_told d -> OStream s ∉ d_new d -> kind (demand_of w (OStream s)) <> KAt ->
  wlp (_ ← kcpmux_engine_schedule_timer_node (OStream s) now now; mret tt) (fun _ w' => watch (late_without (OStream s) d) w') w.
Proof. intros. apply watch_schedule_unit; try done. by apply suits_now. Qed.

Lemma watch_accumulate d s now w :
  watch d w -> now ∈ d_told d -> OStream s ∉ d_new d -> kind (demand_of w (OStream s)) <> KAt ->
  wlp (kcpmux_stream_accumulate_update s now) (fun _ w' => watch d w') w.
Proof.
  intros Hw Hnow Hnew Hk. unfold kcpmux_stream_accumulate_update. apply wlp_bind, wlp_deref. intros st Hst.
  cbv zeta. assert (Hs : forall w', watch d w' -> life_of w' = life_of w ->
    wlp (_ ← kcpmux_engine_schedule_timer_node (OStream s) now now; mret tt) (fun _ w' => watch d w') w').
  { intros w' Hw' HL. eapply wlp_mono; [apply (watch_schedule_now d); [done..|by rewrite (kind_quiet _ _ _ HL)]|].
    intros ? w2. apply watch_below, late_without_below. }
  case_match; [by apply Hs|]. case_match; [by apply wlp_ret|].
  eapply wlp_frame; [done|quiet|firm|]. intros _ w1 HL1 Hw1.
  eapply wlp_frame; [done|quiet|firm|]. intros _ w2 HL2 Hw2.
  eapply wlp_frame; [done|quiet|firm|]. intros st2 w3 HL3 Hw3.
  apply wlp_when; intros _; [|done].
  eapply wlp_frame; [done|quiet|firm|]. intros _ w4 HL4 Hw4. apply Hs; [done|congruence].
Qed.

(** ** Changes of state *)

(** [f] keeps what identifies the stream. *)
Definition same_stream (f : stream K -> stream K) : Prop := forall st,
  s_internal_closed (f st) = s_internal_closed st /\ s_conn (f st) = s_conn st.

Lemma under_stream_change d s f : same_stream f -> under d (mod_stream s f) (fun _ => late_with (OStream s) d).
Proof. intros Hf. apply under_mod_stream; intros st; apply Hf. Qed.

Lemma watch_finalize d s r now w :
  watch d w -> now ∈ d_told d -> OStream s ∉ d_new d ->
  wlp (kcpmux_stream_schedule_finalize s r now) (fun _ w' => watch (late_without (OStream s) d) w') w.
Proof.
  intros Hw Hnow Hnew. unfold kcpmux_stream_schedule_finalize. apply wlp_bind.
  eapply wlp_mono; [apply wlp_and; [by apply under_stream_change|]|].
  { eapply (wlp_mod_stream _ _ _ (fun _ w' => kind (demand_of w' (OStream s)) <> KAt)); [done|]. intros st w1 Hst HL1.
    rewrite (kind_life w1 s ((slife st) <| sl_phase := CLOSE_FINALIZE |>)); [|rewrite HL1; apply lookup_insert_eq].
    unfold stream_kind. cbn. case_match; [done|]. by destruct (s_state st). }
  intros _ w1 [Hw1 Hk1]. cbv beta in Hw1, Hk1.
  eapply wlp_frame; [done|quiet|firm|]. intros _ w2 HL2 Hw2.
  eapply wlp_mono; [apply (watch_schedule_now _ _ _ _ Hw2); [done|done|by rewrite (kind_quiet _ _ _ HL2)]|].
  intros ? w3. apply watch_below. below.
Qed.

Lemma watch_stream_set_state d s st new w :
  watch d w -> OStream s ∉ d_new d -> w_streams w !! s = Some st -> s_state st <> new ->
  wlp (kcpmux_stream_set_state s new) (fun _ w' => watch (late_without (OStream s) d) w') w.
Proof.
  intros Hw Hnew Hst Hne. unfold kcpmux_stream_set_state. apply wlp_bind, wlp_deref. intros st' Hst'.
  rewrite Hst in Hst'. injection Hst' as <-. rewrite bool_decide_eq_false_2 by done. revert w Hw Hst. 
  intros w Hw _. match goal with |- wlp ?m _ _ => assert (Hm : under d m (fun _ => late_without (OStream s) d)) end.
  { eapply under_bind; [by apply under_stream_change|]. intros [].
    apply under_firm_bind; [firm|intros ?]. apply under_now_bind. intros now.
    eapply under_bind; [apply under_stream_refresh; [cbn; by left|done]|]. intros [].
    apply under_firm; [firm|]. intros []. below. }
  by apply Hm.
Qed.

Lemma under_stream_set_state d s new :
  OStream s ∉ d_new d -> under d (kcpmux_stream_set_state s new) (fun _ => d).
Proof.
  intros Hnew w Hw. destruct (w_streams w !! s) as [st|] eqn:Hst.
  - destruct (decide (s_state st = new)) as [E|Hne].
    + unfold kcpmux_stream_set_state. apply wlp_bind, wlp_deref. intros st' Hst'. rewrite Hst in Hst'.
      injection Hst' as <-. rewrite bool_decide_eq_true_2 by done. by apply wlp_ret.
    + eapply wlp_mono; [by eapply watch_stream_set_state|]. intros ? w'. apply watch_below, late_without_below.
  - unfold kcpmux_stream_set_state. apply wlp_bind, wlp_deref. intros st' Hst'. congruence.
Qed.

(** An open stream enters a close phase. *)
Lemma watch_enter_closing d s st f w :
  watch d w -> OStream s ∉ d_new d -> w_streams w !! s = Some st -> s_state st = STREAM_OPEN ->
  same_stream f -> s_state (f st) = s_state st ->
  wlp (mod_stream s f;; kcpmux_stream_set_state s STREAM_CLOSING)
    (fun _ w' => watch (late_without (OStream s) d) w') w.
Proof.
  intros Hw Hnew Hst Hopen Hf Hfs. apply wlp_bind.
  eapply wlp_mono; [apply wlp_and; [by apply (under_stream_change d)|]|].
  { apply wlp_bind, wlp_deref. intros st' Hst'. rewrite Hst in Hst'. injection Hst' as <-.
    apply (wlp_modify _ (fun _ w' => w_streams w' !! s = Some (f st))). cbn. apply lookup_insert_eq. }
  intros [] w1 [Hw1 Hst1]. cbv beta in Hw1, Hst1.
  eapply wlp_mono; [eapply watch_stream_set_state; [done|done|done|by rewrite Hfs, Hopen]|].
  intros [] w2. apply watch_below. below.
Qed.

Lemma under_stream_send_close d s r :
  OStream s ∉ d_new d -> under d (kcpmux_stream_send_close s r) (fun _ => late_without (OStream s) d).
Proof.
  intros Hnew w Hw. unfold kcpmux_stream_send_close. apply wlp_bind, wlp_deref. intros st Hst.
  destruct (s_internal_closed st) eqn:Hcl.
  { apply wlp_ret, watch_unlate_closed; [done|]. cbn. rewrite Hst. cbn. by rewrite Hcl. }
  match goal with |- wlp ?m _ _ => assert (Hm : under d m (fun _ => late_without (OStream s) d)) end; [|by apply Hm].
  apply under_firm_bind; [firm|intros ?]. apply under_now_bind. intros now.
  eapply under_bind; [by apply under_stream_change|]. intros [].
  apply under_firm_bind; [firm|intros ret].
  eapply under_bind; [apply under_stream_refresh; [cbn; by left|done]|]. intros [].
  apply under_ret. below.
Qed.

Lemma under_stream_set_config d os cfg : d_new d = ∅ -> under d (kcpmux_stream_set_config os cfg) (fun _ => d).
Proof.
  intros Hnew. unfold kcpmux_stream_set_config. destruct os as [s|], cfg as [cfg|]; try (apply under_ret, below_refl).
  apply under_firm_bind; [firm|intros st]. destruct (s_internal_closed st); [apply under_ret, below_refl|].
  destruct (kcpmux_stream_config_prepare cfg); [|apply under_ret, below_refl].
  eapply under_bind; [by apply under_stream_change|]. intros [].
  apply under_firm_bind; [firm|intros ?]. apply under_firm_bind; [firm|intros ?].
  apply under_now_bind. intros now.
  eapply under_weaken; [apply under_stream_refresh; cbn; [by left|set_solver]|]. intros []. below.
Qed.
End streams.
