(* ===== verification/AlarmClose.v ===== *)
(** * Closing ends demands, creation registers nodes

    [kcpmux_stream_close_internal], [kcpmux_conn_close_internal],
    [kcpmux_conn_new], [kcpmux_stream_new], and what runs inside an operation
    before its handlers: steps, entry into the close phases. *)

From S2P Require Import Prelude Types Timer Hashtable Vectored World Engine Conn Messages Stream Mux Life LifeSim Deadlines Shape Steps Alarm AlarmStep AlarmFrame AlarmMend AlarmStream.
From stdpp Require Import gmap.
#[local] Open Scope Z_scope.

Section close.
Context {KO : Kcp} {HO : Host}.
Implicit Types (c s : positive) (w : world K) (o : obj) (d : desc) (L : life).

Lemma closed_quiet w w' o : life_of w' = life_of w -> closed_of w' o = closed_of w o.
Proof.
  intros HL. pose proof (f_equal lf_conns HL) as Hc. pose proof (f_equal lf_streams HL) as Hs. cbn in Hc, Hs.
  destruct o as [c|s]; cbn.
  - apply (f_equal (lookup c)) in Hc. rewrite !lookup_fmap in Hc.
    destruct (w_conns w !! c), (w_conns w' !! c); try done. cbn in Hc |- *. by injection Hc as _ _ -> _.
  - apply (f_equal (lookup s)) in Hs. rewrite !lookup_fmap in Hs.
    destruct (w_streams w !! s), (w_streams w' !! s); try done. cbn in Hs |- *. injection Hs. by intros ->.
Qed.

(** A store that closes [o]. *)
Lemma watch_shut d o w w' :
  watch d w -> o ∉ d_new d ->
  w_timers w' = w_timers w -> w_engine w' = w_engine w -> w_next_addr w' = w_next_addr w ->
  w_trace w' = w_trace w -> closed_of w o = Some false ->
  (forall n, n <> o -> closed_of w' n = closed_of w n) -> closed_of w' o = Some true ->
  (forall n, n <> o -> demand_of w' n = demand_of w n \/ demand_of w' n = NoAlarm) ->
  watch (d <| d_shut ::= union {[o]} |>) w'.
Proof.
  intros [] Hnew Ht He Hn Htr Hop Hcl Hc Hdm.
  constructor; cbn; rewrite ?Ht, ?He, ?Hn; try done.
  - by eapply reserved_same; [..|done]; rewrite ?He.
  - intros t Hin. unfold told_by. rewrite Htr. by apply wt_told.
  - intros n Hs. destruct (decide (n = o)) as [->|Hne]; [by apply wt_addr|]. rewrite Hcl in Hs by done. auto.
  - intros n Hin. destruct (decide (n = o)) as [->|Hne]; [done|]. rewrite Hcl by done. auto.
  - intros n Hs. destruct (decide (n = o)) as [->|Hne]; [congruence|]. rewrite Hcl in Hs by done. auto.
  - intros n Hs. destruct (decide (n = o)) as [->|Hne]; [set_solver|]. rewrite Hcl in Hs by done.
    destruct (wt_closed n Hs); [set_solver|by right].
  - intros n Hl. destruct (decide (n = o)) as [->|Hne]; [by rewrite closed_no_demand; [|rewrite Hc]|].
    destruct (Hdm n Hne) as [->| ->]; [|done]. eapply (meets_told (told_by w)); [|by apply wt_alarm].
    intros t. unfold told_by. by rewrite Htr.
  - intros Hb. eapply host_armed_same; [..|by apply wt_host]; rewrite ?He, ?Ht; done.
Qed.

Lemma firm_mod_stream_done s f :
  same_stream f -> (forall b st, stream_demand b (f st) = NoAlarm) -> firm (mod_stream s f).
Proof.
  intros Hf Hd d w Hw. apply wlp_bind, wlp_deref. intros st Hst. apply wlp_modify.
  eapply watch_below, (watch_change d ∅ w); try done; [below|..].
  - intros o. eapply closed_mod_stream; [done|apply Hf].
  - intros [c|s'] _; cbn; [by left|]. destruct (decide (s' = s)) as [->|Hne]; [|rewrite lookup_insert_ne by done; by left].
    rewrite lookup_insert_eq. right. apply Hd.
Qed.

Lemma firm_mod_conn_done c f :
  (forall k, c_internal_closed (f k) = c_internal_closed k) ->
  (forall k, conn_demand (f k) = NoAlarm) -> (forall k, conn_up (f k) = false) -> firm (mod_conn c f).
Proof.
  intros Hc Hd Hu d w Hw. apply wlp_bind, wlp_deref. intros k Hk. apply wlp_modify.
  eapply watch_below, (watch_change d ∅ w); try done; [below|..].
  - intros o. by eapply closed_mod_conn.
  - intros [c'|s] _; cbn.
    + destruct (decide (c' = c)) as [->|Hne]; [|rewrite lookup_insert_ne by done; by left].
      rewrite lookup_insert_eq. right. apply Hd.
    + destruct (w_streams w !! s) as [st|]; [|by left]. cbn. unfold up. cbn.
      destruct (decide (s_conn st = c)) as [->|Hne]; [|rewrite lookup_insert_ne by done; by left].
      rewrite lookup_insert_eq. cbn. right. unfold stream_demand. by rewrite Hu, orb_true_r.
Qed.

(** Marked closed, then unregistered: the object demands nothing more. *)
Lemma watch_shut_unregister d o w :
  watch (d <| d_shut ::= union {[o]} |>) w -> closed_of w o = Some true ->
  wlp (kcpmux_engine_unregister_timer_node o) (fun _ w' => watch (late_without o d) w') w.
Proof.
  intros Hw Hc. eapply wlp_mono; [by apply watch_unregister|]. intros [] w'. apply watch_below.
  constructor; cbn; try done. set_solver.
Qed.

Lemma stream_demand_closed b (st : stream K) : s_state st = STREAM_CLOSED -> stream_demand b st = NoAlarm.
Proof. intros E. unfold stream_demand. case_match; [done|]. by rewrite E. Qed.

Lemma under_stream_close d s r :
  OStream s ∉ d_new d -> under d (kcpmux_stream_close_internal s r) (fun _ => late_without (OStream s) d).
Proof.
  intros Hnew w Hw. unfold kcpmux_stream_close_internal. apply wlp_bind, wlp_deref. intros st Hst.
  destruct (s_internal_closed st) eqn:Hcl.
  { apply wlp_ret, watch_unlate_closed; [done|]. cbn. rewrite Hst. cbn. by rewrite Hcl. }
  apply wlp_bind, wlp_bind, wlp_deref. intros st' Hst'. rewrite Hst in Hst'. injection Hst' as <-. apply wlp_modify.
  set (w1 := w <| w_streams ::= _ |>).
  assert (Hc1 : closed_of w1 (OStream s) = Some true) by (cbn; by rewrite lookup_insert_eq).
  assert (Hw1 : watch (d <| d_shut ::= union {[OStream s]} |>) w1).
  { apply (watch_shut d (OStream s) w); try done.
    - cbn. by rewrite Hst; cbn; rewrite Hcl.
    - intros [c|s'] Hne; [done|]. cbn. by rewrite lookup_insert_ne by congruence.
    - intros [c|s'] Hne; [by left|]. cbn. rewrite lookup_insert_ne by congruence. by left. }
  clearbody w1. clear w Hw Hst.
  eapply wlp_frame; [exact Hw1|quiet|firm|]. intros k w2 HL2 Hw2.
  eapply wlp_frame; [exact Hw2|quiet|firm|]. intros _ w3 HL3 Hw3.
  apply wlp_bind. eapply wlp_mono; [apply watch_shut_unregister; [exact Hw3|]|].
  { rewrite (closed_quiet w2), (closed_quiet w1); done. }
  intros [] w4 Hw4. cbv beta in Hw4. clear - Hw4. revert w4 Hw4. apply under_firm; [|intros []; apply below_refl].
  firm. apply firm_mod_stream_done; [done|]. intros b st'. by apply stream_demand_closed.
Qed.

Lemma under_for_each {A} d (f : A -> W unit) l :
  (forall x, under d (f x) (fun _ => d)) -> under d (for_each f l) (fun _ => d).
Proof.
  intros Hf. induction l as [|x l IH]; cbn; [apply under_ret, below_refl|].
  eapply under_bind; [apply Hf|]. intros []. exact IH.
Qed.

Lemma under_close_bucket d c i r : d_new d = ∅ -> under d (close_bucket c i r) (fun _ => d).
Proof.
  intros Hnew. unfold close_bucket. apply under_firm_bind; [firm|intros k]. apply under_firm_bind; [firm|intros b].
  apply under_for_each. intros s. eapply under_weaken; [apply under_stream_close; set_solver|].
  intros []. apply late_without_below.
Qed.

Lemma conn_demand_state k : c_state k = CONN_CLOSED -> conn_demand k = NoAlarm.
Proof. intros E. unfold conn_demand, kcpmux_conn_calculate_deadline. rewrite E. by destruct (c_internal_closed k). Qed.

Lemma under_conn_close d c r :
  d_new d = ∅ -> under d (kcpmux_conn_close_internal c r) (fun _ => late_without (OConn c) d).
Proof.
  intros Hnew w Hw. unfold kcpmux_conn_close_internal. apply wlp_bind, wlp_deref. intros k Hk.
  destruct (c_internal_closed k) eqn:Hcl.
  { apply wlp_ret, watch_unlate_closed; [done|]. cbn. rewrite Hk. cbn. by rewrite Hcl. }
  apply wlp_bind, wlp_bind, wlp_deref. intros k' Hk'. rewrite Hk in Hk'. injection Hk' as <-. apply wlp_modify.
  set (w1 := w <| w_conns ::= _ |>).
  assert (Hc1 : closed_of w1 (OConn c) = Some true) by (cbn; by rewrite lookup_insert_eq).
  assert (Hw1 : watch (d <| d_shut ::= union {[OConn c]} |>) w1).
  { apply (watch_shut d (OConn c) w); try done.
    - set_solver.
    - cbn. by rewrite Hk; cbn; rewrite Hcl.
    - intros [c'|s'] Hne; [|done]. cbn. by rewrite lookup_insert_ne by congruence.
    - intros [c'|s'] Hne; cbn; [rewrite lookup_insert_ne by congruence; by left|].
      destruct (w_streams w !! s') as [st|]; [|by left]. cbn. unfold up. cbn.
      destruct (decide (s_conn st = c)) as [->|]; [|rewrite lookup_insert_ne by done; by left].
      rewrite lookup_insert_eq. right. unfold stream_demand. by rewrite orb_true_r. }
  clearbody w1. clear w Hw Hk.
  apply wlp_bind. eapply wlp_mono; [apply watch_shut_unregister; [exact Hw1|done]|].
  intros [] w4 Hw4. cbv beta in Hw4. clear - Hnew Hw4. revert w4 Hw4.
  apply under_firm_bind; [firm|intros []]. apply under_firm_bind; [firm|intros []].
  eapply under_bind; [apply under_for_each; intros i; by apply under_close_bucket|]. intros [].
  apply under_firm; [|intros []; apply below_refl].
  firm. apply firm_mod_conn_done; [done| |]; intros k'; [by apply conn_demand_state|].
  unfold conn_up. cbn. by rewrite andb_false_r.
Qed.
(** ** Creation *)

Lemma under_abandon {A} d d' o :
  o ∈ d_new d' -> forgotten o d' ⊑d d -> under d' (free_obj o;; mret (@None A)) (fun _ => d).
Proof.
  intros Ho Hd w Hw. apply wlp_bind. eapply wlp_mono; [apply watch_free; [done|by apply (wt_new _ _ Hw)]|].
  intros [] w' Hw'. apply wlp_ret. by eapply watch_below.
Qed.

Lemma conn_up_state k : c_state k <> CONN_CONNECTED -> conn_up k = false.
Proof. intros H. unfold conn_up. by rewrite bool_decide_eq_false_2, andb_false_r. Qed.

(** A new connection is registered, and to be scheduled. *)
Lemma under_conn_new d pa cfg init :
  d_new d = ∅ -> under d (kcpmux_conn_new pa cfg init) (fun oc =>
    match oc with Some c => late_with (OConn c) d | None => d end).
Proof.
  intros Hnew. unfold kcpmux_conn_new. destruct pa as [a|]; [|apply under_ret, below_refl].
  case_match; [apply under_ret, below_refl|]. case_match; [apply under_ret, below_refl|].
  eapply under_bind; [apply under_malloc_conn|]. intros [c|]; [|apply under_ret, below_refl]. cbv beta iota.
  set (d1 := fresh_in (OConn c) d).
  assert (Hin : OConn c ∈ d_new d1) by set_solver.
  assert (Hab : under d1 (free_obj (OConn c);; mret (@None positive)) (fun oc =>
    match oc with Some c => late_with (OConn c) d | None => d end)).
  { eapply under_weaken; [apply (under_abandon d); [done|]|]. 
    - unfold d1. constructor; cbn; rewrite ?Hnew; first [done|set_solver].
    - intros [c'|]; below. }
  assert (Hch : forall f, (forall k, c_internal_closed (f k) = c_internal_closed k) ->
    (forall k, conn_up (f k) = true -> conn_up k = true) -> under d1 (mod_conn c f) (fun _ => d1)).
  { intros f Hc Hu. eapply under_weaken; [by apply under_mod_conn|]. intros []. unfold d1. below. }
  eapply under_bind; [apply Hch; [done|]; intros k; by rewrite conn_up_state|]. intros [].
  apply under_firm_bind; [firm|intros e]. case_match; [done|].
  apply under_firm_bind; [firm|intros []]. apply under_firm_bind; [firm|intros []]. cbv zeta.
  destruct (kcpmux_conn_config_prepare _); [|done].
  eapply under_bind; [by apply Hch|]. intros [].
  apply under_firm_bind; [firm|intros r]. apply under_firm_bind; [firm|intros []].
  apply under_firm_bind; [firm|intros [m|]]; [|done]. apply under_firm_bind; [firm|intros []].
  eapply under_bind; [intros w Hw; apply (watch_register d1 (OConn c)); [done|done|set_solver]|].
  intros ret. cbv beta. destruct (ret =? KCPMUX_ERR_OK); cbn [negb]; [|done].
  apply under_firm_bind; [firm|intros now]. eapply under_bind; [by apply under_mod_conn|]. intros [].
  apply under_firm_bind; [firm|intros []]. apply under_ret. unfold d1.
  constructor; cbn; rewrite ?Hnew; first [done|set_solver].
Qed.

Lemma under_stream_new d c id cfg init :
  d_new d = ∅ -> under d (kcpmux_stream_new c id cfg init) (fun _ => d).
Proof.
  intros Hnew. unfold kcpmux_stream_new. case_match; [apply under_ret, below_refl|].
  eapply under_bind; [apply under_malloc_stream|]. intros [s|]; [|apply under_ret, below_refl]. cbv beta iota.
  set (d1 := fresh_in (OStream s) d).
  assert (Hin : OStream s ∈ d_new d1) by set_solver.
  assert (Hab : under d1 (free_obj (OStream s);; mret (@None positive)) (fun _ => d)).
  { apply under_abandon; [done|]. unfold d1. constructor; cbn; rewrite ?Hnew; first [done|set_solver]. }
  apply under_firm_bind; [firm|intros []]. apply under_firm_bind; [firm|intros k].
  apply under_firm_bind; [firm|intros e]. destruct (kcpmux_stream_config_prepare _) as [cf|]; [|done].
  eapply under_bind; [eapply under_weaken; [by apply under_stream_change|]; intros []; instantiate (1 := fun _ => d1); unfold d1; below|].
  intros []. apply under_firm_bind; [firm|intros [kcp|]]; [|done]. apply under_firm_bind; [firm|intros []].
  eapply under_bind; [intros w Hw; apply (watch_register d1 (OStream s)); [done|done|set_solver]|].
  intros ret. cbv beta. destruct (ret =? KCPMUX_ERR_OK); cbn [negb].
  2: { by apply under_firm_bind; [firm|intros []]. }
  apply under_firm_bind; [firm|intros now]. apply under_firm_bind; [firm|intros []].
  apply under_firm_bind; [firm|intros []]. intros w Hw. apply wlp_bind.
  eapply wlp_mono; [apply wlp_and; [by apply under_stream_change|]|].
  { apply wlp_bind, wlp_deref. intros st Hst.
    apply (wlp_modify _ (fun _ w' => forall st, w_streams w' !! s = Some st -> s_state st = STREAM_OPEN)). cbn.
    intros st'. rewrite lookup_insert_eq. by intros [= <-]. }
  intros [] w1 [Hw1 Hopen]. cbv beta in Hw1, Hopen. apply wlp_bind, wlp_deref. intros st Hst.
  apply wlp_bind. eapply wlp_mono; [apply watch_stream_refresh; [exact Hw1|unfold d1; cbn; set_solver|]|].
  { intros st' Hst'. left. by apply Hopen. }
  intros [] w2 Hw2. apply wlp_ret. revert Hw2. apply watch_below. unfold d1.
  constructor; cbn; rewrite ?Hnew; first [done|set_solver].
Qed.
End close.
