(* ===== verification/AlarmCalls.v ===== *)
(** * Handlers and the bodies of the public functions

    Timer handlers, packet handlers and the parts of the public functions that
    run inside an operation: whatever they change they reschedule.  A handler
    of a timeout starts with its object late, its node having fired. *)

From S2P Require Import Prelude Types Timer Hashtable Vectored World Engine Conn Messages Stream Mux Life LifeSim LifeEntry Deadlines Shape Steps Alarm AlarmStep AlarmFrame AlarmMend AlarmStream AlarmClose.
From stdpp Require Import gmap.
#[local] Open Scope Z_scope.

Section calls.
Context {KO : Kcp} {HO : Host}.
Implicit Types (c s : positive) (w : world K) (o : obj) (d : desc) (L : life).

(** ** Connections *)

Lemma under_conn_close' d c r : d_new d = ∅ -> under d (kcpmux_conn_close_internal c r) (fun _ => d).
Proof. intros Hn. eapply under_weaken; [by apply under_conn_close|]. intros ?. apply late_without_below. Qed.

Lemma under_stream_close' d s r : d_new d = ∅ -> under d (kcpmux_stream_close_internal s r) (fun _ => d).
Proof.
  intros Hn. eapply under_weaken; [apply under_stream_close; set_solver|]. intros ?. apply late_without_below.
Qed.

Lemma under_again {A B} d (m : W A) (b : B) o R :
  under d m (fun _ => late_without o d) -> late_without o d ⊑d R b -> under d (_ ← m; mret b) R.
Proof. intros Hm HR. eapply under_bind; [done|]. intros a. by apply under_ret. Qed.

Lemma under_conn_update_body d c now :
  d_new d = ∅ -> under d (conn_update_body c now) (fun again => if again then d else late_without (OConn c) d).
Proof.
  intros Hnew. assert (Hc : OConn c ∉ d_new d) by set_solver.
  unfold conn_update_body. apply under_firm_bind; [firm|intros k]. cbv zeta.
  assert (Hclose : forall r, under d (kcpmux_conn_close_internal c r;; mret false)
    (fun again => if again then d else late_without (OConn c) d)).
  { intros r. by eapply under_again; [by apply under_conn_close|]. }
  destruct (c_state k); try (apply under_ret, below_refl).
  - case_match; [|apply under_ret, below_refl]. case_match.
    + apply under_firm_bind; [firm|intros []]. eapply under_again; [by apply under_send_connect|]. apply late_without_below.
    + eapply under_bind; [by apply under_conn_set_state|]. intros []. apply Hclose.
  - case_match; [|case_match].
    + eapply under_bind; [by apply under_conn_set_state|]. intros []. apply under_firm_bind; [firm|intros []]. apply Hclose.
    + eapply under_bind; [by apply under_conn_set_state|]. intros [].
      eapply under_bind; [by apply under_send_close|]. intros ?. apply under_firm_bind; [firm|intros []].
      eapply under_again; [by apply under_conn_close|]. below.
    + eapply (under_bind _ _ _ (fun _ => d)); [|intros []; apply under_ret, below_refl].
      case_match; [|apply under_ret, below_refl].
      eapply under_again; [by apply under_send_keepalive|]. apply late_without_below.
  - case_match; [|apply under_ret, below_refl]. case_match; [|apply Hclose].
    apply under_firm_bind; [firm|intros []]. eapply under_bind; [by apply under_send_close|]. intros ?.
    eapply under_bind; [apply firm_get_conn|]. intros k'. case_match; [|apply under_ret, late_without_below].
    eapply under_again; [by apply under_conn_close|]. below.
Qed.

Lemma under_conn_update d c now :
  d_new d = ∅ -> now ∈ d_told d ->
  under d (kcpmux_conn_update c now) (fun _ => late_without (OConn c) d).
Proof.
  intros Hnew Hnow w Hw. assert (Hc : OConn c ∉ d_new d) by set_solver.
  unfold kcpmux_conn_update. apply wlp_bind, wlp_deref. intros k Hk.
  destruct (c_internal_closed k) eqn:Hcl.
  { apply wlp_ret, watch_unlate_closed; [done|]. cbn. rewrite Hk. cbn. by rewrite Hcl. }
  destruct (kcpmux_conn_calculate_deadline k); [|by apply under_conn_refresh].
  case_match; [by apply under_conn_refresh|]. clear Hk. revert w Hw.
  eapply under_bind; [by apply under_conn_update_body|]. intros [].
  - by apply under_conn_refresh.
  - apply under_ret. below.
Qed.

Lemma under_conn_close_body d c : d_new d = ∅ -> under d (conn_close_body c) (fun _ => d).
Proof.
  intros Hnew. assert (Hc : OConn c ∉ d_new d) by set_solver. unfold conn_close_body.
  apply under_firm_bind; [firm|intros []]. apply under_firm_bind; [firm|intros k].
  destruct (c_internal_closed k); [apply under_ret, below_refl|].
  assert (Hgo : under d (now ← kcpmux_engine_now;
        mod_conn c (fun k => k <| c_last_ctrl_ts := now |>
                               <| c_close_reason := KCPMUX_CLOSE_REASON_NORMAL |>
                               <| c_retry_count := 0 |>);;
        kcpmux_conn_set_state c CONN_CLOSING;;
        _ ← kcpmux_conn_send_close c KCPMUX_CLOSE_REASON_NORMAL;
        k ← get_conn c;
        when (cc_close_retries (c_config k) =? 0)
          (kcpmux_conn_close_internal c KCPMUX_CLOSE_REASON_NORMAL)) (fun _ => d)).
  { apply under_now_bind. intros now. eapply under_bind; [by apply under_mod_conn|]. intros [].
    eapply under_bind; [by apply under_conn_set_state|]. intros [].
    eapply under_bind; [by apply under_send_close|]. intros ?.
    eapply under_bind; [apply firm_get_conn|]. intros k'.
    apply under_when; [|intros _; below]. intros _. eapply under_weaken; [by apply under_conn_close'|].
    intros ?. below. }
  destruct (c_state k); first [exact Hgo|apply under_ret, below_refl].
Qed.

(** [kcpmux_conn_connect] inside its operation. *)
Definition connect_body (a : option (list Z)) (cfg : option conn_config) (ext : option proto_ext)
    (cbs : option conn_callbacks) (ud : Z) : W (option positive) :=
  oc ← kcpmux_conn_new a cfg true;
  match oc with
  | None => mret None
  | Some c =>
      when (bool_decide (is_Some cbs))
        (mod_conn c (fun k => k <| c_callbacks := default conn_callbacks_zero cbs |>));;
      mod_conn c (fun k => k <| c_user_data := ud |>);;
      match ext with
      | Some ext =>
          when (0 <? pe_len ext)
            (let len := if KCPMUX_PROTO_EXT_MAX_LEN <? pe_len ext
                        then KCPMUX_PROTO_EXT_MAX_LEN else pe_len ext in
             bytes ← deref (fun _ => read_bytes_at (Some (pe_data ext)) 0 len);
             mod_conn c (fun k => k <| c_self_proto_ext ::= proto_ext_store bytes |>))
      | None => mret tt
      end;;
      kcpmux_engine_add_conn c;;
      now ← kcpmux_engine_now;
      mod_conn c (fun k => k <| c_last_ctrl_ts := now |> <| c_state := CONN_CONNECTING |>);;
      kcpmux_conn_refresh_timer c now;;
      _ ← kcpmux_conn_send_connect c;
      mret (Some c)
  end.

Lemma under_connect_body d a cfg ext cbs ud : d_new d = ∅ -> under d (connect_body a cfg ext cbs ud) (fun _ => d).
Proof.
  intros Hnew. unfold connect_body. eapply under_bind; [by apply under_conn_new|]. intros [c|]; [|apply under_ret, below_refl].
  assert (Hc : OConn c ∉ d_new d) by set_solver.
  apply under_firm_bind; [firm|intros []]. apply under_firm_bind; [firm|intros []].
  apply under_firm_bind; [firm|intros []]. apply under_firm_bind; [firm|intros []].
  apply under_now_bind. intros now.
  eapply under_bind; [apply under_mod_conn; [done|]; intros k; by rewrite conn_up_state|]. intros [].
  eapply under_bind; [apply under_conn_refresh; [cbn; by left|done]|]. intros [].
  eapply under_again; [by apply under_send_connect|]. below.
Qed.

(** ** Streams *)

Lemma watch_advance_drained d s now st k w :
  watch d w -> d_new d = ∅ -> w_streams w !! s = Some st -> s_internal_closed st = false ->
  s_close_phase st = CLOSE_LOCAL_DRAIN -> s_kcp st = Some k -> kcp_waitsnd k = 0 ->
  wlp (kcpmux_stream_advance_local_close s now) (fun _ w' => watch (late_without (OStream s) d) w') w.
Proof.
  intros Hw Hnew Hst Hcl Hph Hk H0. assert (Hs : OStream s ∉ d_new d) by set_solver.
  unfold kcpmux_stream_advance_local_close. apply wlp_bind, wlp_deref. intros st' Hst'. rewrite Hst in Hst'.
  injection Hst' as <-. rewrite Hcl, bool_decide_eq_true_2 by done. cbn [orb negb].
  apply wlp_bind, wlp_ops_waitsnd. intros st' k' Hst' Hk'. rewrite Hst in Hst'. injection Hst' as <-.
  rewrite Hk in Hk'. injection Hk' as <-. rewrite H0. cbn [Z.eqb negb]. clear Hst. revert w Hw.
  eapply under_bind; [by apply under_stream_change|]. intros [].
  eapply under_bind; [by apply under_stream_send_close|]. intros ?.
  eapply under_bind; [apply firm_get_stream|]. intros st2.
  apply under_when; [|intros _; below]. intros _. eapply under_weaken; [by apply under_stream_close'|].
  intros ?. below.
Qed.

Lemma under_advance d s now : d_new d = ∅ -> under d (kcpmux_stream_advance_local_close s now) (fun _ => d).
Proof.
  intros Hnew w Hw. destruct (w_streams w !! s) as [st|] eqn:Hst; cycle 1.
  { unfold kcpmux_stream_advance_local_close. apply wlp_bind, wlp_deref. congruence. }
  destruct (s_internal_closed st || negb (bool_decide (s_close_phase st = CLOSE_LOCAL_DRAIN))) eqn:Hg.
  { unfold kcpmux_stream_advance_local_close. apply wlp_bind, wlp_deref. intros st' Hst'. rewrite Hst in Hst'.
    injection Hst' as <-. rewrite Hg. by apply wlp_ret. }
  pose proof Hg as Hg'. apply orb_false_iff in Hg' as [Hcl Hph%negb_false_iff%bool_decide_eq_true].
  destruct (s_kcp st) as [k|] eqn:Hk; [destruct (decide (kcp_waitsnd k = 0)) as [H0|H0]|].
  - eapply wlp_mono; [by eapply watch_advance_drained|]. intros ? w'. apply watch_below, late_without_below.
  - unfold kcpmux_stream_advance_local_close. apply wlp_bind, wlp_deref. intros st' Hst'. rewrite Hst in Hst'.
    injection Hst' as <-. rewrite Hg. apply wlp_bind, wlp_ops_waitsnd. intros st' k' Hst' Hk'.
    rewrite Hst in Hst'. injection Hst' as <-. rewrite Hk in Hk'. injection Hk' as <-.
    apply Z.eqb_neq in H0. rewrite H0. by apply wlp_ret.
  - unfold kcpmux_stream_advance_local_close. apply wlp_bind, wlp_deref. intros st' Hst'. rewrite Hst in Hst'.
    injection Hst' as <-. rewrite Hg. apply wlp_bind, wlp_ops_waitsnd. intros st' k' Hst' Hk'. congruence.
Qed.

Lemma under_stream_create_body d c cfg cbs ud :
  d_new d = ∅ -> under d (stream_create_body c cfg cbs ud) (fun _ => d).
Proof.
  intros Hnew. unfold stream_create_body. apply under_firm_bind; [firm|intros []].
  apply under_firm_bind; [firm|intros k]. case_match; [apply under_ret, below_refl|].
  apply under_firm_bind; [firm|intros i]. case_match; [apply under_ret, below_refl|].
  eapply under_bind; [by apply under_stream_new|]. intros [s|]; [|apply under_ret, below_refl].
  apply under_firm; [firm|]. intros ?. apply below_refl.
Qed.

Lemma watch_stream_close_body d s w :
  watch d w -> d_new d = ∅ -> wlp (stream_close_body s) (fun _ w' => watch d w') w.
Proof.
  intros Hw Hnew. assert (Hs : OStream s ∉ d_new d) by set_solver. unfold stream_close_body.
  eapply wlp_frame; [done|quiet|firm|]. intros [] w1 HL1 Hw1. apply wlp_bind, wlp_deref. intros st Hst.
  destruct (s_state st) eqn:Hstate; [| |by apply wlp_ret..].
  - clear w Hw HL1. apply wlp_bind. eapply wlp_mono; [apply wlp_and; [by apply under_now|]|].
    { apply (wlp_quiet (life_of w1)); [done|quiet|]. intros a w2 HL2. exact HL2. }
    intros now w2 [Hw2 HL2]. cbv beta in Hw2, HL2.
    assert (Hl : lf_streams (life_of w2) !! s = Some (slife st)) by (rewrite HL2; cbn; by rewrite lookup_fmap, Hst).
    destruct (w_streams w2 !! s) as [st2|] eqn:Hst2; [|cbn in Hl; by rewrite lookup_fmap, Hst2 in Hl].
    assert (Ho2 : s_state st2 = STREAM_OPEN).
    { cbn in Hl. rewrite lookup_fmap, Hst2 in Hl. injection Hl. congruence. }
    apply wlp_bind_assoc, wlp_bind. eapply wlp_mono; [apply wlp_and|].
    + by apply (watch_enter_closing (having_told now d) s st2).
    + apply (wlp_enter_closing (life_of w1) s (slife st) CLOSE_LOCAL_DRAIN); [done|by rewrite HL2 in Hl|done|by auto|done].
    + intros [] w3 (Hw3 & Hr3 & x & Hx & Hp). cbv beta in Hw3.
      eapply wlp_frame; [done|quiet|firm|]. intros st4 w4 HL4 Hw4. case_match.
      { eapply wlp_mono; [apply (fun Hn => under_stream_close' _ s _ Hn w4 Hw4); done|]. intros ? w5. apply watch_below. below. }
      apply wlp_bind. eapply (wlp_mono _ (fun _ w' => watch (late_without (OStream s) (having_told now d)) w')).
      { eapply wlp_mono; [apply (watch_schedule_meets (late_without (OStream s) (having_told now d)));
          [done|done|]|].
        - apply suits_meets; [|by apply (wt_told _ _ Hw4); cbn; left]. apply suits_now.
          rewrite (kind_quiet w3 w4 s HL4), (kind_life _ _ _ Hx). unfold stream_kind. rewrite Hp.
          case_match; [done|]. by destruct (sl_state x).
        - intros ? w5. apply watch_below. below. }
      intros ? w5 Hw5. eapply wlp_mono; [apply (fun Hn => under_advance _ s _ Hn w5 Hw5); done|]. intros ? w6. apply watch_below. below.
  - case_bool_decide; [|by apply wlp_ret]. revert w1 Hw1 HL1 Hst. intros w1 Hw1 _ _. revert w1 Hw1.
    apply under_now_bind. intros now w2 Hw2.
    eapply wlp_mono; [apply (watch_finalize _ _ _ _ _ Hw2); [cbn; by left|done]|]. intros ? w3. apply watch_below. below.
Qed.

Lemma kind_open w s st :
  w_streams w !! s = Some st -> s_state st = STREAM_OPEN ->
  kind (demand_of w (OStream s)) = KNone \/ kind (demand_of w (OStream s)) = KAny.
Proof.
  intros Hst Ho. rewrite (demand_stream _ _ _ Hst), stream_demand_kind. unfold stream_kind. cbn. rewrite Ho.
  case_match; auto.
Qed.

Lemma not_at dm : kind dm = KNone \/ kind dm = KAny -> kind dm <> KAt.
Proof. by intros [->| ->]. Qed.

Lemma watch_schedule_open d s D now w :
  watch d w -> OStream s ∉ d_new d ->
  kind (demand_of w (OStream s)) = KNone \/ kind (demand_of w (OStream s)) = KAny ->
  wlp (_ ← kcpmux_engine_schedule_timer_node (OStream s) D now; mret tt) (fun _ w' => watch (late_without (OStream s) d) w') w.
Proof.
  intros Hw Hnew Hk. apply wlp_bind. eapply wlp_mono; [apply (watch_schedule_meets d); [done..|]|].
  - destruct (demand_of w (OStream s)); cbn in Hk |- *; first [done|by eauto|by destruct Hk].
  - intros r w' Hw'. by apply wlp_ret.
Qed.

Lemma watch_send_chunks_body {C} d s now size flush (f : send_chunk_fn C) x w :
  (forall x n, quiet (f s x n)) -> (forall x n, firm (f s x n)) ->
  watch d w -> d_new d = ∅ -> now ∈ d_told d ->
  wlp (send_chunks_body s now size flush f x) (fun _ w' => watch d w') w.
Proof.
  intros Hq Hf Hw Hnew Hnow. assert (Hs : OStream s ∉ d_new d) by set_solver.
  unfold send_chunks_body. apply wlp_bind, wlp_deref. intros st Hst.
  eapply wlp_frame; [done|quiet|firm|]. intros k w1 HL1 Hw1. case_match; [by apply wlp_ret|].
  destruct (negb (bool_decide (s_state st = STREAM_OPEN)) || _) eqn:Hg; [by apply wlp_ret|].
  apply orb_false_iff in Hg as [Ho%negb_false_iff%bool_decide_eq_true _].
  pose proof (kind_open w s st Hst Ho) as Hk. rewrite <- (kind_quiet w w1 s HL1) in Hk.
  clear w Hw HL1 Hst.
  eapply wlp_frame; [done|quiet|firm|]. intros ws w2 HL2 Hw2. rewrite <- (kind_quiet w1 w2 s HL2) in Hk.
  case_match; [by apply (under_firm d); [firm|intros ?; apply below_refl|]|].
  eapply wlp_frame; [done|quiet|firm|]. intros [] w3 HL3 Hw3. rewrite <- (kind_quiet w2 w3 s HL3) in Hk.
  eapply wlp_frame; [done|by apply quiet_send_loop|by apply firm_send_loop|]. intros r w4 HL4 Hw4.
  rewrite <- (kind_quiet w3 w4 s HL4) in Hk. destruct r as [err|total]; [by apply wlp_ret|].
  eapply wlp_frame; [done|quiet|firm|]. intros [] w5 HL5 Hw5. rewrite <- (kind_quiet w4 w5 s HL5) in Hk.
  case_match; [by apply wlp_ret|]. apply wlp_bind.
  eapply (wlp_mono _ (fun _ w' => watch d w')); [|intros [] w6 Hw6; by apply wlp_ret].
  destruct flush; [|by apply watch_accumulate; [..|apply not_at]].
  eapply wlp_frame; [done|quiet|firm|]. intros [] w6 HL6 Hw6. rewrite <- (kind_quiet w5 w6 s HL6) in Hk.
  eapply wlp_frame; [done|quiet|firm|]. intros [] w7 HL7 Hw7. rewrite <- (kind_quiet w6 w7 s HL7) in Hk.
  eapply wlp_frame; [done|quiet|firm|]. intros dl w8 HL8 Hw8. rewrite <- (kind_quiet w7 w8 s HL8) in Hk.
  eapply wlp_mono; [by apply (watch_schedule_open d)|]. intros ? w9. apply watch_below, late_without_below.
Qed.

Lemma watch_finish_batch_at d s now w :
  watch d w -> d_new d = ∅ -> now ∈ d_told d ->
  wlp (kcpmux_stream_finish_batch_at s now) (fun _ w' => watch d w') w.
Proof.
  intros Hw Hnew Hnow. assert (Hs : OStream s ∉ d_new d) by set_solver.
  unfold kcpmux_stream_finish_batch_at. apply wlp_bind, wlp_deref. intros st Hst. case_match; [by apply wlp_ret|].
  eapply wlp_frame; [done|quiet|firm|]. intros k w1 HL1 Hw1. cbv zeta.
  destruct (negb (bool_decide (s_state st = STREAM_OPEN)) || _) eqn:Hg; [by apply wlp_ret|].
  apply orb_false_iff in Hg as [Ho%negb_false_iff%bool_decide_eq_true _].
  pose proof (kind_open w s st Hst Ho) as Hk. rewrite <- (kind_quiet w w1 s HL1) in Hk.
  case_match; [by apply wlp_ret|].
  eapply wlp_frame; [done|quiet|firm|]. intros b w2 HL2 Hw2. rewrite <- (kind_quiet w1 w2 s HL2) in Hk.
  eapply wlp_frame; [done|quiet|firm|]. intros [] w3 HL3 Hw3. rewrite <- (kind_quiet w2 w3 s HL3) in Hk.
  eapply wlp_frame; [done|quiet|firm|]. intros [] w4 HL4 Hw4. rewrite <- (kind_quiet w3 w4 s HL4) in Hk.
  eapply wlp_mono; [by apply (watch_schedule_open d)|]. intros ? w9. apply watch_below, late_without_below.
Qed.

Lemma under_recv d os n : d_new d = ∅ -> under d (kcpmux_stream_recv os n) (fun _ => d).
Proof.
  intros Hnew. unfold kcpmux_stream_recv. destruct os as [s|]; [|apply under_ret, below_refl].
  assert (Hs : OStream s ∉ d_new d) by set_solver. case_match; [apply under_ret, below_refl|].
  do 3 (apply under_firm_bind; [firm|intros ?]). do 2 (case_match; [apply under_ret, below_refl|]).
  case_match; [apply under_firm; [firm|intros ?; apply below_refl]|].
  apply under_firm_bind; [firm|intros k]. case_match. case_match. apply under_firm_bind; [firm|intros []].
  case_match; [apply under_ret, below_refl|]. apply under_firm_bind; [firm|intros []].
  apply under_firm_bind; [firm|intros left]. eapply (under_bind _ _ _ (fun _ => d)); [|intros []; apply under_ret, below_refl].
  apply under_when; [intros _|intros _; apply below_refl]. apply under_now_bind. intros now.
  apply under_firm_bind; [firm|intros st]. case_match.
  - intros w Hw. eapply wlp_mono; [apply (watch_finalize _ _ _ _ _ Hw); [cbn; by left|done]|].
    intros ? w'. apply watch_below. below.
  - apply under_firm; [firm|]. intros ?. below.
Qed.

(** ** The timer handler of a stream *)

Lemma watch_stream_update_body d s now w st :
  watch d w -> d_new d = ∅ -> now ∈ d_told d -> w_streams w !! s = Some st ->
  s_internal_closed st = false -> up w (s_conn st) = true ->
  (forall D, demand_of w (OStream s) = At D -> D <= now) ->
  wlp (stream_update_body s now) (fun _ w' => watch (late_without (OStream s) d) w') w.
Proof.
  intros Hw Hnew Hnow Hst Hcl Hup Hat. assert (Hs : OStream s ∉ d_new d) by set_solver.
  assert (Hclose : forall r w', watch d w' ->
    wlp (kcpmux_stream_close_internal s r) (fun _ w' => watch (late_without (OStream s) d) w') w').
  { intros r w' Hw'. by apply under_stream_close. }
  rewrite (demand_stream _ _ _ Hst) in Hat. unfold stream_demand in Hat. rewrite Hcl, Hup in Hat. cbn in Hat.
  unfold stream_update_body. apply wlp_bind, wlp_deref. intros st' Hst'. rewrite Hst in Hst'. injection Hst' as <-.
  cbv zeta. destruct (s_state st) eqn:Hstate.
  - pose proof (kind_open w s st Hst Hstate) as Hk.
    eapply wlp_frame; [done|quiet|firm|]. intros [] w1 HL1 Hw1. rewrite <- (kind_quiet w w1 s HL1) in Hk.
    eapply wlp_frame; [done|quiet|firm|]. intros [] w2 HL2 Hw2. rewrite <- (kind_quiet w1 w2 s HL2) in Hk.
    eapply wlp_frame; [done|quiet|firm|]. intros [] w3 HL3 Hw3. rewrite <- (kind_quiet w2 w3 s HL3) in Hk.
    eapply wlp_frame; [done|quiet|firm|]. intros dl w4 HL4 Hw4. rewrite <- (kind_quiet w3 w4 s HL4) in Hk.
    by apply watch_schedule_open.
  - destruct (s_close_phase st) eqn:Hph.
    + apply wlp_ret, watch_unlate; [done|]. rewrite (demand_stream _ _ _ Hst). unfold stream_demand.
      rewrite Hstate, Hph. by case_match.
    + eapply wlp_frame; [done|quiet|firm|]. intros [] w1 HL1 Hw1.
      eapply wlp_frame; [done|quiet|firm|]. intros [] w2 HL2 Hw2.
      assert (HL : life_of w2 = life_of w) by congruence.
      apply wlp_bind, wlp_ops_waitsnd. intros st2 k2 Hst2 Hk2.
      assert (Hsl : slife st2 = slife st).
      { pose proof (f_equal lf_streams HL) as E. cbn in E. apply (f_equal (lookup s)) in E.
        rewrite !lookup_fmap, Hst, Hst2 in E. by apply (inj Some) in E. }
      case_match eqn:E0.
      { apply Z.eqb_eq in E0. injection Hsl as _ _ _ _ Hp2 Hc2.
        eapply (watch_advance_drained d s now st2 k2); try done; congruence. }
      case_match; [|by apply under_stream_refresh].
      clear Hst2. revert w2 Hw2 HL2 HL. intros w2 Hw2 _ _. revert w2 Hw2.
      apply under_firm_bind; [firm|intros []]. eapply under_bind; [by apply under_stream_send_close|]. intros ?.
      eapply under_weaken; [by apply under_stream_close|]. intros ?. below.
    + pose proof (Hat _ eq_refl) as Hle. rewrite (proj2 (Z.leb_le _ _) Hle).
      case_match; [|by apply Hclose]. clear Hst Hup Hat. revert w Hw.
      apply under_firm_bind; [firm|intros []]. eapply under_bind; [by apply under_stream_send_close|]. intros ?.
      eapply under_bind; [apply firm_get_stream|]. intros st2.
      apply under_when; [|intros _; apply below_refl]. intros _.
      eapply under_weaken; [by apply under_stream_close|]. intros ?. below.
    + pose proof (Hat _ eq_refl) as Hle. rewrite (proj2 (Z.leb_le _ _) Hle). by apply Hclose.
    + by apply Hclose.
  - apply watch_cancel; [done|]. rewrite (demand_stream _ _ _ Hst). unfold stream_demand. rewrite Hstate. by case_match.
  - apply watch_cancel; [done|]. rewrite (demand_stream _ _ _ Hst). unfold stream_demand. rewrite Hstate. by case_match.
Qed.

Lemma watch_stream_update d s now w :
  watch d w -> d_new d = ∅ -> now ∈ d_told d ->
  (forall D, demand_of w (OStream s) = At D -> D <= now) ->
  wlp (kcpmux_stream_update s now) (fun _ w' => watch (late_without (OStream s) d) w') w.
Proof.
  intros Hw Hnew Hnow Hat. unfold kcpmux_stream_update. apply wlp_bind, wlp_deref. intros st Hst.
  destruct (s_internal_closed st) eqn:Hcl.
  { apply wlp_ret, watch_unlate_closed; [done|]. cbn. rewrite Hst. cbn. by rewrite Hcl. }
  apply wlp_bind, wlp_deref. intros k Hk.
  assert (Hup : up w (s_conn st) = conn_up k) by (unfold up; by rewrite Hk). unfold conn_up in Hup.
  case_match eqn:Hg.
  - apply wlp_ret, watch_unlate; [done|]. rewrite (demand_stream _ _ _ Hst), Hup. unfold stream_demand.
    rewrite negb_andb, negb_involutive, Hg. by rewrite orb_true_r.
  - eapply watch_stream_update_body; try done. rewrite Hup. apply orb_false_iff in Hg as [-> Hg].
    by rewrite negb_false_iff in Hg.
Qed.
End calls.
