(* ===== verification/AlarmInput.v ===== *)
(** * Received packets

    The handlers of src/kcpmux_protocol.c.  Those that bring a connection up
    need to know that it has no open stream yet, whose demands would start with
    it: [mindful] computations assume the invariants of the life cycles. *)

From S2P Require Import Prelude Types Timer Hashtable Vectored World Engine Conn Messages Stream Mux Life LifeSim LifeEntry Deadlines Shape Steps Alarm AlarmStep AlarmFrame AlarmMend AlarmStream AlarmClose AlarmCalls.
From stdpp Require Import gmap.
#[local] Open Scope Z_scope.

Section input.
Context {KO : Kcp} {HO : Host}.
Implicit Types (c s : positive) (w : world K) (o : obj) (d : desc) (L : life).

Definition mindful {A} d (m : W A) : Prop := forall w,
  life_ok (life_of w) -> started (life_of w) -> watch d w -> wlp m (fun _ w' => watch d w') w.

Lemma mindful_under {A} d (m : W A) : under d m (fun _ => d) -> mindful d m.
Proof. intros Hm w _ _. apply Hm. Qed.

Lemma mindful_firm {A} d (m : W A) : firm m -> mindful d m.
Proof. intros Hm. apply mindful_under, Hm. Qed.

Lemma mindful_ret {A} d (a : A) : mindful d (mret a).
Proof. apply mindful_firm, firm_ret. Qed.

Lemma mindful_read {A B} d (m : W A) (f : A -> W B) :
  quiet m -> firm m -> (forall a, mindful d (f a)) -> mindful d (m ≫= f).
Proof.
  intros Hq Hm Hf w Hok Hst Hw. eapply wlp_frame; [done..|]. intros a w' HL Hw'. apply Hf; by rewrite ?HL.
Qed.

Lemma mindful_then {A B} d (m : W A) (f : A -> W B) :
  mindful d m -> (forall a, under d (f a) (fun _ => d)) -> mindful d (m ≫= f).
Proof.
  intros Hm Hf w Hok Hst Hw. apply wlp_bind. eapply wlp_mono; [by apply Hm|]. intros a w' Hw'. by apply Hf.
Qed.

(** A quiet step with a description of its own. *)
Lemma wlp_track {A B} d (m : W A) R (f : A -> W B) Q w :
  watch d w -> quiet m -> under d m R ->
  (forall a w', life_of w' = life_of w -> watch (R a) w' -> wlp (f a) Q w') -> wlp (m ≫= f) Q w.
Proof.
  intros Hw Hq Hf H. apply wlp_bind.
  eapply wlp_mono; [apply wlp_and; [apply (Hq w)|apply (Hf w Hw)]|]. intros a w' [? ?]. by apply H.
Qed.

Lemma under_note d c t p :
  d_new d = ∅ -> t ∈ d_told d -> under d (kcpmux_conn_note_receive c t p) (fun _ => d).
Proof.
  intros Hn Ht. eapply under_weaken; [apply under_note_receive; [done|set_solver]|]. intros ?. apply late_without_below.
Qed.

(** ** Streams *)

Lemma watch_handle_payload d s buf t w :
  watch d w -> d_new d = ∅ -> t ∈ d_told d ->
  wlp (kcpmux_stream_handle_payload s buf t) (fun _ w' => watch d w') w.
Proof.
  intros Hw Hnew Ht. assert (Hs : OStream s ∉ d_new d) by set_solver.
  unfold kcpmux_stream_handle_payload. case_match; [by apply wlp_ret|]. apply wlp_bind, wlp_deref. intros st Hst.
  case_match; [by apply wlp_ret|]. destruct (kcpmux_stream_kcp_active st) eqn:Ha; cbn [negb]; [|by apply wlp_ret].
  assert (Hk : kind (demand_of w (OStream s)) <> KAt).
  { rewrite (demand_stream _ _ _ Hst), stream_demand_kind. unfold stream_kind, kcpmux_stream_kcp_active in *. cbn.
    case_match; [done|]. destruct (s_state st), (s_close_phase st); done. }
  eapply wlp_frame; [done|quiet|firm|]. intros [] w1 HL1 Hw1. rewrite <- (kind_quiet w w1 s HL1) in Hk.
  eapply wlp_frame; [done|quiet|firm|]. intros [] w2 HL2 Hw2. rewrite <- (kind_quiet w1 w2 s HL2) in Hk.
  eapply wlp_frame; [done|quiet|firm|]. intros ret w3 HL3 Hw3. rewrite <- (kind_quiet w2 w3 s HL3) in Hk.
  apply wlp_bind. eapply wlp_mono; [by apply (watch_accumulate d)|]. intros [] w4 Hw4.
  case_match; [by apply wlp_ret|]. revert w4 Hw4. apply under_firm; [firm|]. intros ?. apply below_refl.
Qed.

Lemma under_handle_payload d s buf t :
  d_new d = ∅ -> t ∈ d_told d -> under d (kcpmux_stream_handle_payload s buf t) (fun _ => d).
Proof. intros Hn Ht w Hw. by apply watch_handle_payload. Qed.

Lemma under_finalize d s r now :
  d_new d = ∅ -> now ∈ d_told d -> under d (kcpmux_stream_schedule_finalize s r now) (fun _ => d).
Proof.
  intros Hn Ht w Hw. eapply wlp_mono; [apply (watch_finalize d); [done|done|set_solver]|].
  intros ? w'. apply watch_below, late_without_below.
Qed.

Lemma under_handle_close d s r : d_new d = ∅ -> under d (kcpmux_stream_handle_close s r) (fun _ => d).
Proof.
  intros Hnew w Hw. assert (Hs : OStream s ∉ d_new d) by set_solver.
  unfold kcpmux_stream_handle_close. apply wlp_bind, wlp_deref. intros st Hst.
  case_match; [by apply wlp_ret|]. case_match.
  { clear Hst. revert w Hw. apply under_firm_bind; [firm|intros ?]. eapply under_bind; [by apply under_stream_close'|].
    intros []. apply under_ret, below_refl. }
  eapply wlp_frame; [done|quiet|firm|]. intros k w1 HL1 Hw1.
  eapply wlp_track; [done|quiet|apply under_now|]. intros now w2 HL2 Hw2. cbv beta in Hw2.
  set (d2 := having_told now d) in *.
  assert (Hb : d2 ⊑d d) by below.
  assert (Hfin : forall (a : Z), under d2 (_ ← kcpmux_stream_send_close_ack s r;
    kcpmux_stream_schedule_finalize s KCPMUX_CLOSE_REASON_NORMAL now;; mret a) (fun _ => d)).
  { intros a. apply under_firm_bind; [firm|intros ?]. eapply under_bind; [apply under_finalize; [done|by left]|].
    intros []. by apply under_ret. }
  assert (Hack : forall (a : Z), under d2 (_ ← kcpmux_stream_send_close_ack s r; mret a) (fun _ => d)).
  { intros a. apply under_firm_bind; [firm|intros ?]. by apply under_ret. }
  destruct (s_state st) eqn:Hstate; [| |apply wlp_ret; by eapply watch_below..]; cycle 1.
  { destruct (s_close_phase st); first [by apply Hfin|by apply Hack|apply wlp_ret; by eapply watch_below]. }
  eapply wlp_frame; [done|quiet|firm|]. intros ? w3 HL3 Hw3.
  assert (HL : life_of w3 = life_of w) by congruence.
  assert (Hst3 : exists st3, w_streams w3 !! s = Some st3 /\ s_state st3 = STREAM_OPEN).
  { pose proof (f_equal lf_streams HL) as E. cbn in E. apply (f_equal (lookup s)) in E.
    rewrite !lookup_fmap, Hst in E. destruct (w_streams w3 !! s) as [st3|]; [|done].
    exists st3. split; [done|]. injection E. congruence. }
  destruct Hst3 as (st3 & Hst3 & Ho3).
  apply wlp_bind_assoc, wlp_bind. eapply wlp_mono; [by apply (watch_enter_closing d2 s st3)|].
  intros [] w4 Hw4. cbv beta in Hw4. revert w4 Hw4.
  apply under_firm_bind; [firm|intros z]. eapply under_bind.
  { apply (under_when (R := d2)); [intros _|intros _; below].
    eapply under_weaken; [apply under_finalize; [done|by left]|]. intros ?. below. }
  intros []. by apply under_ret.
Qed.

Lemma under_stream_setter d s a : d_new d = ∅ -> under d (stream_setter_run s a) (fun _ => d).
Proof. intros Hn. destruct a; [by apply under_stream_set_config|]. apply firm_stream_set_callbacks. Qed.

Lemma under_conn_setter d c a : d_new d = ∅ -> under d (conn_setter_run c a) (fun _ => d).
Proof. intros Hn. destruct a; [by apply under_conn_set_config|]. apply firm_conn_set_callbacks. Qed.

Lemma under_accept_stream d b c i t f :
  d_new d = ∅ -> t ∈ d_told d -> under d (accept_stream b c i t f) (fun _ => d).
Proof.
  intros Hnew Ht. unfold accept_stream. eapply under_bind; [by apply under_stream_new|].
  intros [s|]; [|apply under_ret, below_refl]. assert (Hs : OStream s ∉ d_new d) by set_solver.
  apply under_firm_bind; [firm|intros []]. apply under_firm_bind; [firm|intros []].
  apply under_firm_bind; [firm|intros k]. apply under_firm_bind; [firm|intros resp].
  eapply under_bind; [apply under_for_each; intros a; by apply under_stream_setter|]. intros []. case_match.
  - eapply under_bind; [by apply under_stream_change|]. intros [].
    eapply under_bind; [by apply under_stream_set_state|]. intros [].
    eapply under_bind; [by apply under_stream_send_close|]. intros ?.
    eapply under_bind; [apply firm_get_stream|]. intros st.
    eapply (under_bind _ _ _ (fun _ => d)); [|intros []; apply under_ret, below_refl].
    apply under_when; [intros _|intros _; below]. eapply under_weaken; [by apply under_stream_close'|]. intros ?. below.
  - eapply under_bind; [by apply under_handle_payload|]. intros ret.
    eapply (under_bind _ _ _ (fun _ => d)); [|intros []; apply under_ret, below_refl]. case_match.
    + eapply under_bind; [by apply under_stream_set_state|]. intros []. by apply under_stream_close'.
    + by apply under_note.
Qed.

(** ** Handlers that bring no connection up *)

Lemma under_input_keepalive d b c t :
  d_new d = ∅ -> t ∈ d_told d -> under d (input_keepalive b c t) (fun _ => d).
Proof.
  intros Hn Ht. unfold input_keepalive. case_match; [apply under_ret, below_refl|].
  eapply under_bind; [by apply under_note|]. intros []. apply under_ret, below_refl.
Qed.

Lemma under_input_conn_close d b c t :
  d_new d = ∅ -> t ∈ d_told d -> under d (input_conn_close b c t) (fun _ => d).
Proof.
  intros Hn Ht. unfold input_conn_close. case_match; [apply under_ret, below_refl|].
  apply under_firm_bind; [firm|intros r]. eapply under_bind; [by apply under_note|]. intros [].
  apply under_firm_bind; [firm|intros ?]. eapply under_bind; [by apply under_conn_close'|]. intros [].
  apply under_ret, below_refl.
Qed.

Lemma under_input_conn_close_ack d b c t :
  d_new d = ∅ -> t ∈ d_told d -> under d (input_conn_close_ack b c t) (fun _ => d).
Proof.
  intros Hn Ht. unfold input_conn_close_ack. apply under_firm_bind; [firm|intros k].
  case_match; [apply under_ret, below_refl|]. case_match; [apply under_ret, below_refl|].
  eapply under_bind; [by apply under_note|]. intros []. apply under_firm_bind; [firm|intros k'].
  eapply under_bind; [by apply under_conn_close'|]. intros []. apply under_ret, below_refl.
Qed.

Lemma under_input_stream_close d b c t :
  d_new d = ∅ -> t ∈ d_told d -> under d (input_stream_close b c t) (fun _ => d).
Proof.
  intros Hn Ht. unfold input_stream_close. case_match; [apply under_ret, below_refl|].
  apply under_firm_bind; [firm|intros i]. case_match; [apply under_ret, below_refl|].
  apply under_firm_bind; [firm|intros r]. apply under_firm_bind; [firm|intros [s|]]; [|apply under_ret, below_refl].
  eapply under_bind; [by apply under_note|]. intros []. by apply under_handle_close.
Qed.

Lemma under_input_stream_close_ack d b c t :
  d_new d = ∅ -> t ∈ d_told d -> under d (input_stream_close_ack b c t) (fun _ => d).
Proof.
  intros Hn Ht. unfold input_stream_close_ack. case_match; [apply under_ret, below_refl|].
  apply under_firm_bind; [firm|intros i]. case_match; [apply under_ret, below_refl|].
  apply under_firm_bind; [firm|intros [s|]]; [|apply under_ret, below_refl].
  apply under_firm_bind; [firm|intros st]. case_match; [apply under_ret, below_refl|].
  eapply under_bind; [by apply under_note|]. intros [].
  eapply under_bind; [by apply under_stream_close'|]. intros []. apply under_ret, below_refl.
Qed.

Lemma under_input_stream_payload d b c t :
  d_new d = ∅ -> t ∈ d_told d -> under d (input_stream_payload b c t) (fun _ => d).
Proof.
  intros Hn Ht. unfold input_stream_payload. apply under_firm_bind; [firm|intros k].
  do 2 (case_match; [apply under_ret, below_refl|]). apply under_firm_bind; [firm|intros i].
  case_match; [apply under_ret, below_refl|]. cbv zeta. apply under_firm_bind; [firm|intros [s|]].
  - eapply under_bind; [by apply under_handle_payload|]. intros ret.
    eapply (under_bind _ _ _ (fun _ => d)); [|intros []; apply under_ret, below_refl].
    apply under_when; [intros _; by apply under_note|intros _; apply below_refl].
  - do 2 (case_match; [apply under_ret, below_refl|]). case_match; [by apply under_accept_stream|apply under_ret, below_refl].
Qed.

(** ** Handlers that do *)

(** A connection that has not come up has no open stream. *)
Lemma watch_bring_up d c k w :
  watch d w -> d_new d = ∅ -> started (life_of w) -> lf_conns (life_of w) !! c = Some k -> ~ came_up (cl_state k) ->
  wlp (kcpmux_conn_set_state c CONN_CONNECTED) (fun _ w' => watch d w') w.
Proof.
  intros Hw Hn Hst Hk Hup. apply watch_conn_set_state; [done|set_solver|]. intros _ s st Hs Hc.
  assert (Hl : lf_streams (life_of w) !! s = Some (slife st)) by (cbn; by rewrite lookup_fmap, Hs).
  exact (not_up_closed _ _ _ _ _ Hst Hk Hup Hl Hc).
Qed.

Lemma mindful_input_connect_ack d b c t :
  d_new d = ∅ -> t ∈ d_told d -> mindful d (input_connect_ack b c t).
Proof.
  intros Hn Ht w Hok Hst Hw. unfold input_connect_ack. eapply wlp_get_conn; [done|]. intros k Hk.
  case_bool_decide as Hs; cbn [negb]; [|by apply wlp_ret]. case_match; [by apply wlp_ret|].
  eapply wlp_frame; [done|quiet|firm|]. intros i w1 HL1 Hw1. case_match; [by apply wlp_ret|].
  eapply wlp_frame; [done|quiet|firm|]. intros v w2 HL2 Hw2.
  eapply wlp_frame; [done|quiet|firm|]. intros r w3 HL3 Hw3.
  eapply wlp_frame; [done|quiet|firm|]. intros n w4 HL4 Hw4.
  case_match; [by apply wlp_ret|]. case_match; [by apply wlp_ret|].
  eapply wlp_track; [done|quiet|by apply under_note|]. intros [] w5 HL5 Hw5. cbv beta in Hw5.
  apply wlp_bind. eapply (wlp_mono _ (fun _ w' => watch d w')); [|intros [] w' Hw'; by apply wlp_ret].
  case_match.
  - eapply wlp_frame; [done|quiet|firm|]. intros [] w6 HL6 Hw6.
    eapply wlp_frame; [done|quiet|firm|]. intros [] w7 HL7 Hw7.
    assert (HL : life_of w7 = life_of w) by congruence.
    eapply (watch_bring_up d c (clife k)); rewrite ?HL; try done. cbn. rewrite Hs. by intros [].
  - revert w5 HL5 Hw5. intros w5 _ Hw5. revert w5 Hw5. apply under_firm_bind; [firm|intros []].
    eapply under_bind; [apply under_conn_set_state; [done|set_solver]|]. intros [].
    case_match; by apply under_conn_close'.
Qed.

Lemma under_accept_ask d c e : d_new d = ∅ -> under d (accept_ask c e) (fun _ => d).
Proof.
  intros Hn. unfold accept_ask. case_match; [|apply under_ret, below_refl].
  apply under_firm_bind; [firm|intros k]. apply under_firm_bind; [firm|intros resp].
  eapply under_bind; [apply under_for_each; intros a; by apply under_conn_setter|]. intros [].
  apply under_firm_bind; [firm|intros []]. apply under_ret, below_refl.
Qed.

Lemma watch_accept_reply d c result k w :
  watch d w -> d_new d = ∅ -> started (life_of w) -> lf_conns (life_of w) !! c = Some k -> ~ came_up (cl_state k) ->
  wlp (accept_reply c result) (fun _ w' => watch d w') w.
Proof.
  intros Hw Hn Hst Hk Hup. unfold accept_reply. apply wlp_bind.
  eapply (wlp_mono _ (fun _ w' => watch d w')); [|intros [] w' Hw'; by apply wlp_ret]. case_match.
  - apply wlp_bind. eapply wlp_mono; [by eapply watch_bring_up|]. intros [] w1 Hw1. cbv beta in Hw1.
    revert w1 Hw1. apply under_firm; [firm|]. intros ?. apply below_refl.
  - clear Hk Hst. revert w Hw. apply under_firm_bind; [firm|intros []]. apply under_firm_bind; [firm|intros ?].
    apply under_firm_bind; [firm|intros []]. by apply under_conn_close'.
Qed.

Lemma mindful_accept_connect d b a i n t :
  d_new d = ∅ -> t ∈ d_told d -> mindful d (accept_connect b a i n t).
Proof.
  intros Hn Ht w Hok Hst Hw. unfold accept_connect. destruct (life_ok_fresh _ Hok) as [Hfr _].
  apply wlp_bind. eapply wlp_mono; [apply wlp_and; [by apply under_conn_new|]|].
  { eapply (wlp_conn_new _ _ _ _ (fun oc w' => match oc with
      | Some c => started (life_of w') /\ lf_conns (life_of w') !! c = Some (mk_conn_life CONN_INIT false false (lf_next_id (life_of w)))
      | None => True end)); [done|done|done|]. intros w' Hid ->.
    split; [by eapply started_step, conn_created_step|apply conn_created_lookup]. }
  intros [c|] w1 [Hw1 Hc]; [|by apply wlp_ret]. cbv beta iota in Hw1. destruct Hc as [Hst1 Hk1].
  eapply wlp_frame; [done|quiet|firm|]. intros [] w2 HL2 Hw2.
  eapply wlp_frame; [done|quiet|firm|]. intros [] w3 HL3 Hw3.
  eapply wlp_track; [done|quiet|apply under_note_receive; [done|cbn; set_solver]|]. intros [] w4 HL4 Hw4.
  cbv beta in Hw4. apply (watch_below _ d) in Hw4; [|below].
  eapply wlp_frame; [done|quiet|firm|]. intros [] w5 HL5 Hw5.
  eapply wlp_frame; [done|quiet|firm|]. intros [] w6 HL6 Hw6.
  eapply wlp_frame; [done|quiet|firm|]. intros e w7 HL7 Hw7.
  eapply wlp_track; [done|unfold accept_ask; quiet|by apply under_accept_ask|]. intros result w8 HL8 Hw8. cbv beta in Hw8.
  unfold accept_answer. eapply wlp_frame; [done|quiet|firm|]. intros k w9 HL9 Hw9. cbv zeta.
  eapply wlp_frame; [done|quiet|firm|]. intros [] w10 HL10 Hw10.
  assert (HL : life_of w10 = life_of w1) by congruence.
  eapply watch_accept_reply; rewrite ?HL; try done. by intros [].
Qed.

Lemma mindful_input_connect d b a i t :
  d_new d = ∅ -> t ∈ d_told d -> mindful d (input_connect b a i t).
Proof.
  intros Hn Ht. unfold input_connect. cbv zeta. case_match; [apply mindful_ret|].
  apply mindful_read; [quiet|firm|intros source]. case_match; [apply mindful_ret|].
  apply mindful_read; [quiet|firm|intros version]. apply mindful_read; [quiet|firm|intros n].
  do 2 (case_match; [apply mindful_ret|]). apply mindful_read; [quiet|firm|intros oc].
  case_match; [apply mindful_firm; firm|]. destruct oc as [c|]; [|by apply mindful_accept_connect].
  apply mindful_under. apply under_firm_bind; [firm|intros k]. case_match; [apply under_ret, below_refl|].
  apply under_firm_bind; [firm|intros []]. eapply under_bind; [by apply under_note|]. intros [].
  apply under_firm; [firm|]. intros ?. apply below_refl.
Qed.

Lemma mindful_protocol_input d b a t :
  d_new d = ∅ -> t ∈ d_told d -> mindful d (kcpmux_protocol_input b a t).
Proof.
  intros Hn Ht. unfold kcpmux_protocol_input. cbv zeta. do 3 (case_match; [apply mindful_ret|]).
  apply mindful_read; [quiet|firm|intros ty]. apply mindful_read; [quiet|firm|intros i].
  case_match; [by apply mindful_input_connect|]. case_match; [apply mindful_ret|].
  apply mindful_read; [quiet|firm|intros [c|]]; [|apply mindful_ret].
  apply mindful_read; [quiet|firm|intros []]. case_match; [by apply mindful_input_connect_ack|].
  case_match; [by apply mindful_under, under_input_keepalive|].
  case_match; [by apply mindful_under, under_input_conn_close|].
  case_match; [by apply mindful_under, under_input_conn_close_ack|].
  case_match; [by apply mindful_under, under_input_stream_close|].
  case_match; [by apply mindful_under, under_input_stream_close_ack|].
  case_match; [by apply mindful_under, under_input_stream_payload|]. apply mindful_ret.
Qed.
End input.
