(* ===== verification/AlarmLoops.v ===== *)
(** * Operations, dispatch, and every public call

    Inside an operation the host's timer is not touched; the end of the
    operation releases what was closed and arms it.  [kcpmux_engine_update]
    dispatches nodes that fired; each handler reschedules its object. *)

From S2P Require Import Prelude Types Timer TimerProofs TimerSpec Hashtable Vectored World Engine Conn Messages Stream Mux Life LifeSim LifeEntry LifeSpec Deadlines Shape Steps Alarm AlarmStep AlarmFrame AlarmMend AlarmStream AlarmClose AlarmCalls AlarmInput.
From stdpp Require Import gmap relations.
#[local] Open Scope Z_scope.

(** Between two calls nothing is late. *)
Definition idle : desc := mk_desc ∅ ∅ ∅ [] None false.

Notation busy d := (d <| d_busy := true |>).

Section loops.
Context {KO : Kcp} {HO : Host}.
Implicit Types (c s : positive) (w : world K) (o : obj) (d : desc) (L : life).

(** ** Operation boundaries *)

Lemma watch_enter d w :
  watch d w -> d_busy d = false -> wlp kcpmux_engine_operation_enter (fun _ w' => watch (busy d) w') w.
Proof.
  intros [] Hb. apply wlp_modify. constructor; cbn; try done.
  - by apply (reserved_same w).
  - by rewrite wt_depth, Hb.
Qed.

(** The description at the end of an operation. *)
Record settled d : Prop := {
  st_late : d_late d = ∅; st_new : d_new d = ∅; st_shut : d_shut d = ∅; st_due : d_due d = None; st_busy : d_busy d = true
}.

Lemma watch_release_cb d o w :
  watch d w -> settled d -> closed_of w o = Some true -> wlp (release_cb o) (fun _ w' => watch d w') w.
Proof.
  intros Hw [Hl Hn Hs _ _] Hc.
  assert (Hfree : forall w', watch d w' -> closed_of w' o = Some true -> wlp (free_obj o) (fun _ w' => watch d w') w').
  { intros w' Hw' Hc'. eapply wlp_mono; [apply (watch_free d); [done|]|].
    - destruct (wt_closed _ _ Hw' o Hc') as [Hin|]; [by rewrite Hs in Hin|done].
    - intros [] w2. apply watch_below. constructor; cbn; rewrite ?Hl, ?Hn, ?Hs; first [done|set_solver]. }
  destruct o as [c|s]; cbn [release_cb].
  - eapply wlp_frame; [done|quiet|firm|]. intros k w1 HL1 Hw1.
    eapply wlp_frame; [done|quiet|firm|]. intros h w2 HL2 Hw2. apply Hfree; [done|].
    by rewrite (closed_quiet w1 w2), (closed_quiet w w1).
  - eapply wlp_frame; [done|quiet|firm|]. intros st w1 HL1 Hw1. apply Hfree; [done|].
    by rewrite (closed_quiet w w1).
Qed.

Lemma pending_closed w o :
  life_ok (life_of w) -> o ∈ e_pending_release_list (w_engine w) -> closed_of w o = Some true.
Proof.
  intros Hok Ho. destruct o as [c|s].
  - destruct (lok_pending_conn _ Hok c Ho) as (k & Hk & Hc). cbn in Hk |- *. rewrite lookup_fmap in Hk.
    destruct (w_conns w !! c) as [k'|]; [|done]. injection Hk as <-. cbn in *. by f_equal.
  - destruct (lok_pending_stream _ Hok s Ho) as (x & Hx & Hc). cbn in Hx |- *. rewrite lookup_fmap in Hx.
    destruct (w_streams w !! s) as [st|]; [|done]. injection Hx as <-. cbn in *. by f_equal.
Qed.

Lemma watch_drain_loop fuel d w :
  watch d w -> settled d -> life_ok (life_of w) -> wlp (drain_loop fuel) (fun _ w' => watch d w') w.
Proof.
  revert w. induction fuel as [|fuel IH]; intros w Hw Hd Hok; cbn [drain_loop]; apply wlp_bind, wlp_gets;
    destruct (e_pending_release_list (w_engine w)) as [|o l] eqn:Hp; try (by apply wlp_ret); [apply wlp_ub|].
  assert (Hc : closed_of w o = Some true) by (apply pending_closed; [done|]; rewrite Hp; by left).
  apply wlp_bind. eapply wlp_mono; [apply wlp_and; [by apply (firm_mod_engine (fun e => e <| e_pending_release_list ::= list.tail |>))|]|].
  { apply (wlp_modify _ (fun _ w' => w' = w <| w_engine ::= fun e => e <| e_pending_release_list ::= list.tail |> |>)). done. }
  intros [] w1 [Hw1 ->]. cbv beta in Hw1. set (w1 := w <| w_engine ::= _ |>) in *.
  apply wlp_bind. eapply wlp_mono; [apply wlp_and; [apply (watch_release_cb d o); [done|done|by rewrite <- Hc; destruct o]|]|].
  { eapply (wlp_release_cb _ _ (fun _ w' => life_of w' = forget o (life_of w1))); [done|]. done. }
  intros [] w2 [Hw2 HL2]. apply IH; [done|done|].
  eapply life_step_ok; [exact Hok|]. rewrite HL2. replace (life_of w1) with ((life_of w) <| lf_pending := l |>).
  - by apply step_release.
  - unfold life_of, w1. cbn. by rewrite Hp.
Qed.

(** Arming ends the operation. *)
Lemma watch_rearm d w now :
  watch d w -> d_busy d = true ->
  wlp (kcpmux_engine_rearm_timer now) (fun _ w' => watch (d <| d_busy := false |>) w')
    (w <| w_engine ::= fun e => e <| e_operation_depth := 0 |> |>).
Proof.
  intros Hw Hb. set (w0 := w <| w_engine ::= _ |>). apply wlp_wp.
  eapply wp_mono; [|apply rearm_only_arms; apply Hw].
  intros [] w1 [Ht Hcnt Hcore Hn Hk Hs Htr Hh]. destruct Hw.
  assert (Hcl : forall o, closed_of w1 o = closed_of w o) by (intros []; cbn; by rewrite ?Hk, ?Hs).
  assert (Hdm : forall o, demand_of w1 o = demand_of w o) by (intros []; cbn; unfold up; by rewrite ?Hk, ?Hs).
  assert (Htold : forall t, told_by w t -> told_by w1 t).
  { intros t. unfold told_by. destruct Htr as [->|[? ->]]; [done|by right]. }
  constructor; cbn; rewrite ?Ht, ?Hn; try done.
  - by eapply (reserved_same w); rewrite ?Ht, ?Hcnt.
  - auto.
  - intros o. rewrite Hcl. auto.
  - intros o. rewrite Hcl. auto.
  - intros o. rewrite Hcl. auto.
  - intros o. rewrite Hcl. auto.
  - intros o Ho. rewrite Hdm. eapply meets_told; [exact Htold|]. by apply wt_alarm.
  - unfold eng_core in Hcore. by injection Hcore as _ _ _ -> _ _ _ _ _.
  - unfold eng_core in Hcore. by injection Hcore as _ _ _ _ _ _ _ _ ->.
Qed.

Lemma watch_leave d w :
  watch d w -> settled d -> life_ok (life_of w) ->
  wlp kcpmux_engine_operation_leave (fun _ w' => watch (d <| d_busy := false |>) w') w.
Proof.
  intros Hw Hd Hok. unfold kcpmux_engine_operation_leave. apply wlp_bind, wlp_gets.
  rewrite (wt_depth _ _ Hw), (st_busy _ Hd). cbn [Z.eqb Z.sub].
  apply wlp_bind, wlp_modify. cbn [Z.add Z.opp Z.pos_sub Z.eqb negb]. apply wlp_bind, wlp_modify.
  match goal with |- wlp _ _ ?x => assert (x = w) as -> end.
  { pose proof (wt_depth _ _ Hw) as E. rewrite (st_busy _ Hd) in E. destruct w as [[] ? ? ? ? ?]. cbn in *. by subst. }
  apply wlp_bind. unfold kcpmux_engine_drain_pending_release. apply wlp_bind, wlp_gets.
  eapply wlp_mono; [by apply watch_drain_loop|]. intros [] w1 Hw1. cbv beta in Hw1.
  apply wlp_bind, wlp_modify. set (w2 := w1 <| w_engine ::= _ |>).
  apply wlp_bind. intros now w3 Hnow. unfold kcpmux_engine_now, ask, in_trace, zoom, ask_tr in Hnow.
  injection Hnow as <- <-. 
  pose proof (firm_ask host_monotonic_time_ms EvTime d w1 Hw1 _ _ eq_refl) as Hw1'.
  exact (watch_rearm d _ _ Hw1' (st_busy _ Hd)).
Qed.

(** An operation of the library: enter, work, leave. *)
Lemma watch_operation {A B} d (body : W A) (f : A -> B) w :
  watch d w -> d ⊑d idle -> life_ok (life_of w) -> started (life_of w) ->
  follows body -> mindful (busy d) body ->
  wlp (kcpmux_engine_operation_enter;; a ← body; kcpmux_engine_operation_leave;; mret (f a))
    (fun _ w' => watch idle w') w.
Proof.
  intros Hw [Hl Hn Hs Ht Hd Hb] Hok Hst Hfol Hm. cbn in *. apply wlp_bind.
  eapply wlp_mono; [apply wlp_and; [by apply watch_enter|apply quiet_enter]|].
  intros [] w1 [Hw1 HL1]. cbv beta in Hw1, HL1. apply wlp_bind.
  eapply wlp_mono; [apply wlp_and; [apply Hm; [by rewrite HL1..|done]|apply Hfol; by rewrite HL1]|].
  intros a w2 [Hw2 Hr]. cbv beta in Hw2, Hr. apply wlp_bind.
  eapply wlp_mono; [apply (watch_leave (busy d)); [done| |]|].
  - constructor; cbn; try done; set_solver.
  - eapply life_steps_ok; [|exact Hr]. by rewrite HL1.
  - intros [] w3 Hw3. apply wlp_ret. revert Hw3. apply watch_below. constructor; cbn; try done; set_solver.
Qed.

(** ** Dispatch *)

(** A change of the state of the node [o] and of the due list. *)
Lemma watch_node_state d d' o nd nd' l w :
  watch d w -> d_busy d = true -> o ∉ d_new d ->
  tm_nodes (w_timers w) !! o = Some nd -> node_owner nd' = node_owner nd ->
  l `sublist_of` tm_due (w_timers w) -> o ∉ l ->
  let t := (w_timers w) <| tm_due := l |> <| tm_nodes ::= <[o := nd']> |> in
  timers_ok t -> d' = d \/ d' = late_with o d ->
  (d' = d -> ring nd' = ring nd) ->
  watch d' (w <| w_timers := t |>).
Proof.
  intros Hw Hb Hnew Hnd Hown Hl Hol t Hok Hd' Hring.
  assert (Hlk : tm_nodes t !! o = Some nd') by (cbn; apply lookup_insert_eq).
  assert (Hoth : forall n, n <> o -> tm_nodes t !! n = tm_nodes (w_timers w) !! n)
    by (intros n Hne; cbn; by rewrite lookup_insert_ne).
  assert (Htl : tm_due t = l) by done. assert (Hth : tm_heap t = tm_heap (w_timers w)) by done.
  assert (Htc : tm_capacity t = tm_capacity (w_timers w)) by done. clearbody t.
  assert (Hno : forall n, node_owner <$> tm_nodes t !! n = node_owner <$> tm_nodes (w_timers w) !! n).
  { intros n. destruct (decide (n = o)) as [->|Hne]; [rewrite Hlk, Hnd; cbn; by rewrite Hown|by rewrite Hoth]. }
  assert (Hr : retimes o w (w <| w_timers := t |>)).
  { constructor; try done.
    - change (tm_due t `sublist_of` tm_due (w_timers w)). by rewrite Htl.
    - intros n. change (is_Some (tm_nodes t !! n) <-> is_Some (tm_nodes (w_timers w) !! n)).
      by rewrite <- !(fmap_is_Some node_owner), Hno.
    - intros n Hne. change (erase <$> tm_nodes t !! n = erase <$> tm_nodes (w_timers w) !! n). by rewrite Hoth. }
  destruct (owner_registered _ _ Hno) as (Hreg & _ & _).
  refine (watch_retimed d d' o w (w <| w_timers := t |>) Hw Hr _ _ _ _ _ _ _ _ _ _ _ _);
    change (w_timers (w <| w_timers := t |>)) with t; rewrite ?Htl; try done.
  - destruct (wt_reserved _ _ Hw). constructor; change (w_timers (w <| w_timers := t |>)) with t; rewrite ?Hreg, ?Htc, ?Hth; done.
  - congruence.
  - exact (owner_kept d w (w <| w_timers := t |>) o Hw (Hno o)).
  - by destruct Hd' as [->| ->].
  - by destruct Hd' as [->| ->].
  - by destruct Hd' as [->| ->].
  - intros n Hne. destruct Hd' as [->| ->]; cbn; set_solver.
  - intros Hin. by destruct Hd' as [->| ->].
  - intros Hc. rewrite Hreg. destruct (wt_open _ _ Hw o Hc); [done|by right].
  - intros Hc. rewrite Hreg. destruct (wt_closed _ _ Hw o Hc); [left|by right]. by destruct Hd' as [->| ->].
  - intros Ho. destruct Hd' as [->| ->]; [|cbn in Ho; set_solver].
    pose proof (wt_alarm _ _ Hw o Ho) as Hm. unfold rings in Hm |- *. rewrite Hnd in Hm. rewrite Hlk. cbn in Hm |- *.
    by rewrite Hring.
Qed.

(** What is known when a node fires: its object is late, and its demand was
    for a time that has come. *)
Lemma watch_pop {A} d n l now (m : W A) Q w :
  watch d w -> d_busy d = true -> d_late d = ∅ -> d_new d = ∅ -> d_due d = Some now ->
  tm_due (w_timers w) = n :: l ->
  (forall w' nd, watch (late_with n d) w' -> tm_nodes (w_timers w') !! n = Some nd ->
     owner nd = Some n -> timeout_cb nd = Some (cb_of n) ->
     (forall D, demand_of w' n = At D -> D <= now) -> wlp m Q w') ->
  wlp (in_timers (modify (fun t => t <| tm_due ::= list.tail |>));;
       in_timers (mod_node n (fun nd => nd <| tn_state := TIMER_RUNNING |>));; m) Q w.
Proof.
  intros Hw Hb Hl Hn Hdue Hd Hm.
  assert (Hin : n ∈ tm_due (w_timers w)) by (rewrite Hd; by left).
  pose proof (wt_due_registered _ _ Hw n Hin) as (nd & Hnd & own & Hown)%elem_registered.
  destruct (wt_owners _ _ Hw n nd own Hnd Hown) as [-> Hcb].
  pose proof (rs_timers _ (wt_reserved _ _ Hw)) as Hok.
  pose proof (pop_due_ok (w_timers w) n l nd Hok Hd Hnd) as Hk.
  set (nd' := nd <| tn_state := TIMER_RUNNING |>) in *.
  apply wlp_bind. intros [] w1 [= <-]. apply wlp_bind. intros [] w2 H2.
  assert (Hw2 : w2 = w <| w_timers := (w_timers w) <| tm_due := l |> <| tm_nodes ::= <[n := nd']> |> |>).
  { unfold in_timers, zoom, mod_node, modify, get_node, deref, mbind, M_bind in H2. cbn in H2. rewrite Hnd in H2.
    apply (inj Some) in H2. apply (f_equal snd) in H2. cbn in H2. rewrite <- H2, Hd. by destruct w. }
  subst w2. pose proof (to_due_nodup _ Hok) as Hnod. rewrite Hd in Hnod. apply list.NoDup_cons in Hnod as [Hni _].
  eapply (Hm _ nd').
  - eapply (watch_node_state d (late_with n d) n nd nd'); try done.
    + rewrite Hn. set_solver.
    + rewrite Hd. by apply sublist_cons.
    + apply Hk.
    + by right.
    + intros E. apply (f_equal d_late) in E. cbn in E. rewrite Hl in E. set_solver.
  - cbn. apply lookup_insert_eq.
  - done.
  - done.
  - intros D HD. change (demand_of w n = At D) in HD.
    pose proof (wt_alarm _ _ Hw n ltac:(rewrite Hl; set_solver)) as Hmeet. rewrite HD in Hmeet.
    destruct Hmeet as (x & t & Hr & _ & [HDx _]). unfold rings in Hr. rewrite Hnd in Hr. cbn in Hr. unfold ring in Hr.
    assert (x = deadline_ms nd) as -> by (by case_match; simplify_eq).
    pose proof (wt_due _ _ Hw) as Hdl. rewrite Hdue in Hdl. specialize (Hdl n nd Hin Hnd). lia.
Qed.

(** A handler's node that was not rescheduled is idle again. *)
Lemma watch_park {A} d n (m : W A) Q w :
  watch d w -> d_busy d = true -> d_new d = ∅ ->
  (forall w', watch d w' -> wlp m Q w') ->
  wlp (nd ← in_timers (get_node n);
      when (bool_decide (tn_state nd = TIMER_RUNNING))
        (in_timers (mod_node n (fun nd => nd <| tn_state := TIMER_IDLE |>)));; m) Q w.
Proof.
  intros Hw Hb Hn Hm. apply wlp_timers_get. intros nd Hnd. apply wlp_bind.
  case_bool_decide as Hs; cbn [when]; [|apply wlp_ret; by apply Hm].
  intros [] w2 H2. pose proof (rs_timers _ (wt_reserved _ _ Hw)) as Hok.
  set (nd' := nd <| tn_state := TIMER_IDLE |>).
  assert (Hw2 : w2 = w <| w_timers := (w_timers w) <| tm_due := tm_due (w_timers w) |> <| tm_nodes ::= <[n := nd']> |> |>).
  { unfold in_timers, zoom, mod_node, modify, get_node, deref, mbind, M_bind in H2. cbn in H2. rewrite Hnd in H2.
    apply (inj Some) in H2. apply (f_equal snd) in H2. cbn in H2. rewrite <- H2. by destruct w as [? ? ? [] ? ?]. }
  subst w2. apply Hm. eapply (watch_node_state d d n nd nd'); try done.
  - rewrite Hn. set_solver.
  - intros Hin. apply (to_due _ Hok _ _ Hnd) in Hin. congruence.
  - assert (Hp : parked nd) by (unfold parked; rewrite Hs; by split).
    destruct (parked_update_ok (w_timers w) n nd nd') as [Hok' _]; [done|done|done|by apply idle_parked|].
    by destruct (w_timers w).
  - by left.
  - intros _. unfold ring. by rewrite Hs.
Qed.

Lemma watch_run_timeout d n now w :
  watch (late_with n d) w -> d_late d = ∅ -> d_new d = ∅ -> now ∈ d_told d ->
  (forall D, demand_of w n = At D -> D <= now) ->
  wlp (run_timeout (cb_of n) (Some n) now) (fun _ w' => watch d w') w.
Proof.
  intros Hw Hl Hn Hnow Hat. destruct n as [c|s]; cbn [run_timeout cb_of].
  - eapply wlp_mono; [by apply (under_conn_update (late_with (OConn c) d))|].
    intros ? w'. apply watch_below. below.
  - eapply wlp_mono; [by apply (watch_stream_update (late_with (OStream s) d))|].
    intros ? w'. apply watch_below. below.
Qed.

Lemma watch_dispatch_loop fuel d now w :
  watch d w -> d_busy d = true -> d_late d = ∅ -> d_new d = ∅ -> d_due d = Some now -> now ∈ d_told d ->
  wlp (dispatch_loop fuel now) (fun _ w' => watch (d <| d_due := None |>) w') w.
Proof.
  intros Hw Hb Hl Hn Hdue Hnow. revert w Hw. induction fuel as [|fuel IH]; intros w Hw; cbn [dispatch_loop];
    apply wlp_bind, wlp_gets; destruct (tm_due (w_timers w)) as [|n l] eqn:Hd; try apply wlp_ub.
  1, 2: apply wlp_ret; destruct Hw; by constructor.
  eapply watch_pop; [done..|]. intros w1 nd1 Hw1 Hnd1 Ho1 Hc1 Hat1.
  apply wlp_bind. 
  eapply wlp_mono; [apply wlp_and; [by apply (firm_mod_engine (fun e => e <| e_timer_dispatch_count ::= inc64 |>))|]|].
  { apply (wlp_modify _ (fun _ w' => w' = w1 <| w_engine ::= fun e => e <| e_timer_dispatch_count ::= inc64 |> |>)). done. }
  intros [] w2 [Hw2 ->]. cbv beta in Hw2. set (w2 := w1 <| w_engine ::= _ |>) in *.
  apply wlp_timers_get. intros nd2 Hnd2. change (w_timers w2) with (w_timers w1) in Hnd2.
  rewrite Hnd1 in Hnd2. injection Hnd2 as <-. rewrite Ho1, Hc1. apply wlp_bind.
  eapply wlp_mono; [apply (watch_run_timeout d); [done..|by destruct n]|].
  intros [] w3 Hw3. cbv beta in Hw3. by apply (watch_park d).
Qed.

(** The start of [kcpmux_engine_update]: the nodes that fired are collected. *)
Lemma watch_collected d now w t D :
  watch d w -> d_busy d = false -> d_due d = None -> collected now (w_timers w) t D ->
  watch (busy (d <| d_due := Some now |>))
    (w <| w_timers := t |> <| w_engine ::= fun e =>
       e <| e_external_timer_armed := false |> <| e_operation_depth ::= fun x => u32 (x + 1) |> |>).
Proof.
  intros [[Hok0 Hcnt Hcap Hheap] Hown Hreg0 Hdue Htold Hna Ha Hnew Hop Hcl Hal Hdep Hho] Hb Hd Hc.
  pose proof (collected_owner _ _ _ _ Hc) as Hno. destruct (owner_registered _ _ Hno) as (Hreg & _ & Howners).
  pose proof (cl_perm _ _ _ _ Hc) as Hperm. rewrite Hd in Hdue. cbn in Hdue.
  pose proof (cl_due _ _ _ _ Hc) as Hdt. rewrite Hdue in Hdt. cbn in Hdt.
  assert (HD : forall n, n ∈ D -> n ∈ tm_heap (w_timers w)) by (intros n; rewrite Hperm, elem_of_app; auto).
  assert (Hlive : forall n, is_Some (tm_nodes t !! n) <-> is_Some (tm_nodes (w_timers w) !! n)).
  { intros n. by rewrite <- !(fmap_is_Some node_owner), Hno. }
  constructor; cbn; rewrite ?Hreg; try done.
  - constructor; cbn; [apply Hc|by rewrite Hreg|by rewrite (cl_capacity _ _ _ _ Hc)|].
    intros n Hin. rewrite Hreg. apply Hheap. rewrite Hperm, elem_of_app. auto.
  - by apply Howners.
  - intros n. rewrite Hdt. intros Hn. by apply Hheap, HD.
  - intros n nd Hn Hnd. rewrite Hdt in Hn.
    destruct (marked_due_lookup _ _ _ _ _ (cl_nodes _ _ _ _ Hc) Hnd) as (nd0 & Hnd0 & -> & _).
    by apply (cl_late _ _ _ _ Hc n nd0).
  - intros o. rewrite Hlive. auto.
  - intros o Ho. rewrite Hlive. by apply Hnew.
  - intros o Ho. specialize (Hal o Ho). change (meets (told_by w) (demand_of w o) (rings t o)).
    replace (rings t o) with (rings (w_timers w) o); [done|].
    pose proof (cl_nodes _ _ _ _ Hc o) as Hm. unfold rings.
    destruct (tm_nodes t !! o) as [a|] eqn:Ea, (tm_nodes (w_timers w) !! o) as [b|] eqn:Eb; try done.
    apply (inj Some) in Hm. cbn. unfold ring. case_decide as Eo.
    + rewrite (erase_state _ _ Hm). cbn. apply HD, (to_heap _ Hok0 _ _ Eb) in Eo. rewrite Eo.
      apply (f_equal deadline_ms) in Hm. cbn in Hm. by rewrite Hm.
    + rewrite (erase_state _ _ Hm). apply (f_equal deadline_ms) in Hm. cbn in Hm. by rewrite Hm.
  - rewrite Hdep, Hb. done.
Qed.
End loops.
