(* ===== verification/AlarmSpec.v ===== *)
(** * No timeout is ever lost

    After any sequence of calls: every timeout of an open connection, every
    close phase of a stream, and every open stream of a connection that is up
    has its timer armed, and the host has been asked to wake the engine in
    time. *)

From S2P Require Import Prelude Types Timer TimerProofs TimerSpec Hashtable Vectored World Engine Conn Messages Stream Mux Sample Life LifeSim LifeEntry LifeSpec Deadlines Shape Steps Alarm AlarmStep AlarmFrame AlarmMend AlarmStream AlarmClose AlarmCalls AlarmInput AlarmLoops.
From stdpp Require Import gmap relations.
#[local] Open Scope Z_scope.

Section entry.
Context {KO : Kcp} {HO : Host}.
Implicit Types (c s : positive) (w : world K) (o : obj) (d : desc) (L : life).

(** What holds between two calls. *)
Record punctual w : Prop := {
  pu_watch : watch idle w;
  pu_life : life_ok (life_of w);
  pu_started : started (life_of w)
}.

Definition keeps_watch {A} (m : W A) : Prop :=
  forall w, punctual w -> wlp m (fun _ w' => watch idle w') w.

Lemma keeps_under {A} (m : W A) : under idle m (fun _ => idle) -> keeps_watch m.
Proof. intros Hm w [Hw _ _]. by apply Hm. Qed.

Lemma keeps_firm {A} (m : W A) : firm m -> keeps_watch m.
Proof. intros Hm. apply keeps_under, Hm. Qed.

Lemma keeps_forget {A} (m : W A) : keeps_watch m -> keeps_watch (forget_result m).
Proof.
  intros Hm w Hw. apply wlp_bind. eapply wlp_mono; [by apply Hm|]. intros a w' Hw'. by apply wlp_ret.
Qed.

Lemma keeps_read {A B} (m : W A) (f : A -> W B) :
  quiet m -> firm m -> (forall a, keeps_watch (f a)) -> keeps_watch (m ≫= f).
Proof.
  intros Hq Hm Hf w [Hw Hok Hst]. apply (wlp_frame idle); [done|done|done|]. intros a w' HL Hw'.
  apply Hf. by constructor; rewrite ?HL.
Qed.

Lemma keeps_operation {A B} (body : W A) (f : A -> B) :
  follows body -> (forall d, settled d -> mindful d body) ->
  keeps_watch (kcpmux_engine_operation_enter;; a ← body; kcpmux_engine_operation_leave;; mret (f a)).
Proof.
  intros Hf Hm w [Hw Hok Hst]. apply (watch_operation idle); try done. by apply Hm.
Qed.

#[local] Hint Resolve follows_stream_create_body follows_stream_close_body follows_conn_close_body : quiet.

Lemma keeps_conn_close oc : keeps_watch (kcpmux_conn_close oc).
Proof.
  unfold kcpmux_conn_close. destruct oc as [c|]; [|apply keeps_firm; firm].
  apply keeps_read; [quiet|firm|intros k]. apply (keeps_operation (conn_close_body c) (fun _ => 0)); [follows|].
  intros d Hd. apply mindful_under, under_conn_close_body, Hd.
Qed.

Lemma keeps_stream_create oc cfg cbs ud : keeps_watch (kcpmux_stream_create oc cfg cbs ud).
Proof.
  unfold kcpmux_stream_create. destruct oc as [c|]; [|apply keeps_firm; firm].
  apply keeps_read; [quiet|firm|intros k]. case_match; [apply keeps_firm; firm|].
  apply (keeps_operation (stream_create_body c cfg cbs ud) (fun r => r)); [follows|].
  intros d Hd. apply mindful_under, under_stream_create_body, Hd.
Qed.

Lemma keeps_stream_close os : keeps_watch (kcpmux_stream_close os).
Proof.
  unfold kcpmux_stream_close. destruct os as [s|]; [|apply keeps_firm; firm].
  apply keeps_read; [quiet|firm|intros k]. apply (keeps_operation (stream_close_body s) (fun _ => 0)); [follows|].
  intros d Hd w _ _ Hw. apply watch_stream_close_body; [done|apply Hd].
Qed.

(** An operation that starts with the time. *)
Lemma keeps_timed {A B} (body : Z -> W A) (f : A -> B) :
  (forall now, follows (body now)) ->
  (forall d now, settled d -> now ∈ d_told d -> mindful d (body now)) ->
  keeps_watch (now ← kcpmux_engine_now; kcpmux_engine_operation_enter;; a ← body now;
               kcpmux_engine_operation_leave;; mret (f a)).
Proof.
  intros Hf Hm w [Hw Hok Hst]. eapply wlp_track; [done|quiet|apply under_now|]. intros now w1 HL1 Hw1. cbv beta in Hw1.
  apply (watch_operation (having_told now idle)); rewrite ?HL1; try done; [below|].
  apply Hm; [done|]. cbn. by left.
Qed.

Lemma mindful_bind_under {A B} d (m : W A) (f : A -> W B) :
  under d m (fun _ => d) -> (forall a, under d (f a) (fun _ => d)) -> mindful d (m ≫= f).
Proof. intros Hm Hf. apply mindful_under. by eapply under_bind. Qed.

Lemma keeps_send_chunks {C} s n fl v (f : send_chunk_fn C) x :
  (forall x n, quiet (f s x n)) -> (forall x n, firm (f s x n)) ->
  keeps_watch (kcpmux_stream_send_chunks s n fl v f x).
Proof.
  intros Hq Hf. unfold kcpmux_stream_send_chunks. apply keeps_read; [quiet|firm|intros k].
  set (body := fun now => (if v then mod_stats (fun x => x <| es_api_stream_sendv_calls ::= inc64 |>)
     else mod_stats (fun x => x <| es_api_stream_send_calls ::= inc64 |>));; send_chunks_body s now n fl f x).
  intros w Hw. eapply wlp_eq; [|apply (keeps_timed body (fun r => r)); [| |done]].
  - intros w'. unfold body, mbind, M_bind. destruct (kcpmux_engine_now w') as [[now w1]|]; [|done].
    destruct (kcpmux_engine_operation_enter w1) as [[[] w2]|]; [|done]. by destruct v.
  - intros now. unfold body. follows.
  - intros d now Hd Hnow. apply mindful_bind_under; [destruct v; apply firm_mod_engine; done|].
    intros [] w' Hw'. by apply watch_send_chunks_body; [..|apply Hd|].
Qed.

Lemma keeps_send os b fl : keeps_watch (kcpmux_stream_send os b fl).
Proof.
  unfold kcpmux_stream_send. destruct os, b; try solve [apply keeps_firm; firm]. cbv zeta.
  case_match; [apply keeps_firm; firm|]. apply keeps_send_chunks; intros; [quiet|firm].
Qed.

Lemma keeps_sendv os b fl : keeps_watch (kcpmux_stream_sendv os b fl).
Proof.
  unfold kcpmux_stream_sendv. destruct os, b; try solve [apply keeps_firm; firm].
  destruct (sendv_total _ _); [|apply keeps_firm; firm]. case_match; [apply keeps_firm; firm|].
  apply keeps_read; [quiet|firm|intros st]. apply keeps_send_chunks; intros; [quiet|firm].
Qed.

Lemma keeps_finish_batch os : keeps_watch (kcpmux_stream_finish_batch os).
Proof.
  unfold kcpmux_stream_finish_batch. destruct os as [s|]; [|apply keeps_firm; firm].
  apply keeps_under. apply under_firm_bind; [firm|intros k]. apply under_now_bind. intros now w Hw.
  eapply wlp_mono; [by apply (watch_finish_batch_at (having_told now idle)); [..|cbn; left]|].
  intros [] w'. apply watch_below. below.
Qed.

Lemma follows_connect_body a cfg ext cbs ud : follows (connect_body a cfg ext cbs ud).
Proof.
  intros w Hok. unfold connect_body. destruct (life_ok_fresh _ Hok) as [Hfr _].
  apply wlp_bind. eapply wlp_conn_new; [done|done|intros w3 Hr; by apply wlp_ret|].
  intros w3 Hid HL3. set (c := lf_next (life_of w)) in *. set (L := conn_created true (life_of w)) in *.
  assert (Hstep : life_step (life_of w) L) by by apply conn_created_step.
  eapply wlp_mono; [|intros ? ? Hr; eapply rtc_l; [exact Hstep|exact Hr]].
  assert (HokL : life_ok L) by by eapply life_step_ok.
  do 5 (eapply wlp_quiet_bind; [exact HL3|quiet|]; intros ? w3' HL3'; clear w3 HL3;
        rename w3' into w3, HL3' into HL3).
  apply wlp_then; [done| |intros; follows].
  eapply wlp_mono; [eapply (wlp_upd_conn L c _ _ (fun k => k <| cl_state := CONN_CONNECTING |>) w3 HL3);
    [apply conn_created_lookup|done]|].
  intros _ w4 ->. eapply rtc_once, step_conn_state; [apply conn_created_lookup|done|constructor].
Qed.

Lemma keeps_connect a cfg ext cbs ud : keeps_watch (kcpmux_conn_connect a cfg ext cbs ud).
Proof.
  destruct a as [a|]; [|apply keeps_firm, firm_ret].
  set (body := mod_stats (fun x => x <| es_api_conn_connect_calls ::= inc64 |>);; connect_body (Some a) cfg ext cbs ud).
  intros w Hw. eapply wlp_eq; [|apply (keeps_operation body (fun r => r)); [| |done]].
  - intros w'. unfold body, kcpmux_conn_connect, connect_body, mbind, M_bind.
    destruct (kcpmux_engine_operation_enter w') as [[[] w1]|]; [|done].
    destruct (mod_stats _ w1) as [[[] w2]|]; [|done].
    destruct (kcpmux_conn_new _ _ _ w2) as [[[c|] w3]|]; [|done|done].
    destruct (when _ _ w3) as [[[] w4]|]; [|done]. destruct (mod_conn _ _ w4) as [[[] w5]|]; [|done].
    match goal with |- match ?x with _ => _ end = _ => destruct x as [[[] w6]|]; [|done] end.
    destruct (kcpmux_engine_add_conn c w6) as [[[] w7]|]; [|done].
    destruct (kcpmux_engine_now w7) as [[now w8]|]; [|done]. destruct (mod_conn _ _ w8) as [[[] w9]|]; [|done].
    destruct (kcpmux_conn_refresh_timer c now w9) as [[[] w10]|]; [|done].
    by destruct (kcpmux_conn_send_connect c w10) as [[? w11]|].
  - unfold body. apply follows_bind; [follows|intros []]. apply follows_connect_body.
  - intros d Hd. unfold body. apply mindful_bind_under; [apply firm_mod_engine; done|].
    intros []. apply under_connect_body, Hd.
Qed.

Lemma keeps_engine_input b a : keeps_watch (kcpmux_engine_input b a).
Proof.
  unfold kcpmux_engine_input. destruct b as [b|], a as [a|]; try solve [apply keeps_firm; firm].
  case_match; [apply keeps_firm; firm|].
  set (body := mod_stats (fun x => x <| es_rx_packets ::= inc64 |>
                              <| es_rx_bytes ::= add64 (Z.of_nat (length b)) |>);;
        now ← kcpmux_engine_now; kcpmux_protocol_input b a now).
  intros w Hw. eapply wlp_eq; [|apply (keeps_operation body (fun r => r)); [| |done]].
  - intros w'. unfold body, mbind, M_bind. destruct (kcpmux_engine_operation_enter w') as [[[] w2]|]; [|done].
    destruct (mod_stats _ w2) as [[[] w3]|]; [|done]. by destruct (kcpmux_engine_now w3) as [[? ?]|].
  - unfold body. follows. apply follows_protocol_input.
  - intros d Hd w1 Hok Hst Hw1. unfold body. eapply wlp_frame; [done|quiet|firm|]. intros [] w2 HL2 Hw2.
    eapply wlp_track; [done|quiet|apply under_now|]. intros now w3 HL3 Hw3. cbv beta in Hw3.
    assert (HL : life_of w3 = life_of w1) by congruence.
    eapply wlp_mono; [apply (mindful_protocol_input (having_told now d)); rewrite ?HL; try done; [apply Hd|by left]|].
    intros ? w4. apply watch_below. below.
Qed.

Lemma mindful_finish_batch_loop d fuel now :
  d_new d = ∅ -> now ∈ d_told d -> mindful d (finish_batch_loop fuel now).
Proof.
  intros Hn Hnow. apply mindful_under. induction fuel as [|fuel IH]; cbn [finish_batch_loop];
    (apply under_firm_bind; [firm|intros e]); case_match; try (apply under_ret, below_refl); [apply firm_ub|].
  apply under_firm_bind; [firm|intros []]. eapply under_bind; [|intros []; exact IH].
  intros w Hw. by apply (watch_finish_batch_at d).
Qed.

Lemma keeps_engine_finish_batch : keeps_watch kcpmux_engine_finish_batch.
Proof.
  unfold kcpmux_engine_finish_batch.
  set (body := fun now => n ← gets (fun w => length (e_pending_batch_streams (w_engine w)));
                          finish_batch_loop n now).
  intros w Hw. eapply wlp_eq; [|apply (keeps_timed body (fun r => r)); [| |done]].
  - intros w'. unfold body, mbind, M_bind. destruct (kcpmux_engine_now w') as [[now w1]|]; [|done].
    destruct (kcpmux_engine_operation_enter w1) as [[[] w2]|]; [|done]. cbn.
    destruct (finish_batch_loop _ now w2) as [[[] w3]|]; [|done].
    by destruct (kcpmux_engine_operation_leave w3) as [[[] ?]|].
  - intros now. unfold body. apply quiet_follows. apply quiet_bind; [quiet|intros n]. apply quiet_finish_batch_loop.
  - intros d now Hd Hnow. unfold body. apply mindful_read; [quiet|firm|intros n].
    apply mindful_finish_batch_loop; [apply Hd|done].
Qed.

Lemma keeps_engine_update : keeps_watch kcpmux_engine_update.
Proof.
  intros w [Hw Hok Hst]. unfold kcpmux_engine_update.
  eapply wlp_track; [done|quiet|apply under_now|]. intros now w1 HL1 Hw1. cbv beta in Hw1.
  rewrite <- HL1 in Hok, Hst. clear w Hw HL1.
  apply wlp_bind, wlp_modify. set (w2 := w1 <| w_engine ::= _ |>).
  assert (Hok1 : timers_ok (w_timers w1)) by apply Hw1.
  assert (Hd1 : tm_due (w_timers w1) = []) by apply (wt_due _ _ Hw1).
  apply wlp_bind. intros [] w3 [= <-].
  match goal with |- wlp _ _ ?x => assert (x = w2) as -> end.
  { unfold w2. destruct w1 as [e ks ss [h cap sq nds du] nx tr]; cbn in *; by subst. }
  apply wlp_bind, wlp_wp, wp_timers. eapply wp_mono; [|apply collect_due_ok; exact Hok1].
  intros [] t [D Hc]. apply wlp_bind, wlp_modify.
  match goal with |- wlp _ _ ?x => set (w4 := x) end.
  assert (Hw4 : watch (busy (having_told now idle <| d_due := Some now |>)) w4)
    by exact (watch_collected (having_told now idle) now w1 t D Hw1 eq_refl eq_refl Hc).
  assert (HL4 : life_of w4 = life_of w1) by done. clearbody w4. rewrite <- HL4 in Hok, Hst. clear - Hok Hw4.
  apply wlp_bind, wlp_gets. apply wlp_bind.
  eapply wlp_mono; [apply wlp_and; [apply (watch_dispatch_loop _ _ now _ Hw4); try done; cbn; by left|by apply follows_dispatch_loop]|].
  intros [] w5 [Hw5 Hr]. cbv beta in Hw5, Hr.
  eapply wlp_mono; [apply (watch_leave _ _ Hw5); [done|by eapply life_steps_ok]|].
  intros [] w6. apply watch_below. below.
Qed.

Lemma keeps_exec x : keeps_watch (exec x).
Proof.
  destruct x; cbn [exec]; try apply keeps_forget.
  - apply keeps_connect.
  - apply keeps_conn_close.
  - by apply keeps_under, under_conn_set_config.
  - apply keeps_firm. firm.
  - apply keeps_stream_create.
  - apply keeps_stream_close.
  - by apply keeps_under, under_stream_set_config.
  - apply keeps_firm. firm.
  - apply keeps_send.
  - apply keeps_sendv.
  - apply keeps_finish_batch.
  - apply keeps_firm. firm.
  - by apply keeps_under, under_recv.
  - apply keeps_firm. firm.
  - apply keeps_engine_update.
  - apply keeps_engine_input.
  - apply keeps_engine_finish_batch.
Qed.

Lemma punctual_exec_all l w : punctual w -> wlp (exec_all l) (fun _ w' => punctual w') w.
Proof.
  revert w. induction l as [|x l IH]; intros w Hw; [by apply wlp_ret|].
  apply wlp_bind. eapply wlp_mono; [apply wlp_and; [by apply keeps_exec|apply follows_exec, Hw]|].
  intros [] w1 [Hw1 Hr]. cbv beta in Hr. apply IH. destruct Hw as [_ Hok Hst].
  constructor; [done|by eapply life_steps_ok|by eapply started_steps].
Qed.
End entry.

(** ** From engine creation on *)

Section spec.
Context {KO : Kcp} {HO : Host}.
Implicit Types (c s : positive) (w : world K) (o : obj) (d : desc) (L : life).

Lemma boot_punctual ec dc ds cb ud tr e tr' :
  kcpmux_engine_create ec dc ds cb ud tr = Some (Some e, tr') -> punctual (boot e tr').
Proof.
  intros Hc. destruct (create_next_id _ _ _ _ _ _ _ _ Hc) as (Hid & Hp & Hd & Hn & Hset).
  constructor; [|by apply boot_life_ok|intros s x; cbn; by rewrite fmap_empty, lookup_empty].
  assert (Hreg : registered kcpmux_timer_manager_init = ∅) by done.
  assert (Hcl : forall o, closed_of (boot e tr') o = None) by (intros []; done).
  constructor; cbn; try done; try (intros o; rewrite ?Hcl; done).
  - constructor; cbn; rewrite ?Hreg, ?Hn; [|done|done|by intros n Hin%elem_of_nil].
    constructor; cbn; try done; [|constructor|by intros n Hin%elem_of_nil].
    constructor; cbn; try done; constructor.
  - by intros n Hin%elem_of_nil.
  - by intros t Hin%elem_of_nil.
  - intros o. rewrite lookup_empty. by intros [].
  - intros o _. by rewrite closed_no_demand; [|rewrite Hcl].
  - intros _ f x _ _ (n & Hx & _). by rewrite deadlines_lookup in Hx.
Qed.

Lemma session_punctual ec dc ds cb ud tr e tr' l w :
  kcpmux_engine_create ec dc ds cb ud tr = Some (Some e, tr') ->
  exec_all l (boot e tr') = Some (tt, w) -> punctual w.
Proof. intros Hc Hrun. by eapply punctual_exec_all; [eapply boot_punctual|]. Qed.

(** The node of [o] fires by [D], or at a time the host has already reported if
    that is later. *)
Definition armed_by w o (D : Z) : Prop :=
  exists (x t : Z), deadlines (w_timers w) !! o = Some x /\ EvTime t ∈ w_trace w /\ x <= Z.max D t.

Lemma punctual_ring w o : punctual w -> rings (w_timers w) o = deadlines (w_timers w) !! o.
Proof.
  intros [Hw _ _]. rewrite deadlines_lookup. unfold rings.
  destruct (tm_nodes (w_timers w) !! o) as [nd|] eqn:Hnd; [|done]. cbn. unfold ring, armed_at.
  destruct (tn_state nd) eqn:Hs; try done. exfalso.
  pose proof (to_due _ (rs_timers _ (wt_reserved _ _ Hw)) _ _ Hnd) as Hdue.
  rewrite (wt_due _ _ Hw : tm_due _ = []) in Hdue. apply Hdue in Hs. by apply elem_of_nil in Hs.
Qed.

Lemma punctual_meets w o :
  punctual w -> meets (told_by w) (demand_of w o) (deadlines (w_timers w) !! o).
Proof.
  intros Hw. rewrite <- (punctual_ring w o Hw). by apply (wt_alarm _ _ (pu_watch _ Hw)).
Qed.

(** C10. No timeout of a connection is lost: after any sequence of calls, if one
    of an open connection's timeouts (handshake and close retries, silence,
    keepalive, idleness) is going to be due at [T], the connection's timer is
    armed for [T] at the latest or, where [T] has passed, for a time the host has
    already reported, that is, to fire at once. *)
Theorem no_conn_timeout_lost ec dc ds cb ud tr e tr' l w c k T :
  kcpmux_engine_create ec dc ds cb ud tr = Some (Some e, tr') ->
  exec_all l (boot e tr') = Some (tt, w) ->
  w_conns w !! c = Some k -> c_internal_closed k = false ->
  T < INT64_MAX -> timeout_due k T -> armed_by w (OConn c) T.
Proof.
  intros Hc Hrun Hk Hcl HT Hdue. pose proof (session_punctual _ _ _ _ _ _ _ _ _ _ Hc Hrun) as Hw.
  pose proof (punctual_meets w (OConn c) Hw) as Hm. cbn in Hm. rewrite Hk in Hm. cbn in Hm.
  apply raw_deadline_due in Hdue; [|done|done]. unfold raw_deadline in Hdue. unfold conn_demand in Hm.
  destruct (kcpmux_conn_calculate_deadline k) as [D|]; cbn in Hdue; [|lia].
  destruct Hm as (x & t & H1 & H2 & H3). exists x, t. split; [done|]. split; [done|]. lia.
Qed.

(** C11. No timeout of a stream is lost: after any sequence of calls an open stream
    of a connected connection has a timer, which drives its KCP; a closing one
    has its timer armed for the end of its drain period, for the retry of its
    unacknowledged CLOSE, or, where nothing is left to wait for, to fire at
    once. *)
Theorem no_stream_timeout_lost ec dc ds cb ud tr e tr' l w s st k :
  kcpmux_engine_create ec dc ds cb ud tr = Some (Some e, tr') ->
  exec_all l (boot e tr') = Some (tt, w) ->
  w_streams w !! s = Some st -> w_conns w !! s_conn st = Some k ->
  c_internal_closed k = false -> c_state k = CONN_CONNECTED ->
  match s_state st, s_close_phase st with
  | STREAM_OPEN, _ => is_Some (deadlines (w_timers w) !! OStream s)
  | STREAM_CLOSING, (CLOSE_LOCAL_DRAIN | CLOSE_REMOTE_DRAIN) =>
      armed_by w (OStream s)
        (kcpmux_timer_deadline_after (s_drain_started_ts st) (sc_drain_timeout_ms (s_config st)))
  | STREAM_CLOSING, CLOSE_WAIT_ACK =>
      armed_by w (OStream s)
        (kcpmux_timer_deadline_after (s_last_ctrl_ts st) (sc_ctrl_timeout_ms (s_config st)))
  | STREAM_CLOSING, CLOSE_FINALIZE =>
      exists x t : Z, deadlines (w_timers w) !! OStream s = Some x /\ EvTime t ∈ w_trace w /\ x <= t
  | STREAM_CLOSING, CLOSE_NONE => False
  | _, _ => True
  end.
Proof.
  intros Hc Hrun Hst Hk Hkc Hks. pose proof (session_punctual _ _ _ _ _ _ _ _ _ _ Hc Hrun) as Hw.
  pose proof (punctual_meets w (OStream s) Hw) as Hm. cbn in Hm. rewrite Hst in Hm. cbn in Hm.
  assert (HL : lf_streams (life_of w) !! s = Some (slife st)) by (cbn; by rewrite lookup_fmap, Hst).
  pose proof (lok_stream_closed _ (pu_life _ Hw) s _ HL) as Hcl. cbn in Hcl. unfold closed_stream in Hcl.
  pose proof (lok_closing _ (pu_life _ Hw) s _ HL) as Hph.
  cbn in Hph. unfold stream_demand, up, conn_up in Hm. rewrite Hk in Hm. cbn in Hm. rewrite Hkc, Hks in Hm. cbn in Hm.
  rewrite orb_false_r in Hm.
  destruct (s_internal_closed st), (s_state st), (s_close_phase st); try done; try (by destruct Hcl as [[|] _]); try (by destruct Hph);
    destruct Hm as (x & t & H1 & H2 & H3); exists x, t; (split; [done|]); (split; [done|]); lia.
Qed.

End spec.

(** ** A session *)

Lemma no_conn_timeout_lost_witness :
  w_conns sample_closing !! 1%positive = Some sample_conn /\ timeout_due sample_conn 11011 /\
  armed_by sample_closing (OConn 1) 11011.
Proof.
  assert (timeout_due sample_conn 11011) as Hdue by (right; right; vm_compute; split; [reflexivity|discriminate]).
  split; [exact sample_conn_eq|]. split; [exact Hdue|].
  apply (no_conn_timeout_lost _ _ _ _ _ _ _ _ _ _ _ _ 11011 sample_create_eq session_runs sample_conn_eq);
    [vm_compute; reflexivity|vm_compute; reflexivity|exact Hdue].
Defined.

Lemma no_stream_timeout_lost_witness :
  s_state sample_stream = STREAM_CLOSING /\ s_close_phase sample_stream = CLOSE_WAIT_ACK /\
  armed_by sample_closing (OStream 2)
    (kcpmux_timer_deadline_after (s_last_ctrl_ts sample_stream) (sc_ctrl_timeout_ms (s_config sample_stream))).
Proof.
  split; [vm_compute; reflexivity|]. split; [vm_compute; reflexivity|].
  apply (no_stream_timeout_lost _ _ _ _ _ _ _ _ _ _ _ _ sample_conn sample_create_eq session_runs sample_stream_eq);
    vm_compute; reflexivity.
Defined.

