(* ===== verification/Keeps.v ===== *)
(** * Preservation of a property of the state

    [keeps I m P]: started in a state of [I], [m] ends in one (if it ends) and
    returns a value in [P].  One rule per construct of the monad. *)

From S2P Require Import Prelude.

Definition keeps {S A} (I : S -> Prop) (m : M S A) (P : A -> Prop) : Prop :=
  forall s, I s -> wlp m (fun a s' => P a /\ I s') s.

Section keeps.
Context {S : Type} (I : S -> Prop).

Lemma keeps_ret {A} (a : A) (P : A -> Prop) : P a -> keeps I (mret a) P.
Proof. intros Ha s Hs. by apply wlp_ret. Qed.

Lemma keeps_bind {A B} (m : M S A) (f : A -> M S B) P Q :
  keeps I m P -> (forall a, P a -> keeps I (f a) Q) -> keeps I (m ≫= f) Q.
Proof.
  intros Hm Hf s Hs. apply wlp_bind. eapply wlp_mono; [by apply Hm|]. intros a s' [Ha Hs']. by apply Hf.
Qed.

Lemma keeps_bind_any {A B} (m : M S A) (f : A -> M S B) Q :
  keeps I m (fun _ => True) -> (forall a, keeps I (f a) Q) -> keeps I (m ≫= f) Q.
Proof. intros Hm Hf. eapply keeps_bind; [exact Hm|]. intros a _. apply Hf. Qed.

Lemma keeps_mono {A} (m : M S A) (P Q : A -> Prop) :
  keeps I m P -> (forall a, P a -> Q a) -> keeps I m Q.
Proof. intros Hm HPQ s Hs. eapply wlp_mono; [by apply Hm|]. intros a s' [? ?]. auto. Qed.

Lemma keeps_any {A} (m : M S A) P : keeps I m P -> keeps I m (fun _ => True).
Proof. intros Hm. by eapply keeps_mono. Qed.

Lemma keeps_ub {A} (P : A -> Prop) : keeps I ub P.
Proof. intros s _. apply wlp_ub. Qed.

Lemma keeps_gets {A} (f : S -> A) (P : A -> Prop) : (forall s, I s -> P (f s)) -> keeps I (gets f) P.
Proof. intros Hf s Hs. apply wlp_gets. auto. Qed.

Lemma keeps_deref {A} (f : S -> option A) (P : A -> Prop) :
  (forall s a, I s -> f s = Some a -> P a) -> keeps I (deref f) P.
Proof. intros Hf s Hs. apply wlp_deref. eauto. Qed.

Lemma keeps_modify (f : S -> S) (P : unit -> Prop) :
  P tt -> (forall s, I s -> I (f s)) -> keeps I (modify f) P.
Proof. intros HP Hf s Hs. apply wlp_modify. auto. Qed.

Lemma keeps_when b (m : M S unit) :
  (b = true -> keeps I m (fun _ => True)) -> keeps I (when b m) (fun _ => True).
Proof. destruct b; [auto|]. intros _. by apply keeps_ret. Qed.

Lemma keeps_for_each {A} (f : A -> M S unit) l :
  (forall x, x ∈ l -> keeps I (f x) (fun _ => True)) -> keeps I (for_each f l) (fun _ => True).
Proof.
  induction l as [|x l IH]; intros Hf; cbn; [by apply keeps_ret|].
  apply keeps_bind_any; [apply Hf; set_solver|]. intros _. apply IH. set_solver.
Qed.

Lemma keeps_zoom {T A} (J : T -> Prop) (prj : S -> T) put (m : M T A) P :
  (forall s, I s -> J (prj s)) -> (forall s t, I s -> J t -> I (put t s)) ->
  keeps J m P -> keeps I (zoom prj put m) P.
Proof.
  intros Hprj Hput Hm s Hs a s'. unfold zoom. destruct (m (prj s)) as [[b t]|] eqn:E; [|done].
  intros [= <- <-]. destruct (Hm (prj s) (Hprj s Hs) b t E). auto.
Qed.

Lemma keeps_run {A} (m : M S A) s : keeps I m (fun _ => True) -> I s -> wlp m (fun _ s' => I s') s.
Proof. intros Hm Hs. eapply wlp_mono; [by apply Hm|]. by intros a s' [_ ?]. Qed.
End keeps.

Lemma keeps_or {S A} (I J : S -> Prop) (m : M S A) :
  keeps I m (fun _ => True) -> keeps J m (fun _ => True) -> keeps (fun s => I s \/ J s) m (fun _ => True).
Proof.
  intros HI HJ s [Hs|Hs]; (eapply wlp_mono; [first [by apply HI|by apply HJ]|]); intros a s' [_ ?]; auto.
Qed.
