(* ===== verification/Typing.v ===== *)
(** * The types of the stored values

    The model keeps C integers as [Z] and reduces them where the code stores
    into an unsigned field.  [world_typed] says that every field of every
    structure holds a value of its C type (the headers of src/src and
    include/kcpmux), and that every event told to the host is well formed: a
    datagram handed to the socket is a message of the protocol.  [keeps I m P]
    says that [m] preserves [I] and returns a value in [P]; the next files
    prove it, with [I] the typing, of every function. *)

From S2P Require Import Prelude Types Timer ByteOrder Hashtable Vectored World.
#[local] Open Scope Z_scope.

(** ** Ranges *)

Definition in_i32 (z : Z) : Prop := - 2 ^ 31 <= z < 2 ^ 31.
Definition bytes (l : list Z) : Prop := Forall is_byte l.

Create HintDb typed discriminated.
#[export] Hint Constants Opaque : typed.

Lemma in_u_wrap n z : 0 <= n -> in_u n (wrap n z).
Proof. apply wrap_range. Qed.
Lemma in_u8_wrap z : in_u 8 (u8 z).
Proof. by apply wrap_range. Qed.
Lemma in_u32_wrap z : in_u 32 (u32 z).
Proof. by apply wrap_range. Qed.
Lemma in_u64_wrap z : in_u 64 (u64 z).
Proof. by apply wrap_range. Qed.
Lemma in_u64_inc z : in_u 64 (inc64 z).
Proof. by apply wrap_range. Qed.
Lemma in_u64_add n z : in_u 64 (add64 n z).
Proof. by apply wrap_range. Qed.

Lemma in_u_lor n a b : 0 <= n -> in_u n a -> in_u n b -> in_u n (Z.lor a b).
Proof.
  unfold in_u. intros Hn Ha Hb. destruct (Z.eq_dec a 0) as [->|Ha0]; [by rewrite Z.lor_0_l|].
  destruct (Z.eq_dec b 0) as [->|Hb0]; [by rewrite Z.lor_0_r|].
  assert (0 <= Z.lor a b) by (apply Z.lor_nonneg; lia). split; [done|].
  assert (Z.lor a b <> 0) by (intros [? ?]%Z.lor_eq_0_iff; lia).
  apply Z.log2_lt_pow2; [lia|]. rewrite Z.log2_lor by lia.
  apply Z.max_lub_lt; apply Z.log2_lt_pow2; lia.
Qed.

Lemma in_u_land n a b : 0 <= n -> in_u n a -> in_u n (Z.land a b).
Proof.
  intros Hn Ha. assert (Z.land a b = wrap n (Z.land a b)) as ->; [|by apply wrap_range].
  rewrite <- (wrap_small n a) at 1 by done. unfold wrap.
  rewrite <- !Z.land_ones by done. by rewrite <- !Z.land_assoc, (Z.land_comm (Z.ones n)).
Qed.

Lemma in_u_mono n m z : n <= m -> in_u n z -> in_u m z.
Proof. unfold in_u. intros Hnm [? Hz]. split; [done|]. eapply Z.lt_le_trans; [done|]. by apply Z.pow_le_mono_r. Qed.

Lemma bytes_app l k : bytes l -> bytes k -> bytes (l ++ k).
Proof. intros. by apply list.Forall_app_2. Qed.
Lemma bytes_take n l : bytes l -> bytes (take n l).
Proof. apply list.Forall_take. Qed.
Lemma bytes_drop n l : bytes l -> bytes (drop n l).
Proof. apply list.Forall_drop. Qed.

Lemma bytes_at_lookup l i b : bytes l -> l !! i = Some b -> in_u 8 b.
Proof. intros Hl Hb. exact (proj1 (list.Forall_lookup _ _) Hl i b Hb). Qed.

Lemma bytes_read data off n l : bytes data -> read_bytes_at (Some data) off n = Some l -> bytes l.
Proof.
  intros Hd. cbn. destruct (_ && _); [|done]. intros [= <-]. by apply bytes_take, bytes_drop.
Qed.

Lemma bytes_u16 v : bytes (write_u16 v).
Proof. rewrite write_u16_be. apply be_bytes_byte. Qed.
Lemma bytes_u32 v : bytes (write_u32 v).
Proof. rewrite write_u32_be. apply be_bytes_byte. Qed.
Lemma bytes_u64 v : bytes (write_u64 v).
Proof. rewrite write_u64_be. apply be_bytes_byte. Qed.

Lemma read_u16_range l i v : read_u16 l i = Some v -> in_u 16 v.
Proof.
  unfold read_u16. destruct (l !! i); [|done]. cbn. destruct (l !! _); [|done].
  intros [= <-]. by apply wrap_range.
Qed.

Lemma read_u32_range l i v : bytes l -> read_u32 l i = Some v -> in_u 32 v.
Proof.
  intros Hl. unfold read_u32. destruct (l !! i); [|done]. cbn.
  destruct (l !! (i + 1)%nat); [|done]. cbn. destruct (l !! (i + 2)%nat); [|done]. cbn.
  destruct (l !! (i + 3)%nat) as [b|] eqn:E; [|done]. intros [= <-].
  repeat apply in_u_lor; try done; try by apply wrap_range.
  apply (in_u_mono 8); [done|]. by eapply bytes_at_lookup.
Qed.

Lemma read_u64_loop_range l n i v r :
  bytes l -> in_u 64 v -> read_u64_loop n l i v = Some r -> in_u 64 r.
Proof.
  intros Hl. revert i v. induction n as [|n IH]; intros i v Hv; cbn; [by intros [= <-]|].
  destruct (l !! i) as [b|] eqn:E; [|done]. cbn. apply IH. apply in_u_lor; [done|by apply wrap_range|].
  apply (in_u_mono 8); [done|]. by eapply bytes_at_lookup.
Qed.

Lemma read_u64_range l i v : bytes l -> read_u64 l i = Some v -> in_u 64 v.
Proof. intros Hl. apply read_u64_loop_range; [done|]. unfold in_u. lia. Qed.

#[export] Hint Resolve in_u8_wrap in_u32_wrap in_u64_wrap in_u64_inc in_u64_add bytes_app bytes_take
  bytes_drop bytes_u16 bytes_u32 bytes_u64 : typed.
(** A numeral or a named constant. *)
Ltac numeral z := first [is_const z | lazymatch z with Z0 => idtac | Zpos _ => idtac | Zneg _ => idtac end].
#[export] Hint Extern 4 (in_u _ ?z) => numeral z; solve [split; [vm_compute; discriminate|vm_compute; reflexivity]] : typed.

(** ** Structures *)

Record cconfig_typed (c : conn_config) : Prop := {
  cct_ctrl : in_u 32 (cc_ctrl_timeout_ms c);
  cct_connect : in_u 32 (cc_connect_retries c);
  cct_close : in_u 32 (cc_close_retries c);
  cct_interval : in_u 32 (cc_keepalive_interval_ms c);
  cct_keepalive : in_u 32 (cc_keepalive_timeout_ms c);
  cct_idle : in_u 32 (cc_idle_timeout_ms c)
}.

Record sconfig_typed (c : stream_config) : Prop := {
  sct_ctrl : in_u 32 (sc_ctrl_timeout_ms c);
  sct_close : in_u 32 (sc_close_retries c);
  sct_drain : in_u 32 (sc_drain_timeout_ms c);
  sct_mss : in_u 16 (sc_kcp_mss c);
  sct_pause : in_u 32 (sc_send_pause_threshold c);
  sct_resume : in_u 32 (sc_send_resume_threshold c);
  sct_batch : in_u 32 (sc_batch_threshold c)
}.

Record ext_typed (x : proto_ext) : Prop := {
  xt_size : Z.of_nat (length (pe_data x)) = KCPMUX_PROTO_EXT_MAX_LEN;
  xt_data : bytes (pe_data x);
  xt_len : in_u 32 (pe_len x)
}.

Definition estats_typed (x : engine_stats) : Prop :=
  Forall (in_u 64)
    [es_tx_packets x; es_tx_bytes x; es_rx_packets x; es_rx_bytes x; es_tx_error_packets x;
     es_conn_count x; es_stream_count x; es_conn_created_total x; es_conn_closed_total x;
     es_conn_connected_total x; es_conn_rejected_total x; es_conn_idle_timeout_total x;
     es_conn_keepalive_timeout_total x; es_stream_created_total x; es_stream_closed_total x;
     es_stream_opened_total x; es_api_conn_connect_calls x; es_api_conn_close_calls x;
     es_api_stream_create_calls x; es_api_stream_close_calls x; es_api_stream_send_calls x;
     es_api_stream_sendv_calls x; es_api_stream_recv_calls x].

Definition cstats_typed (x : conn_stats) : Prop :=
  Forall (in_u 64)
    [cs_tx_packets x; cs_tx_bytes x; cs_rx_packets x; cs_rx_bytes x; cs_handshake_time_ms x].

Definition sstats_typed (x : stream_stats) : Prop :=
  Forall (in_u 64)
    [ss_tx_packets x; ss_tx_bytes x; ss_rx_packets x; ss_rx_bytes x; ss_up_sent_bytes x;
     ss_up_recv_bytes x; ss_ttfb_time_ms x; ss_write_block_count x; ss_write_block_time_ms x;
     ss_read_block_count x; ss_read_block_time_ms x].

Record engine_typed (e : engine) : Prop := {
  et_conn_config : cconfig_typed (e_default_conn_config e);
  et_stream_config : sconfig_typed (e_default_stream_config e);
  et_next_id : in_u 64 (e_next_connection_id e);
  et_conn_count : in_u 32 (e_conn_count e);
  et_stats : estats_typed (e_stats e);
  et_nodes : in_u 64 (e_timer_node_count e);
  et_deadline : in_i64 (e_external_timer_deadline_ms e);
  et_dispatch : in_u 64 (e_timer_dispatch_count e);
  et_depth : in_u 32 (e_operation_depth e)
}.

Record conn_typed (k : conn) : Prop := {
  ct_local_id : in_u 64 (c_local_connection_id k);
  ct_peer_id : in_u 64 (c_peer_connection_id k);
  ct_config : cconfig_typed (c_config k);
  ct_peer_ext : ext_typed (c_peer_proto_ext k);
  ct_self_ext : ext_typed (c_self_proto_ext k);
  ct_stream_count : in_u 32 (c_stream_count k);
  ct_next_stream : in_u 32 (c_next_stream_id k);
  ct_latest : in_u 32 (c_latest_peer_stream_id k);
  ct_last_recv : in_i64 (c_last_recv_ts k);
  ct_last_keepalive : in_i64 (c_last_keepalive_ts k);
  ct_seq : in_u 32 (c_keepalive_seq k);
  ct_created : in_i64 (c_created_ts k);
  ct_last_payload : in_i64 (c_last_payload_ts k);
  ct_last_ctrl : in_i64 (c_last_ctrl_ts k);
  ct_retries : in_u 32 (c_retry_count k);
  ct_reason : in_u 8 (c_close_reason k);
  ct_stats : cstats_typed (c_stats k)
}.

(** A computation of KCP with its output, [ok] being what KCP maintains of its
    own state: only bytes are written. *)
Fixpoint kact_typed {K R} (ok : K -> Prop) (P : R -> Prop) (a : kact K R) : Prop :=
  match a with
  | KRet k r => ok k /\ P r
  | KOut buf cont =>
      bytes buf /\ Z.of_nat (length buf) <= INT_MAX /\ forall r, kact_typed ok P (cont r)
  end.

Definition iov_typed (iov : list iovec) : Prop :=
  Forall (fun v => bytes (default [] (iov_data v))) iov.

(** What the prototypes of [kcpmux_kcp_ops_t] say: given bytes and an
    [int64_t] clock, KCP writes bytes and [check] returns an [int64_t]. *)
Class KcpTyped (KO : Kcp) := {
  kt_ok : K -> Prop;
  kt_create tr id k : kcp_create tr id = Some k -> kt_ok k;
  kt_setmss k n : kt_ok k -> kt_ok (kcp_setmss k n);
  kt_send k b : kt_ok k -> bytes b -> kact_typed kt_ok (fun _ => True) (kcp_send k b);
  kt_sendv f k iov o n : kcp_sendv = Some f -> kt_ok k -> iov_typed iov ->
    kact_typed kt_ok (fun _ => True) (f k iov o n);
  kt_input k b : kt_ok k -> bytes b -> kact_typed kt_ok (fun _ => True) (kcp_input k b);
  kt_recv k n : kt_ok k -> kt_ok (kcp_recv k n).2;
  kt_update k now : kt_ok k -> in_i64 now -> kact_typed kt_ok (fun _ => True) (kcp_update k now);
  kt_check k now : kt_ok k -> in_i64 now -> in_i64 (kcp_check k now);
  kt_current k now : kt_ok k -> in_i64 now -> kt_ok (kcp_current_update k now)
}.

Record stream_typed {KO : Kcp} {KT : KcpTyped KO} (st : stream K) : Prop := {
  st_id : in_u 32 (s_stream_id st);
  st_config : sconfig_typed (s_config st);
  st_kcp : forall k, s_kcp st = Some k -> kt_ok k;
  st_last_ctrl : in_i64 (s_last_ctrl_ts st);
  st_retries : in_u 32 (s_retry_count st);
  st_reason : in_u 8 (s_close_reason st);
  st_drain : in_i64 (s_drain_started_ts st);
  st_pending : in_u 32 (s_pending_count st);
  st_read_block : in_i64 (s_read_block_start_ts st);
  st_write_block : in_i64 (s_write_block_start_ts st);
  st_stats : sstats_typed (s_stats st)
}.

Record node_typed (nd : timer_node) : Prop := {
  nt_deadline : in_i64 (deadline_ms nd);
  nt_sequence : in_u 64 (insertion_sequence nd)
}.

Record timers_typed (t : timers) : Prop := {
  tt_nodes : map_Forall (fun _ => node_typed) (tm_nodes t);
  tt_sequence : in_u 64 (tm_next_sequence t);
  tt_capacity : in_u 64 (tm_capacity t)
}.

(** ** Messages on the wire (docs/protocol.md) *)

Definition header (type destination : Z) : list Z := type :: write_u64 destination.

Inductive datagram : list Z -> Prop :=
| dg_connect source ext :
    in_u 64 source -> bytes ext -> Z.of_nat (length ext) <= KCPMUX_PROTO_EXT_MAX_LEN ->
    datagram (header KCPMUX_MSG_CONN_CONNECT 0 ++ write_u64 source ++ [KCPMUX_VERSION] ++
              write_u16 (Z.of_nat (length ext)) ++ ext)
| dg_connect_ack destination source result ext :
    in_u 64 destination -> in_u 64 source -> in_u 8 result -> bytes ext ->
    Z.of_nat (length ext) <= KCPMUX_PROTO_EXT_MAX_LEN ->
    datagram (header KCPMUX_MSG_CONN_CONNECT_ACK destination ++ write_u64 source ++
              [KCPMUX_VERSION; result] ++ write_u16 (Z.of_nat (length ext)) ++ ext)
| dg_keepalive destination time seq :
    in_u 64 destination -> in_u 32 time -> in_u 32 seq ->
    datagram (header KCPMUX_MSG_CONN_KEEPALIVE destination ++ write_u32 time ++ write_u32 seq)
| dg_conn_close type destination reason :
    type = KCPMUX_MSG_CONN_CLOSE \/ type = KCPMUX_MSG_CONN_CLOSE_ACK ->
    in_u 64 destination -> in_u 8 reason ->
    datagram (header type destination ++ [reason])
| dg_stream_close type destination id reason :
    type = KCPMUX_MSG_STREAM_CLOSE \/ type = KCPMUX_MSG_STREAM_CLOSE_ACK ->
    in_u 64 destination -> in_u 32 id -> in_u 8 reason ->
    datagram (header type destination ++ write_u32 id ++ [reason])
| dg_payload destination id data :
    in_u 64 destination -> in_u 32 id -> bytes data -> data <> [] ->
    Z.of_nat (length data) <= KCPMUX_PROTO_MSG_MAX_LEN - KCPMUX_PROTO_STREAM_HEADER_LEN ->
    datagram (header KCPMUX_MSG_STREAM_PAYLOAD destination ++ write_u32 id ++ data).

Lemma bytes_cons x l : in_u 8 x -> bytes l -> bytes (x :: l).
Proof. by constructor. Qed.
Lemma bytes_nil : bytes [].
Proof. constructor. Qed.
#[export] Hint Resolve bytes_cons bytes_nil : typed.

Lemma bytes_header T d : in_u 8 T -> bytes (header T d).
Proof. intros. apply bytes_cons; auto with typed. Qed.
#[export] Hint Resolve bytes_header : typed.

Lemma datagram_bytes b : datagram b -> bytes b.
Proof. destruct 1; try (destruct H as [-> | ->]); auto 10 with typed. Qed.

Lemma datagram_size b :
  datagram b -> KCPMUX_PROTO_COMMON_LEN < Z.of_nat (length b) <= KCPMUX_PROTO_MSG_MAX_LEN.
Proof.
  unfold KCPMUX_PROTO_COMMON_LEN, KCPMUX_PROTO_MSG_MAX_LEN.
  destruct 1; unfold KCPMUX_PROTO_EXT_MAX_LEN, KCPMUX_PROTO_MSG_MAX_LEN, KCPMUX_PROTO_STREAM_HEADER_LEN,
    KCPMUX_PROTO_COMMON_LEN in *; unfold header; repeat rewrite length_app;
    cbn [length]; rewrite ?write_u64_be, ?write_u32_be, ?write_u16_be, ?be_bytes_length; lia.
Qed.

(** ** Events *)

Definition conn_setter_typed (a : conn_setter) : Prop :=
  match a with SetConnConfig (Some c) => cconfig_typed c | _ => True end.
Definition stream_setter_typed (a : stream_setter) : Prop :=
  match a with SetStreamConfig (Some c) => sconfig_typed c | _ => True end.

(** What the engine tells the host, and what the host has answered. *)
Definition event_typed (ev : event) : Prop :=
  match ev with
  | EvTime now => in_i64 now
  | EvSetTimer delay => in_u 64 delay
  | EvWrite iov _ _ => datagram (flatten iov)
  | EvConnectNotify _ _ ext _ => ext_typed ext
  | EvConnClose _ _ reason _ | EvStreamClose _ _ reason _ => in_u 8 reason
  | _ => True
  end.

(** The host keeps to its prototypes: [int64_t] time, [uint8_t] data in an
    extension of 512 bytes, 32-bit configuration fields. *)
Class HostTyped (HO : Host) : Prop := {
  ht_time tr : in_i64 (host_monotonic_time_ms tr);
  ht_connect tr f c : ext_typed (cr_ext (host_conn_connect_notify tr f c)) /\
    Forall conn_setter_typed (cr_setters (host_conn_connect_notify tr f c));
  ht_create tr f s : Forall stream_setter_typed (sr_setters (host_stream_create_notify tr f s))
}.

Record world_typed {KO : Kcp} {KT : KcpTyped KO} (w : world K) : Prop := {
  wd_engine : engine_typed (w_engine w);
  wd_conns : map_Forall (fun _ => conn_typed) (w_conns w);
  wd_streams : map_Forall (fun _ => stream_typed) (w_streams w);
  wd_timers : timers_typed (w_timers w);
  wd_trace : Forall event_typed (w_trace w)
}.

#[export] Hint Resolve cct_ctrl cct_connect cct_close cct_interval cct_keepalive cct_idle sct_ctrl sct_close
  sct_drain sct_mss sct_pause sct_resume sct_batch xt_data xt_len et_conn_config et_stream_config et_next_id
  et_conn_count et_stats et_nodes et_deadline et_dispatch et_depth ct_local_id ct_peer_id ct_config
  ct_peer_ext ct_self_ext ct_stream_count ct_next_stream ct_latest ct_last_recv ct_last_keepalive ct_seq
  ct_created ct_last_payload ct_last_ctrl ct_retries ct_reason ct_stats st_id st_config st_kcp st_last_ctrl
  st_retries st_reason st_drain st_pending st_read_block st_write_block st_stats nt_deadline nt_sequence
  tt_sequence tt_capacity wd_engine wd_timers : typed.
