(* ===== verification/TypingRules.v ===== *)
(** * Rules for preservation of types

    The scheduler, and the accesses the other functions are made of.  The
    tactic [typed] applies the rules along the structure of a computation and
    discharges ranges from the database [typed]. *)

From S2P Require Import Prelude Keeps Types Timer ByteOrder Hashtable Vectored World Typing.
#[local] Open Scope Z_scope.

(** ** Closing ranges *)

#[global] Arguments wrap : simpl never.
#[global] Arguments inc64 : simpl never.
#[global] Arguments kcpmux_timer_deadline_after : simpl never.
#[global] Arguments add64 : simpl never.

Lemma in_i64_max a b : in_i64 a -> in_i64 b -> in_i64 (if a <? b then b else a).
Proof. by destruct (a <? b). Qed.

Lemma deadline_after_range a i : in_i64 a -> in_u 32 i -> in_i64 (kcpmux_timer_deadline_after a i).
Proof.
  unfold kcpmux_timer_deadline_after, in_i64, in_u. intros. assert (INT64_MAX = 2 ^ 63 - 1) by done.
  destruct (Z.ltb_spec (INT64_MAX - i) a); lia.
Qed.
#[export] Hint Resolve deadline_after_range : typed.
#[export] Hint Extern 6 (in_u 64 _) => apply (in_u_mono 32); [done|] : typed.
#[export] Hint Extern 4 (in_i64 ?z) => numeral z; solve [split; vm_compute; discriminate] : typed.

(** A structure after some of its fields were stored: the fields left alone
    keep their range. *)
Ltac split_forall :=
  repeat match goal with
  | H : Forall (in_u 64) (_ :: _) |- _ => apply list.Forall_cons in H as [? H]
  end.

Ltac in_range :=
  cbn;
  lazymatch goal with
  | |- in_u _ (wrap _ _) => apply in_u_wrap; done
  | |- in_u 64 (inc64 _) => apply in_u64_inc
  | |- in_u 64 (add64 _ _) => apply in_u64_add
  | |- _ => first [assumption | eauto 8 with typed]
  end.

Ltac range :=
  cbn;
  lazymatch goal with
  | |- estats_typed _ => first [assumption | unfold estats_typed in *; cbn; split_forall; repeat apply list.Forall_cons_2; try apply list.Forall_nil_2; in_range]
  | |- cstats_typed _ => first [assumption | unfold cstats_typed in *; cbn; split_forall; repeat apply list.Forall_cons_2; try apply list.Forall_nil_2; in_range]
  | |- sstats_typed _ => first [assumption | unfold sstats_typed in *; cbn; split_forall; repeat apply list.Forall_cons_2; try apply list.Forall_nil_2; in_range]
  | |- engine_typed _ => constructor; cbn; try range
  | |- conn_typed _ => constructor; cbn; try range
  | |- stream_typed _ => constructor; cbn; try range
  | |- node_typed _ => constructor; cbn; try range
  | |- in_u _ (if _ then _ else _) => case_match; range
  | |- in_i64 (if _ then _ else _) => case_match; range
  | |- forall k, None = Some k -> _ => intros ? [=]
  | |- forall k, Some _ = Some k -> _ => intros ? [= <-]; eauto 8 with typed
  | |- _ => in_range
  end.

(** ** The scheduler *)

Notation typable_timers := (keeps timers_typed).

Lemma ty_get_node n : typable_timers (get_node n) node_typed.
Proof. apply keeps_deref. intros t nd [Hn _ _] Hnd. exact (Hn n nd Hnd). Qed.

Lemma ty_mod_node n f :
  (forall nd, node_typed nd -> node_typed (f nd)) -> typable_timers (mod_node n f) (fun _ => True).
Proof.
  intros Hf. eapply keeps_bind; [apply ty_get_node|]. intros nd Hnd. apply keeps_modify; [done|].
  intros t [Hn Hs Hc]. constructor; cbn; [|done..]. apply map_Forall_insert_2; auto.
Qed.

Lemma ty_heap_at i : typable_timers (heap_at i) (fun _ => True).
Proof. by apply keeps_deref. Qed.
#[export] Hint Resolve ty_get_node ty_heap_at : typed.

Ltac typed_goal :=
  lazymatch goal with
  | |- keeps _ (mret _) _ => apply keeps_ret; try done; try solve [range]
  | |- keeps _ (match _ with _ => _ end ≫= _) _ => apply keeps_bind_any; [|intros ?]
  | |- keeps _ (when _ _ ≫= _) _ => apply keeps_bind_any; [|intros ?]
  | |- keeps _ (for_each _ _ ≫= _) _ => apply keeps_bind_any; [|intros ?]
  | |- keeps _ ((_ ≫= _) ≫= _) _ => apply keeps_bind_any; [|intros ?]
  | |- keeps _ (_ ≫= _) _ =>
      first [ eapply keeps_bind; [solve [eauto 8 with typed nocore]|]; cbv beta; intros ? ?
            | apply keeps_bind_any; [|intros ?] ]
  | |- keeps _ (when _ _) _ => apply keeps_when; intros ?
  | |- keeps _ (for_each _ _) _ => apply keeps_for_each; intros ? ?
  | |- keeps _ ub _ => apply keeps_ub
  | |- keeps _ (gets _) (fun _ => True) => by apply keeps_gets
  | |- keeps _ (deref _) (fun _ => True) => by apply keeps_deref
  | |- keeps _ (mod_node _ _) _ => apply ty_mod_node; intros ? []; range
  | |- keeps timers_typed (modify _) _ => apply keeps_modify; [done|intros ? []; constructor; range]
  | |- keeps _ (match _ with _ => _ end) _ => case_match
  | |- keeps _ (let _ := _ in _) _ => cbv zeta
  | |- keeps _ _ (fun _ => True) => eapply keeps_any; solve [eauto 8 with typed nocore]
  | |- keeps _ _ _ => solve [eauto 8 with typed nocore]
  end.
Ltac typed := repeat typed_goal.

Lemma ty_timer_less l r : typable_timers (kcpmux_timer_less l r) (fun _ => True).
Proof. unfold kcpmux_timer_less. typed. Qed.

Lemma ty_timer_set i n : typable_timers (kcpmux_timer_set i n) (fun _ => True).
Proof. unfold kcpmux_timer_set. typed. Qed.
#[export] Hint Resolve ty_timer_less ty_timer_set : typed.

Lemma ty_sift_up_loop fuel n i : typable_timers (sift_up_loop fuel n i) (fun _ => True).
Proof. revert i. induction fuel; intros i; cbn [sift_up_loop]; typed. Qed.
#[export] Hint Resolve ty_sift_up_loop : typed.

Lemma ty_sift_up i : typable_timers (kcpmux_timer_sift_up i) (fun _ => True).
Proof. unfold kcpmux_timer_sift_up. typed. Qed.

Lemma ty_select_child i : typable_timers (select_child i) (fun _ => True).
Proof. unfold select_child. typed. Qed.
#[export] Hint Resolve ty_sift_up ty_select_child : typed.

Lemma ty_sift_down_loop fuel n i : typable_timers (sift_down_loop fuel n i) (fun _ => True).
Proof. revert i. induction fuel; intros i; cbn [sift_down_loop]; typed. Qed.
#[export] Hint Resolve ty_sift_down_loop : typed.

Lemma ty_sift_down i : typable_timers (kcpmux_timer_sift_down i) (fun _ => True).
Proof. unfold kcpmux_timer_sift_down. typed. Qed.
#[export] Hint Resolve ty_sift_down : typed.

Lemma ty_remove_at i : typable_timers (kcpmux_timer_remove_at i) (fun _ => True).
Proof. unfold kcpmux_timer_remove_at. typed. Qed.

Lemma ty_node_init n o cb : typable_timers (kcpmux_timer_node_init n o cb) (fun _ => True).
Proof. unfold kcpmux_timer_node_init. typed. Qed.

Lemma reserve_grow_nonneg fuel n c : 0 <= n -> 0 <= c -> 0 <= reserve_grow fuel n c.
Proof.
  intros Hn Hc. revert n Hn. induction fuel as [|fuel IH]; intros n Hn; cbn; [done|].
  case_match; [|done]. case_match; [done|]. apply IH. lia.
Qed.

Lemma ty_reserve ok c : 0 <= c -> typable_timers (kcpmux_timer_manager_reserve ok c) (fun _ => True).
Proof.
  intros Hc. unfold kcpmux_timer_manager_reserve. eapply keeps_bind; [apply (keeps_gets _ tm_capacity (in_u 64)); by intros t []|].
  intros old [Hold _]. assert (Hr : 0 <= reserve_capacity old c).
  { apply reserve_grow_nonneg; [|done]. case_match; lia. }
  generalize dependent (reserve_capacity old c). intros n Hr. case_match; [typed|].
  destruct (Z.ltb_spec (SIZE_MAX / SIZEOF_PTR) n) as [|Hn]; [typed|].
  assert (in_u 64 n) by (change (SIZE_MAX / SIZEOF_PTR) with (2 ^ 61 - 1) in Hn; unfold in_u; lia). typed.
Qed.
#[export] Hint Resolve ty_remove_at ty_node_init : typed.

#[export] Hint Resolve ty_reserve : typed.
#[export] Hint Extern 4 (0 <= _) => lia : typed.

Lemma ty_due_unlink n : typable_timers (due_unlink n) (fun _ => True).
Proof. unfold due_unlink. typed. Qed.
#[export] Hint Resolve ty_due_unlink : typed.

Lemma ty_next_sequence : typable_timers (gets tm_next_sequence) (in_u 64).
Proof. apply keeps_gets. by intros t []. Qed.
#[export] Hint Resolve ty_next_sequence : typed.

Lemma ty_timer_schedule ok n d :
  in_i64 d -> typable_timers (kcpmux_timer_schedule ok n d) (fun _ => True).
Proof.
  intros Hd. unfold kcpmux_timer_schedule. eapply keeps_bind; [apply ty_get_node|]. intros nd _.
  case_match; [typed|].
  eapply keeps_bind; [apply (keeps_gets _ _ (fun z => 0 <= z)); intros; lia|]. intros size Hsize. cbv beta in Hsize. typed.
Qed.

Lemma ty_timer_cancel n : typable_timers (kcpmux_timer_cancel n) (fun _ => True).
Proof. unfold kcpmux_timer_cancel. typed. Qed.

Lemma ty_timer_peek : typable_timers kcpmux_timer_peek (fun _ => True).
Proof. by apply keeps_gets. Qed.
#[export] Hint Resolve ty_timer_schedule ty_timer_cancel ty_timer_peek : typed.

Lemma ty_collect_loop fuel now : typable_timers (collect_due_loop fuel now) (fun _ => True).
Proof. induction fuel; cbn [collect_due_loop]; typed. Qed.
#[export] Hint Resolve ty_collect_loop : typed.

Lemma ty_collect_due now : typable_timers (kcpmux_timer_collect_due now) (fun _ => True).
Proof. unfold kcpmux_timer_collect_due. typed. Qed.
#[export] Hint Resolve ty_collect_due : typed.

(** ** The world *)

Section world.
Context {KO : Kcp} {KT : KcpTyped KO} {HO : Host} {HT : HostTyped HO}.
Implicit Types (c s : positive) (w : world K).

Lemma ty_get_engine : keeps world_typed get_engine engine_typed.
Proof. apply keeps_gets. by intros w []. Qed.

Lemma ty_get_conn c : keeps world_typed (get_conn c) conn_typed.
Proof. apply keeps_deref. intros w k [_ Hc _ _ _] Hk. exact (Hc c k Hk). Qed.

Lemma ty_get_stream s : keeps world_typed (get_stream s) stream_typed.
Proof. apply keeps_deref. intros w st [_ _ Hs _ _] Hst. exact (Hs s st Hst). Qed.

Lemma ty_mod_engine f :
  (forall e, engine_typed e -> engine_typed (f e)) -> keeps world_typed (mod_engine f) (fun _ => True).
Proof. intros Hf. apply keeps_modify; [done|]. intros w []. constructor; cbn; auto. Qed.

Lemma ty_mod_stats f :
  (forall x, estats_typed x -> estats_typed (f x)) -> keeps world_typed (mod_stats f) (fun _ => True).
Proof. intros Hf. apply ty_mod_engine. intros e []. constructor; cbn; auto. Qed.

Lemma ty_mod_conn c f :
  (forall k, conn_typed k -> conn_typed (f k)) -> keeps world_typed (mod_conn c f) (fun _ => True).
Proof.
  intros Hf. eapply keeps_bind; [apply ty_get_conn|]. intros k Hk. apply keeps_modify; [done|].
  intros w []. constructor; cbn; try done. apply map_Forall_insert_2; auto.
Qed.

Lemma ty_mod_stream s f :
  (forall st, stream_typed st -> stream_typed (f st)) -> keeps world_typed (mod_stream s f) (fun _ => True).
Proof.
  intros Hf. eapply keeps_bind; [apply ty_get_stream|]. intros st Hst. apply keeps_modify; [done|].
  intros w []. constructor; cbn; try done. apply map_Forall_insert_2; auto.
Qed.

Lemma ty_in_timers {A} (m : M timers A) P : keeps timers_typed m P -> keeps world_typed (in_timers m) P.
Proof.
  apply keeps_zoom; [by intros w []|]. intros w t [] Ht. by constructor.
Qed.

Lemma ty_in_trace {A} (m : M trace A) P :
  keeps (Forall event_typed) m P -> keeps world_typed (in_trace m) P.
Proof. apply keeps_zoom; [by intros w []|]. intros w t [] Ht. by constructor. Qed.

Lemma ty_ask_tr {A} (f : trace -> A) rec (P : A -> Prop) :
  (forall tr, P (f tr)) -> (forall tr, event_typed (rec (f tr))) ->
  keeps (Forall event_typed) (ask_tr f rec) P.
Proof. intros HP He tr Htr a tr' [= <- <-]. split; [apply HP|]. by constructor. Qed.

Lemma ty_ask {A} (f : trace -> A) rec (P : A -> Prop) :
  (forall tr, P (f tr)) -> (forall tr, event_typed (rec (f tr))) -> keeps world_typed (ask f rec) P.
Proof. intros HP He. by apply ty_in_trace, ty_ask_tr. Qed.

Lemma ty_emit ev : event_typed ev -> keeps world_typed (emit ev) (fun _ => True).
Proof. intros He. apply keeps_modify; [done|]. intros w []. constructor; cbn; try done. by constructor. Qed.

Lemma ty_alloc : keeps world_typed alloc (fun _ => True).
Proof. by apply ty_ask. Qed.

Lemma ty_htb_new_tr n : keeps (Forall event_typed) (htb_new_tr n) (fun _ => True).
Proof.
  unfold htb_new_tr. apply keeps_bind_any; [by apply ty_ask_tr|]. intros a.
  apply keeps_bind_any; [|intros b; by apply keeps_ret]. destruct a; [by apply ty_ask_tr|by apply keeps_ret].
Qed.

Lemma ty_htb_new n : keeps world_typed (htb_new n) (fun _ => True).
Proof. apply ty_in_trace, ty_htb_new_tr. Qed.
End world.

#[export] Hint Resolve ty_get_engine ty_get_conn ty_get_stream ty_in_timers ty_alloc
  ty_htb_new ty_emit : typed.
#[export] Hint Extern 2 (event_typed _) => cbn [event_typed]; solve [exact I | range] : typed.

Ltac typed_world :=
  lazymatch goal with
  | |- keeps _ (mod_engine _) _ => apply ty_mod_engine; intros ? []; range
  | |- keeps _ (mod_stats _) _ => apply ty_mod_stats; intros ? ?; range
  | |- keeps _ (mod_conn _ _) _ => apply ty_mod_conn; intros ? []; range
  | |- keeps _ (mod_stream _ _) _ => apply ty_mod_stream; intros ? []; range
  | |- keeps _ (in_timers (mod_node _ _)) _ => apply ty_in_timers
  | |- keeps _ (in_timers (modify _)) _ => apply ty_in_timers
  | |- keeps world_typed (modify _) _ => apply keeps_modify; [done|intros ? []; by constructor]
  | |- _ => typed_goal
  end.
Ltac typed ::= repeat typed_world.
