(* ===== verification/TypingCalls.v ===== *)
(** * Types are preserved by engine services, connections and streams

    One lemma per function of src/kcpmux_engine.c, src/kcpmux_conn.c and
    src/kcpmux_stream.c, with the ranges its arguments need and, where it
    matters, the range of its result. *)

From S2P Require Import Prelude Keeps Types Timer ByteOrder Hashtable Vectored World Engine Conn Messages Stream Typing TypingRules.
#[local] Open Scope Z_scope.

Section calls.
Context {KO : Kcp} {KT : KcpTyped KO} {HO : Host} {HT : HostTyped HO}.
Implicit Types (c s : positive) (w : world K).

Notation typable m := (keeps world_typed m (fun _ => True)).

(** ** Engine services *)

Lemma ty_now : keeps world_typed kcpmux_engine_now in_i64.
Proof. apply ty_ask; intros; apply ht_time. Qed.

Lemma ty_random_tr cb : keeps (Forall event_typed) (random_u64_tr cb) (in_u 64).
Proof.
  unfold random_u64_tr. destruct (ecb_random_u64 cb); [apply ty_ask_tr; [intros; apply in_u64_wrap|done]|].
  apply keeps_bind_any; [by apply ty_ask_tr|intros hi]. apply keeps_bind_any; [by apply ty_ask_tr|intros lo].
  apply keeps_ret, in_u_lor; [done| |apply (in_u_mono 32); [done|apply in_u32_wrap]].
  pose proof (in_u32_wrap hi) as H. unfold in_u in *. rewrite Z.shiftl_mul_pow2 by done. lia.
Qed.

Lemma ty_random cb : keeps world_typed (kcpmux_engine_random_u64 cb) (in_u 64).
Proof. apply ty_in_trace, ty_random_tr. Qed.
#[local] Hint Resolve ty_now ty_random : typed.

Lemma ty_add_conn c : typable (kcpmux_engine_add_conn c).
Proof. unfold kcpmux_engine_add_conn. typed. Qed.

Lemma ty_remove_conn c : typable (kcpmux_engine_remove_conn c).
Proof. unfold kcpmux_engine_remove_conn. typed. Qed.

Lemma ty_get_conn_by_id a i : typable (kcpmux_engine_get_conn_by_id a i).
Proof. unfold kcpmux_engine_get_conn_by_id. typed. Qed.

Lemma ty_get_passive_conn a i : typable (kcpmux_engine_get_passive_conn a i).
Proof. unfold kcpmux_engine_get_passive_conn. typed. Qed.

Lemma ty_rearm now : typable (kcpmux_engine_rearm_timer now).
Proof. unfold kcpmux_engine_rearm_timer. typed. Qed.
#[local] Hint Resolve ty_add_conn ty_remove_conn ty_get_conn_by_id ty_get_passive_conn
  ty_rearm : typed.

(** ** Memory *)

Lemma ty_free_obj o : typable (free_obj o).
Proof.
  unfold free_obj. apply keeps_bind_any; [|intros ?; typed]. apply keeps_modify; [done|].
  intros w [He Hk Hs [Hn ? ?] Ht]. destruct o; constructor; cbn; try done; try by apply map_Forall_delete.
  all: constructor; cbn; [by apply map_Forall_delete|done..].
Qed.

Lemma zero_ext_typed : ext_typed proto_ext_zero.
Proof. constructor; [done| |done]. apply list.Forall_replicate. done. Qed.

Lemma zero_conn_typed : conn_typed conn_zero.
Proof. constructor; try exact zero_ext_typed; range; constructor; range. Qed.

Lemma zero_stream_typed c : stream_typed (stream_zero c).
Proof. constructor; range; constructor; range. Qed.

Lemma zero_node_typed : node_typed timer_node_zero.
Proof. constructor; range. Qed.
#[local] Hint Resolve zero_conn_typed zero_stream_typed zero_node_typed zero_ext_typed : typed.

Lemma ty_malloc_conn : typable malloc_conn.
Proof.
  unfold malloc_conn. typed. apply keeps_modify; [done|]. intros w [He Hk Hs [Hn ? ?] Ht].
  constructor; cbn; try done; [apply map_Forall_insert_2; auto with typed|].
  constructor; cbn; try done. apply map_Forall_insert_2; auto with typed.
Qed.

Lemma ty_malloc_stream c : typable (malloc_stream c).
Proof.
  unfold malloc_stream. typed. apply keeps_modify; [done|]. intros w [He Hk Hs [Hn ? ?] Ht].
  constructor; cbn; try done; [apply map_Forall_insert_2; auto with typed|].
  constructor; cbn; try done. apply map_Forall_insert_2; auto with typed.
Qed.
#[local] Hint Resolve ty_free_obj ty_malloc_conn ty_malloc_stream : typed.

Lemma ty_conn_release c : typable (kcpmux_conn_release c).
Proof. unfold kcpmux_conn_release. typed. Qed.

Lemma ty_stream_free s : typable (kcpmux_stream_free s).
Proof. unfold kcpmux_stream_free. typed. Qed.
#[local] Hint Resolve ty_conn_release ty_stream_free : typed.

Lemma ty_drain_loop n : typable (drain_loop n).
Proof. induction n; cbn [drain_loop]; unfold release_cb; typed. Qed.
#[local] Hint Resolve ty_drain_loop : typed.

Lemma ty_drain : typable kcpmux_engine_drain_pending_release.
Proof. unfold kcpmux_engine_drain_pending_release. typed. Qed.

Lemma ty_enter : typable kcpmux_engine_operation_enter.
Proof. unfold kcpmux_engine_operation_enter. typed. Qed.
#[local] Hint Resolve ty_drain ty_enter : typed.

Lemma ty_leave : typable kcpmux_engine_operation_leave.
Proof.
  unfold kcpmux_engine_operation_leave. eapply keeps_bind; [apply (keeps_gets _ _ (in_u 32)); by intros w [[] ? ? ? ?]|].
  intros d Hd. destruct (Z.eqb_spec d 0) as [|Hne]; [typed|].
  assert (in_u 32 (d - 1)) by (unfold in_u in *; lia). typed.
Qed.

Lemma ty_queue_release o : typable (kcpmux_engine_queue_release o).
Proof. unfold kcpmux_engine_queue_release. typed. Qed.

(** ** Timer nodes *)

Lemma ty_reserve_alloc n : typable (reserve_alloc n).
Proof. unfold reserve_alloc. typed. Qed.
#[local] Hint Resolve ty_leave ty_queue_release ty_reserve_alloc : typed.

(** While the engine is that of an earlier read, what was read still holds. *)
Definition from_engine {A} (e : engine) (m : W A) : Prop := forall w,
  world_typed w -> w_engine w = e -> wlp m (fun _ w' => world_typed w') w.

Lemma from_engine_bind {A B} e (m : W A) (f : A -> W B) :
  (forall w a w', m w = Some (a, w') -> w_engine w' = w_engine w) -> typable m ->
  (forall a, from_engine e (f a)) -> from_engine e (m ≫= f).
Proof.
  intros Hsame Hm Hf w Hw He. apply wlp_bind. intros a w' Hrun. destruct (Hm w Hw a w' Hrun) as [_ Hw'].
  apply Hf; [done|]. by rewrite (Hsame _ _ _ Hrun).
Qed.

Lemma from_engine_keeps {A} e (m : W A) : typable m -> from_engine e m.
Proof. intros Hm w Hw _. eapply wlp_mono; [by apply Hm|]. by intros a w' [_ ?]. Qed.

Lemma in_timers_engine {A} (m : M timers A) w a w' : in_timers m w = Some (a, w') -> w_engine w' = w_engine w.
Proof. unfold in_timers, zoom. destruct (m _) as [[? ?]|]; [|done]. by intros [= <- <-]. Qed.

Lemma reserve_alloc_engine n w a w' : reserve_alloc n w = Some (a, w') -> w_engine w' = w_engine w.
Proof.
  unfold reserve_alloc, gets, mbind, M_bind. cbn. destruct (reserve_reallocs n _); by intros [= <- <-].
Qed.

Lemma ty_register o cb : typable (kcpmux_engine_register_timer_node o cb).
Proof.
  intros w Hw. apply wlp_bind, wlp_gets. pose proof (et_nodes _ (wd_engine _ Hw)) as Hn.
  destruct (Z.ltb_spec (SIZE_MAX - 2) (e_timer_node_count (w_engine w))) as [|Hle]; [by apply wlp_ret|].
  apply (wlp_mono _ (fun _ w' => world_typed w')); [|by intros a w' Hw'; split]. cbv zeta.
  set (e := w_engine w) in *. assert (He : w_engine w = e) by done. clearbody e. revert w Hw He.
  apply from_engine_bind; [apply reserve_alloc_engine|typed|intros ok].
  apply from_engine_bind; [apply in_timers_engine| |intros ret].
  { apply ty_in_timers, ty_reserve. unfold in_u in Hn. lia. }
  case_match; [apply from_engine_keeps; typed|].
  apply from_engine_bind; [apply in_timers_engine|typed|intros _].
  intros w [[] ? ? ? ?] He. apply wlp_bind, wlp_modify, wlp_ret. constructor; cbn; try done.
  constructor; cbn; try done. rewrite He. unfold in_u in *. change SIZE_MAX with (2 ^ 64 - 1) in Hle. lia.
Qed.

Lemma ty_unregister o : typable (kcpmux_engine_unregister_timer_node o).
Proof.
  unfold kcpmux_engine_unregister_timer_node. typed.
  match goal with H : (0 <? _) = true |- _ => apply Z.ltb_lt in H end. unfold in_u in *. lia.
Qed.

Lemma ty_timer_schedule_world o d : in_i64 d -> typable (timer_schedule o d).
Proof. intros Hd. unfold timer_schedule. typed. Qed.
#[local] Hint Resolve ty_register ty_unregister ty_timer_schedule_world : typed.

Lemma ty_schedule o d now :
  in_i64 d -> in_i64 now -> typable (kcpmux_engine_schedule_timer_node o d now).
Proof.
  intros Hd Hnow. unfold kcpmux_engine_schedule_timer_node.
  pose proof (in_i64_max d now Hd Hnow). typed.
Qed.

Lemma ty_cancel o now : typable (kcpmux_engine_cancel_timer_node o now).
Proof. unfold kcpmux_engine_cancel_timer_node. typed. Qed.
#[local] Hint Resolve ty_schedule ty_cancel : typed.

(** ** Socket output *)

Lemma ty_write_socketv iov a : datagram (flatten iov) -> typable (kcpmux_engine_write_socketv iov a).
Proof.
  intros Hd. unfold kcpmux_engine_write_socketv. typed. apply ty_ask; [trivial|intros; exact Hd].
Qed.
#[local] Hint Resolve ty_write_socketv : typed.

(** ** Connections *)

Lemma calculate_deadline_range k d :
  conn_typed k -> kcpmux_conn_calculate_deadline k = Some d -> in_i64 d.
Proof.
  intros Hk. unfold kcpmux_conn_calculate_deadline. destruct (c_internal_closed k); [done|]. cbv zeta.
  set (x := match c_state k with CONN_INIT => _ | _ => _ end). assert (Hx : in_i64 x).
  { unfold x. repeat case_match; auto 6 with typed. }
  clearbody x. destruct (_ =? _); [done|]. by intros [= <-].
Qed.
#[local] Hint Resolve calculate_deadline_range : typed.

Lemma ty_conn_refresh c now : in_i64 now -> typable (kcpmux_conn_refresh_timer c now).
Proof. intros Hnow. unfold kcpmux_conn_refresh_timer. typed. Qed.
#[local] Hint Resolve ty_conn_refresh : typed.

Lemma ty_conn_set_state c x : typable (kcpmux_conn_set_state c x).
Proof. unfold kcpmux_conn_set_state. typed. Qed.

Lemma ty_note_receive c now p : in_i64 now -> typable (kcpmux_conn_note_receive c now p).
Proof. intros Hnow. unfold kcpmux_conn_note_receive. typed. Qed.

Lemma first_stream_id_range i r : in_u 32 (first_stream_id i r).
Proof.
  unfold first_stream_id. destruct i; [apply in_u_lor; auto with typed; done|].
  case_match; [auto with typed|]. apply in_u_land; auto with typed; done.
Qed.
#[local] Hint Resolve ty_conn_set_state ty_note_receive first_stream_id_range : typed.

Lemma conn_prepare_range x y : kcpmux_conn_config_prepare x = Some y -> cconfig_typed x -> cconfig_typed y.
Proof.
  unfold kcpmux_conn_config_prepare. case_match; [done|]. cbv zeta. intros [= <-] [].
  case_match; constructor; range.
Qed.

Lemma stream_prepare_range x y : kcpmux_stream_config_prepare x = Some y -> sconfig_typed x -> sconfig_typed y.
Proof. unfold kcpmux_stream_config_prepare. case_match; [done|]. by intros [= <-]. Qed.

Definition config_arg {A} (P : A -> Prop) (x : option A) : Prop := from_option P True x.

Lemma default_arg {A} (P : A -> Prop) d x : P d -> config_arg P x -> P (default d x).
Proof. by destruct x. Qed.

Lemma ty_conn_new a cfg i : config_arg cconfig_typed cfg -> typable (kcpmux_conn_new a cfg i).
Proof.
  intros Hcfg. unfold kcpmux_conn_new. typed.
  all: match goal with H : kcpmux_conn_config_prepare _ = Some _ |- _ =>
    apply conn_prepare_range in H; [|apply default_arg; auto with typed] end; typed; done.
Qed.
#[local] Hint Resolve ty_conn_new : typed.

Lemma ty_add_stream c s : typable (kcpmux_conn_add_stream c s).
Proof. unfold kcpmux_conn_add_stream. typed. Qed.

Lemma ty_remove_stream c s : typable (kcpmux_conn_remove_stream c s).
Proof. unfold kcpmux_conn_remove_stream. typed. Qed.

Lemma ty_get_stream_by_id c i : typable (kcpmux_conn_get_stream_by_id c i).
Proof. unfold kcpmux_conn_get_stream_by_id. typed. Qed.
#[local] Hint Resolve ty_add_stream ty_remove_stream ty_get_stream_by_id : typed.

Lemma ty_alloc_loop n c : keeps world_typed (alloc_stream_id_loop n c) (in_u 32).
Proof.
  induction n; cbn [alloc_stream_id_loop]; typed. 
Qed.
#[local] Hint Resolve ty_alloc_loop : typed.

Lemma ty_alloc_stream_id c : keeps world_typed (kcpmux_conn_alloc_stream_id c) (in_u 32).
Proof. unfold kcpmux_conn_alloc_stream_id. typed. Qed.

Lemma ty_conn_writev c iov : datagram (flatten iov) -> typable (kcpmux_conn_write_socketv c iov).
Proof. intros Hd. unfold kcpmux_conn_write_socketv. typed. Qed.

Lemma ty_conn_write c b : datagram b -> typable (kcpmux_conn_write_socket c b).
Proof.
  intros Hd. apply ty_conn_writev. unfold flatten, iov_bytes. cbn.
  by rewrite Nat2Z.id, take_ge, app_nil_r by done.
Qed.
#[local] Hint Resolve ty_alloc_stream_id ty_conn_writev ty_conn_write : typed.

Lemma ty_conn_set_config oc cfg : config_arg cconfig_typed cfg -> typable (kcpmux_conn_set_config oc cfg).
Proof.
  intros Hcfg. unfold kcpmux_conn_set_config. destruct oc as [c|], cfg as [cfg|]; typed.
  by eapply conn_prepare_range.
Qed.

Lemma ty_conn_set_callbacks oc cbs ud : typable (kcpmux_conn_set_callbacks oc cbs ud).
Proof. unfold kcpmux_conn_set_callbacks. typed. Qed.

(** ** Messages *)

Lemma read_ext_bytes x l :
  ext_typed x -> (if 0 <? pe_len x then read_bytes_at (Some (pe_data x)) 0 (pe_len x) else Some []) = Some l ->
  bytes l /\ Z.of_nat (length l) = pe_len x /\ pe_len x <= KCPMUX_PROTO_EXT_MAX_LEN.
Proof.
  intros [Hs Hb [Hl _]]. destruct (Z.ltb_spec 0 (pe_len x)).
  - intros Hr. split; [by eapply bytes_read|]. cbn in Hr. destruct (Z.leb_spec (0 + pe_len x) (Z.of_nat (length (pe_data x)))); [|done].
    injection Hr as <-. rewrite length_take, drop_0. lia.
  - intros [= <-]. split; [auto with typed|]. cbn. unfold KCPMUX_PROTO_EXT_MAX_LEN. lia.
Qed.

Lemma u16_small n : 0 <= n <= KCPMUX_PROTO_EXT_MAX_LEN -> u16 n = n.
Proof. intros. apply wrap_small. unfold in_u, KCPMUX_PROTO_EXT_MAX_LEN in *. lia. Qed.

Lemma connect_datagram k b : conn_typed k -> conn_connect_msg k = Some b -> datagram b.
Proof.
  intros Hk. unfold conn_connect_msg. cbv zeta. match goal with |- context [if ?b then ?x else ?y] => destruct (if b then x else y) as [l|] eqn:E end; [|done].
  cbn -[write_common write_u64 write_u16].
  apply read_ext_bytes in E as (Hb & Hl & Hm); [|auto with typed]. rewrite u16_small, <- Hl by lia. intros [= <-].
  apply dg_connect; auto with typed. lia.
Qed.

Lemma connect_ack_datagram k r b :
  conn_typed k -> in_u 8 r -> conn_connect_ack_msg k r = Some b -> datagram b.
Proof.
  intros Hk Hr. unfold conn_connect_ack_msg. cbv zeta. match goal with |- context [if ?b then ?x else ?y] => destruct (if b then x else y) as [l|] eqn:E end; [|done].
  cbn -[write_common write_u64 write_u16].
  apply read_ext_bytes in E as (Hb & Hl & Hm); [|auto with typed]. rewrite u16_small, <- Hl by lia. intros [= <-].
  apply (dg_connect_ack (c_peer_connection_id k)); auto with typed. lia.
Qed.

Lemma keepalive_datagram k now : conn_typed k -> datagram (conn_keepalive_msg k now).
Proof. intros Hk. apply (dg_keepalive (c_peer_connection_id k)); auto with typed. Qed.

Lemma conn_close_datagram T k r :
  T = KCPMUX_MSG_CONN_CLOSE \/ T = KCPMUX_MSG_CONN_CLOSE_ACK -> conn_typed k -> in_u 8 r ->
  datagram (conn_close_msg T k r).
Proof.
  intros HT' Hk Hr. unfold conn_close_msg, write_common. assert ((T =? KCPMUX_MSG_CONN_CONNECT) = false) as -> by (by destruct HT' as [-> | ->]).
  apply dg_conn_close; auto with typed.
Qed.

Lemma stream_close_datagram T k id r :
  T = KCPMUX_MSG_STREAM_CLOSE \/ T = KCPMUX_MSG_STREAM_CLOSE_ACK -> conn_typed k -> in_u 32 id -> in_u 8 r ->
  datagram (stream_close_msg T k id r).
Proof.
  intros HT' Hk Hid Hr. unfold stream_close_msg, write_common.
  assert ((T =? KCPMUX_MSG_CONN_CONNECT) = false) as -> by (by destruct HT' as [-> | ->]). apply dg_stream_close; auto with typed.
Qed.

Lemma payload_datagram k id b :
  conn_typed k -> in_u 32 id -> bytes b -> b <> [] ->
  Z.of_nat (length b) <= KCPMUX_PROTO_MSG_MAX_LEN - KCPMUX_PROTO_STREAM_HEADER_LEN ->
  datagram (flatten [mk_iovec (Some (stream_payload_header k id)) KCPMUX_PROTO_STREAM_HEADER_LEN;
                     mk_iovec (Some b) (Z.of_nat (length b))]).
Proof.
  intros Hk Hid Hb Hne Hl. unfold flatten, iov_bytes. cbn -[stream_payload_header KCPMUX_PROTO_STREAM_HEADER_LEN].
  rewrite Nat2Z.id, (take_ge b), app_nil_r by done.
  replace (take _ (stream_payload_header k id)) with (stream_payload_header k id) by done.
  unfold stream_payload_header. rewrite <- app_assoc. apply (dg_payload (c_peer_connection_id k)); auto with typed.
Qed.
#[local] Hint Resolve keepalive_datagram conn_close_datagram stream_close_datagram : typed.
#[local] Hint Extern 3 (_ = _ \/ _ = _) => solve [by left|by right] : typed.

Lemma ty_send_connect_msg c : typable (kcpmux_protocol_send_conn_connect c).
Proof.
  unfold kcpmux_protocol_send_conn_connect. eapply keeps_bind; [apply ty_get_conn|]. intros k Hk.
  cbv zeta. case_match; [typed|]. eapply keeps_bind.
  - apply (keeps_deref _ _ datagram). intros w b _. by apply connect_datagram.
  - intros b Hb. typed.
Qed.

Lemma ty_send_connect_ack_msg c r : in_u 8 r -> typable (kcpmux_protocol_send_conn_connect_ack c r).
Proof.
  intros Hr. unfold kcpmux_protocol_send_conn_connect_ack. eapply keeps_bind; [apply ty_get_conn|]. intros k Hk.
  cbv zeta. case_match; [typed|]. eapply keeps_bind.
  - apply (keeps_deref _ _ datagram). intros w b _. by apply connect_ack_datagram.
  - intros b Hb. typed.
Qed.

Lemma ty_send_keepalive_msg c : typable (kcpmux_protocol_send_conn_keepalive c).
Proof. unfold kcpmux_protocol_send_conn_keepalive. typed. Qed.

Lemma ty_send_conn_close_msg c r : in_u 8 r -> typable (kcpmux_protocol_send_conn_close c r).
Proof. intros Hr. unfold kcpmux_protocol_send_conn_close. typed. Qed.

Lemma ty_send_conn_close_ack_msg c r : in_u 8 r -> typable (kcpmux_protocol_send_conn_close_ack c r).
Proof. intros Hr. unfold kcpmux_protocol_send_conn_close_ack. typed. Qed.

Lemma ty_send_stream_close_msg s r : in_u 8 r -> typable (kcpmux_protocol_send_stream_close s r).
Proof. intros Hr. unfold kcpmux_protocol_send_stream_close. typed. Qed.

Lemma ty_send_stream_close_ack_msg s r : in_u 8 r -> typable (kcpmux_protocol_send_stream_close_ack s r).
Proof. intros Hr. unfold kcpmux_protocol_send_stream_close_ack. typed. Qed.

(** The size of a buffer of KCP is an [int], so that [msg_len] is exact. *)
Lemma ty_send_payload s b :
  bytes b -> Z.of_nat (length b) <= INT_MAX -> typable (kcpmux_protocol_send_stream_payload s b).
Proof.
  intros Hb Hl. unfold kcpmux_protocol_send_stream_payload. case_bool_decide as Hne; [typed|].
  eapply keeps_bind; [apply ty_get_stream|]. intros st Hst. eapply keeps_bind; [apply ty_get_conn|]. intros k Hk.
  cbv zeta. rewrite wrap_small; [|unfold in_u, INT_MAX, KCPMUX_PROTO_STREAM_HEADER_LEN, KCPMUX_PROTO_COMMON_LEN in *; lia].
  destruct (Z.ltb_spec KCPMUX_PROTO_MSG_MAX_LEN (KCPMUX_PROTO_STREAM_HEADER_LEN + Z.of_nat (length b))); [typed|].
  apply ty_conn_writev, payload_datagram; eauto with typed. lia.
Qed.
#[local] Hint Resolve ty_send_connect_msg ty_send_connect_ack_msg ty_send_keepalive_msg ty_send_conn_close_msg
  ty_send_conn_close_ack_msg ty_send_stream_close_msg ty_send_stream_close_ack_msg : typed.

Lemma ty_send_connect c : typable (kcpmux_conn_send_connect c).
Proof. unfold kcpmux_conn_send_connect. typed. Qed.

Lemma ty_send_keepalive c : typable (kcpmux_conn_send_keepalive c).
Proof. unfold kcpmux_conn_send_keepalive. typed. Qed.

Lemma ty_send_close c r : in_u 8 r -> typable (kcpmux_conn_send_close c r).
Proof. intros Hr. unfold kcpmux_conn_send_close. typed. Qed.

Lemma ty_send_connect_ack c r : in_u 8 r -> typable (kcpmux_conn_send_connect_ack c r).
Proof. apply ty_send_connect_ack_msg. Qed.

Lemma ty_send_close_ack c r : in_u 8 r -> typable (kcpmux_conn_send_close_ack c r).
Proof. apply ty_send_conn_close_ack_msg. Qed.
End calls.

#[export] Hint Resolve ty_now ty_random ty_add_conn ty_remove_conn ty_get_conn_by_id ty_get_passive_conn ty_rearm
  ty_free_obj ty_malloc_conn ty_malloc_stream ty_enter ty_leave ty_queue_release ty_register ty_unregister
  ty_schedule ty_cancel ty_conn_refresh ty_conn_set_state ty_note_receive ty_conn_new ty_add_stream
  ty_remove_stream ty_get_stream_by_id ty_alloc_stream_id ty_conn_set_config ty_conn_set_callbacks
  ty_send_connect ty_send_keepalive ty_send_close ty_send_connect_ack ty_send_close_ack
  ty_send_stream_close_msg ty_send_stream_close_ack_msg zero_ext_typed : typed.
