(* ===== verification/TypingStream.v ===== *)
(** * Types are preserved by streams (src/kcpmux_stream.c) *)

From S2P Require Import Prelude Keeps Types Timer ByteOrder Hashtable Vectored World Engine Conn Messages Stream Typing TypingRules TypingCalls.
#[local] Open Scope Z_scope.

Section stream.
Context {KO : Kcp} {KT : KcpTyped KO} {HO : Host} {HT : HostTyped HO}.
Implicit Types (c s : positive) (w : world K).

Notation typable m := (keeps world_typed m (fun _ => True)).

Lemma ty_stream_conn s : keeps world_typed (stream_conn s) conn_typed.
Proof. unfold stream_conn. typed. Qed.

Lemma ty_get_kcp s : keeps world_typed (get_kcp s) kt_ok.
Proof.
  unfold get_kcp. eapply keeps_bind; [apply ty_get_stream|]. intros st Hst.
  apply keeps_deref. intros w k _. by apply st_kcp.
Qed.
#[local] Hint Resolve ty_stream_conn ty_get_kcp : typed.

Lemma ty_mark_read_blocked s now : in_i64 now -> typable (kcpmux_stream_mark_read_blocked s now).
Proof. intros Hnow. unfold kcpmux_stream_mark_read_blocked. typed. Qed.

Lemma ty_clear_pending s : typable (kcpmux_stream_clear_pending s).
Proof. unfold kcpmux_stream_clear_pending, batch_linked, batch_unlink. typed. Qed.
#[local] Hint Resolve ty_mark_read_blocked ty_clear_pending : typed.

Lemma ty_schedule_finalize s r now :
  in_u 8 r -> in_i64 now -> typable (kcpmux_stream_schedule_finalize s r now).
Proof. intros Hr Hnow. unfold kcpmux_stream_schedule_finalize. typed. Qed.

Lemma ty_accumulate s now : in_i64 now -> typable (kcpmux_stream_accumulate_update s now).
Proof. intros Hnow. unfold kcpmux_stream_accumulate_update, batch_unlink. typed. Qed.
#[local] Hint Resolve ty_schedule_finalize ty_accumulate : typed.

(** ** KCP *)

Lemma ty_kcp_output s b : bytes b -> Z.of_nat (length b) <= INT_MAX -> typable (kcp_output s b).
Proof. intros Hb Hl. pose proof (ty_send_payload s b Hb Hl). unfold kcp_output. typed. Qed.

Lemma ty_run_kact {R} s (a : kact K R) P : kact_typed kt_ok P a -> keeps world_typed (run_kact s a) P.
Proof.
  induction a as [k r|b cont IH]; cbn [kact_typed run_kact].
  - intros [Hk Hr]. apply keeps_bind_any; [typed|]. intros _. by apply keeps_ret.
  - intros (Hb & Hl & Hc). apply keeps_bind_any; [by apply ty_kcp_output|]. intros r. by apply IH.
Qed.

Lemma ty_ops_send s b : bytes b -> typable (ops_send s b).
Proof.
  intros Hb. eapply keeps_bind; [apply ty_get_kcp|]. intros k Hk. apply ty_run_kact. by apply kt_send.
Qed.

Lemma ty_ops_input s b : bytes b -> typable (ops_input s b).
Proof.
  intros Hb. eapply keeps_bind; [apply ty_get_kcp|]. intros k Hk. apply ty_run_kact. by apply kt_input.
Qed.

Lemma ty_ops_update s now : in_i64 now -> typable (ops_update s now).
Proof.
  intros Hnow. eapply keeps_bind; [apply ty_get_kcp|]. intros k Hk. apply ty_run_kact. by apply kt_update.
Qed.

Lemma ty_ops_current s now : in_i64 now -> typable (ops_current_update s now).
Proof.
  intros Hnow. eapply keeps_bind; [apply ty_get_kcp|]. intros k Hk. pose proof (kt_current k now Hk Hnow). typed.
Qed.

Lemma ty_ops_check s now : in_i64 now -> keeps world_typed (ops_check s now) in_i64.
Proof.
  intros Hnow. eapply keeps_bind; [apply ty_get_kcp|]. intros k Hk. apply keeps_ret. by apply kt_check.
Qed.

Lemma ty_ops_waitsnd s : typable (ops_waitsnd s).
Proof. unfold ops_waitsnd. typed. Qed.

Lemma ty_ops_peeksize s : typable (ops_peeksize s).
Proof. unfold ops_peeksize. typed. Qed.
#[local] Hint Resolve ty_ops_send ty_ops_input ty_ops_update ty_ops_current ty_ops_check ty_ops_waitsnd
  ty_ops_peeksize : typed.

(** ** States and messages *)

Lemma earlier_range a b : in_i64 a -> in_i64 b -> in_i64 (kcpmux_stream_earlier_deadline a b).
Proof. unfold kcpmux_stream_earlier_deadline. by case_match. Qed.
#[local] Hint Resolve earlier_range : typed.

Lemma ty_stream_refresh s now : in_i64 now -> typable (kcpmux_stream_refresh_timer s now).
Proof. intros Hnow. unfold kcpmux_stream_refresh_timer. typed. Qed.
#[local] Hint Resolve ty_stream_refresh : typed.

Lemma ty_stream_set_state s x : typable (kcpmux_stream_set_state s x).
Proof. unfold kcpmux_stream_set_state. typed. Qed.

Lemma ty_stream_send_close s r : in_u 8 r -> typable (kcpmux_stream_send_close s r).
Proof. intros Hr. unfold kcpmux_stream_send_close. typed. Qed.

Lemma ty_stream_send_close_ack s r : in_u 8 r -> typable (kcpmux_stream_send_close_ack s r).
Proof. apply ty_send_stream_close_ack_msg. Qed.
#[local] Hint Resolve ty_stream_set_state ty_stream_send_close ty_stream_send_close_ack : typed.

(** ** Lifecycle *)

Lemma ty_kcp_create s id :
  keeps world_typed (ask (fun tr => kcp_create tr id) (fun r => EvKcpCreate s (bool_decide (is_Some r))))
    (fun o => forall k, o = Some k -> kt_ok k).
Proof. apply ty_ask; [|done]. intros tr k. apply kt_create. Qed.

Lemma ty_stream_new c id cfg i :
  in_u 32 id -> config_arg sconfig_typed cfg -> typable (kcpmux_stream_new c id cfg i).
Proof.
  intros Hid Hcfg. unfold kcpmux_stream_new. case_match; [typed|].
  apply keeps_bind_any; [typed|]. intros [s|]; [|typed]. apply keeps_bind_any; [typed|]. intros _.
  apply keeps_bind_any; [typed|]. intros _. eapply keeps_bind; [apply ty_get_engine|]. intros e He.
  destruct (kcpmux_stream_config_prepare _) as [cf|] eqn:E; [|typed].
  apply stream_prepare_range in E; [|apply default_arg; auto with typed].
  apply keeps_bind_any; [typed|]. intros _. eapply keeps_bind; [apply ty_kcp_create|]. intros [k|] Hk; [|typed].
  pose proof (kt_setmss k (sc_kcp_mss cf) (Hk k eq_refl)). typed.
Qed.

Lemma ty_stream_close_internal s r : in_u 8 r -> typable (kcpmux_stream_close_internal s r).
Proof. intros Hr. unfold kcpmux_stream_close_internal. typed. Qed.
#[local] Hint Resolve ty_stream_new ty_stream_close_internal : typed.

Lemma ty_stream_create oc cfg cbs ud :
  config_arg sconfig_typed cfg -> typable (kcpmux_stream_create oc cfg cbs ud).
Proof. intros Hcfg. unfold kcpmux_stream_create, stream_create_body. typed. Qed.

Lemma ty_advance_close s now : in_i64 now -> typable (kcpmux_stream_advance_local_close s now).
Proof. intros Hnow. unfold kcpmux_stream_advance_local_close. typed. Qed.
#[local] Hint Resolve ty_advance_close : typed.

Lemma ty_stream_close os : typable (kcpmux_stream_close os).
Proof. unfold kcpmux_stream_close, stream_close_body. typed. Qed.

Lemma ty_stream_set_config os cfg : config_arg sconfig_typed cfg -> typable (kcpmux_stream_set_config os cfg).
Proof.
  intros Hcfg. unfold kcpmux_stream_set_config. destruct os as [s|], cfg as [cfg|]; [|typed..].
  eapply keeps_bind; [apply ty_get_stream|]. intros st Hst. case_match; [typed|].
  destruct (kcpmux_stream_config_prepare cfg) as [y|] eqn:E; [|typed]. apply stream_prepare_range in E; [|done].
  destruct E. apply keeps_bind_any; [|intros _; typed]. apply ty_mod_stream. intros x [].
  constructor; cbn; try done. constructor; range.
Qed.

Lemma ty_stream_set_callbacks os cbs ud : typable (kcpmux_stream_set_callbacks os cbs ud).
Proof. unfold kcpmux_stream_set_callbacks. typed. Qed.

(** ** Sending *)

Lemma iov_lookup iov i v : iov_typed iov -> iov !! i = Some v -> bytes (default [] (iov_data v)).
Proof. intros Hi Hv. exact (proj1 (list.Forall_lookup _ _) Hi i v Hv). Qed.

Lemma bytes_copy fuel iov i o n l : iov_typed iov -> copy_loop fuel iov i o n = Some l -> bytes l.
Proof.
  intros Hi. revert i o n l. induction fuel as [|fuel IH]; intros i o n l; cbn -[read_bytes_at].
  { destruct (n <=? 0); [|done]. intros [= <-]. auto with typed. }
  destruct (n <=? 0); [intros [= <-]; auto with typed|].
  destruct (iov !! i) as [v|] eqn:Hv; [|done]. cbn -[read_bytes_at].
  destruct (0 <? _); [|destruct (_ =? _); apply IH].
  destruct (read_bytes_at _ _ _) as [bs|] eqn:Hr; [|done]. cbn -[read_bytes_at].
  assert (Hbs : bytes bs).
  { destruct (iov_data v) as [d|] eqn:Ed; [|done]. eapply bytes_read; [|exact Hr].
    pose proof (iov_lookup _ _ _ Hi Hv) as Hd. by rewrite Ed in Hd. }
  destruct (_ =? _).
  - destruct (copy_loop _ _ _ _ _) as [x|] eqn:E; [|done]. intros [= <-]. apply bytes_app; [done|by eapply IH].
  - destruct (copy_loop _ _ _ _ _) as [x|] eqn:E; [|done]. intros [= <-]. apply bytes_app; [done|by eapply IH].
Qed.

(** A chunk function keeps what its context needs. *)
Definition chunk_typed {C} (f : send_chunk_fn C) (P : C -> Prop) : Prop :=
  forall s x n, P x -> keeps world_typed (f s x n) (fun r => P r.2).

Lemma ty_contiguous_chunk : chunk_typed kcpmux_stream_send_contiguous_chunk (fun x => bytes (cc_buf x)).
Proof.
  intros s x n Hx. unfold kcpmux_stream_send_contiguous_chunk. eapply keeps_bind.
  { apply (keeps_deref _ _ bytes). intros w b _. by apply bytes_read. }
  intros b Hb. apply keeps_bind_any; [typed|]. intros r. apply keeps_ret. cbn. by case_match.
Qed.

Lemma ty_vectored_chunk : chunk_typed kcpmux_stream_send_vectored_chunk (fun x => iov_typed (vc_iov x)).
Proof.
  intros s x n Hx. unfold kcpmux_stream_send_vectored_chunk. apply keeps_bind_any.
  - destruct kcp_sendv as [f|] eqn:Ef.
    + eapply keeps_bind; [apply ty_get_kcp|]. intros k Hk. apply ty_run_kact. apply kt_sendv; [done..|].
      by apply list.Forall_drop.
    + eapply keeps_bind; [apply (keeps_deref _ _ bytes); intros w b _; by apply bytes_copy|]. intros b Hb. typed.
  - intros r. case_match; [|by apply keeps_ret]. eapply keeps_bind.
    { apply (keeps_deref _ _ (fun y => iov_typed (vc_iov y))). intros w y _. unfold kcpmux_vectored_advance.
      destruct (advance_loop _ _ _ _ _) as [[i o]|]; [|done]. by intros [= <-]. }
    intros y Hy. by apply keeps_ret.
Qed.

Lemma ty_send_loop {C} fuel (f : send_chunk_fn C) P s x chunk rest total :
  chunk_typed f P -> P x -> typable (send_loop fuel f s x chunk rest total).
Proof.
  intros Hf. revert x rest total. induction fuel as [|fuel IH]; intros x rest total Hx; cbn [send_loop].
  { case_match; [by apply keeps_ret|apply keeps_ub]. }
  case_match; [by apply keeps_ret|]. cbv zeta. eapply keeps_bind; [by apply Hf|]. intros [r y] Hy.
  case_match; [by apply keeps_ret|]. by apply IH.
Qed.

Lemma ty_send_chunks {C} s n fl v (f : send_chunk_fn C) P x :
  chunk_typed f P -> P x -> typable (kcpmux_stream_send_chunks s n fl v f x).
Proof.
  intros Hf Hx. unfold kcpmux_stream_send_chunks, send_chunks_body.
  pose proof (fun fuel s' (a b d : Z) => ty_send_loop fuel f P s' x a b d Hf Hx). typed.
Qed.

Lemma ty_send os b fl : config_arg bytes b -> typable (kcpmux_stream_send os b fl).
Proof.
  intros Hb. unfold kcpmux_stream_send. destruct os, b; typed.
  eapply ty_send_chunks; [apply ty_contiguous_chunk|done].
Qed.

Lemma ty_sendv os iov fl : config_arg iov_typed iov -> typable (kcpmux_stream_sendv os iov fl).
Proof.
  intros Hb. unfold kcpmux_stream_sendv. destruct os, iov; typed.
  eapply ty_send_chunks; [apply ty_vectored_chunk|done].
Qed.

Lemma ty_finish_batch_at s now : in_i64 now -> typable (kcpmux_stream_finish_batch_at s now).
Proof. intros Hnow. unfold kcpmux_stream_finish_batch_at, batch_linked, batch_unlink. typed. Qed.
#[local] Hint Resolve ty_finish_batch_at : typed.

Lemma ty_finish_batch os : typable (kcpmux_stream_finish_batch os).
Proof. unfold kcpmux_stream_finish_batch. typed. Qed.

(** ** Receiving *)

Lemma ty_peek_size os : typable (kcpmux_stream_peek_size os).
Proof. unfold kcpmux_stream_peek_size. typed. Qed.
#[local] Hint Resolve ty_peek_size : typed.

Lemma ty_recv os n : typable (kcpmux_stream_recv os n).
Proof.
  unfold kcpmux_stream_recv. typed.
  all: match goal with E : kcp_recv ?k ?n = _, H : kt_ok ?k |- _ => pose proof (kt_recv k n H) as Hk; rewrite E in Hk; cbn in Hk end.
  all: typed; done.
Qed.

(** ** Timer handler and peer messages *)

Lemma ty_write_unblock s now : in_i64 now -> typable (write_unblock s now).
Proof. intros Hnow. unfold write_unblock. typed. Qed.

Lemma ty_read_unblock s now : in_i64 now -> typable (read_unblock s now).
Proof. intros Hnow. unfold read_unblock. typed. Qed.
#[local] Hint Resolve ty_write_unblock ty_read_unblock : typed.

Lemma ty_stream_update s now : in_i64 now -> typable (kcpmux_stream_update s now).
Proof. intros Hnow. unfold kcpmux_stream_update, stream_update_body. typed. Qed.

Lemma ty_handle_payload s b now : bytes b -> in_i64 now -> typable (kcpmux_stream_handle_payload s b now).
Proof. intros Hb Hnow. unfold kcpmux_stream_handle_payload. typed. Qed.

Lemma ty_handle_close s r : in_u 8 r -> typable (kcpmux_stream_handle_close s r).
Proof. intros Hr. unfold kcpmux_stream_handle_close. typed. Qed.
End stream.

#[export] Hint Resolve ty_stream_conn ty_get_kcp ty_clear_pending ty_stream_set_state ty_stream_send_close
  ty_stream_new ty_stream_close_internal ty_stream_create ty_stream_close ty_stream_set_config
  ty_stream_set_callbacks ty_send ty_sendv ty_finish_batch_at ty_finish_batch ty_peek_size ty_recv
  ty_stream_update ty_handle_payload ty_handle_close : typed.
