(* ===== verification/TypingMux.v ===== *)
(** * Types are preserved by every call

    Closing, the handlers, received packets and the main loop; then every
    call with arguments of the types of the prototypes. *)

From S2P Require Import Prelude Keeps Types Timer ByteOrder Hashtable Vectored World Engine Conn Messages Stream Mux Sample Life LifeSim LifeSpec Typing TypingRules TypingCalls TypingStream.
#[local] Open Scope Z_scope.

Section mux.
Context {KO : Kcp} {KT : KcpTyped KO} {HO : Host} {HT : HostTyped HO}.
Implicit Types (c s : positive) (w : world K).

Notation typable m := (keeps world_typed m (fun _ => True)).

(** ** Connections *)

Lemma ty_conn_close_internal c r : in_u 8 r -> typable (kcpmux_conn_close_internal c r).
Proof. intros Hr. unfold kcpmux_conn_close_internal, close_bucket. typed. Qed.
#[local] Hint Resolve ty_conn_close_internal : typed.

Lemma ty_conn_update c now : in_i64 now -> typable (kcpmux_conn_update c now).
Proof. intros Hnow. unfold kcpmux_conn_update, conn_update_body. typed. Qed.
#[local] Hint Resolve ty_conn_update : typed.

(** [memcpy] of at most 512 bytes into the extension buffer. *)
Lemma ext_store_typed b x :
  ext_typed x -> bytes b -> Z.of_nat (length b) <= KCPMUX_PROTO_EXT_MAX_LEN -> ext_typed (proto_ext_store b x).
Proof.
  intros [Hs Hd Hl] Hb Hn. constructor; cbn.
  - rewrite length_app, length_drop. lia.
  - auto with typed.
  - unfold in_u, KCPMUX_PROTO_EXT_MAX_LEN in *. lia.
Qed.

Lemma read_bytes_length data o n l :
  read_bytes_at (Some data) o n = Some l -> 0 <= n -> Z.of_nat (length l) = n.
Proof.
  cbn. destruct (Z.leb_spec 0 o); [|done]. destruct (Z.leb_spec (o + n) (Z.of_nat (length data))); [|done]. cbn.
  intros [= <-] Hn. rewrite length_take, length_drop. lia.
Qed.

Lemma ty_connect a cfg ext cbs ud :
  config_arg cconfig_typed cfg -> config_arg ext_typed ext -> typable (kcpmux_conn_connect a cfg ext cbs ud).
Proof.
  intros Hcfg Hext. unfold kcpmux_conn_connect. destruct a as [a|]; [|typed].
  do 2 (apply keeps_bind_any; [typed|intros _]). apply keeps_bind_any; [typed|]. intros [c|]; [|typed].
  do 2 (apply keeps_bind_any; [typed|intros _]). apply keeps_bind_any; [|intros _; typed].
  destruct ext as [x|]; [|typed]. apply keeps_when. intros Hpos%Z.ltb_lt. cbv zeta. eapply keeps_bind.
  - apply (keeps_deref _ _ (fun b => bytes b /\ Z.of_nat (length b) <= KCPMUX_PROTO_EXT_MAX_LEN)).
    intros w b _ Hb. split; [eapply bytes_read; [|done]; apply Hext|].
    apply read_bytes_length in Hb; [rewrite Hb|]; unfold KCPMUX_PROTO_EXT_MAX_LEN in *; case_match; lia.
  - intros b [Hb Hn]. apply ty_mod_conn. intros k []. constructor; cbn; try done. by apply ext_store_typed.
Qed.

Lemma ty_conn_close oc : typable (kcpmux_conn_close oc).
Proof. unfold kcpmux_conn_close, conn_close_body. typed. Qed.

(** ** Received packets *)

Lemma ty_byte_at b o : bytes b -> keeps world_typed (byte_at b o) (in_u 8).
Proof. intros Hb. apply keeps_deref. intros w x _. by apply bytes_at_lookup. Qed.
Lemma ty_u16_at b o : keeps world_typed (u16_at b o) (in_u 16).
Proof. apply keeps_deref. intros w x _. apply read_u16_range. Qed.
Lemma ty_u32_at b o : bytes b -> keeps world_typed (u32_at b o) (in_u 32).
Proof. intros Hb. apply keeps_deref. intros w x _. by apply read_u32_range. Qed.
Lemma ty_u64_at b o : bytes b -> keeps world_typed (u64_at b o) (in_u 64).
Proof. intros Hb. apply keeps_deref. intros w x _. by apply read_u64_range. Qed.
#[local] Hint Resolve ty_byte_at ty_u16_at ty_u32_at ty_u64_at : typed.

Lemma ty_note_rx c n : typable (note_rx c n).
Proof. unfold note_rx. typed. Qed.

Lemma ty_store_peer_ext c b o n :
  bytes b -> n <= KCPMUX_PROTO_EXT_MAX_LEN -> typable (store_peer_ext c b o n).
Proof.
  intros Hb Hn. unfold store_peer_ext. apply keeps_when. intros Hpos%Z.ltb_lt. eapply keeps_bind.
  - apply (keeps_deref _ _ (fun l => bytes l /\ Z.of_nat (length l) <= KCPMUX_PROTO_EXT_MAX_LEN)).
    intros w l _ Hl. split; [by eapply bytes_read|]. apply read_bytes_length in Hl; lia.
  - intros l [Hl Hm]. apply ty_mod_conn. intros k []. constructor; cbn; try done. by apply ext_store_typed.
Qed.
#[local] Hint Resolve ty_note_rx ty_store_peer_ext : typed.
#[local] Hint Extern 3 (_ <= KCPMUX_PROTO_EXT_MAX_LEN) => apply Z.ltb_ge; assumption : typed.

Lemma ty_conn_setter c a : conn_setter_typed a -> typable (conn_setter_run c a).
Proof. intros Ha. destruct a as [[]|]; cbn [conn_setter_run]; typed; by apply ty_conn_set_config. Qed.

Lemma ty_stream_setter s a : stream_setter_typed a -> typable (stream_setter_run s a).
Proof. intros Ha. destruct a as [[]|]; cbn [stream_setter_run]; typed; by apply ty_stream_set_config. Qed.

Lemma list_forall_elem {A} (P : A -> Prop) l x : Forall P l -> x ∈ l -> P x.
Proof. intros Hl. by apply list.Forall_forall. Qed.

Lemma ty_accept_ask c e : typable (accept_ask c e).
Proof.
  unfold accept_ask. destruct (ecb_conn_connect_notify (e_callbacks e)) as [f|]; [|typed].
  eapply keeps_bind; [apply ty_get_conn|]. intros k Hk. eapply keeps_bind.
  - apply (ty_ask _ _ (fun r => ext_typed (cr_ext r) /\ Forall conn_setter_typed (cr_setters r))).
    + intros tr. apply ht_connect.
    + intros tr. by apply ct_peer_ext.
  - intros r [Hx Hs]. apply keeps_bind_any; [|intros _; typed].
    apply keeps_for_each. intros a Ha. apply ty_conn_setter. by eapply list_forall_elem.
Qed.

Lemma clear_ext_typed x : ext_typed x -> ext_typed (x <| pe_len := 0 |>).
Proof. intros []. constructor; cbn; try done. Qed.
#[local] Hint Extern 3 (ext_typed (mk_proto_ext _ 0)) => apply clear_ext_typed : typed.
#[local] Hint Resolve ty_accept_ask : typed.

Lemma ty_accept_reply c r : typable (accept_reply c r).
Proof. unfold accept_reply. typed. Qed.
#[local] Hint Resolve ty_accept_reply : typed.

Lemma ty_accept_answer c r : typable (accept_answer c r).
Proof. unfold accept_answer. typed. Qed.
#[local] Hint Resolve ty_accept_answer : typed.

Lemma ty_accept_connect b a id n now :
  bytes b -> in_u 64 id -> n <= KCPMUX_PROTO_EXT_MAX_LEN -> in_i64 now -> typable (accept_connect b a id n now).
Proof.
  intros Hb Hid Hn Hnow. unfold accept_connect. assert (config_arg cconfig_typed None) by done. typed.
Qed.

#[local] Hint Resolve ty_accept_connect : typed.

Lemma ty_input_connect b a id now : bytes b -> in_i64 now -> typable (input_connect b a id now).
Proof.
  intros Hb Hnow. unfold input_connect. typed.
Qed.

Lemma ty_input_connect_ack b c now : bytes b -> in_i64 now -> typable (input_connect_ack b c now).
Proof.
  intros Hb Hnow. unfold input_connect_ack. typed.
Qed.

Lemma ty_input_keepalive b c now : in_i64 now -> typable (input_keepalive b c now).
Proof. intros Hnow. unfold input_keepalive. typed. Qed.

Lemma ty_input_conn_close b c now : bytes b -> in_i64 now -> typable (input_conn_close b c now).
Proof. intros Hb Hnow. unfold input_conn_close. typed. Qed.

Lemma ty_input_conn_close_ack b c now : in_i64 now -> typable (input_conn_close_ack b c now).
Proof. intros Hnow. unfold input_conn_close_ack. typed. Qed.

Lemma ty_input_stream_close b c now : bytes b -> in_i64 now -> typable (input_stream_close b c now).
Proof. intros Hb Hnow. unfold input_stream_close. typed. Qed.

Lemma ty_input_stream_close_ack b c now : bytes b -> in_i64 now -> typable (input_stream_close_ack b c now).
Proof. intros Hb Hnow. unfold input_stream_close_ack. typed. Qed.

Lemma ty_accept_stream b c id now f :
  bytes b -> in_u 32 id -> in_i64 now -> typable (accept_stream b c id now f).
Proof.
  intros Hb Hid Hnow. unfold accept_stream. assert (config_arg sconfig_typed None) by done.
  apply keeps_bind_any; [typed|]. intros [s|]; [|typed].
  do 2 (apply keeps_bind_any; [typed|intros _]). eapply keeps_bind; [apply ty_get_conn|]. intros k Hk. eapply keeps_bind.
  - apply (ty_ask _ _ (fun r => Forall stream_setter_typed (sr_setters r))); [intros tr; exact (ht_create tr f s)|intros; exact I].
  - intros r Hr. cbv beta in Hr. apply keeps_bind_any; [|intros _; typed].
    apply keeps_for_each. intros a Ha. apply ty_stream_setter. by eapply list_forall_elem.
Qed.
#[local] Hint Resolve ty_accept_stream : typed.

Lemma ty_input_payload b c now : bytes b -> in_i64 now -> typable (input_stream_payload b c now).
Proof. intros Hb Hnow. unfold input_stream_payload. typed. Qed.
#[local] Hint Resolve ty_input_connect ty_input_connect_ack ty_input_keepalive ty_input_conn_close
  ty_input_conn_close_ack ty_input_stream_close ty_input_stream_close_ack ty_input_payload : typed.

Lemma ty_protocol_input b a now : bytes b -> in_i64 now -> typable (kcpmux_protocol_input b a now).
Proof. intros Hb Hnow. unfold kcpmux_protocol_input. typed. Qed.
#[local] Hint Resolve ty_protocol_input : typed.

(** ** Main loop *)

Lemma ty_dispatch_loop n now : in_i64 now -> typable (dispatch_loop n now).
Proof. intros Hnow. induction n; cbn [dispatch_loop]; unfold run_timeout; typed. Qed.

Lemma ty_finish_batch_loop n now : in_i64 now -> typable (finish_batch_loop n now).
Proof. intros Hnow. induction n; cbn [finish_batch_loop]; unfold batch_unlink; typed. Qed.
#[local] Hint Resolve ty_dispatch_loop ty_finish_batch_loop : typed.

Lemma ty_engine_update : typable kcpmux_engine_update.
Proof. unfold kcpmux_engine_update. typed. Qed.

Lemma ty_engine_input b a : config_arg bytes b -> typable (kcpmux_engine_input b a).
Proof. intros Hb. unfold kcpmux_engine_input. destruct b, a; typed. Qed.

Lemma ty_engine_finish_batch : typable kcpmux_engine_finish_batch.
Proof. unfold kcpmux_engine_finish_batch. typed. Qed.

Lemma ty_engine_set_config x : typable (kcpmux_engine_set_config x).
Proof. unfold kcpmux_engine_set_config. typed. Qed.

(** ** Calls *)

(** The arguments have the types of the prototypes; addresses and user data
    are not looked into. *)
Definition call_typed (x : call) : Prop :=
  match x with
  | CallConnect _ cfg ext _ _ => config_arg cconfig_typed cfg /\ config_arg ext_typed ext
  | CallConnSetConfig _ cfg => config_arg cconfig_typed cfg
  | CallStreamCreate _ cfg _ _ | CallStreamSetConfig _ cfg => config_arg sconfig_typed cfg
  | CallStreamSend _ b _ => config_arg bytes b
  | CallStreamSendv _ iov _ => config_arg iov_typed iov
  | CallEngineInput b _ => config_arg bytes b
  | _ => True
  end.
#[local] Hint Resolve ty_connect ty_conn_close ty_engine_set_config ty_engine_update ty_engine_input
  ty_engine_finish_batch : typed.

Lemma ty_exec x : call_typed x -> typable (exec x).
Proof.
  intros Hx. destruct x; cbn [call_typed exec] in *; unfold forget_result;
    try match type of Hx with _ /\ _ => destruct Hx end; typed.
Qed.

Lemma ty_exec_all l : Forall call_typed l -> typable (exec_all l).
Proof. intros Hl. apply keeps_for_each. intros x Hx. apply ty_exec. by eapply list_forall_elem. Qed.
End mux.
