(* ===== verification/TypingSpec.v ===== *)
(** * Every stored value has its C type, every datagram is a message

    From engine creation on, over any sequence of calls whose arguments have
    the types of the prototypes. *)

From S2P Require Import Prelude Keeps Types Timer ByteOrder Hashtable Vectored World Engine Conn Messages Stream Mux Sample Life LifeSim LifeSpec Typing TypingRules TypingCalls TypingStream TypingMux.
#[local] Open Scope Z_scope.

Section spec.
Context {KO : Kcp} {KT : KcpTyped KO} {HO : Host} {HT : HostTyped HO}.
Implicit Types (c s : positive) (w : world K).

Lemma default_configs_typed : cconfig_typed kcpmux_conn_config_init /\ sconfig_typed kcpmux_stream_config_init.
Proof. split; constructor; range. Qed.

Lemma zero_estats_typed : estats_typed engine_stats_zero.
Proof. range. Qed.

(** An engine as [kcpmux_engine_create] fills it. *)
Lemma new_engine_typed ec cb ud cc sc cm hm id :
  cconfig_typed cc -> sconfig_typed sc -> in_u 64 id ->
  engine_typed (mk_engine ec cb ud cc sc cm hm id 0 engine_stats_zero 0 false 0 0 false [] 0 []).
Proof. intros. pose proof zero_estats_typed. range. Qed.

Lemma ty_create ec dc ds cb ud :
  config_arg cconfig_typed dc -> config_arg sconfig_typed ds ->
  keeps (Forall event_typed) (kcpmux_engine_create ec dc ds cb ud) (from_option engine_typed True).
Proof.
  intros Hdc Hds. destruct default_configs_typed as [Hc0 Hs0].
  assert (Hnone : forall P : option engine -> Prop, P None -> keeps (Forall event_typed) (mret None) P) by
    (intros; by apply keeps_ret).
  unfold kcpmux_engine_create. destruct cb as [cb|]; [|by apply Hnone].
  case_match; [by apply Hnone|].
  destruct (from_option kcpmux_conn_config_prepare _ dc) as [cc|] eqn:Ec; [|by apply Hnone].
  destruct (from_option kcpmux_stream_config_prepare _ ds) as [sc|] eqn:Es; [|by apply Hnone].
  assert (Hcc : cconfig_typed cc).
  { destruct dc; cbn in Ec; [by eapply conn_prepare_range|by injection Ec as <-]. }
  assert (Hsc : sconfig_typed sc).
  { destruct ds; cbn in Es; [by eapply stream_prepare_range|by injection Es as <-]. }
  apply keeps_bind_any; [by apply ty_ask_tr|intros ok]. case_match; [by apply Hnone|].
  do 2 (apply keeps_bind_any; [apply ty_htb_new_tr|intros [?|]; [|by apply Hnone]]).
  eapply keeps_bind; [apply ty_random_tr|]. intros r Hr. apply keeps_ret, new_engine_typed; [done..|].
  cbv zeta. case_match; [done|by apply in_u_land].
Qed.

Lemma boot_typed ec dc ds cb ud e tr :
  config_arg cconfig_typed dc -> config_arg sconfig_typed ds ->
  kcpmux_engine_create ec dc ds cb ud [] = Some (Some e, tr) -> world_typed (boot e tr).
Proof.
  intros Hdc Hds Hrun. destruct (ty_create ec dc ds cb ud Hdc Hds [] (List.Forall_nil _) _ _ Hrun) as [He Htr].
  by constructor.
Qed.

Lemma session_typed ec dc ds cb ud e tr l w :
  config_arg cconfig_typed dc -> config_arg sconfig_typed ds ->
  kcpmux_engine_create ec dc ds cb ud [] = Some (Some e, tr) ->
  Forall call_typed l -> exec_all l (boot e tr) = Some (tt, w) -> world_typed w.
Proof.
  intros Hdc Hds Hcreate Hl Hrun.
  by destruct (ty_exec_all l Hl _ (boot_typed _ _ _ _ _ _ _ Hdc Hds Hcreate) _ _ Hrun).
Qed.

(** C16. The values of the structures keep to the C types of their fields, in
    every state a sequence of calls with arguments of the declared types
    reaches from engine creation: unsigned counters, identifiers and
    configuration fields in their width, deadlines and timestamps in the range
    of [int64_t] (so no deadline computation overflows), extension buffers of
    512 bytes, the nodes and counters of the scheduler, and what KCP maintains
    of its own objects. *)
Theorem fields_in_range ec dc ds cb ud e tr l w :
  config_arg cconfig_typed dc -> config_arg sconfig_typed ds ->
  kcpmux_engine_create ec dc ds cb ud [] = Some (Some e, tr) ->
  Forall call_typed l -> exec_all l (boot e tr) = Some (tt, w) ->
  engine_typed (w_engine w) /\ map_Forall (fun _ => conn_typed) (w_conns w) /\
  map_Forall (fun _ => stream_typed) (w_streams w) /\ timers_typed (w_timers w).
Proof. intros Hdc Hds Hcreate Hl Hrun. by destruct (session_typed _ _ _ _ _ _ _ _ _ Hdc Hds Hcreate Hl Hrun). Qed.

End spec.

(** ** The sample host and KCP *)

(** Messages of bytes that [kcpmux_kcp_ops_t] can write. *)
Definition message_ok (b : list Z) : Prop := bytes b /\ Z.of_nat (length b) <= INT_MAX.

Lemma flush_queue_typed l k :
  Forall message_ok l -> Forall message_ok (q_unsent k) ->
  kact_typed (fun k => Forall message_ok (q_unsent k)) (fun _ => True) (flush_queue l k).
Proof. intros Hl Hk. induction Hl as [|b l [? ?] _ IH]; cbn; auto. Qed.

#[export] Program Instance queue_typed : KcpTyped queue_ops := {|
  kt_ok k := Forall message_ok (q_unsent k)
|}.
Next Obligation. intros tr id k [= <-]. constructor. Qed.
Next Obligation. done. Qed.
Next Obligation.
  intros k b Hk Hb. cbn. destruct (Z.ltb_spec INT_MAX (Z.of_nat (length b))); cbn; [done|].
  split; [|done]. apply list.Forall_app_2; [done|]. repeat constructor; done.
Qed.
Next Obligation. done. Qed.
Next Obligation. done. Qed.
Next Obligation. intros k n Hk. cbn. by destruct (q_received k). Qed.
Next Obligation. intros k now Hk _. by apply flush_queue_typed. Qed.
Next Obligation. intros k now _ Hnow. cbn. unfold in_i64, INT64_MAX, INT64_MIN in *. lia. Qed.
Next Obligation. done. Qed.

#[export] Instance steady_typed : HostTyped steady_host.
Proof.
  constructor.
  - intros tr. cbn. unfold in_i64, INT64_MAX, INT64_MIN in *. lia.
  - intros tr f c. split; [constructor; [done| |done]; by apply list.Forall_replicate|by repeat constructor].
  - intros tr f s. by repeat constructor.
Qed.

Lemma bytes_check l : forallb (fun b => (0 <=? b) && (b <? 256)) l = true -> bytes l.
Proof.
  rewrite forallb_forall. intros H. apply list.Forall_forall. intros b Hb.
  apply list_elem_of_In, H, andb_prop in Hb as [?%Z.leb_le ?%Z.ltb_lt]. by split.
Qed.

Lemma session_calls_typed : Forall call_typed session.
Proof.
  refine (list.Forall_cons_2 _ _ _ _ (list.Forall_cons_2 _ _ _ _ (list.Forall_cons_2 _ _ _ _ (list.Forall_cons_2 _ _ _ _
    (list.Forall_cons_2 _ _ _ _ (list.Forall_nil_2 _)))))).
  - by split.
  - apply bytes_check. vm_compute. reflexivity.
  - exact I.
  - apply bytes_check. vm_compute. reflexivity.
  - exact I.
Qed.

Lemma fields_in_range_witness :
  conn_typed sample_conn /\ stream_typed sample_stream /\ s_pending_count sample_stream < 2 ^ 32.
Proof.
  destruct (fields_in_range None None None (Some all_callbacks) 0 _ _ _ _ I I
    sample_create_eq session_calls_typed session_runs) as (_ & Hc & Hs & _).
  split; [exact (Hc _ _ sample_conn_eq)|]. split; [exact (Hs _ _ sample_stream_eq)|].
  exact (proj2 (st_pending _ (Hs _ _ sample_stream_eq))).
Defined.

(** A write event of a list of events, if there is one. *)
Fixpoint find_write (l : trace) : option (list iovec * addr * Z) :=
  match l with
  | [] => None
  | EvWrite iov a r :: _ => Some (iov, a, r)
  | _ :: l' => find_write l'
  end.

Lemma find_write_elem l iov a r : find_write l = Some (iov, a, r) -> EvWrite iov a r ∈ l.
Proof.
  induction l as [|ev l IH]; [done|]. destruct ev; cbn; intros H;
    try (right; exact (IH H)). injection H as -> -> ->. by left.
Qed.

Definition sample_write := Eval vm_compute in outcome (find_write (w_trace sample_closing)).

