(* ===== verification/Sight.v ===== *)
(** * What an update does to the objects it does not work on

    [sight Rc Rs o due w]: every connection is in [Rc], every stream in [Rs],
    and, if [due] is known, the timer node of [o] is among the due nodes
    exactly if [due].  The functions an update runs keep it as long as they
    work on other objects, or on fields that [Rc] and [Rs] do not look at: each
    lemma says which. *)

From S2P Require Import Prelude Keeps Types Timer Hashtable Vectored World Engine Conn Messages Stream Mux Deadlines Shape Steps.
From stdpp Require Import gmap.
#[local] Open Scope Z_scope.

Create HintDb sight discriminated.
#[export] Hint Constants Opaque : sight.

(** The fields a retry or a drain depends on. *)
Definition conn_key (k : conn) := (c_internal_closed k, c_state k, c_retry_count k, c_config k).
Definition retry_view (k : conn) := (conn_key k, c_last_ctrl_ts k).
Definition stream_key {K} (st : stream K) :=
  (s_internal_closed st, s_state st, s_close_phase st, s_retry_count st, s_config st, s_conn st).
Definition drain_view {K} (st : stream K) := (stream_key st, s_last_ctrl_ts st, s_drain_started_ts st).

(** ** The scheduler *)

Record due_sight (o : obj) (due : option bool) (t : timers) : Prop := {
  du_nodup : NoDup (tm_due t);
  du_owners : owners_ok t;
  du_due b : due = Some b -> o ∈ tm_due t <-> b = true;
  du_registered : due = Some true -> o ∈ registered t
}.

(** Work on the node [n] is no work on that of [o] while it is due. *)
Definition aside (o : obj) (due : option bool) (n : obj) : Prop := n <> o \/ due <> Some true.

Section timers.
Context (o : obj) (due : option bool).
Notation sighted m := (keeps (due_sight o due) m (fun _ => True)).

Lemma si_nodes (f : timers -> timers) :
  (forall t, tm_due (f t) = tm_due t) -> (forall t, tm_nodes (f t) = tm_nodes t) -> sighted (modify f).
Proof.
  intros Hd Hn. apply keeps_modify; [done|]. intros t [H1 H2 H3 H4].
  constructor; unfold registered, owners_ok in *; rewrite ?Hd, ?Hn; done.
Qed.

Lemma si_mod_node n f :
  (forall nd, node_owner (f nd) = node_owner nd) -> sighted (mod_node n f).
Proof.
  intros Hf t [H1 H2 H3 H4] a t'. unfold mod_node, get_node, deref, modify, mbind, M_bind.
  destruct (tm_nodes t !! n) as [nd|] eqn:Hnd; [|done]. intros [= <- <-]. split; [done|].
  destruct (owner_registered t (t <| tm_nodes ::= <[n := f nd]> |>)) as (Hr & _ & Ho).
  { intros m. cbn. destruct (decide (m = n)) as [->|Hne]; [|by rewrite lookup_insert_ne].
    rewrite lookup_insert_eq, Hnd. cbn. by rewrite Hf. }
  rewrite <- Hr in H4. by constructor; [|apply Ho| |].
Qed.

Lemma si_unregister n :
  aside o due n -> sighted (mod_node n (fun nd => nd <| owner := None |> <| timeout_cb := None |>)).
Proof.
  intros Hn t [H1 H2 H3 H4] a t'. unfold mod_node, get_node, deref, modify, mbind, M_bind.
  destruct (tm_nodes t !! n) as [nd|] eqn:Hnd; [|done]. intros [= <- <-]. split; [done|].
  constructor; [done| |done|].
  - intros m nd' own. cbn. destruct (decide (m = n)) as [->|Hne]; [rewrite lookup_insert_eq|rewrite lookup_insert_ne by done; apply H2].
    intros [= <-]. done.
  - intros Hd. destruct Hn as [Hne|]; [|congruence]. specialize (H4 Hd). apply elem_registered in H4 as (x & Hx & ?).
    apply elem_registered. exists x. cbn. by rewrite lookup_insert_ne.
Qed.

Lemma si_due_unlink n : aside o due n -> sighted (due_unlink n).
Proof.
  intros Hn. apply keeps_modify; [done|]. intros t [H1 H2 H3 H4]. constructor; [|done| |done].
  - by apply list.NoDup_filter.
  - intros b Hb. cbn. rewrite list_elem_of_filter. specialize (H3 b Hb).
    destruct Hn as [Hne|Hf]; [naive_solver|]. destruct b; [done|]. naive_solver.
Qed.

Lemma si_get_node n : sighted (get_node n).
Proof. by apply keeps_deref. Qed.
Lemma si_heap_at i : sighted (heap_at i).
Proof. by apply keeps_deref. Qed.
End timers.
#[export] Hint Resolve si_due_unlink si_unregister si_get_node si_heap_at : sight.
(** Along the structure of a computation. *)
Ltac sighted_step :=
  lazymatch goal with
  | |- keeps _ (mret _) _ => by apply keeps_ret
  | |- keeps _ (_ ≫= _) _ => apply keeps_bind_any; [|intros ?]
  | |- keeps _ (when _ _) _ => apply keeps_when; intros ?
  | |- keeps _ (for_each _ _) _ => apply keeps_for_each; intros ? ?
  | |- keeps _ ub _ => apply keeps_ub
  | |- keeps _ (gets _) _ => by apply keeps_gets
  | |- keeps _ (match _ with _ => _ end) _ => case_match
  | |- keeps _ (let _ := _ in _) _ => cbv zeta
  | |- keeps (due_sight _ _) (modify _) _ => apply si_nodes; done
  | |- keeps _ _ _ =>
      first [ solve [eauto 6 with sight nocore]
            | lazymatch goal with
              | |- keeps (due_sight _ _) (mod_node _ _) _ => apply si_mod_node; done
              | |- keeps _ (deref _) _ => by apply keeps_deref
              end ]
  end.
Ltac sighted := repeat sighted_step.

Section timers_ops.
Context (o : obj) (due : option bool).
Notation sighted m := (keeps (due_sight o due) m (fun _ => True)).

Lemma si_less l r : sighted (kcpmux_timer_less l r).
Proof. unfold kcpmux_timer_less. sighted. Qed.
Lemma si_set i n : sighted (kcpmux_timer_set i n).
Proof. unfold kcpmux_timer_set. sighted. Qed.
#[local] Hint Resolve si_less si_set : sight.

Lemma si_sift_up_loop fuel n i : sighted (sift_up_loop fuel n i).
Proof. revert i. induction fuel; intros i; cbn [sift_up_loop]; sighted. Qed.
#[local] Hint Resolve si_sift_up_loop : sight.

Lemma si_sift_up i : sighted (kcpmux_timer_sift_up i).
Proof. unfold kcpmux_timer_sift_up. sighted. Qed.
Lemma si_select_child i : sighted (select_child i).
Proof. unfold select_child. sighted. Qed.
#[local] Hint Resolve si_sift_up si_select_child : sight.

Lemma si_sift_down_loop fuel n i : sighted (sift_down_loop fuel n i).
Proof. revert i. induction fuel; intros i; cbn [sift_down_loop]; sighted. Qed.
#[local] Hint Resolve si_sift_down_loop : sight.

Lemma si_sift_down i : sighted (kcpmux_timer_sift_down i).
Proof. unfold kcpmux_timer_sift_down. sighted. Qed.
#[local] Hint Resolve si_sift_down : sight.

Lemma si_remove_at i : sighted (kcpmux_timer_remove_at i).
Proof. unfold kcpmux_timer_remove_at. sighted. Qed.
Lemma si_reserve ok n : sighted (kcpmux_timer_manager_reserve ok n).
Proof. unfold kcpmux_timer_manager_reserve. sighted. Qed.
#[local] Hint Resolve si_remove_at si_reserve : sight.

Lemma si_timer_schedule ok n d : aside o due n -> sighted (kcpmux_timer_schedule ok n d).
Proof. intros Hn. unfold kcpmux_timer_schedule. sighted. Qed.
Lemma si_timer_cancel n : aside o due n -> sighted (kcpmux_timer_cancel n).
Proof. intros Hn. unfold kcpmux_timer_cancel. sighted. Qed.
Lemma si_timer_peek : sighted kcpmux_timer_peek.
Proof. unfold kcpmux_timer_peek. sighted. Qed.
End timers_ops.
#[export] Hint Resolve si_timer_schedule si_timer_cancel si_timer_peek : sight.

(** ** The world *)

Section world.
Context {KO : Kcp} {HO : Host} (Rc : positive -> conn -> Prop) (Rs : positive -> stream K -> Prop)
  (o : obj) (due : option bool).
Implicit Types (c s : positive) (w : world K).

Record sight w : Prop := {
  sg_conn c k : w_conns w !! c = Some k -> Rc c k;
  sg_stream s st : w_streams w !! s = Some st -> Rs s st;
  sg_timers : due_sight o due (w_timers w)
}.
Notation sighted m := (keeps sight m (fun _ => True)).

Lemma si_modify f :
  (forall w, w_conns (f w) = w_conns w) -> (forall w, w_streams (f w) = w_streams w) ->
  (forall w, w_timers (f w) = w_timers w) -> sighted (modify f).
Proof.
  intros Hc Hs Ht. apply keeps_modify; [done|]. intros w [H1 H2 H3].
  constructor; [intros c k; rewrite Hc; apply H1|intros s st; rewrite Hs; apply H2|by rewrite Ht].
Qed.

Lemma si_mod_engine f : sighted (mod_engine f).
Proof. by apply si_modify. Qed.
Lemma si_mod_stats f : sighted (mod_stats f).
Proof. by apply si_modify. Qed.
Lemma si_emit ev : sighted (emit ev).
Proof. by apply si_modify. Qed.
Lemma si_get_engine : sighted get_engine.
Proof. by apply keeps_gets. Qed.
Lemma si_get_conn c : sighted (get_conn c).
Proof. by apply keeps_deref. Qed.
Lemma si_get_stream s : sighted (get_stream s).
Proof. by apply keeps_deref. Qed.
Lemma si_stream_conn s : sighted (stream_conn s).
Proof. apply keeps_bind_any; [apply si_get_stream|]. intros st. apply si_get_conn. Qed.
Lemma si_get_kcp s : sighted (get_kcp s).
Proof. apply keeps_bind_any; [apply si_get_stream|]. intros st. by apply keeps_deref. Qed.

Lemma si_mod_stream s f : (forall st, Rs s st -> Rs s (f st)) -> sighted (mod_stream s f).
Proof.
  intros Hf w [H1 H2 H3] a w'. unfold mod_stream, get_stream, deref, modify, mbind, M_bind.
  destruct (w_streams w !! s) as [st|] eqn:Hst; [|done]. intros [= <- <-]. split; [done|].
  constructor; [exact H1| |exact H3]. intros s' st'. cbn. destruct (decide (s' = s)) as [->|Hne].
  - rewrite lookup_insert_eq. intros [= <-]. by apply Hf, H2.
  - rewrite lookup_insert_ne by done. apply H2.
Qed.

Lemma si_mod_conn c f : (forall k, Rc c k -> Rc c (f k)) -> sighted (mod_conn c f).
Proof.
  intros Hf w [H1 H2 H3] a w'. unfold mod_conn, get_conn, deref, modify, mbind, M_bind.
  destruct (w_conns w !! c) as [k|] eqn:Hk; [|done]. intros [= <- <-]. split; [done|].
  constructor; [|exact H2|exact H3]. intros c' k'. cbn. destruct (decide (c' = c)) as [->|Hne].
  - rewrite lookup_insert_eq. intros [= <-]. by apply Hf, H1.
  - rewrite lookup_insert_ne by done. apply H1.
Qed.

Lemma si_in_timers {A} (m : M timers A) :
  keeps (due_sight o due) m (fun _ => True) -> sighted (in_timers m).
Proof. apply keeps_zoom; [by intros w []|]. intros w t [] Ht. by constructor. Qed.

Lemma si_in_trace {A} (m : M trace A) : sighted (in_trace m).
Proof.
  intros w [H1 H2 H3] a w'. unfold in_trace, zoom. destruct (m (w_trace w)) as [[b tr]|]; [|done].
  intros [= <- <-]. split; [done|]. by constructor.
Qed.

Lemma si_ask {A} (f : trace -> A) rec : sighted (ask f rec).
Proof. apply si_in_trace. Qed.
Lemma si_alloc : sighted alloc.
Proof. apply si_in_trace. Qed.
Lemma si_now : sighted kcpmux_engine_now.
Proof. apply si_in_trace. Qed.

Lemma si_free_obj n : aside o due n -> sighted (free_obj n).
Proof.
  intros Ho. apply keeps_bind_any; [|intros _; apply si_emit]. apply keeps_modify; [done|].
  intros w [H1 H2 [H3 H4 H5 H6]].
  assert (Ht : due_sight o due ((w_timers w) <| tm_nodes ::= delete n |>)).
  { constructor; [done| |done|].
    - intros m nd own. cbn. intros [_ Hnd]%lookup_delete_Some. by apply H4.
    - intros Hd. destruct Ho as [Ho|]; [|congruence]. specialize (H6 Hd). apply elem_registered in H6 as (x & Hx & ?).
      apply elem_registered. exists x. cbn. by rewrite lookup_delete_ne. }
  destruct n as [c'|s']; constructor; try exact Ht; try exact H1; try exact H2; cbn.
  - intros c k [_ Hk]%lookup_delete_Some. by apply H1.
  - intros s st [_ Hst]%lookup_delete_Some. by apply H2.
Qed.
End world.

#[export] Hint Resolve si_get_engine si_get_conn si_get_stream si_stream_conn si_get_kcp si_mod_engine si_mod_stats
  si_emit si_in_timers si_in_trace si_ask si_alloc si_now si_free_obj : sight.
#[export] Hint Extern 2 (aside _ _ _) => assumption : sight.

Lemma sight_weaken {KO : Kcp} (Rc Rc' : positive -> conn -> Prop) (Rs Rs' : positive -> stream K -> Prop) o due w :
  sight Rc Rs o due w -> (forall c k, Rc c k -> Rc' c k) -> (forall s st, Rs s st -> Rs' s st) -> sight Rc' Rs' o due w.
Proof. intros [H1 H2 H3] HRc HRs. constructor; eauto. Qed.

(** Stores into connections and streams: the side condition is closed if the
    store does not touch what the predicate looks at. *)
Ltac sighted_world :=
  lazymatch goal with
  | |- keeps (sight _ _ _ _) (modify _) _ => apply si_modify; done
  | |- keeps _ _ _ =>
      first [ solve [eauto 6 with sight nocore]
            | lazymatch goal with
              | |- keeps (sight _ _ _ _) (mod_conn _ _) _ => apply si_mod_conn; solve [eauto 6 with sight]
              | |- keeps (sight _ _ _ _) (mod_stream _ _) _ => apply si_mod_stream; solve [eauto 6 with sight]
              end
            | sighted_step ]
  end.
Ltac sighted ::= repeat sighted_world.

(** ** The functions an update runs *)

Section calls.
Context {KO : Kcp} {HO : Host} (Rc : positive -> conn -> Prop) (Rs : positive -> stream K -> Prop)
  (o : obj) (due : option bool).
Context (HRc : forall c k k', retry_view k' = retry_view k -> Rc c k -> Rc c k').
Context (HRs : forall s st st', drain_view st' = drain_view st -> Rs s st -> Rs s st').
Implicit Types (c s : positive) (w : world K).
Notation sighted m := (keeps (sight Rc Rs o due) m (fun _ => True)).

(** What may be stored into an object: the time of its last control message;
    anything but the mark that it is closed; that mark, too; anything that
    does not bring a connection up; anything at all. *)
Definition loose c : Prop := forall k (t : Z), Rc c k -> Rc c (k <| c_last_ctrl_ts := t |>).
Definition down c : Prop := forall k k',
  (c_internal_closed k = true -> c_internal_closed k' = true) ->
  (c_state k' = c_state k \/ c_state k' <> CONN_CONNECTED) -> Rc c k -> Rc c k'.
Definition loose_stream s : Prop := forall st (t : Z), Rs s st -> Rs s (st <| s_last_ctrl_ts := t |>).
Definition free_stream s : Prop := forall st st', s_internal_closed st' = s_internal_closed st -> Rs s st -> Rs s st'.
Definition any_stream s : Prop := forall st st', Rs s st -> Rs s st'.
Definition closable s : Prop :=
  free_stream s /\ forall st, Rs s st -> Rs s (st <| s_internal_closed := true |>).

Lemma down_loose c : down c -> loose c.
Proof. intros H k t. apply H; [done|by left]. Qed.
Lemma any_free_stream s : any_stream s -> free_stream s.
Proof. intros H st st' _. apply H. Qed.
Lemma any_loose_stream s : any_stream s -> loose_stream s.
Proof. intros H st t. apply H. Qed.
Lemma any_closable s : any_stream s -> closable s.
Proof. intros H. split; [by apply any_free_stream|]. intros st. apply H. Qed.
#[local] Hint Resolve down_loose any_free_stream any_loose_stream any_closable : sight.

Lemma si_view c f : (forall k, retry_view (f k) = retry_view k) -> forall k, Rc c k -> Rc c (f k).
Proof. eauto. Qed.
Lemma si_down c f :
  down c -> (forall k, c_internal_closed k = true -> c_internal_closed (f k) = true) ->
  (forall k, c_state (f k) = c_state k \/ c_state (f k) <> CONN_CONNECTED) -> forall k, Rc c k -> Rc c (f k).
Proof. intros H ? ? k. apply H; auto. Qed.
Lemma si_view_stream s f : (forall st, drain_view (f st) = drain_view st) -> forall st, Rs s st -> Rs s (f st).
Proof. eauto. Qed.
Lemma si_free_stream s f :
  free_stream s -> (forall st, s_internal_closed (f st) = s_internal_closed st) -> forall st, Rs s st -> Rs s (f st).
Proof. intros Hf ? st. apply Hf. done. Qed.
Lemma si_any_stream s f : any_stream s -> forall st, Rs s st -> Rs s (f st).
Proof. intros H st. apply H. Qed.
Lemma si_loose c t : loose c -> forall k, Rc c k -> Rc c (k <| c_last_ctrl_ts := t |>).
Proof. intros H k. apply H. Qed.
Lemma si_loose_stream s t : loose_stream s -> forall st, Rs s st -> Rs s (st <| s_last_ctrl_ts := t |>).
Proof. intros H st. apply H. Qed.
#[local] Hint Extern 3 (forall k, Rc _ k -> Rc _ _) =>
  first [ assumption | apply si_down; [assumption|done|by (left + right)] | by apply si_loose; auto with sight | by apply si_view] : sight.
#[local] Hint Extern 3 (forall st, Rs _ st -> Rs _ _) =>
  first [by apply si_any_stream | by apply si_loose_stream; auto with sight | by apply si_view_stream | by apply si_free_stream] : sight.

(** *** Engine *)

Lemma si_rearm now : sighted (kcpmux_engine_rearm_timer now).
Proof. unfold kcpmux_engine_rearm_timer. sighted. Qed.
Lemma si_reserve_alloc n : sighted (reserve_alloc n).
Proof. unfold reserve_alloc. sighted. Qed.
#[local] Hint Resolve si_rearm si_reserve_alloc : sight.

Lemma si_unregister_node n : aside o due n -> sighted (kcpmux_engine_unregister_timer_node n).
Proof. intros Ho. unfold kcpmux_engine_unregister_timer_node. sighted. Qed.
Lemma si_schedule_timer n d : aside o due n -> sighted (timer_schedule n d).
Proof. intros Ho. unfold timer_schedule. sighted. Qed.
#[local] Hint Resolve si_unregister_node si_schedule_timer : sight.
Lemma si_schedule n d now : aside o due n -> sighted (kcpmux_engine_schedule_timer_node n d now).
Proof. intros Ho. unfold kcpmux_engine_schedule_timer_node. sighted. Qed.
Lemma si_cancel n now : aside o due n -> sighted (kcpmux_engine_cancel_timer_node n now).
Proof. intros Ho. unfold kcpmux_engine_cancel_timer_node. sighted. Qed.
Lemma si_write_socketv iov a : sighted (kcpmux_engine_write_socketv iov a).
Proof. unfold kcpmux_engine_write_socketv. sighted. Qed.
Lemma si_remove_conn c : sighted (kcpmux_engine_remove_conn c).
Proof. unfold kcpmux_engine_remove_conn. sighted. Qed.
Lemma si_queue_release n : sighted (kcpmux_engine_queue_release n).
Proof. unfold kcpmux_engine_queue_release. sighted. Qed.
#[local] Hint Resolve si_schedule si_cancel si_write_socketv si_remove_conn si_queue_release : sight.

(** *** Connections *)

Lemma si_conn_refresh c now : aside o due (OConn c) -> sighted (kcpmux_conn_refresh_timer c now).
Proof. intros Ho. unfold kcpmux_conn_refresh_timer. sighted. Qed.
Lemma si_conn_writev c iov : sighted (kcpmux_conn_write_socketv c iov).
Proof. unfold kcpmux_conn_write_socketv. sighted. Qed.
Lemma si_remove_stream c s : sighted (kcpmux_conn_remove_stream c s).
Proof. unfold kcpmux_conn_remove_stream. sighted. Qed.
#[local] Hint Resolve si_conn_refresh si_conn_writev si_remove_stream : sight.

Lemma si_conn_write c buf : sighted (kcpmux_conn_write_socket c buf).
Proof. unfold kcpmux_conn_write_socket. sighted. Qed.
#[local] Hint Resolve si_conn_write : sight.

Lemma si_set_state c x :
  aside o due (OConn c) -> (forall k, Rc c k -> Rc c (k <| c_state := x |>)) -> sighted (kcpmux_conn_set_state c x).
Proof. intros Ho Hf. unfold kcpmux_conn_set_state. sighted. Qed.

(** [kcpmux_conn_set_state] after the store. *)
Definition report_state c (old x : conn_state) : W unit :=
  now ← kcpmux_engine_now;
  kcpmux_conn_refresh_timer c now;;
  k ← get_conn c;
  match ccb_conn_state_changed (c_callbacks k) with
  | Some f =>
      if bool_decide (x = CONN_CLOSED) || bool_decide (x = CONN_ERROR) then mret tt
      else emit (EvConnState f c old x (c_user_data k))
  | None => mret tt
  end.
Lemma si_report_state c old x : aside o due (OConn c) -> sighted (report_state c old x).
Proof. intros Ho. unfold report_state. sighted. Qed.

(** *** Messages *)

Lemma si_p_connect c : sighted (kcpmux_protocol_send_conn_connect c).
Proof. unfold kcpmux_protocol_send_conn_connect. sighted. Qed.
Lemma si_p_keepalive c : sighted (kcpmux_protocol_send_conn_keepalive c).
Proof. unfold kcpmux_protocol_send_conn_keepalive. sighted. Qed.
Lemma si_p_close c r : sighted (kcpmux_protocol_send_conn_close c r).
Proof. unfold kcpmux_protocol_send_conn_close. sighted. Qed.
Lemma si_p_stream_close s r : sighted (kcpmux_protocol_send_stream_close s r).
Proof. unfold kcpmux_protocol_send_stream_close. sighted. Qed.
Lemma si_p_payload s b : sighted (kcpmux_protocol_send_stream_payload s b).
Proof. unfold kcpmux_protocol_send_stream_payload. sighted. Qed.
#[local] Hint Resolve si_set_state si_p_connect si_p_keepalive si_p_close si_p_stream_close si_p_payload : sight.

Lemma si_send_connect c : aside o due (OConn c) -> loose c -> sighted (kcpmux_conn_send_connect c).
Proof. intros Ho Hl. unfold kcpmux_conn_send_connect. sighted. Qed.
Lemma si_send_keepalive c : aside o due (OConn c) -> sighted (kcpmux_conn_send_keepalive c).
Proof. intros Ho. unfold kcpmux_conn_send_keepalive. sighted. Qed.
Lemma si_send_close c r : aside o due (OConn c) -> loose c -> sighted (kcpmux_conn_send_close c r).
Proof. intros Ho Hl. unfold kcpmux_conn_send_close. sighted. Qed.
#[local] Hint Resolve si_send_connect si_send_keepalive si_send_close : sight.

(** *** Streams *)

Lemma si_batch_linked s : sighted (batch_linked s).
Proof. by apply keeps_gets. Qed.
Lemma si_batch_unlink s : sighted (batch_unlink s).
Proof. apply si_mod_engine. Qed.
#[local] Hint Resolve si_batch_linked si_batch_unlink : sight.
Lemma si_clear_pending s : sighted (kcpmux_stream_clear_pending s).
Proof. unfold kcpmux_stream_clear_pending. sighted. Qed.
Lemma si_kcp_output s b : sighted (kcp_output s b).
Proof. unfold kcp_output. sighted. Qed.
#[local] Hint Resolve si_clear_pending si_kcp_output : sight.

Lemma si_run_kact {A} s (a : kact K A) : sighted (run_kact s a).
Proof. induction a; cbn [run_kact]; sighted. Qed.
#[local] Hint Resolve si_run_kact : sight.

Lemma si_ops_update s now : sighted (ops_update s now).
Proof. unfold ops_update. sighted. Qed.
Lemma si_ops_check s now : sighted (ops_check s now).
Proof. unfold ops_check. sighted. Qed.
Lemma si_ops_waitsnd s : sighted (ops_waitsnd s).
Proof. unfold ops_waitsnd. sighted. Qed.
#[local] Hint Resolve si_ops_update si_ops_check si_ops_waitsnd : sight.

Lemma si_stream_refresh s now : aside o due (OStream s) -> sighted (kcpmux_stream_refresh_timer s now).
Proof. intros Ho. unfold kcpmux_stream_refresh_timer. sighted. Qed.
#[local] Hint Resolve si_stream_refresh : sight.
Lemma si_stream_send_close s r :
  aside o due (OStream s) -> loose_stream s -> sighted (kcpmux_stream_send_close s r).
Proof. intros Ho Hl. unfold kcpmux_stream_send_close. sighted. Qed.
#[local] Hint Resolve si_stream_send_close : sight.

(** [kcpmux_stream_close_internal] after the mark. *)
Definition stream_close_marked s (st : stream K) (reason : Z) : W unit :=
  _ ← get_conn (s_conn st);
  kcpmux_stream_clear_pending s;;
  kcpmux_engine_unregister_timer_node (OStream s);;
  kcpmux_conn_remove_stream (s_conn st) s;;
  mod_stats (fun x => x <| es_stream_closed_total ::= inc64 |>);;
  when (bool_decide (is_Some (s_kcp st)))
    (emit (EvKcpRelease s);;
     mod_stream s (fun st => st <| s_kcp := None |>));;
  when (negb (bool_decide (s_state st = STREAM_ERROR)))
    (mod_stream s (fun st => st <| s_state := STREAM_CLOSED |>));;
  match scb_stream_close_notify (s_callbacks st) with
  | Some f => emit (EvStreamClose f s reason (s_user_data st))
  | None => mret tt
  end;;
  kcpmux_engine_queue_release (OStream s).

Lemma si_stream_close_marked s st r :
  aside o due (OStream s) -> free_stream s -> sighted (stream_close_marked s st r).
Proof. intros Ho Hf. unfold stream_close_marked. sighted. Qed.
#[local] Hint Resolve si_stream_close_marked : sight.

Lemma si_stream_close_internal s r :
  aside o due (OStream s) -> closable s -> sighted (kcpmux_stream_close_internal s r).
Proof.
  intros Ho [Hf Hs]. unfold kcpmux_stream_close_internal. apply keeps_bind_any; [sighted|intros st]. case_match; [sighted|].
  apply keeps_bind_any; [by apply si_mod_stream|]. intros _. by apply si_stream_close_marked.
Qed.
#[local] Hint Resolve si_stream_close_internal : sight.

Lemma si_advance_close s now :
  aside o due (OStream s) -> any_stream s -> sighted (kcpmux_stream_advance_local_close s now).
Proof. intros Ho Hs. unfold kcpmux_stream_advance_local_close. sighted. Qed.
Lemma si_write_unblock s now : sighted (write_unblock s now).
Proof. unfold write_unblock. sighted. Qed.
#[local] Hint Resolve si_advance_close si_write_unblock : sight.
Lemma si_stream_update s now :
  aside o due (OStream s) -> any_stream s -> sighted (kcpmux_stream_update s now).
Proof. intros Ho Hs. unfold kcpmux_stream_update, stream_update_body. sighted. Qed.

(** *** Closing and updating connections *)

(** The streams of a closing connection. *)
Definition all_closable : Prop := forall s, aside o due (OStream s) /\ closable s.

Lemma si_close_bucket c i r : all_closable -> sighted (close_bucket c i r).
Proof. intros Hs. unfold close_bucket. sighted. apply si_stream_close_internal; apply Hs. Qed.
#[local] Hint Resolve si_close_bucket : sight.

(** [kcpmux_conn_close_internal] after the mark: unlinking, the cascade, the
    report. *)
Definition close_unlink c : W unit :=
  kcpmux_engine_unregister_timer_node (OConn c);;
  kcpmux_engine_remove_conn c;;
  mod_stats (fun x => x <| es_conn_closed_total ::= inc64 |>).
Definition close_report c (k : conn) (reason : Z) : W unit :=
  when (negb (bool_decide (c_state k = CONN_ERROR)))
    (mod_conn c (fun k => k <| c_state := CONN_CLOSED |>));;
  k ← get_conn c;
  match ccb_conn_close_notify (c_callbacks k) with
  | Some f => emit (EvConnClose f c reason (c_user_data k))
  | None => mret tt
  end;;
  kcpmux_engine_queue_release (OConn c).
Definition close_marked c (k : conn) (reason : Z) : W unit :=
  close_unlink c;;
  for_each (fun i => close_bucket c i reason) (seq 0 (length (hashtable (c_stream_map k))));;
  close_report c k reason.

Lemma close_internal_eq c reason w :
  kcpmux_conn_close_internal c reason w =
  (k ← get_conn c;
   if c_internal_closed k then mret tt
   else mod_conn c (fun k => k <| c_internal_closed := true |>);; close_marked c k reason) w.
Proof.
  unfold kcpmux_conn_close_internal, close_marked, close_unlink, close_report, mbind, M_bind.
  destruct (get_conn c w) as [[k w1]|]; [|done]. case_match; [done|].
  destruct (mod_conn _ _ w1) as [[[] w2]|]; [|done].
  destruct (kcpmux_engine_unregister_timer_node _ w2) as [[[] w3]|]; [|done].
  by destruct (kcpmux_engine_remove_conn c w3) as [[[] w4]|].
Qed.

Lemma si_close_unlink c : aside o due (OConn c) -> sighted (close_unlink c).
Proof. intros Ho. unfold close_unlink. sighted. Qed.
Lemma si_close_report c k r : (forall k, Rc c k -> Rc c (k <| c_state := CONN_CLOSED |>)) -> sighted (close_report c k r).
Proof. intros Hf. unfold close_report. sighted. Qed.
#[local] Hint Resolve si_close_unlink si_close_report : sight.

Lemma si_close_marked c k r :
  aside o due (OConn c) -> (forall k, Rc c k -> Rc c (k <| c_state := CONN_CLOSED |>)) -> all_closable -> sighted (close_marked c k r).
Proof. intros Ho Hf Hs. unfold close_marked. sighted. Qed.
#[local] Hint Resolve si_close_marked : sight.

Lemma si_conn_close_internal c r :
  aside o due (OConn c) -> down c -> all_closable -> sighted (kcpmux_conn_close_internal c r).
Proof.
  intros Ho Hc Hs w Hw. eapply wlp_eq; [apply close_internal_eq|]. revert w Hw.
  change (sighted (k ← get_conn c; if c_internal_closed k then mret tt
    else mod_conn c (fun k => k <| c_internal_closed := true |>);; close_marked c k r)).
  assert (forall k, Rc c k -> Rc c (k <| c_state := CONN_CLOSED |>)) by (apply si_down; [done|done|by right]).
  sighted.
Qed.
#[local] Hint Resolve si_conn_close_internal : sight.

Lemma si_conn_update c now :
  aside o due (OConn c) -> down c -> all_closable -> sighted (kcpmux_conn_update c now).
Proof.
  intros Ho Hc Hs.
  assert (forall k, Rc c k -> Rc c (k <| c_state := CONN_ERROR |>)) by (apply si_down; [done|done|by right]).
  assert (forall k, Rc c k -> Rc c (k <| c_state := CONN_CLOSING |>)) by (apply si_down; [done|done|by right]).
  unfold kcpmux_conn_update, conn_update_body. sighted.
Qed.

(** *** The end of an operation *)

Lemma si_drain_loop fuel : due <> Some true -> sighted (drain_loop fuel).
Proof.
  intros Hd. induction fuel; cbn [drain_loop]; unfold release_cb, kcpmux_conn_release, kcpmux_stream_free; sighted.
  all: apply si_free_obj; by right.
Qed.
#[local] Hint Resolve si_drain_loop : sight.

Lemma si_leave : due <> Some true -> sighted kcpmux_engine_operation_leave.
Proof.
  intros Hd. unfold kcpmux_engine_operation_leave, kcpmux_engine_drain_pending_release. sighted.
Qed.
End calls.
