(* ===== verification/Firing.v ===== *)
(** * An update serves what is due

    [kcpmux_engine_update] collects the nodes whose time has come, takes one
    after the other and runs its handler.  What a round does is stated for any
    property that survives the bookkeeping around the handler, and
    [update_serves] says that an object armed for a time that has come gets
    its turn. *)

From S2P Require Import Prelude Keeps Types Timer TimerProofs TimerSpec Hashtable Vectored World Engine Conn Messages Stream Mux Life LifeSim LifeEntry LifeSpec Deadlines Shape Steps Alarm AlarmStep AlarmFrame AlarmMend AlarmStream AlarmClose AlarmCalls AlarmInput AlarmLoops AlarmSpec Typing TypingRules TypingCalls TypingStream TypingMux Sight.
From stdpp Require Import gmap.
#[local] Open Scope Z_scope.

(** Nothing is known of an object; something is known of one. *)
Definition every {A} (_ : positive) (_ : A) : Prop := True.
Definition only {A} (x : positive) (R : A -> Prop) (y : positive) (a : A) : Prop := y = x -> R a.

Lemma every_view {A B} (v : A -> B) y (a a' : A) : v a' = v a -> every y a -> every y a'.
Proof. done. Qed.
Lemma only_view {A B} x (R : A -> Prop) (v : A -> B) :
  (forall a a', v a' = v a -> R a -> R a') -> forall y a a', v a' = v a -> only x R y a -> only x R y a'.
Proof. unfold only. eauto. Qed.

(** Taking the first node off the due list. *)
Lemma pop_due_sight o due n l t :
  due_sight o (Some due) t -> tm_due t = n :: l ->
  due_sight o (Some (due && bool_decide (n <> o))) (t <| tm_due ::= list.tail |>).
Proof.
  destruct t as [h cp sq nds du]. intros [H1 H2 H3 H4] Hd. cbn in *. subst du.
  apply list.NoDup_cons in H1 as [Hn H1]. constructor; [done|done| |].
  - intros b [= <-]. cbn. rewrite andb_true_iff, <- (H3 due eq_refl), bool_decide_eq_true, elem_of_cons. split; [|naive_solver].
    intros Hin. split; [by right|]. by intros ->.
  - intros [= [Hdue _]%andb_true_iff]. apply H4. by subst.
Qed.

Lemma pop_any_sight o n l t :
  due_sight o None t -> tm_due t = n :: l -> due_sight o None (t <| tm_due ::= list.tail |>).
Proof.
  destruct t as [h cp sq nds du]. intros [H1 H2 H3 H4] Hd. cbn in *. subst du.
  apply list.NoDup_cons in H1 as [Hn H1]. by constructor.
Qed.

(** Stores into the object something is known of. *)
Lemma store_conn {KO : Kcp} c (R R' : conn -> Prop) Rs o due f w :
  sight (only c R) Rs o due w -> (forall k, R k -> R' (f k)) ->
  wlp (mod_conn c f) (fun _ w' => sight (only c R') Rs o due w') w.
Proof.
  intros [H1 H2 H3] Hf a w'. unfold mod_conn, get_conn, deref, modify, mbind, M_bind.
  destruct (w_conns w !! c) as [k|] eqn:Hk; [|done]. intros [= <- <-].
  constructor; [|exact H2|exact H3]. intros c' k' Hk' ->. cbn in Hk'. rewrite lookup_insert_eq in Hk'.
  injection Hk' as <-. apply Hf. by apply (H1 c k Hk).
Qed.

Lemma store_stream {KO : Kcp} s (R R' : stream K -> Prop) Rc o due f w :
  sight Rc (only s R) o due w -> (forall st, R st -> R' (f st)) ->
  wlp (mod_stream s f) (fun _ w' => sight Rc (only s R') o due w') w.
Proof.
  intros [H1 H2 H3] Hf a w'. unfold mod_stream, get_stream, deref, modify, mbind, M_bind.
  destruct (w_streams w !! s) as [st|] eqn:Hst; [|done]. intros [= <- <-].
  constructor; [exact H1| |exact H3]. intros s' st' Hst' ->. cbn in Hst'. rewrite lookup_insert_eq in Hst'.
  injection Hst' as <-. apply Hf. by apply (H2 s st Hst).
Qed.

Section rounds.
Context {KO : Kcp} {HO : Host}.
Implicit Types (w : world K).

Definition popped (n o : obj) (due : option bool) : option bool :=
  match due with Some d => Some (d && bool_decide (n <> o)) | None => None end.

Lemma pop_sight Rc Rs o due n l w :
  sight Rc Rs o due w -> tm_due (w_timers w) = n :: l ->
  wlp (in_timers (modify (fun t => t <| tm_due ::= list.tail |>)))
    (fun _ w' => sight Rc Rs o (popped n o due) w' /\ registered (w_timers w') = registered (w_timers w)) w.
Proof.
  intros [H1 H2 H3] Hd [] w' [= <-]. split; [|done]. constructor; [exact H1|exact H2|].
  destruct due as [due|]; cbn; [by eapply pop_due_sight|by eapply pop_any_sight].
Qed.

Definition mark_running (nd : timer_node) : timer_node := nd <| tn_state := TIMER_RUNNING |>.

(** A node whose handler did not reschedule it is idle again. *)
Definition park (n : obj) : W unit :=
  nd ← in_timers (get_node n);
  when (bool_decide (tn_state nd = TIMER_RUNNING))
    (in_timers (mod_node n (fun nd => nd <| tn_state := TIMER_IDLE |>))).

(** The rest of a round of [dispatch_loop], after the node was taken. *)
Definition fire (n : obj) (now : Z) : W unit :=
  in_timers (mod_node n mark_running);;
  mod_engine (fun e => e <| e_timer_dispatch_count ::= inc64 |>);;
  nd ← in_timers (get_node n);
  match timeout_cb nd with
  | Some cb => run_timeout cb (owner nd) now
  | None => mret tt
  end;;
  park n.

Lemma dispatch_round fuel now w :
  dispatch_loop (S fuel) now w =
  match tm_due (w_timers w) with
  | [] => Some (tt, w)
  | n :: _ => (in_timers (modify (fun t => t <| tm_due ::= list.tail |>));; fire n now;; dispatch_loop fuel now) w
  end.
Proof.
  cbn [dispatch_loop]. unfold fire, park, mbind, M_bind, gets. destruct (tm_due (w_timers w)) as [|n l]; [done|].
  destruct (in_timers _ w) as [[[] w1]|]; [|done].
  destruct (in_timers _ w1) as [[[] w2]|]; [|done].
  destruct (mod_engine _ w2) as [[[] w3]|]; [|done].
  destruct (in_timers _ w3) as [[nd w4]|]; [|done].
  destruct (match timeout_cb nd with _ => _ end w4) as [[[] w5]|]; [|done].
  by destruct (in_timers _ w5) as [[nd' w6]|].
Qed.

Lemma si_park Rc Rs o due n : keeps (sight Rc Rs o due) (park n) (fun _ => True).
Proof. unfold park. sighted. apply si_in_timers, si_mod_node. done. Qed.

(** A round ends in [J] if the handler does, provided the node is registered
    or nothing needs to happen. *)
Lemma wlp_fire Rc Rs o due (J : world K -> Prop) n now w :
  sight Rc Rs o due w -> keeps J (park n) (fun _ => True) ->
  n ∈ registered (w_timers w) \/ (forall w', sight Rc Rs o due w' -> J w') ->
  (forall w', sight Rc Rs o due w' -> wlp (run_timeout (cb_of n) (Some n) now) (fun _ w' => J w') w') ->
  wlp (fire n now) (fun _ w' => J w') w.
Proof.
  intros Hw Hpark Hreg Hrun. unfold fire. apply wlp_bind. intros [] w1 H1.
  pose proof (si_in_timers Rc Rs o due _ (si_mod_node o due n mark_running (fun _ => eq_refl)) w Hw _ _ H1) as [_ Hw1].
  unfold in_timers, zoom, mod_node, get_node, deref, modify, mbind, M_bind in H1.
  destruct (tm_nodes (w_timers w) !! n) as [nd|] eqn:Hnd; [|done]. injection H1 as <-.
  apply wlp_bind, wlp_modify. set (w2 := _ <| w_engine ::= _ |>).
  assert (Hw2 : sight Rc Rs o due w2) by (destruct Hw1 as [? ? ?]; by constructor).
  assert (Hn2 : tm_nodes (w_timers w2) !! n = Some (mark_running nd)) by (cbn; apply lookup_insert_eq).
  assert (Hown : owner (mark_running nd) = owner nd) by done.
  assert (Hcb : timeout_cb (mark_running nd) = timeout_cb nd) by done. clearbody w2.
  apply wlp_bind. intros nd2 w3 H3. unfold in_timers, zoom, get_node, deref in H3. rewrite Hn2 in H3. injection H3 as <- <-.
  match goal with |- wlp _ _ ?x => replace x with w2 by (by destruct w2) end.
  apply wlp_bind, (wlp_mono _ (fun _ w3 => J w3)); [|intros [] w4 HJ; eapply wlp_mono; [exact (Hpark w4 HJ)|by intros ? ? []]].
  rewrite Hown, Hcb. destruct (owner nd) as [own|] eqn:Eo.
  - destruct (du_owners _ _ _ (sg_timers _ _ _ _ _ Hw) n nd own Hnd Eo) as [-> ->]. by apply Hrun.
  - destruct Hreg as [Hreg|HJ].
    + apply elem_registered in Hreg as (nd' & Hnd' & [own Hown']). congruence.
    + destruct (timeout_cb nd) as [cb|]; unfold run_timeout; try destruct cb; apply wlp_ret; by apply HJ.
Qed.

(** Taking a node and running its handler. *)
Definition dispatch_one (n : obj) (now : Z) : W unit :=
  in_timers (modify (fun t => t <| tm_due ::= list.tail |>));; fire n now.

(** ** An object that waits for its turn *)

Section turn.
Context (o : obj) (now : Z) (Wait Done : world K -> Prop).
Context (Hdue : forall w, Wait w -> o ∈ tm_due (w_timers w)).
Context (Hother : forall w n l, Wait w -> tm_due (w_timers w) = n :: l -> n <> o ->
  wlp (dispatch_one n now) (fun _ w' => Wait w' \/ Done w') w).
Context (Hown : forall w l, Wait w -> tm_due (w_timers w) = o :: l ->
  wlp (dispatch_one o now) (fun _ w' => Done w') w).
Context (Hdone : forall w n l, Done w -> tm_due (w_timers w) = n :: l ->
  wlp (dispatch_one n now) (fun _ w' => Done w') w).

Lemma dispatch_serves fuel w :
  Wait w \/ Done w -> wlp (dispatch_loop fuel now) (fun _ w' => Done w') w.
Proof.
  assert (Hend : forall w, Wait w \/ Done w -> tm_due (w_timers w) = [] -> Done w).
  { intros w' [Hw|]; [|done]. intros Hd. apply Hdue in Hw. rewrite Hd in Hw. by apply elem_of_nil in Hw. }
  revert w. induction fuel as [|fuel IH]; intros w Hw.
  - cbn [dispatch_loop]. apply wlp_bind, wlp_gets. destruct (tm_due (w_timers w)) eqn:Hd; [|apply wlp_ub].
    apply wlp_ret. by apply Hend.
  - intros a w'. rewrite dispatch_round. destruct (tm_due (w_timers w)) as [|n l] eqn:Hd.
    { intros [= <- <-]. by apply Hend. }
    rewrite <- bind_assoc. revert a w'. change (wlp (dispatch_one n now ≫= fun _ => dispatch_loop fuel now) (fun _ w' => Done w') w).
    apply wlp_bind. destruct Hw as [Hw|Hw].
    + destruct (decide (n = o)) as [->|Hn].
      * eapply wlp_mono; [by eapply Hown|]. intros [] w2 Hw2. apply IH. by right.
      * eapply wlp_mono; [by eapply Hother|]. intros [] w2 Hw2. by apply IH.
    + eapply wlp_mono; [by eapply Hdone|]. intros [] w2 Hw2. apply IH. by right.
Qed.

(** The nodes collected by the update that runs at [now] include that of an
    object armed for a time that has come. *)
Lemma collected_sight w t D x :
  punctual w -> deadlines (w_timers w) !! o = Some x -> x <= now ->
  collected now (w_timers w) t D -> due_sight o (Some true) t.
Proof.
  intros [Hw _ _] Hx Hle Hc. pose proof (wt_reserved _ _ Hw) as [Hok _ _ Hreg].
  destruct (owner_registered _ _ (collected_owner _ _ _ _ Hc)) as (Er & _ & Ho).
  assert (Hheap : o ∈ tm_heap (w_timers w)) by (apply (deadlines_mem _ _ Hok); by rewrite Hx).
  constructor; [apply (to_due_nodup _ (cl_ok _ _ _ _ Hc))|apply Ho, Hw| |intros _; rewrite Er; by apply Hreg].
  intros b [= <-]. split; [done|intros _]. rewrite (cl_due _ _ _ _ Hc), (wt_due _ _ Hw : tm_due _ = []).
  pose proof Hheap as Hin. rewrite (cl_perm _ _ _ _ Hc), elem_of_app in Hin. destruct Hin as [|Hin]; [done|].
  rewrite deadlines_lookup in Hx. destruct (tm_nodes (w_timers w) !! o) as [nd|] eqn:Hnd; [|done].
  pose proof (cl_rest _ _ _ _ Hc _ nd Hin Hnd) as Hlt. cbn in Hx. unfold armed_at in Hx. case_match; [|done].
  injection Hx as <-. lia.
Qed.

Lemma update_serves w x :
  punctual w -> now = host_monotonic_time_ms (w_trace w) -> deadlines (w_timers w) !! o = Some x -> x <= now ->
  (forall w', w_conns w' = w_conns w -> w_streams w' = w_streams w -> due_sight o (Some true) (w_timers w') -> Wait w') ->
  keeps Done kcpmux_engine_operation_leave (fun _ => True) ->
  wlp kcpmux_engine_update (fun _ w' => Done w') w.
Proof.
  intros Hp Hnow Hx Hle Hwait Hleave. unfold kcpmux_engine_update.
  apply wlp_bind. intros now' w1 H1. unfold kcpmux_engine_now, ask, in_trace, zoom, ask_tr in H1.
  injection H1 as <- <-. rewrite <- Hnow.
  apply wlp_bind, wlp_modify. apply wlp_bind. intros [] w3 [= <-]. apply wlp_bind, wlp_wp, wp_timers.
  assert (Hdue0 : tm_due (w_timers w) = []) by apply (wt_due _ _ (pu_watch _ Hp)).
  match goal with |- wp _ _ ?t => assert (t = w_timers w) as -> end.
  { cbn. destruct (w_timers w). cbn in *. by subst. }
  eapply wp_mono; [|apply collect_due_ok; apply (rs_timers _ (wt_reserved _ _ (pu_watch _ Hp)))].
  intros [] t [D Hc]. apply wlp_bind, wlp_modify. apply wlp_bind, wlp_gets. apply wlp_bind.
  eapply wlp_mono; [apply dispatch_serves; left; apply Hwait; [done|done|by eapply collected_sight]|].
  intros [] w4 Hw4. by apply keeps_run.
Qed.
End turn.
End rounds.

(** The clock as the host has reported it has not run backwards, and an object
    whose demand is met fires in time. *)
Lemma meets_deadline {KO : Kcp} (w : world K) o D now :
  punctual w -> demand_of w o = By D \/ demand_of w o = At D \/ demand_of w o = Soon -> D <= now ->
  (forall t, EvTime t ∈ w_trace w -> t <= now) -> exists x, deadlines (w_timers w) !! o = Some x /\ x <= now.
Proof.
  intros Hp Hdem HD Htold. pose proof (punctual_meets w o Hp) as Hm.
  destruct Hdem as [E|[E|E]]; rewrite E in Hm; destruct Hm as (x & t & Hx & Ht & Hle); apply Htold in Ht;
    exists x; (split; [done|lia]).
Qed.

(** ** Calls in a state a session reaches *)

Section ready.
Context {KO : Kcp} {KT : KcpTyped KO} {HO : Host} {HT : HostTyped HO}.
Implicit Types (c s : positive) (w : world K).

Record ready w : Prop := { rd_punctual : punctual w; rd_typed : world_typed w }.

Lemma ready_exec x w w1 : call_typed x -> ready w -> exec x w = Some (tt, w1) -> ready w1.
Proof.
  intros Hx [[Hw Hok Hst] Ht] Hrun. pose proof (follows_exec x w Hok _ _ Hrun) as Hr. constructor.
  - constructor; [by eapply (keeps_exec x w)|by eapply life_steps_ok|by eapply started_steps].
  - by eapply (ty_exec x Hx w Ht).
Qed.

Lemma ready_le x w w1 : ready w -> exec x w = Some (tt, w1) -> life_le (life_of w) (life_of w1).
Proof. intros [[_ Hok _] _] Hrun. apply life_steps_le, (follows_exec x w Hok _ _ Hrun). Qed.

Lemma conn_addr w c k : ready w -> w_conns w !! c = Some k -> (c < w_next_addr w)%positive.
Proof. intros [[Hw _ _] _] Hk. apply (wt_addr _ _ Hw (OConn c)). cbn. by rewrite Hk. Qed.
Lemma stream_addr w s st : ready w -> w_streams w !! s = Some st -> (s < w_next_addr w)%positive.
Proof. intros [[Hw _ _] _] Hst. apply (wt_addr _ _ Hw (OStream s)). cbn. by rewrite Hst. Qed.

(** What [life_le] says of the objects themselves. *)
Lemma conn_before w w1 c k1 :
  life_le (life_of w) (life_of w1) -> (c < w_next_addr w)%positive -> w_conns w1 !! c = Some k1 ->
  exists k, w_conns w !! c = Some k /\ conn_le (clife k) (clife k1).
Proof.
  intros [_ Hc _] Hlt Hk1. destruct (Hc c (clife k1)) as (y & Hy & Hle); [done|cbn; by rewrite lookup_fmap, Hk1|].
  cbn in Hy. rewrite lookup_fmap in Hy. destruct (w_conns w !! c) as [k|]; [|done]. injection Hy as <-. eauto.
Qed.

Lemma stream_before w w1 s st1 :
  life_le (life_of w) (life_of w1) -> (s < w_next_addr w)%positive -> w_streams w1 !! s = Some st1 ->
  exists st, w_streams w !! s = Some st /\ stream_le (slife st) (slife st1).
Proof.
  intros [_ _ Hs] Hlt Hst1. destruct (Hs s (slife st1)) as (y & Hy & Hle); [done|cbn; by rewrite lookup_fmap, Hst1|].
  cbn in Hy. rewrite lookup_fmap in Hy. destruct (w_streams w !! s) as [st|]; [|done]. injection Hy as <-. eauto.
Qed.
End ready.

(** The clock has not run backwards, decided on the trace. *)
Definition clock_steady {KO : Kcp} {HO : Host} (w : world K) : bool :=
  let now := host_monotonic_time_ms (w_trace w) in
  forallb (fun ev => match ev with EvTime t => t <=? now | _ => true end) (w_trace w).

Lemma clock_steady_ok {KO : Kcp} {HO : Host} (w : world K) t :
  clock_steady w = true -> EvTime t ∈ w_trace w -> t <= host_monotonic_time_ms (w_trace w).
Proof.
  unfold clock_steady. rewrite forallb_forall. intros H Ht%list_elem_of_In. apply H in Ht. by apply Z.leb_le.
Qed.
