(* ===== verification/RetriesSpec.v ===== *)
(** * Retries run out

    A connection whose handshake or close is not answered is retried a bounded
    number of times: each update that finds its retry due uses one up, and
    when they are used up the connection is closed. *)

From S2P Require Import Prelude Keeps Types Timer TimerProofs TimerSpec Hashtable Vectored World Engine Conn Messages Stream Mux Sample Life LifeSim LifeEntry LifeSpec Deadlines Shape Steps Alarm AlarmStep AlarmFrame AlarmMend AlarmStream AlarmClose AlarmCalls AlarmInput AlarmLoops AlarmSpec Typing TypingRules TypingCalls TypingStream TypingMux TypingSpec Sight Firing.
From stdpp Require Import gmap.
#[local] Open Scope Z_scope.

Section spec.
Context {KO : Kcp} {HO : Host}.
Implicit Types (c s : positive) (w : world K) (k : conn).

(** When the next retry is due, and how many there are. *)
Definition retry_deadline k : Z :=
  kcpmux_timer_deadline_after (c_last_ctrl_ts k) (cc_ctrl_timeout_ms (c_config k)).
Definition retry_limit k : Z :=
  match c_state k with
  | CONN_CONNECTING => cc_connect_retries (c_config k)
  | CONN_CLOSING => cc_close_retries (c_config k)
  | _ => 0
  end.
Definition retrying k : Prop := c_state k = CONN_CONNECTING \/ c_state k = CONN_CLOSING.

(** After a retry that was due, [k0] being the connection before. *)
Definition retried k0 k : Prop :=
  c_internal_closed k = true \/
  c_state k = c_state k0 /\ c_config k = c_config k0 /\
  c_retry_count k = u32 (c_retry_count k0 + 1) /\ c_retry_count k0 < retry_limit k0.

Definition unchanged k0 k : Prop := retry_view k = retry_view k0.
Definition shut k : Prop := c_internal_closed k = true.
Definition one_more k0 k : Prop :=
  c_state k = c_state k0 /\ c_config k = c_config k0 /\ c_retry_count k = u32 (c_retry_count k0 + 1).

Lemma retrying_deadline k :
  c_internal_closed k = false -> retrying k -> retry_deadline k < INT64_MAX ->
  kcpmux_conn_calculate_deadline k = Some (retry_deadline k).
Proof.
  unfold kcpmux_conn_calculate_deadline, retry_deadline. intros -> Hst Hmax.
  destruct Hst as [-> | ->]; destruct (Z.eqb_spec (kcpmux_timer_deadline_after (c_last_ctrl_ts k)
    (cc_ctrl_timeout_ms (c_config k))) INT64_MAX); (done || lia).
Qed.

Lemma retried_view k0 k k' : retry_view k' = retry_view k -> retried k0 k -> retried k0 k'.
Proof. intros [= H1 H2 H3 H4 H5]. unfold retried. by rewrite H1, H2, H3, H4. Qed.
Lemma one_more_view k0 k k' : retry_view k' = retry_view k -> one_more k0 k -> one_more k0 k'.
Proof. intros [= H1 H2 H3 H4 H5]. unfold one_more. by rewrite H2, H3, H4. Qed.
Lemma unchanged_view k0 k k' : retry_view k' = retry_view k -> unchanged k0 k -> unchanged k0 k'.
Proof. unfold unchanged. congruence. Qed.
Lemma shut_view k k' : retry_view k' = retry_view k -> shut k -> shut k'.
Proof. intros [= H1 _ _ _ _]. unfold shut. by rewrite H1. Qed.

Notation csight c R b := (sight (only c R) every (OConn c) (Some b)).

(** ** Closing *)

(** Whatever was known of [c], it is closed afterwards. *)
Lemma close_internal_shuts c R r w :
  csight c R false w -> wlp (kcpmux_conn_close_internal c r) (fun _ w' => csight c shut false w') w.
Proof.
  intros Hw. eapply wlp_eq; [apply close_internal_eq|]. apply wlp_bind, wlp_deref. intros k Hk.
  destruct (c_internal_closed k) eqn:Hc.
  - apply wlp_ret. destruct Hw as [_ H2 H3]. constructor; [|exact H2|exact H3]. intros c' k' Hk' ->. congruence.
  - apply wlp_bind. eapply wlp_mono; [by apply (store_conn c R shut)|]. intros [] w1 Hw1.
    apply keeps_run; [|exact Hw1]. apply si_close_marked; [exact (only_view c shut retry_view shut_view)|done|by right| |].
    + intros k1 Hs E. by apply Hs.
    + intros s. split; [by left|done].
Qed.

(** The tail of a handler that closes the connection. *)
Lemma handler_closes c R r w :
  csight c R false w ->
  wlp (kcpmux_conn_close_internal c r;; mret false) (fun b w' => b = false /\ csight c shut false w') w.
Proof.
  intros Hw. apply wlp_bind. eapply wlp_mono; [by eapply close_internal_shuts|]. intros [] w1 Hw1. by apply wlp_ret.
Qed.

Lemma set_state_any c x w :
  csight c (fun _ => True) false w ->
  wlp (kcpmux_conn_set_state c x) (fun _ w' => csight c (fun _ => True) false w') w.
Proof. apply keeps_run, si_set_state; [done|by right|done]. Qed.

(** ** The handler of the connection itself *)

Lemma loose_one_more c k : loose (only c (one_more k)) c.
Proof. intros k1 t H E. by apply H. Qed.

Lemma body_retries c k now w :
  csight c (unchanged k) false w -> retrying k -> retry_deadline k <= now ->
  wlp (conn_update_body c now) (fun b w' => csight c (retried k) false w') w.
Proof.
  intros Hw Hst Hdue. assert (aside (OConn c) (Some false) (OConn c)) as Ha by (by right).
  unfold conn_update_body. apply wlp_bind, wlp_deref. intros k1 Hk1. pose proof (sg_conn _ _ _ _ _ Hw c k1 Hk1 eq_refl) as Hv.
  injection Hv as E1 E2 E3 E4 E5. unfold retry_deadline in Hdue. rewrite E2, E3, E4, E5. cbv zeta.
  apply Z.leb_le in Hdue. rewrite Hdue.
  assert (Hshut : forall b w', b = false /\ csight c shut false w' -> csight c (retried k) false w').
  { intros b w' [_ Hs]. eapply sight_weaken; [exact Hs| |done]. intros c' k' Hk' E. left. by apply Hk'. }
  assert (Hmore : forall w', c_retry_count k < retry_limit k -> csight c (one_more k) false w' -> csight c (retried k) false w').
  { intros w' Hlt Hs. eapply sight_weaken; [exact Hs| |done]. intros c' k' Hk' E. destruct (Hk' E) as (? & ? & ?). by right. }
  assert (Hany : csight c (fun _ => True) false w) by (eapply sight_weaken; [exact Hw|done|done]).
  assert (Hcount : wlp (mod_conn c (fun k => k <| c_retry_count ::= fun n => u32 (n + 1) |>))
    (fun _ w' => csight c (one_more k) false w') w).
  { apply (store_conn c (unchanged k)); [exact Hw|]. intros k2 [= _ F2 F3 F4 _]. unfold one_more. cbn. by rewrite F2, F3, F4. }
  assert (Hview := only_view c (one_more k) retry_view (one_more_view k)). pose proof (loose_one_more c k) as Hloose.
  destruct Hst as [Hst|Hst]; rewrite Hst; unfold retry_limit in Hmore; rewrite Hst in Hmore.
  - destruct (Z.ltb_spec (c_retry_count k) (cc_connect_retries (c_config k))).
    + apply wlp_bind. eapply wlp_mono; [exact Hcount|]. intros [] w1 Hw1. apply wlp_bind.
      eapply wlp_mono; [apply keeps_run; [by apply si_send_connect|exact Hw1]|].
      intros r w2 Hw2. apply wlp_ret. by apply Hmore.
    + apply wlp_bind. eapply wlp_mono; [by apply set_state_any|]. intros [] w1 Hw1.
      eapply wlp_mono; [by eapply handler_closes|exact Hshut].
  - destruct (Z.ltb_spec (c_retry_count k) (cc_close_retries (c_config k))).
    + apply wlp_bind. eapply wlp_mono; [exact Hcount|]. intros [] w1 Hw1. apply wlp_bind.
      eapply wlp_mono; [apply keeps_run; [by apply si_send_close|exact Hw1]|].
      intros r w2 Hw2. apply wlp_bind, wlp_deref. intros k2 _. case_match.
      * eapply wlp_mono; [exact (handler_closes c (one_more k) _ w2 Hw2)|exact Hshut].
      * apply wlp_ret. by apply Hmore.
    + eapply wlp_mono; [by eapply handler_closes|exact Hshut].
Qed.

Lemma update_retries c k now w :
  csight c (unchanged k) false w -> c_internal_closed k = false -> retrying k ->
  retry_deadline k <= now -> retry_deadline k < INT64_MAX ->
  wlp (kcpmux_conn_update c now) (fun _ w' => csight c (retried k) false w') w.
Proof.
  intros Hw Hopen Hst Hdue Hmax. unfold kcpmux_conn_update. apply wlp_bind, wlp_deref. intros k1 Hk1.
  pose proof (sg_conn _ _ _ _ _ Hw c k1 Hk1 eq_refl) as Hv. injection Hv as E1 E2 E3 E4 E5. rewrite E1, Hopen.
  assert (kcpmux_conn_calculate_deadline k1 = Some (retry_deadline k)) as ->.
  { rewrite <- (retrying_deadline k) by done. unfold kcpmux_conn_calculate_deadline.
    by rewrite E1, Hopen, E2, E4, E5; destruct Hst as [-> | ->]. }
  destruct (Z.ltb_spec now (retry_deadline k)); [lia|].
  apply wlp_bind. eapply wlp_mono; [by apply body_retries|]. intros again w1 Hw1. cbv beta in Hw1.
  destruct again; [|by apply wlp_ret]. cbn [when].
  apply keeps_run; [apply si_conn_refresh; by right|exact Hw1].
Qed.

(** ** Its turn in an update *)

(** Other objects fire: [c] is left alone. *)
Lemma other_fires c R due n l now w :
  (forall k k', retry_view k' = retry_view k -> R k -> R k') ->
  csight c R due w -> tm_due (w_timers w) = n :: l -> n <> OConn c ->
  wlp (dispatch_one n now) (fun _ w' => csight c R due w') w.
Proof.
  intros HR Hw Hd Hn. unfold dispatch_one. apply wlp_bind. eapply wlp_mono; [by eapply pop_sight|].
  intros [] w1 [Hw1 _]. cbn [popped] in Hw1. rewrite bool_decide_eq_true_2, andb_true_r in Hw1 by done.
  eapply wlp_fire; [exact Hw1|apply si_park|by right|]. clear w w1 Hw Hd Hw1. intros w Hw.
  assert (Hv := only_view c R retry_view HR).
  destruct n as [c'|s]; cbn [run_timeout cb_of]; revert Hw; apply keeps_run.
  - apply si_conn_update; [done|done|left; congruence|intros k k' _ _ _ ->; done|].
    intros s. split; [by left|done].
  - apply si_stream_update; [done|done|by left|done].
Qed.

(** The node of [c] fires. *)
Lemma conn_fires c k l now w :
  csight c (unchanged k) true w -> tm_due (w_timers w) = OConn c :: l ->
  c_internal_closed k = false -> retrying k -> retry_deadline k <= now -> retry_deadline k < INT64_MAX ->
  wlp (dispatch_one (OConn c) now) (fun _ w' => csight c (retried k) false w') w.
Proof.
  intros Hw Hd Hopen Hst Hdue Hmax. unfold dispatch_one. apply wlp_bind.
  pose proof (du_registered _ _ _ (sg_timers _ _ _ _ _ Hw) eq_refl) as Hreg.
  eapply wlp_mono; [by eapply pop_sight|]. intros [] w1 [Hw1 Hr]. cbn [popped] in Hw1.
  rewrite bool_decide_eq_false_2 in Hw1 by (intros H; by apply H). rewrite <- Hr in Hreg.
  eapply wlp_fire; [exact Hw1|apply si_park|by left|]. intros w2 Hw2. by apply update_retries.
Qed.

Lemma update_spends_retry c k w :
  punctual w -> w_conns w !! c = Some k -> c_internal_closed k = false -> retrying k ->
  let now := host_monotonic_time_ms (w_trace w) in
  (forall t, EvTime t ∈ w_trace w -> t <= now) -> retry_deadline k <= now -> now < INT64_MAX ->
  wlp kcpmux_engine_update (fun _ w' => forall k', w_conns w' !! c = Some k' -> retried k k') w.
Proof.
  intros Hp Hk Hopen Hst now Htold Hdue Hmax.
  assert (Hdem : demand_of w (OConn c) = By (retry_deadline k)).
  { cbn. rewrite Hk. cbn. unfold conn_demand. by rewrite retrying_deadline by (done || lia). }
  destruct (meets_deadline w (OConn c) _ now Hp (or_introl Hdem) Hdue Htold) as (x & Hx & Hle).
  eapply wlp_mono; [apply (update_serves (OConn c) now (csight c (unchanged k) true) (csight c (retried k) false)) with (x := x)|].
  - intros w' Hw'. by apply (du_due _ _ _ (sg_timers _ _ _ _ _ Hw') true).
  - intros w' n l Hw' Hd Hn. eapply wlp_mono; [by eapply (other_fires c (unchanged k) true n l now w' (unchanged_view k))|].
    intros [] w2 ?. by left.
  - intros w' l Hw' Hd. eapply conn_fires; try done. lia.
  - intros w' n l Hw' Hd. eapply (other_fires c (retried k) false n l now w' (retried_view k)); [done|done|].
    intros ->. assert (OConn c ∈ tm_due (w_timers w')) as Hin by (rewrite Hd; by left).
    by apply (du_due _ _ _ (sg_timers _ _ _ _ _ Hw') false eq_refl) in Hin.
  - done.
  - done.
  - done.
  - done.
  - intros w' Hc Hs Ht. constructor; [|done|done]. intros c' k' Hk' ->. rewrite Hc, Hk in Hk'. by injection Hk' as <-.
  - by apply si_leave.
  - intros [] w' Hw' k' Hk'. by apply (sg_conn _ _ _ _ _ Hw' c k' Hk').
Qed.
End spec.

(** ** Any number of updates *)

Section sessions.
Context {KO : Kcp} {KT : KcpTyped KO} {HO : Host} {HT : HostTyped HO}.
Implicit Types (c s : positive) (w : world K) (k : conn).

(** The clock has not run backwards, and the retry of [c] is due. *)
Definition overdue w c : Prop :=
  let now := host_monotonic_time_ms (w_trace w) in
  (forall t, EvTime t ∈ w_trace w -> t <= now) /\ now < INT64_MAX /\
  forall k, w_conns w !! c = Some k -> retry_deadline k <= now.

(** [n] updates that find the retry of [c] due, among calls that leave its
    state, configuration and count alone. *)
Inductive unanswered c : nat -> world K -> world K -> Prop :=
| ua_none w : unanswered c 0 w w
| ua_update n w w1 w2 :
    overdue w c -> exec CallEngineUpdate w = Some (tt, w1) -> unanswered c n w1 w2 -> unanswered c (S n) w w2
| ua_call n x w w1 w2 :
    call_typed x -> exec x w = Some (tt, w1) ->
    (forall k, w_conns w !! c = Some k -> exists k1, w_conns w1 !! c = Some k1 /\ conn_key k1 = conn_key k) ->
    unanswered c n w1 w2 -> unanswered c n w w2.

Lemma unanswered_le c n w w' : unanswered c n w w' -> ready w -> life_le (life_of w) (life_of w').
Proof.
  induction 1 as [|n w w1 w2 _ Hrun _ IH|n x w w1 w2 Hx Hrun _ _ IH]; intros Hw; [apply life_le_refl| |];
    (eapply life_le_trans; [by eapply ready_le|]); apply IH; [by eapply (ready_exec CallEngineUpdate)|by eapply ready_exec].
Qed.

(** [n] retries later. *)
Record spent (n : nat) k k' : Prop := {
  sp_state : c_state k' = c_state k;
  sp_config : c_config k' = c_config k;
  sp_count : c_retry_count k' = c_retry_count k + Z.of_nat n;
  sp_limit : n <> 0%nat -> c_retry_count k' <= retry_limit k
}.

Lemma spent_trans n m a b d : spent n a b -> spent m b d -> spent (n + m) a d.
Proof.
  intros [E1 E2 E3 E4] [F1 F2 F3 F4]. unfold retry_limit in *. rewrite E1, E2 in F4.
  constructor; [congruence|congruence|lia|]. intros Hn.
  destruct (decide (m = 0%nat)) as [->|]; [|by apply F4]. rewrite F3, Z.add_0_r. apply E4. lia.
Qed.

Lemma limit_range k : conn_typed k -> retry_limit k < 2 ^ 32.
Proof.
  intros [_ _ [_ Hc Hd _ _ _] _ _ _ _ _ _ _ _ _ _ _ _ _ _]. unfold retry_limit.
  destruct (c_state k); first [apply Hc|apply Hd|done].
Qed.

Lemma update_step c k w w1 k1 :
  ready w -> w_conns w !! c = Some k -> c_internal_closed k = false -> retrying k -> overdue w c ->
  exec CallEngineUpdate w = Some (tt, w1) -> w_conns w1 !! c = Some k1 -> c_internal_closed k1 = false -> spent 1 k k1.
Proof.
  intros [Hp Ht] Hk Hopen Hst [Htold [Hmax Hdue]] Hrun Hk1 Hc1.
  pose proof (update_spends_retry c k w Hp Hk Hopen Hst Htold (Hdue k Hk) Hmax tt w1 Hrun) as Hr.
  pose proof (wd_conns _ Ht c k Hk) as Hty. pose proof (limit_range k Hty) as Hlim. destruct (ct_retries _ Hty) as [H0 _].
  destruct (Hr k1 Hk1) as [|(Es & Ec & En & Hlt)]; [congruence|].
  rewrite wrap_small in En by (unfold in_u; lia). constructor; [done|done|lia|lia].
Qed.

Lemma unanswered_spend c n w w' k :
  unanswered c n w w' -> ready w -> w_conns w !! c = Some k -> c_internal_closed k = false -> retrying k ->
  forall k', w_conns w' !! c = Some k' -> c_internal_closed k' = false -> spent n k k'.
Proof.
  intros Hu. revert k.
  induction Hu as [w|n w w1 w2 Hov Hrun Hu IH|n x w w1 w2 Hx Hrun Hsame Hu IH]; intros k Hw Hk Hopen Hst k' Hk' Hopen'.
  - replace k' with k by congruence. constructor; [done|done|lia|done].
  - pose proof (ready_exec CallEngineUpdate w w1 I Hw Hrun) as Hw1.
    pose proof (le_next _ _ (ready_le CallEngineUpdate w w1 Hw Hrun)) as Hn. pose proof (conn_addr w c k Hw Hk). cbn in Hn.
    destruct (conn_before w1 w2 c k') as (k1 & Hk1 & Hle); [by eapply unanswered_le|lia|done|].
    assert (c_internal_closed k1 = false) as Hc1.
    { destruct (c_internal_closed k1) eqn:E; [|done]. apply (conn_le_closed _ _ Hle) in E. cbn in E. congruence. }
    pose proof (update_step c k w w1 k1 Hw Hk Hopen Hst Hov Hrun Hk1 Hc1) as Hsp.
    assert (retrying k1) as Hst1 by (unfold retrying; by rewrite (sp_state _ _ _ Hsp)).
    apply (spent_trans 1 n k k1 k' Hsp). by apply IH.
  - destruct (Hsame k Hk) as (k1 & Hk1 & [= E1 E2 E3 E4]). pose proof (ready_exec x w w1 Hx Hw Hrun) as Hw1.
    assert (retrying k1) as Hst1 by (unfold retrying; by rewrite E2).
    destruct (IH k1 Hw1 Hk1 ltac:(congruence) Hst1 k' Hk' Hopen') as [F1 F2 F3 F4].
    unfold retry_limit in F4. rewrite E2, E4 in F4. constructor; [congruence|congruence|lia|done].
Qed.

(** C13. Retries run out: take a connection that waits for the answer to its
    CONNECT or CONN_CLOSE, in any state a session reaches, and any further calls
    that leave its handshake or close alone, [n] of them updates that come
    after its retry was due.  If the connection is still open, each of the
    [n] has used up one retry, and no more retries were used than the
    configuration grants.  So after more updates than retries are left it has
    been closed. *)
Theorem retries_run_out ec dc ds cb ud e tr l w c k n w' k' :
  config_arg cconfig_typed dc -> config_arg sconfig_typed ds ->
  kcpmux_engine_create ec dc ds cb ud [] = Some (Some e, tr) ->
  Forall call_typed l -> exec_all l (boot e tr) = Some (tt, w) ->
  w_conns w !! c = Some k -> c_internal_closed k = false ->
  c_state k = CONN_CONNECTING \/ c_state k = CONN_CLOSING ->
  unanswered c n w w' ->
  w_conns w' !! c = Some k' -> c_internal_closed k' = false ->
  c_state k' = c_state k /\ c_retry_count k' = c_retry_count k + Z.of_nat n /\
  (n <> 0%nat -> c_retry_count k + Z.of_nat n <= retry_limit k).
Proof.
  intros Hdc Hds Hcreate Hl Hrun Hk Hopen Hst Hu Hk' Hopen'.
  assert (Hw : ready w) by (constructor; [by eapply session_punctual|by eapply session_typed]).
  destruct (unanswered_spend c n w w' k Hu Hw Hk Hopen Hst k' Hk' Hopen') as [E1 _ E3 E4].
  split; [done|]. split; [done|]. by rewrite <- E3.
Qed.
End sessions.

(** ** A client nobody answers *)

Definition impatient : conn_config :=
  kcpmux_conn_config_init <| cc_ctrl_timeout_ms := 1 |> <| cc_connect_retries := 1 |>.
Definition lonely : list call :=
  [CallConnect (Some server_addr) (Some impatient) None
     (Some (mk_conn_callbacks (Some 5%positive) (Some 6%positive) (Some 7%positive))) 41].

Definition lonely_start := Eval vm_compute in outcome (run (exec_all lonely) (Some sample_boot)).
Definition lonely_later := Eval vm_compute in outcome (run (exec CallEngineUpdate) (Some lonely_start)).
Definition lonely_end := Eval vm_compute in outcome (run (exec CallEngineUpdate) (Some lonely_later)).
Definition lonely_conn := Eval vm_compute in outcome (w_conns lonely_start !! 1%positive).
Definition retried_conn := Eval vm_compute in outcome (w_conns lonely_later !! 1%positive).

Definition overdue_now {KO : Kcp} {HO : Host} (w : world K) (c : positive) : bool :=
  let now := host_monotonic_time_ms (w_trace w) in
  clock_steady w && (now <? INT64_MAX) &&
  match w_conns w !! c with Some k => retry_deadline k <=? now | None => true end.

Lemma overdue_now_ok {KO : Kcp} {HO : Host} (w : world K) c : overdue_now w c = true -> overdue w c.
Proof.
  intros [[H1 H2]%andb_prop H3]%andb_prop. split; [intros t; by apply clock_steady_ok|split; [by apply Z.ltb_lt|]].
  intros k Hk. rewrite Hk in H3. by apply Z.leb_le.
Qed.

Lemma lonely_retries : unanswered 1 1 lonely_start lonely_later.
Proof.
  eapply ua_update; [apply overdue_now_ok| |apply ua_none]; vm_compute; reflexivity.
Qed.

Lemma retries_run_out_witness :
  c_retry_count retried_conn = c_retry_count lonely_conn + 1 /\
  unanswered 1 2 lonely_start lonely_end /\ w_conns lonely_end !! 1%positive = None.
Proof.
  assert (exec_all lonely (boot sample_create.1 sample_create.2) = Some (tt, lonely_start)) as Hrun
    by (vm_compute; reflexivity).
  assert (Forall call_typed lonely) as Hl.
  { apply list.Forall_cons_2; [split; [constructor; range|exact I]|apply list.Forall_nil_2]. }
  assert (w_conns lonely_start !! 1%positive = Some lonely_conn) as Hk by (vm_compute; reflexivity).
  assert (w_conns lonely_later !! 1%positive = Some retried_conn) as Hk' by (vm_compute; reflexivity).
  split; [|split].
  - exact (proj1 (proj2 (retries_run_out None None None (Some all_callbacks) 0 _ _ _ _ _ _ _ _ _ I I
      sample_create_eq Hl Hrun Hk eq_refl (or_introl eq_refl) lonely_retries Hk' eq_refl))).
  - apply (ua_update _ 1 _ lonely_later); [apply overdue_now_ok| |apply (ua_update _ 0 _ lonely_end);
      [apply overdue_now_ok| |apply ua_none]]; vm_compute; reflexivity.
  - vm_compute. reflexivity.
Defined.
