(* ===== verification/Drain.v ===== *)
(** * What an update does to a closing stream

    A stream that closes gracefully drains, sends its CLOSE, repeats it, or
    waits for its reader, each with a timeout.  [update_serves_stream]: an
    update that finds the timeout expired takes the close one step on, unless
    the stream is closed or its connection falls in the same update. *)

From S2P Require Import Prelude Keeps Types Timer TimerProofs TimerSpec Hashtable Vectored World Engine Conn Messages Stream Mux Sample Life LifeSim LifeEntry LifeSpec Deadlines Shape Steps Alarm AlarmStep AlarmFrame AlarmMend AlarmStream AlarmClose AlarmCalls AlarmInput AlarmLoops AlarmSpec Typing TypingRules TypingCalls TypingStream TypingMux TypingSpec Sight Firing.
From stdpp Require Import gmap.
#[local] Open Scope Z_scope.

Section spec.
Context {KO : Kcp} {HO : Host}.
Implicit Types (c s : positive) (w : world K) (k : conn) (st : stream K).

Definition drain_deadline st : Z :=
  kcpmux_timer_deadline_after (s_drain_started_ts st) (sc_drain_timeout_ms (s_config st)).
Definition ack_deadline st : Z :=
  kcpmux_timer_deadline_after (s_last_ctrl_ts st) (sc_ctrl_timeout_ms (s_config st)).

(** The timeout of the phase has expired. *)
Definition close_due st (now : Z) : Prop :=
  match s_close_phase st with
  | CLOSE_LOCAL_DRAIN | CLOSE_REMOTE_DRAIN => drain_deadline st <= now
  | CLOSE_WAIT_ACK => ack_deadline st <= now
  | _ => True
  end.

(** A graceful close under way. *)
Definition closing st : Prop := s_state st = STREAM_CLOSING /\ s_close_phase st <> CLOSE_NONE.

(** Waiting for the acknowledgement of the CLOSE, after [n] repetitions. *)
Definition awaiting st0 (n : Z) st : Prop :=
  s_state st = STREAM_CLOSING /\ s_close_phase st = CLOSE_WAIT_ACK /\
  s_config st = s_config st0 /\ s_conn st = s_conn st0 /\ s_retry_count st = n.

(** One step on from [st0]. *)
Definition stepped st0 st : Prop :=
  s_internal_closed st = true \/
  exists n, awaiting st0 n st /\
    (s_close_phase st0 = CLOSE_LOCAL_DRAIN /\ n = 0 \/
     s_close_phase st0 = CLOSE_WAIT_ACK /\ n = u32 (s_retry_count st0 + 1) /\
       s_retry_count st0 < sc_close_retries (s_config st0)) /\
    n <> sc_close_retries (s_config st0).

Definition same st0 st : Prop := drain_view st = drain_view st0.
Definition stream_shut st : Prop := s_internal_closed st = true.
Definition conn_lives k : Prop := c_internal_closed k = false /\ c_state k = CONN_CONNECTED.
Definition fallen k : Prop := c_internal_closed k = true \/ c_state k <> CONN_CONNECTED.

Lemma same_view st0 st st' : drain_view st' = drain_view st -> same st0 st -> same st0 st'.
Proof. unfold same. congruence. Qed.
Lemma awaiting_view st0 n st st' : drain_view st' = drain_view st -> awaiting st0 n st -> awaiting st0 n st'.
Proof. intros [= H1 H2 H3 H4 H5 H6 H7 H8]. unfold awaiting. by rewrite H2, H3, H4, H5, H6. Qed.
Lemma stepped_view st0 st st' : drain_view st' = drain_view st -> stepped st0 st -> stepped st0 st'.
Proof.
  intros Hv [Hc|(n & Ha & Hn)].
  - left. by injection Hv as ->.
  - right. exists n. split; [|done]. by eapply awaiting_view.
Qed.
Lemma stream_shut_view st st' : drain_view st' = drain_view st -> stream_shut st -> stream_shut st'.
Proof. intros [= H1 _ _ _ _ _ _ _]. unfold stream_shut. by rewrite H1. Qed.
Lemma lives_view k k' : retry_view k' = retry_view k -> conn_lives k -> conn_lives k'.
Proof. intros [= H1 H2 H3 H4 H5]. unfold conn_lives. by rewrite H1, H2. Qed.
Lemma fallen_view k k' : retry_view k' = retry_view k -> fallen k -> fallen k'.
Proof. intros [= H1 H2 H3 H4 H5]. unfold fallen. by rewrite H1, H2. Qed.

(** ** What is known of the stream [s] and its connection [c] *)

Notation ssight c s R b := (sight (only c conn_lives) (only s R) (OStream s) (Some b)).
Notation shut_sight s := (sight every (only s stream_shut) (OStream s) None).
Notation fallen_sight c s := (sight (only c fallen) every (OStream s) None).

Lemma forget_due Rc Rs o due w : sight Rc Rs o due w -> sight Rc Rs o None w.
Proof. intros [H1 H2 [H3 H4 H5 H6]]. constructor; [done|done|]. by constructor. Qed.

Lemma shut_closable s s' : closable (only s stream_shut) s'.
Proof. split; [intros st st' E H Es; unfold stream_shut; rewrite E; by apply H|intros st H Es; done]. Qed.

(** Whatever was known, it is closed afterwards. *)
Lemma stream_close_shuts Rc R s b r w :
  sight Rc (only s R) (OStream s) b w ->
  wlp (kcpmux_stream_close_internal s r) (fun _ w' => shut_sight s w') w.
Proof.
  intros Hw. apply forget_due in Hw. unfold kcpmux_stream_close_internal. apply wlp_bind, wlp_deref. intros st Hst.
  destruct (s_internal_closed st) eqn:Hc.
  - apply wlp_ret. destruct Hw as [_ _ H3]. constructor; [done| |exact H3]. intros s' st' Hst' ->. congruence.
  - apply wlp_bind. eapply wlp_mono; [by apply (store_stream s R stream_shut)|]. intros [] w1 Hw1.
    assert (Hw1' : shut_sight s w1) by (eapply sight_weaken; [exact Hw1|done|done]).
    revert Hw1'. change (shut_sight s w1 -> wlp (stream_close_marked s st r) (fun _ w' => shut_sight s w') w1).
    apply keeps_run, si_stream_close_marked; [done|exact (only_view s stream_shut drain_view stream_shut_view)|by right|].
    apply shut_closable.
Qed.

(** ** The handler of the stream itself *)

(** What an update can lead to. *)
Definition served c s st0 w : Prop :=
  ssight c s (stepped st0) false w \/ shut_sight s w \/ fallen_sight c s w.

Lemma ops_waitsnd_value s w (Q : Z -> world K -> Prop) :
  (forall st kcp, w_streams w !! s = Some st -> s_kcp st = Some kcp -> Q (kcp_waitsnd kcp) w) ->
  wlp (ops_waitsnd s) Q w.
Proof.
  intros HQ. unfold ops_waitsnd, get_kcp. apply wlp_bind, wlp_bind, wlp_deref. intros st Hst.
  apply wlp_deref. intros kcp Hk. apply wlp_ret. eauto.
Qed.

Lemma loose_awaiting st0 n s : loose_stream (only s (awaiting st0 n)) s.
Proof. intros st t H E. by apply H. Qed.

Lemma shut_served c s st0 r b R Rc w :
  sight Rc (only s R) (OStream s) b w ->
  wlp (kcpmux_stream_close_internal s r) (fun _ w' => served c s st0 w') w.
Proof. intros Hw. eapply wlp_mono; [by eapply stream_close_shuts|]. intros [] w1 H1. right. by left. Qed.

(** Sending the CLOSE, which ends the close if it was the last. *)
Lemma sent_close c s st0 n r (last : stream K -> bool) (reason : stream K -> Z) w :
  ssight c s (awaiting st0 n) false w ->
  (s_close_phase st0 = CLOSE_LOCAL_DRAIN /\ n = 0 \/
   s_close_phase st0 = CLOSE_WAIT_ACK /\ n = u32 (s_retry_count st0 + 1) /\
     s_retry_count st0 < sc_close_retries (s_config st0)) ->
  (forall st, awaiting st0 n st -> last st = (n =? sc_close_retries (s_config st0))) ->
  wlp (_ ← kcpmux_stream_send_close s r; st ← get_stream s;
       when (last st) (kcpmux_stream_close_internal s (reason st))) (fun _ w' => served c s st0 w') w.
Proof.
  intros Hw Hn Hlast. apply wlp_bind. eapply wlp_mono; [apply keeps_run; [|exact Hw]|].
  - apply si_stream_send_close; [exact (only_view c conn_lives retry_view lives_view)|by right|apply loose_awaiting].
  - intros a w1 Hw1. cbv beta in Hw1. apply wlp_bind, wlp_deref. intros st Hst.
    rewrite (Hlast st (sg_stream _ _ _ _ _ Hw1 s st Hst eq_refl)).
    destruct (Z.eqb_spec n (sc_close_retries (s_config st0))); cbn [when]; [by eapply shut_served|].
    apply wlp_ret. left. eapply sight_weaken; [exact Hw1|done|]. intros s' st' Hst' E. right. exists n. auto.
Qed.

(** The end of the local drain. *)
Lemma advance_serves c s st0 now w :
  ssight c s (same st0) false w -> s_internal_closed st0 = false -> s_state st0 = STREAM_CLOSING ->
  s_close_phase st0 = CLOSE_LOCAL_DRAIN ->
  (forall st kcp, w_streams w !! s = Some st -> s_kcp st = Some kcp -> kcp_waitsnd kcp = 0) ->
  wlp (kcpmux_stream_advance_local_close s now) (fun _ w' => served c s st0 w') w.
Proof.
  intros Hw Hopen Hst Hph Hempty. unfold kcpmux_stream_advance_local_close. apply wlp_bind, wlp_deref. intros st Hs.
  pose proof (sg_stream _ _ _ _ _ Hw s st Hs eq_refl) as [= E1 E2 E3 E4 E5 E6 E7 E8].
  rewrite E1, E3, Hopen, Hph. cbn [negb orb bool_decide]. rewrite bool_decide_eq_true_2 by done. cbn [negb orb].
  apply wlp_bind, ops_waitsnd_value. intros st1 kcp H1 Hk. rewrite (Hempty st1 kcp H1 Hk). cbn [Z.eqb negb].
  apply wlp_bind. eapply wlp_mono; [apply (store_stream s (same st0) (awaiting st0 0)); [exact Hw|]|].
  - intros st2 [= F1 F2 F3 F4 F5 F6 F7 F8]. unfold awaiting. cbn. by rewrite F2, F5, F6.
  - intros [] w1 Hw1. apply (sent_close c s st0 0 _ (fun st => sc_close_retries (s_config st) =? 0)
      (fun _ => KCPMUX_CLOSE_REASON_NORMAL)); [exact Hw1|by left|].
    intros st2 (_ & _ & -> & _). by rewrite Z.eqb_sym.
Qed.

Lemma body_serves c s st0 now w :
  ssight c s (same st0) false w -> s_internal_closed st0 = false -> closing st0 -> close_due st0 now ->
  wlp (stream_update_body s now) (fun _ w' => served c s st0 w') w.
Proof.
  intros Hw Hopen [Hst Hne] Hdue. unfold stream_update_body. apply wlp_bind, wlp_deref. intros st Hs.
  pose proof (sg_stream _ _ _ _ _ Hw s st Hs eq_refl) as [= E1 E2 E3 E4 E5 E6 E7 E8].
  cbv zeta. rewrite E2, E3, E4, E5, E7, E8, Hst. unfold close_due, drain_deadline, ack_deadline in Hdue.
  assert (Hlv := only_view c conn_lives retry_view lives_view).
  assert (Hsv := only_view s (same st0) drain_view (same_view st0)).
  destruct (s_close_phase st0) eqn:Hph; try done; cbn [when].
  - apply wlp_bind. eapply wlp_mono; [apply keeps_run; [by apply si_clear_pending|exact Hw]|]. intros [] w1 Hw1.
    apply wlp_bind. eapply wlp_mono; [apply keeps_run; [by apply si_ops_update|exact Hw1]|]. intros [] w2 Hw2.
    apply wlp_bind, ops_waitsnd_value. intros st2 kcp H2 Hk. destruct (Z.eqb_spec (kcp_waitsnd kcp) 0) as [Hz|].
    + apply advance_serves; try done. intros st3 kcp3 H3 Hk3. cbv beta in *. congruence.
    + apply Z.leb_le in Hdue. rewrite Hdue.
      apply wlp_bind. eapply wlp_mono; [apply (store_stream s (same st0) (fun _ => True)); [exact Hw2|done]|].
      intros [] w3 Hw3. apply wlp_bind. eapply wlp_mono; [apply keeps_run; [|exact Hw3]|].
      * by apply si_stream_send_close; [|right|].
      * intros a w4 Hw4. cbv beta in Hw4. by eapply shut_served.
  - apply Z.leb_le in Hdue. rewrite Hdue.
    destruct (Z.ltb_spec (s_retry_count st0) (sc_close_retries (s_config st0))); [|by eapply shut_served].
    apply wlp_bind. eapply wlp_mono; [apply (store_stream s (same st0) (awaiting st0 (u32 (s_retry_count st0 + 1)))); [exact Hw|]|].
    + intros st2 [= F1 F2 F3 F4 F5 F6 F7 F8]. unfold awaiting. cbn. rewrite F2, F3, F4, F5, F6. by rewrite Hph.
    + intros [] w1 Hw1. apply (sent_close c s st0 (u32 (s_retry_count st0 + 1)) _
        (fun st => s_retry_count st =? sc_close_retries (s_config st)) (fun st => s_close_reason st)); [exact Hw1|by right|].
      intros st2 (_ & _ & -> & _ & ->). done.
  - apply Z.leb_le in Hdue. rewrite Hdue. cbn [when]. by eapply shut_served.
  - by eapply shut_served.
Qed.

Lemma stream_update_serves c s st0 now w :
  ssight c s (same st0) false w -> s_conn st0 = c -> s_internal_closed st0 = false -> closing st0 -> close_due st0 now ->
  wlp (kcpmux_stream_update s now) (fun _ w' => served c s st0 w') w.
Proof.
  intros Hw Hconn Hopen Hcl Hdue. unfold kcpmux_stream_update. apply wlp_bind, wlp_deref. intros st Hs.
  pose proof (sg_stream _ _ _ _ _ Hw s st Hs eq_refl) as [= E1 E2 E3 E4 E5 E6 E7 E8]. rewrite E1, Hopen.
  apply wlp_bind, wlp_deref. intros k Hk. rewrite E6, Hconn in Hk.
  destruct (sg_conn _ _ _ _ _ Hw c k Hk eq_refl) as [Hc1 Hc2]. rewrite Hc1, Hc2.
  rewrite bool_decide_eq_true_2 by done. cbn [negb orb]. by apply body_serves.
Qed.

(** ** The handlers of other objects *)

Section others.
Context (c s : positive) (R : stream K -> Prop) (b : bool).
Context (HR : forall st st', drain_view st' = drain_view st -> R st -> R st').

Definition intact w : Prop := ssight c s R b w.
Definition intact_or_shut w : Prop := intact w \/ shut_sight s w.
Notation kept m := (keeps intact_or_shut m (fun _ => True)).

Lemma both {A} (m : W A) :
  keeps intact m (fun _ => True) -> keeps (shut_sight s) m (fun _ => True) -> kept m.
Proof. apply keeps_or. Qed.

Lemma lives_only : forall c' k k', retry_view k' = retry_view k -> only c conn_lives c' k -> only c conn_lives c' k'.
Proof. exact (only_view c conn_lives retry_view lives_view). Qed.
Lemma R_only : forall s' st st', drain_view st' = drain_view st -> only s R s' st -> only s R s' st'.
Proof. exact (only_view s R drain_view HR). Qed.
Lemma shut_only :
  forall s' st st', drain_view st' = drain_view st -> only s stream_shut s' st -> only s stream_shut s' st'.
Proof. exact (only_view s stream_shut drain_view stream_shut_view). Qed.

Lemma aside_conn due c' : aside (OStream s) due (OConn c').
Proof. by left. Qed.
Lemma aside_none n : aside (OStream s) None n.
Proof. by right. Qed.
Lemma aside_other due s' : s' <> s -> aside (OStream s) due (OStream s').
Proof. left. congruence. Qed.

Ltac leaf := first [exact lives_only | exact R_only | exact shut_only | apply aside_conn | apply aside_none | done | auto].

Lemma close_stream_intact s' r w : intact w -> wlp (kcpmux_stream_close_internal s' r) (fun _ w' => intact_or_shut w') w.
Proof.
  intros Hw. destruct (decide (s' = s)) as [->|Hne].
  - eapply wlp_mono; [by eapply stream_close_shuts|]. intros [] w1 H1. by right.
  - eapply wlp_mono; [apply keeps_run; [|exact Hw]|intros [] w1 H1; by left].
    apply si_stream_close_internal; [exact lives_only|exact R_only|by apply aside_other|].
    split; [intros st st' _ _ E; congruence|intros st _ E; congruence].
Qed.

Lemma shut_all_closable : all_closable (only s stream_shut) (OStream s) None.
Proof. intros s'. split; [apply aside_none|apply shut_closable]. Qed.

Lemma close_stream_kept s' r : kept (kcpmux_stream_close_internal s' r).
Proof.
  intros w [Hw|Hw].
  - eapply wlp_mono; [by apply close_stream_intact|]. by intros.
  - eapply wlp_mono; [apply keeps_run; [|exact Hw]|intros [] w1 H1; split; [done|by right]].
    apply si_stream_close_internal; [done|exact shut_only|apply aside_none|apply shut_closable].
Qed.

Lemma close_bucket_kept c' i r : kept (close_bucket c' i r).
Proof.
  unfold close_bucket. apply keeps_bind_any; [apply both; apply si_get_conn|intros k].
  apply keeps_bind_any; [by apply keeps_deref|intros l]. apply keeps_for_each. intros s' _. apply close_stream_kept.
Qed.

Lemma conn_close_kept c' r : c' <> c -> kept (kcpmux_conn_close_internal c' r).
Proof.
  intros Hne w Hw. eapply wlp_eq; [apply close_internal_eq|]. revert w Hw.
  change (kept (k ← get_conn c'; if c_internal_closed k then mret tt
    else mod_conn c' (fun k => k <| c_internal_closed := true |>);; close_marked c' k r)).
  assert (Hc : forall f k, only c conn_lives c' k -> only c conn_lives c' (f k)) by (intros f k _ E; congruence).
  apply keeps_bind_any; [apply both; apply si_get_conn|intros k]. case_match; [by apply keeps_ret|].
  apply keeps_bind_any; [apply both; apply si_mod_conn; leaf|intros _]. unfold close_marked.
  apply keeps_bind_any; [apply both; apply si_close_unlink; leaf|intros _].
  apply keeps_bind_any; [apply keeps_for_each; intros i _; apply close_bucket_kept|intros _].
  apply both; apply si_close_report; leaf.
Qed.

(** What the handler of a connection does besides closing it. *)
Ltac conn_step :=
  lazymatch goal with
  | |- keeps _ (mret _) _ => by apply keeps_ret
  | |- keeps _ (kcpmux_conn_close_internal _ _) _ => by apply conn_close_kept
  | |- keeps _ (_ ≫= _) _ => apply keeps_bind_any; [|intros ?]
  | |- keeps _ (when _ _) _ => apply keeps_when; intros ?
  | |- keeps _ (match _ with _ => _ end) _ => case_match
  | |- keeps _ (let _ := _ in _) _ => cbv zeta
  | |- keeps _ (get_conn _) _ => apply both; apply si_get_conn
  | |- keeps _ (mod_conn _ _) _ => apply both; apply si_mod_conn; leaf
  | |- keeps _ (mod_stats _) _ => apply both; apply si_mod_stats
  | |- keeps _ (kcpmux_conn_refresh_timer _ _) _ => apply both; apply si_conn_refresh; leaf
  | |- keeps _ (kcpmux_conn_set_state _ _) _ => apply both; apply si_set_state; leaf
  | |- keeps _ (kcpmux_conn_send_connect _) _ => apply both; apply si_send_connect; leaf
  | |- keeps _ (kcpmux_conn_send_close _ _) _ => apply both; apply si_send_close; leaf
  | |- keeps _ (kcpmux_conn_send_keepalive _) _ => apply both; apply si_send_keepalive; leaf
  end.

Lemma conn_update_kept c' now : c' <> c -> kept (kcpmux_conn_update c' now).
Proof.
  intros Hne. assert (Hc : forall f k, only c conn_lives c' k -> only c conn_lives c' (f k)) by (intros f k _ E; congruence).
  assert (Hl : loose (only c conn_lives) c') by (intros k t _ E; congruence).
  unfold kcpmux_conn_update, conn_update_body. repeat conn_step.
Qed.

(** *** The connection itself *)

Notation fallen_now := (fallen_sight c s).

Lemma fallen_only : forall c' k k', retry_view k' = retry_view k -> only c fallen c' k -> only c fallen c' k'.
Proof. exact (only_view c fallen retry_view fallen_view). Qed.

Lemma fallen_down : down (only c fallen) c.
Proof. intros k k' Hc Hs H E. destruct (H E) as [Hk|Hk]; [left; auto|right]. destruct Hs as [->|]; done. Qed.

Lemma every_closable : all_closable every (OStream s) None.
Proof. intros s'. split; [apply aside_none|]. by split. Qed.

(** Leaving CONNECTED. *)
Lemma leave_connected x w :
  intact w -> x <> CONN_CONNECTED -> wlp (kcpmux_conn_set_state c x) (fun _ w' => fallen_now w') w.
Proof.
  intros Hw Hx. unfold kcpmux_conn_set_state. apply wlp_bind, wlp_deref. intros k Hk.
  destruct (sg_conn _ _ _ _ _ Hw c k Hk eq_refl) as [Ho Hs]. rewrite Ho, Hs.
  rewrite bool_decide_eq_false_2 by congruence. cbn [orb]. cbv zeta.
  apply wlp_bind. eapply wlp_mono; [apply (store_conn c conn_lives fallen); [by apply forget_due in Hw|]|].
  - intros k' _. by right.
  - intros [] w1 Hw1. assert (Hw1' : fallen_now w1) by (eapply sight_weaken; [exact Hw1|done|done]). clear w Hw Hk Hw1.
    rewrite (bool_decide_eq_false_2 (x = CONN_CONNECTED)) by done. cbn [when]. apply wlp_bind, wlp_ret.
    apply (keeps_run fallen_now (report_state c CONN_CONNECTED x)); [apply si_report_state, aside_conn|exact Hw1'].
Qed.

Lemma conn_update_falls now w :
  intact w -> wlp (kcpmux_conn_update c now) (fun _ w' => intact w' \/ fallen_now w') w.
Proof.
  intros Hw. unfold kcpmux_conn_update. apply wlp_bind, wlp_deref. intros k Hk.
  pose proof (sg_conn _ _ _ _ _ Hw c k Hk eq_refl) as [Ho Hs]. rewrite Ho.
  assert (Hrefresh : forall t w', intact w' -> wlp (kcpmux_conn_refresh_timer c t) (fun _ w' => intact w' \/ fallen_now w') w').
  { intros t w' Hw'. eapply wlp_mono; [apply keeps_run; [apply si_conn_refresh, aside_conn|exact Hw']|]. intros [] w2 ?. by left. }
  destruct (kcpmux_conn_calculate_deadline k); [|by apply Hrefresh]. case_match; [by apply Hrefresh|].
  apply wlp_bind, (wlp_mono _ (fun again w' => (again = true /\ intact w') \/ (again = false /\ fallen_now w'))).
  2: { intros again w1 [[-> H1]|[-> H1]]; [by apply Hrefresh|]. apply wlp_ret. by right. }
  unfold conn_update_body. apply wlp_bind, wlp_deref. intros k1 Hk1. replace k1 with k by congruence. cbv zeta. rewrite Hs.
  case_match; [|case_match].
  - apply wlp_bind. eapply wlp_mono; [by apply leave_connected|]. intros [] w1 Hw1.
    apply wlp_bind. eapply wlp_mono; [apply keeps_run; [apply si_mod_stats|exact Hw1]|]. intros [] w2 Hw2.
    apply wlp_bind. eapply wlp_mono; [apply keeps_run; [apply si_conn_close_internal|exact Hw2]|].
    all: try first [exact fallen_only|exact fallen_down|exact every_closable|apply aside_conn|done].
    intros [] w3 Hw3. apply wlp_ret. by right.
  - apply wlp_bind. eapply wlp_mono; [by apply leave_connected|]. intros [] w1 Hw1.
    apply wlp_bind. eapply wlp_mono; [apply keeps_run; [apply si_send_close|exact Hw1]|].
    1: exact fallen_only. 1: apply aside_conn. 1: apply down_loose, fallen_down.
    intros r w2 Hw2. cbv beta in Hw2.
    apply wlp_bind. eapply wlp_mono; [apply keeps_run; [apply si_mod_stats|exact Hw2]|]. intros [] w3 Hw3.
    apply wlp_bind. eapply wlp_mono; [apply keeps_run; [apply si_conn_close_internal|exact Hw3]|].
    all: try first [exact fallen_only|exact fallen_down|exact every_closable|apply aside_conn|done].
    intros [] w4 Hw4. apply wlp_ret. by right.
  - apply wlp_bind. eapply (wlp_mono _ (fun _ w' => intact w')); [|intros [] w1 Hw1; apply wlp_ret; by left].
    case_match; [|by apply wlp_ret]. apply wlp_bind.
    eapply wlp_mono; [apply keeps_run; [apply si_send_keepalive|exact Hw]|].
    1: exact lives_only. 1: apply aside_conn. intros r w1 Hw1. by apply wlp_ret.
Qed.

(** *** Any handler but that of the stream *)

Lemma other_handler n now w :
  n <> OStream s -> intact w ->
  wlp (run_timeout (cb_of n) (Some n) now) (fun _ w' => intact w' \/ shut_sight s w' \/ fallen_now w') w.
Proof.
  intros Hn Hw. destruct n as [c'|s']; cbn [run_timeout cb_of].
  - destruct (decide (c' = c)) as [->|Hne].
    + eapply wlp_mono; [by apply conn_update_falls|]. intros [] w1 [?|?]; auto.
    + eapply wlp_mono; [apply keeps_run; [by apply (conn_update_kept c')|by left]|]. intros [] w1 [?|?]; auto.
  - eapply wlp_mono; [apply keeps_run; [|exact Hw]|intros [] w1 ?; by left].
    apply si_stream_update; [exact lives_only|exact R_only|apply aside_other; congruence|].
    intros st st' _ E. congruence.
Qed.

Lemma shut_handler n now w :
  shut_sight s w -> wlp (run_timeout (cb_of n) (Some n) now) (fun _ w' => shut_sight s w') w.
Proof.
  intros Hw. destruct n as [c'|s']; cbn [run_timeout cb_of].
  - revert Hw. apply keeps_run, si_conn_update; [done|exact shut_only|apply aside_none|done|apply shut_all_closable].
  - destruct (decide (s' = s)) as [->|Hne].
    + unfold kcpmux_stream_update. apply wlp_bind, wlp_deref. intros st Hst.
      rewrite (sg_stream _ _ _ _ _ Hw s st Hst eq_refl). by apply wlp_ret.
    + revert Hw. apply keeps_run, si_stream_update; [done|exact shut_only|apply aside_none|]. intros st st' _ E. congruence.
Qed.

Lemma fallen_handler n now w :
  fallen_now w -> wlp (run_timeout (cb_of n) (Some n) now) (fun _ w' => fallen_now w') w.
Proof.
  destruct n as [c'|s']; cbn [run_timeout cb_of]; apply keeps_run.
  - apply si_conn_update; [exact fallen_only|done|apply aside_none| |exact every_closable].
    destruct (decide (c' = c)) as [->|Hne]; [exact fallen_down|]. intros k k' _ _ _ E. congruence.
  - apply si_stream_update; [exact fallen_only|done|apply aside_none|done].
Qed.
End others.

(** ** Its turn in an update *)

Lemma park_served c s R b n :
  keeps (fun w => ssight c s R b w \/ shut_sight s w \/ fallen_sight c s w) (park n) (fun _ => True).
Proof. apply keeps_or; [apply si_park|apply keeps_or; apply si_park]. Qed.

(** A round of another object. *)
Lemma other_round c s R b n l now w :
  (forall st st', drain_view st' = drain_view st -> R st -> R st') ->
  ssight c s R b w -> tm_due (w_timers w) = n :: l -> n <> OStream s ->
  wlp (dispatch_one n now) (fun _ w' => ssight c s R b w' \/ shut_sight s w' \/ fallen_sight c s w') w.
Proof.
  intros HR Hw Hd Hn. unfold dispatch_one. apply wlp_bind. eapply wlp_mono; [by eapply pop_sight|].
  intros [] w1 [Hw1 _]. cbn [popped] in Hw1. rewrite bool_decide_eq_true_2, andb_true_r in Hw1 by done.
  eapply wlp_fire; [exact Hw1|apply park_served|by right; left|]. intros w2 Hw2. by apply other_handler.
Qed.

(** A round once the stream is closed, or its connection is not up. *)
Lemma over_round c s n l now (J : world K -> Prop) w :
  (J = shut_sight s \/ J = fallen_sight c s) -> J w -> tm_due (w_timers w) = n :: l ->
  wlp (dispatch_one n now) (fun _ w' => J w') w.
Proof.
  intros [-> | ->] Hw Hd; unfold dispatch_one; apply wlp_bind; (eapply wlp_mono; [by eapply pop_sight|]);
    intros [] w1 [Hw1 _]; (eapply wlp_fire; [exact Hw1|apply si_park|by right|]); intros w2 Hw2;
    [by apply shut_handler|by apply fallen_handler].
Qed.

Lemma own_round c s st0 l now w :
  ssight c s (same st0) true w -> tm_due (w_timers w) = OStream s :: l ->
  s_conn st0 = c -> s_internal_closed st0 = false -> closing st0 -> close_due st0 now ->
  wlp (dispatch_one (OStream s) now) (fun _ w' => served c s st0 w') w.
Proof.
  intros Hw Hd Hconn Hopen Hcl Hdue. unfold dispatch_one. apply wlp_bind.
  pose proof (du_registered _ _ _ (sg_timers _ _ _ _ _ Hw) eq_refl) as Hreg.
  eapply wlp_mono; [by eapply pop_sight|]. intros [] w1 [Hw1 Hr]. cbn [popped] in Hw1.
  rewrite bool_decide_eq_false_2 in Hw1 by (intros H; by apply H). rewrite <- Hr in Hreg.
  eapply (wlp_fire _ _ _ _ (served c s st0)); [exact Hw1|apply park_served|by left|].
  intros w2 Hw2. by apply stream_update_serves.
Qed.

(** The demand of a closing stream, and when it is met. *)
Lemma closing_demand w s st0 k now :
  w_streams w !! s = Some st0 -> w_conns w !! s_conn st0 = Some k -> conn_lives k ->
  s_internal_closed st0 = false -> closing st0 -> close_due st0 now ->
  exists D, (demand_of w (OStream s) = By D \/ demand_of w (OStream s) = At D \/ demand_of w (OStream s) = Soon) /\ D <= now.
Proof.
  intros Hs Hk [Hko Hks] Hopen [Hst Hne] Hdue. cbn. rewrite Hs. cbn. unfold stream_demand, up, conn_up. rewrite Hk. cbn.
  rewrite Hopen, Hko, Hks, Hst, bool_decide_eq_true_2 by done. cbn. unfold close_due in Hdue.
  destruct (s_close_phase st0); try done; eauto. exists now. split; [auto|lia].
Qed.

Lemma update_serves_stream s st0 k w :
  punctual w -> w_streams w !! s = Some st0 -> w_conns w !! s_conn st0 = Some k -> conn_lives k ->
  s_internal_closed st0 = false -> closing st0 ->
  let now := host_monotonic_time_ms (w_trace w) in
  (forall t, EvTime t ∈ w_trace w -> t <= now) -> close_due st0 now ->
  wlp kcpmux_engine_update (fun _ w' => served (s_conn st0) s st0 w') w.
Proof.
  intros Hp Hs Hk Hlive Hopen Hcl now Htold Hdue.
  destruct (closing_demand w s st0 k now Hs Hk Hlive Hopen Hcl Hdue) as (D & Hdem & HD).
  destruct (meets_deadline w (OStream s) D now Hp Hdem HD Htold) as (x & Hx & Hle).
  apply (update_serves (OStream s) now (ssight (s_conn st0) s (same st0) true) (served (s_conn st0) s st0)) with (x := x);
    try done.
  - intros w' Hw'. by apply (du_due _ _ _ (sg_timers _ _ _ _ _ Hw') true).
  - intros w' n l Hw' Hd Hn. eapply wlp_mono; [by eapply (other_round _ s _ true n l now w' (same_view st0))|].
    intros [] w2 [?|[?|?]]; [by left|right; right; by left|right; right; by right].
  - intros w' l Hw' Hd. by eapply own_round.
  - intros w' n l [Hw'|[Hw'|Hw']] Hd.
    + eapply (other_round _ s _ false n l now w' (stepped_view st0)); [done|done|].
      intros ->. assert (OStream s ∈ tm_due (w_timers w')) as Hin by (rewrite Hd; by left).
      by apply (du_due _ _ _ (sg_timers _ _ _ _ _ Hw') false eq_refl) in Hin.
    + eapply wlp_mono; [by eapply (over_round (s_conn st0) s n l now (shut_sight s)); [left| |]|]. intros [] ? ?. right. by left.
    + eapply wlp_mono; [by eapply (over_round (s_conn st0) s n l now (fallen_sight (s_conn st0) s)); [right| |]|].
      intros [] ? ?. right. by right.
  - intros w' Hc Hss Ht. constructor; [| |done].
    + intros c' k' Hk' ->. rewrite Hc, Hk in Hk'. by injection Hk' as <-.
    + intros s' st' Hst' ->. rewrite Hss, Hs in Hst'. by injection Hst' as <-.
  - apply keeps_or; [|apply keeps_or]; by apply si_leave.
Qed.
End spec.
