(* ===== verification/DrainSpec.v ===== *)
(** * Graceful closes end

    Every update that finds the timeout of a close phase expired uses up one of
    the steps the close has left, so it ends after a bounded number of
    them. *)

From S2P Require Import Prelude Keeps Types Timer TimerProofs TimerSpec Hashtable Vectored World Engine Conn Messages Stream Mux Sample Life LifeSim LifeEntry LifeSpec Deadlines Shape Steps Alarm AlarmStep AlarmFrame AlarmMend AlarmStream AlarmClose AlarmCalls AlarmInput AlarmLoops AlarmSpec Typing TypingRules TypingCalls TypingStream TypingMux TypingSpec Sight Firing Drain.
From stdpp Require Import gmap.
#[local] Open Scope Z_scope.

(** ** Any number of updates *)

Section sessions.
Context {KO : Kcp} {KT : KcpTyped KO} {HO : Host} {HT : HostTyped HO}.
Implicit Types (c s : positive) (w : world K) (k : conn) (st : stream K).

(** The clock has not run backwards, the connection of [s] is up and the
    timeout of its close has expired. *)
Definition overdue_close w s : Prop :=
  let now := host_monotonic_time_ms (w_trace w) in
  (forall t, EvTime t ∈ w_trace w -> t <= now) /\
  forall st, w_streams w !! s = Some st -> close_due st now /\ up w (s_conn st) = true.

(** [n] updates that find the timeout of the close expired, among calls that
    leave the close alone. *)
Inductive unattended s : nat -> world K -> world K -> Prop :=
| un_none w : unattended s 0 w w
| un_update n w w1 w2 :
    overdue_close w s -> exec CallEngineUpdate w = Some (tt, w1) -> unattended s n w1 w2 -> unattended s (S n) w w2
| un_call n x w w1 w2 :
    call_typed x -> exec x w = Some (tt, w1) ->
    (forall st, w_streams w !! s = Some st -> exists st1, w_streams w1 !! s = Some st1 /\ stream_key st1 = stream_key st) ->
    unattended s n w1 w2 -> unattended s n w w2.

(** The steps a close can still take. *)
Definition steps_left st : Z :=
  match s_close_phase st with
  | CLOSE_LOCAL_DRAIN => sc_close_retries (s_config st) + 1
  | CLOSE_WAIT_ACK => sc_close_retries (s_config st) - s_retry_count st
  | _ => 0
  end.

Lemma unattended_le s n w w' : unattended s n w w' -> ready w -> life_le (life_of w) (life_of w').
Proof.
  induction 1 as [|n w w1 w2 _ Hrun _ IH|n x w w1 w2 Hx Hrun _ _ IH]; intros Hw; [apply life_le_refl| |];
    (eapply life_le_trans; [by eapply ready_le|]); apply IH; [by eapply (ready_exec CallEngineUpdate)|by eapply ready_exec].
Qed.

(** A connection that was up and has fallen does not come up again. *)
Lemma fallen_stays c k w1 w' :
  life_le (life_of w1) (life_of w') -> (c < w_next_addr w1)%positive ->
  (forall k1, w_conns w1 !! c = Some k1 -> fallen k1 /\ conn_le (clife k) (clife k1)) -> c_state k = CONN_CONNECTED ->
  up w' c = false.
Proof.
  intros Hle Hlt Hf Hs. unfold up. destruct (w_conns w' !! c) as [k'|] eqn:Hk'; [|done]. cbn. unfold conn_up.
  destruct (conn_before w1 w' c k' Hle Hlt Hk') as (k1 & Hk1 & [_ _ Hc1 Hs1]).
  destruct (Hf k1 Hk1) as [Hfall [_ _ _ Hs2]]. cbn in Hc1, Hs1, Hs2. rewrite Hs in Hs2.
  destruct Hfall as [Hcl|Hne]; [by rewrite (Hc1 Hcl)|].
  rewrite (bool_decide_eq_false_2 (c_state k' = CONN_CONNECTED)); [by rewrite andb_false_r|].
  intros E. rewrite E in Hs1. destruct Hs2 as [|Hs2]; [congruence|]. destruct Hs1 as [Hs1|Hs1]; [congruence|]. lia.
Qed.

(** One update, seen from its result. *)
Lemma close_step s st0 w w1 st1 :
  ready w -> w_streams w !! s = Some st0 -> s_internal_closed st0 = false -> closing st0 -> overdue_close w s ->
  exec CallEngineUpdate w = Some (tt, w1) -> w_streams w1 !! s = Some st1 -> s_internal_closed st1 = false ->
  (closing st1 /\ s_conn st1 = s_conn st0 /\ steps_left st1 = steps_left st0 - 1 /\ 0 < steps_left st1) \/
  (forall w', life_le (life_of w1) (life_of w') -> up w' (s_conn st0) = false).
Proof.
  intros Hw Hs Hopen Hcl [Htold Hdue] Hrun Hs1 Ho1. pose proof (rd_punctual _ Hw) as Hp. destruct (Hdue st0 Hs) as [Hd Hup].
  unfold up in Hup. destruct (w_conns w !! s_conn st0) as [k|] eqn:Hk; [|done]. cbn in Hup. unfold conn_up in Hup.
  apply andb_prop in Hup as [Hko%negb_true_iff Hks%bool_decide_eq_true].
  pose proof (ready_le CallEngineUpdate w w1 Hw Hrun) as Hle.
  destruct (update_serves_stream s st0 k w Hp Hs Hk (conj Hko Hks) Hopen Hcl Htold Hd tt w1 Hrun) as [H|[H|H]].
  - left. destruct (sg_stream _ _ _ _ _ H s st1 Hs1 eq_refl) as [|(n & (E1 & E2 & E3 & E4 & E5) & Hn & Hne)]; [congruence|].
    pose proof (wd_streams _ (rd_typed _ Hw) s st0 Hs) as Hty. destruct (st_retries _ Hty) as [Hr0 Hr1].
    destruct (sct_close _ (st_config _ Hty)) as [Hc0 Hc1].
    unfold closing, steps_left. rewrite E1, E2, E3, E4, E5. split_and!; [done|done|done| |].
    + destruct Hn as [[-> ->]|(-> & -> & Hlt)]; [lia|]. rewrite wrap_small by (unfold in_u; lia). lia.
    + destruct Hn as [[_ ->]|(_ & -> & Hlt)]; [lia|]. rewrite wrap_small in Hne |- * by (unfold in_u; lia). lia.
  - exfalso. pose proof (sg_stream _ _ _ _ _ H s st1 Hs1 eq_refl) as Hsh. unfold stream_shut in Hsh. congruence.
  - right. intros w' Hle'. eapply (fallen_stays _ k w1); [done| | |done].
    + pose proof (conn_addr w _ k Hw Hk). pose proof (le_next _ _ Hle) as Hn. cbn in Hn. lia.
    + intros k1 Hk1. split; [by apply (sg_conn _ _ _ _ _ H _ k1 Hk1)|].
      destruct (conn_before w w1 _ k1 Hle (conn_addr w _ k Hw Hk) Hk1) as (k' & Hk' & Hc).
      rewrite Hk in Hk'. by injection Hk' as <-.
Qed.

Lemma unattended_steps s n w w' st :
  unattended s n w w' -> ready w -> w_streams w !! s = Some st -> s_internal_closed st = false -> closing st ->
  forall st', w_streams w' !! s = Some st' -> s_internal_closed st' = false -> up w' (s_conn st) = true ->
  steps_left st' = steps_left st - Z.of_nat n /\ (n <> 0%nat -> 0 < steps_left st').
Proof.
  intros Hu. revert st.
  induction Hu as [w|n w w1 w2 Hov Hrun Hu IH|n x w w1 w2 Hx Hrun Hsame Hu IH]; intros st Hw Hst Hopen Hcl st' Hst' Hopen' Hup.
  - replace st' with st by congruence. split; [lia|done].
  - pose proof (ready_exec CallEngineUpdate w w1 I Hw Hrun) as Hw1. pose proof (unattended_le s n w1 w2 Hu Hw1) as Hle.
    pose proof (le_next _ _ (ready_le CallEngineUpdate w w1 Hw Hrun)) as Hn. pose proof (stream_addr w s st Hw Hst). cbn in Hn.
    destruct (stream_before w1 w2 s st') as (st1 & Hs1 & Hsl); [done|lia|done|].
    assert (s_internal_closed st1 = false) as Ho1.
    { destruct (s_internal_closed st1) eqn:E; [|done]. apply (stream_le_closed _ _ Hsl) in E. cbn in E. congruence. }
    destruct (close_step s st w w1 st1 Hw Hst Hopen Hcl Hov Hrun Hs1 Ho1) as [(Hcl1 & Hc1 & Hsteps & Hpos)|Hdown].
    + rewrite <- Hc1 in Hup. destruct (IH st1 Hw1 Hs1 Ho1 Hcl1 st' Hst' Hopen' Hup) as [E Hp]. split; [lia|]. intros _.
      destruct n as [|n]; [lia|by apply Hp].
    + rewrite Hdown in Hup by done. done.
  - destruct (Hsame st Hst) as (st1 & Hs1 & [= E1 E2 E3 E4 E5 E6]). pose proof (ready_exec x w w1 Hx Hw Hrun) as Hw1.
    assert (closing st1) as Hcl1 by (unfold closing; by rewrite E2, E3).
    rewrite <- E6 in Hup. destruct (IH st1 Hw1 Hs1 ltac:(congruence) Hcl1 st' Hst' Hopen' Hup) as [E Hp].
    unfold steps_left in E at 2. rewrite E3, E4, E5 in E. by split.
Qed.

(** C14. Graceful closes end: take a stream that is closing, in any state a
    session reaches, and any further calls that leave its close alone, [n] of
    them updates that come after the timeout of its close phase expired while
    its connection was up.  If afterwards the stream is still open and its
    connection up, the close has used up [n] of the steps it had left and
    has some left; so after that many updates the stream is closed: one for a
    peer's close, as many as there are retries for a CLOSE that is not
    acknowledged, one more if data is still to be drained. *)
Theorem graceful_closes_end ec dc ds cb ud e tr l w s st n w' st' :
  config_arg cconfig_typed dc -> config_arg sconfig_typed ds ->
  kcpmux_engine_create ec dc ds cb ud [] = Some (Some e, tr) ->
  Forall call_typed l -> exec_all l (boot e tr) = Some (tt, w) ->
  w_streams w !! s = Some st -> s_internal_closed st = false -> s_state st = STREAM_CLOSING ->
  unattended s n w w' ->
  w_streams w' !! s = Some st' -> s_internal_closed st' = false -> up w' (s_conn st) = true ->
  steps_left st' = steps_left st - Z.of_nat n /\ (n <> 0%nat -> 0 < steps_left st').
Proof.
  intros Hdc Hds Hcreate Hl Hrun Hst Hopen Hs Hu Hst' Hopen' Hup.
  assert (Hw : ready w) by (constructor; [by eapply session_punctual|by eapply session_typed]).
  assert (Hcl : closing st).
  { split; [done|]. pose proof (lok_closing _ (pu_life _ (rd_punctual _ Hw)) s (slife st)) as Hph. cbn in Hph.
    rewrite lookup_fmap, Hst in Hph. by apply Hph. }
  by apply (unattended_steps s n w w' st Hu Hw Hst Hopen Hcl).
Qed.
End sessions.

(** ** A close nobody acknowledges *)

Definition hasty : stream_config :=
  kcpmux_stream_config_init <| sc_ctrl_timeout_ms := 1 |> <| sc_close_retries := 2 |>.
Definition unheard : list call :=
  [ CallConnect (Some server_addr) None None
      (Some (mk_conn_callbacks (Some 5%positive) (Some 6%positive) (Some 7%positive))) 41;
    CallEngineInput (Some (last_packet server_connected)) (Some server_addr);
    CallStreamCreate (Some 1%positive) (Some hasty) None 44;
    CallStreamSend (Some 2%positive) (Some [1; 2; 3]) true;
    CallStreamClose (Some 2%positive) ].

Definition unheard_start := Eval vm_compute in outcome (run (exec_all unheard) (Some sample_boot)).
Definition unheard_later := Eval vm_compute in outcome (run (exec CallEngineUpdate) (Some unheard_start)).
Definition unheard_end := Eval vm_compute in outcome (run (exec CallEngineUpdate) (Some unheard_later)).
Definition closing_stream := Eval vm_compute in outcome (w_streams unheard_start !! 2%positive).
Definition repeated_stream := Eval vm_compute in outcome (w_streams unheard_later !! 2%positive).

Definition close_due_now {KO : Kcp} {HO : Host} (w : world K) (s : positive) : bool :=
  clock_steady w &&
  match w_streams w !! s with
  | Some st =>
      bool_decide (s_close_phase st = CLOSE_WAIT_ACK) &&
      (ack_deadline st <=? host_monotonic_time_ms (w_trace w)) && up w (s_conn st)
  | None => true
  end.

Lemma close_due_now_ok {KO : Kcp} {HO : Host} (w : world K) s : close_due_now w s = true -> overdue_close w s.
Proof.
  intros [H1 H2]%andb_prop. split; [intros t; by apply clock_steady_ok|]. intros st Hst. rewrite Hst in H2.
  apply andb_prop in H2 as [[H2%bool_decide_eq_true H3%Z.leb_le]%andb_prop H4]. split; [|done]. unfold close_due. by rewrite H2.
Qed.

Lemma unheard_calls_typed : Forall call_typed unheard.
Proof.
  refine (list.Forall_cons_2 _ _ _ _ (list.Forall_cons_2 _ _ _ _ (list.Forall_cons_2 _ _ _ _ (list.Forall_cons_2 _ _ _ _
    (list.Forall_cons_2 _ _ _ _ (list.Forall_nil_2 _)))))).
  - by split.
  - apply bytes_check. vm_compute. reflexivity.
  - constructor; range.
  - apply bytes_check. vm_compute. reflexivity.
  - exact I.
Qed.

Lemma unheard_repeats : unattended 2 1 unheard_start unheard_later.
Proof. eapply un_update; [apply close_due_now_ok| |apply un_none]; vm_compute; reflexivity. Qed.

Lemma graceful_closes_end_witness :
  steps_left closing_stream = 2 /\ steps_left repeated_stream = 1 /\
  unattended 2 2 unheard_start unheard_end /\ w_streams unheard_end !! 2%positive = None.
Proof.
  assert (exec_all unheard (boot sample_create.1 sample_create.2) = Some (tt, unheard_start)) as Hrun
    by (vm_compute; reflexivity).
  assert (w_streams unheard_start !! 2%positive = Some closing_stream) as Hs by (vm_compute; reflexivity).
  assert (w_streams unheard_later !! 2%positive = Some repeated_stream) as Hs' by (vm_compute; reflexivity).
  assert (up unheard_later (s_conn closing_stream) = true) as Hup by (vm_compute; reflexivity).
  split; [vm_compute; reflexivity|]. split; [|split].
  - refine (eq_trans (proj1 (graceful_closes_end None None None (Some all_callbacks) 0 _ _ _ _ _ _ _ _ _ I I
      sample_create_eq unheard_calls_typed Hrun Hs eq_refl eq_refl unheard_repeats Hs' eq_refl Hup)) _).
    vm_compute. reflexivity.
  - apply (un_update _ 1 _ unheard_later); [apply close_due_now_ok| |apply (un_update _ 0 _ unheard_end);
      [apply close_due_now_ok| |apply un_none]]; vm_compute; reflexivity.
  - vm_compute. reflexivity.
Defined.
